(* ===== verification/_CoqProject ===== *)
-Q . S2P
Prelude.v
OrdMap.v
Converters.v
Keys.v
Buffers.v
Transfer.v
ChainState.v
Summary.v
Validation.v
KeyRing.v
Context.v
DevvUri.v
RingQueue.v
SpscQueue.v
Transactions.v
Blocks.v
Message.v
Blockchain.v
Oracles.v
Pbuf.v
Pool.v
JsonTree.v
JsonPrint.v
Files.v
KeyFiles.v
Repeater.v
Auditors.v
AuditRuns.v
Generators.v
Announcer.v
Handlers.v
Node.v
Network.v
Sockets.v
Service.v
Lifecycle.v
Threads.v
Interleave.v
InterleaveSeq.v
InterleaveSafe.v
CommandLine.v
Programs.v
Mains.v
DbRepeater.v
DbMain.v
Round.v
Samples.v
PropsCodec.v
PropsLedger.v
PropsConsensus.v
PropsThreads.v
PropsService.v
PropsOracles.v
PropsJson.v
PropsRepeater.v
PropsNetwork.v
PropsSockets.v
PropsKeys.v
PropsAuditors.v
PropsGenerators.v
PropsAnnouncer.v
PropsPrograms.v
PropsMains.v
PropsDatabase.v
PropsVerifier.v
