(* ===== verification/Prelude.v ===== *)
(** * Devv-Core (devcash): a verification library

    ** The program

    Devv-Core is a sharded ledger.  Each shard is run by three validating
    nodes.  A node keeps a chain of final blocks ([consensus/blockchain.h]), the
    balances after each block ([consensus/chainstate.h]) and a pool of
    transactions that no block holds yet ([UnrecordedTransactionPool.h]).
    Announcers send it transactions; the [ValidatorController] puts them in the
    pool and, when it is the node's turn, has the pool propose a block.  The
    [ConsensusController] handles proposals of peers (check, sign, answer),
    the answers to the node's own proposals (collect signatures, finalise on a
    quorum, announce) and final blocks; the [InternetworkController] handles
    blocks of remote shards and requests for parts of the chain.  Outside the
    nodes, announcers take protobuf envelopes of transactions and of proposals,
    which oracles turn into transactions; generators write files of test
    transactions, which announcers replay; repeaters copy final blocks to files
    and answer for them; a verifier and a scanner audit such files.  Everything
    that travels is a byte vector, written and read by the classes of
    [primitives/] and wrapped in a [DevcashMessage].

    ** Files

    - [Prelude]: machine integers, outcomes, the state-and-exception monad,
      its predicate transformer [wp], tactics, hint databases, list lemmas.
    - [OrdMap]: [std::map] as a key-ordered list of bindings.
    - [Converters]: [common/binary_converters.h].
    - [Keys]: [primitives/Address.h], [Signature.h], the constants.
    - [Buffers]: [primitives/buffers.h], the class [Codec] and the predicate
      [parses] that states what a reader promises to the readers built on it,
      and the two loops readers use.
    - [Transfer]: [primitives/SmartCoin.h], [Transfer.h].
    - [ChainState]: [consensus/chainstate.*].
    - [Summary], [Validation]: [primitives/Summary.*], [Validation.h].
    - [KeyRing]: [common/ossladapter.h], [consensus/KeyRing.*].
    - [Context]: [common/devcash_context.h].
    - [DevvUri]: [common/devv_uri.h] and [trim] of [common/util.h].
    - [RingQueue]: [concurrency/DevcashRingQueue.h], one access at a time for one
      producer and one consumer: it is a first-in first-out queue, it comes to a
      halt only when its threads sleep, and it can lose a wakeup.
    - [SpscQueue]: [concurrency/DevcashSPSCQueue.h], with the theorem that it is
      a first-in first-out queue, over
      an interface of boost's lock-free queue.
    - [Transactions]: [primitives/Transaction.h], [Tier1Transaction.*],
      [Tier2Transaction.*], [factories.h],
      [concurrency/TransactionCreationManager.h].
    - [Blocks]: [primitives/ProposedBlock.*], [FinalBlock.*], [block_tools.*].
    - [Message]: [types/DevcashMessage.h].
    - [Blockchain]: [consensus/blockchain.h].
    - [Oracles]: [oracles/*.h]; the abstract class is a record of methods and
      its contract the class [OracleLaws], which each of the eight oracles
      discharges.
    - [Pbuf]: [pbuf/devv_pbuf.h], over records for the messages of
      [pbuf/devv.proto].
    - [Pool]: [consensus/UnrecordedTransactionPool.h].
    - [JsonTree]: a JSON value, its printer and its reader, the reference for
      the printers of the sources.
    - [JsonPrint]: [primitives/json_interface.h] and the [getJSON] methods,
      which print by appending strings.
    - [Files]: [io/file_ops.*], over an interface of the file system.
    - [KeyFiles]: key generation and key files of [common/ossladapter.h], over an
      interface of OpenSSL's key generator; the module's self test.
    - [Repeater]: [repeater.cpp]: the callbacks that write blocks to files and
      answer requests for them.
    - [Auditors]: [verifier.cpp], [scanner.cpp].
    - [AuditRuns]: what a run of the verifier over a directory has read and
      booked when it leaves no warning.
    - [Generators]: [circuit.cpp], [laminar.cpp], [turbulent.cpp], in a
      state monad of their own ([runs], [emits] are its program logic).
    - [Announcer]: [announcer.cpp], [pb_announcer.cpp] and the [ThreadPool]
      of [common/util.h].
    - [Handlers]: [consensus/tier2_message_handlers.*] and the callbacks of
      [concurrency/ConsensusController.cpp], [InternetworkController.cpp] and
      [ValidatorController.cpp].
    - [Node]: the step relation of a node over the three callbacks, and its
      invariant.
    - [Network]: [modules/BlockchainModule.*], [io/message_service.*] and
      [concurrency/ThreadGroup.*]: the step relation of any number of processes
      with their queues, and the messages in flight between them.
    - [Sockets]: the same [io/message_service.cpp] part by part, with the helpers
      of [io/zhelpers.hpp], over an interface of ZeroMQ; every turn of a client
      here is one that [Network] allows ([turn_is_received]).
    - [Service]: starting and stopping of [io/message_service.*] and
      [concurrency/ThreadGroup.*], with [concurrency/DevcashMPMCQueue.h]: an
      owner, threads and producers that interleave one access at a time.
    - [Lifecycle]: [start] and [shutdown] of [modules/BlockchainModule.cpp] as
      the owner of those components.
    - [Threads]: programs of locks and accesses to shared members, their
      interleavings, and a rely-guarantee logic for them; the classes [Discipline]
      and [ThreadSpec] are what a program promises to the others.
    - [Interleave]: the callbacks of the controllers again, as such programs,
      one access of a shared member or of a mutex at a time.
    - [InterleaveSeq]: run alone, each program is the definition of [Handlers],
      [Pool] or [Blockchain] it corresponds to.
    - [InterleaveSafe]: the discipline and the invariant of a node, and that
      every program keeps them.
    - [CommandLine]: [common/argument_parser.h] and the option parsers of the
      programs, over an interface of boost::program_options.
    - [Programs]: the main functions of [devcash.cpp], [devv-sign.cpp] and the
      generators.
    - [Mains]: the main functions of [announcer.cpp], [pb_announcer.cpp] and
      [repeater.cpp], driven by what arrives at their sockets, and of
      [verifier.cpp].
    - [DbRepeater]: the callback of [db_repeater.cpp], over an interface of the
      database.
    - [DbMain]: its main function, over an interface of libpqxx's connections.
    - [Round]: two nodes exchanging a proposal and its validation.
    - [Samples]: a toy cryptography and a small shard for the witnesses.
    - [PropsCodec], [PropsLedger], [PropsConsensus], [PropsThreads],
      [PropsService], [PropsKeys], [PropsOracles], [PropsJson],
      [PropsRepeater], [PropsNetwork], [PropsSockets], [PropsAuditors],
      [PropsGenerators], [PropsAnnouncer], [PropsPrograms], [PropsMains],
      [PropsDatabase], [PropsVerifier]: the main theorems.

    A method [C::m] is the definition [m] of the module [COps] (or a prefixed
    name, [pb_], [fb_], [t1_], [t2_], [bc_]); data members keep their names.

    ** Conventions

    Integers are [Z] at the width of the source: unsigned arithmetic goes
    through [u8], [u32] and [u64]; conversions to a signed type through [i32]
    and [i64]; signed overflow is undefined ([add_i64]).  A call has one of four
    outcomes ([res]): a value, an exception of the type the code throws,
    undefined behaviour ([UB]: an access or an iterator out of range, a mutex
    locked twice by one thread), or a loop cut off by its fuel ([NoFuel]).
    Objects taken by reference are the state of the monad [M], which keeps the
    state reached at a throw, since the code's handlers go on from it.
    A [std::map] whose order reaches the wire is an [omap]; a mutex is a flag
    of the pool; the clock is an argument; messages sent are appended to a
    list of the node.

    OpenSSL is not part of the sources.  [KeyRing.Crypto] is the interface of
    what the adapter calls (hash, sign, verify, load a key) and
    [KeyRing.CryptoLaws] its documented behaviour: the length of a hash, the
    bounds of a signature's length, that a signature verifies under its key.
    [Samples] has an instance that satisfies the laws.  How many bytes OpenSSL
    needs to armour a key is not among the laws: the theorems of [PropsKeys] say
    what becomes of a key file for each size.

    The callbacks of the three controllers are modelled twice.  In [Handlers]
    each is one computation, and [Node] and [Network] take them one at a time
    ([node_step]), the pool's own mutexes modelled inside; this is the model for
    what a callback computes.  In [Interleave] each is a program, and the three
    run at the same time; the lemma [serial_schedule] ties the two together.  Threads of
    the same controller hold its mutex and do not overlap, so that one thread per
    controller is enough.  Every interleaving is sequentially consistent: what a
    data race would do to the memory is not modelled, only which races there are;
    where a theorem is about a location that can race, it says what is claimed.
    Accesses that are made under the lock of their member are grouped, since no
    other thread can come between.
    A callback that throws a [std::exception] ends its worker
    ([ThreadGroup::loop]) and the others go on from the state it left; undefined
    behaviour, a failed assertion and a thrown string end the run.

    ** Theorems

    - [PropsConsensus]: in every state a node can reach, the chain's counters
      agree with its blocks, balances are well formed, pooled transactions are
      sound, the pending proposal extends the tip and the mutexes are free
      (rule induction over [node_step]); a finalised block extends the
      chain and carries the validations of a quorum; a proposal goes round
      (propose, validate, finalise) between two nodes; what the pool accepts
      and proposes; the block check as an equivalence; every height has one
      proposer; and the error paths that break the pool or lose transactions.
    - [PropsThreads]: what is left of that when the controllers interleave: the
      parts of the invariant that hold between any two accesses, a chain that
      only grows, the complete list of races, no deadlock but the relocking of
      one mutex; and two schedules that break what the sequential model has: a
      proposal over the wrong block, and a final block without a quorum.
    - [PropsService]: what a server sends and in which order, that stopping
      ends, what [shutdown] leaves running, and how a server goes silent.
    - [PropsKeys]: a generated key file is loaded back when a key has the size the
      program expects, and when it is not.
    - [PropsLedger]: [ChainState] refines the abstract function [balance]; a
      summary accumulates what transfers say; an accepted transaction is
      signed by its only sender, its amounts cancel, and its effect on balances,
      supplies and the summary is the sum of its transfers, and this for every
      transaction the program can make, flagged or not ([t2_made]); where one is
      refused and what that leaves; signing yields
      valid transactions; and what validation does not enforce (overdrafts, the
      type of a coin, atomicity).
    - [PropsCodec]: every encoding is read back by its reader, alone and at any
      place of a larger buffer, up to whole blocks and dumps of the chain; and
      the inputs where a reader's arithmetic wraps.
    - [PropsOracles]: transactions come out of proposals only through an oracle
      that accepts them (proved against [OracleLaws]); what the payment and data
      oracles decide and charge; transactions from protobuf messages; and the
      paths on which signing, pricing or serialising fails.
    - [PropsJson]: the text a printer appends is the text of a JSON tree, so
      that a JSON reader reads it back; and the objects whose text is not JSON.
    - [PropsRepeater]: a block written by a repeater is what it answers with; and a
      block half written is too.
    - [PropsNetwork]: every node of a network stays in its invariant, whatever
      the order in which messages arrive, get lost or are repeated.
    - [PropsSockets]: a client that gets the parts a server has written handles
      exactly the messages the server was given; and a message of one part, which
      ends the client.
    - [PropsAuditors]: what a block replayed without a warning means, and what the
      scanner counts.
    - [PropsVerifier]: what a whole run of the verifier without a warning has
      established about the files it read.
    - [PropsGenerators]: a generated file is a sequence of valid transactions
      that gives back what it hands out, and the counts for which it is not.
    - [PropsAnnouncer]: [ParallelFor] runs the serial loop; what an announcer
      sends of a file, and the files it mishandles.
    - [PropsPrograms]: where options come from and that they have the types they
      are looked up with; circuit from its command line to its file; the
      signatures of devv-sign; the options and endpoints that end a program.
    - [PropsDatabase]: the database repeater never changes a database, and what
      its statements would book.
    - [PropsMains]: what a Tier-1 announcer sends of its directory of blocks, from
      the command line on; what a repeater answers between two blocks.

    ** Fuel and bounds

    The counted loops of the readers ([count_fold]) and the loops that run to
    an offset ([offset_fold]) take the buffer's length as fuel: each iteration
    of a counted loop consumes a byte or throws ([readers_terminate]), so it
    suffices; an offset loop can fail to move, and then it really does not end
    ([create_loop_diverges] proves it for every fuel).  The loop over the keys of
    a file has the file's length as fuel and moves by a positive amount.
    The loops of the auditors over the items of a file have fuel of their own:
    on a file of unknown data they really do not end ([verifier_hangs]).  The
    generators' [while_loop] needs [generate_count] turns at most, since every
    pass generates a transaction ([circuit_generates]).
    [dump_t], whose loop reads the size of the chain again in every turn, has
    fuel for the length of the chain where it must return ([serial_schedule]);
    the theorems on interleavings hold for every fuel.
    [digits] prints a 64-bit number, which has at most twenty digits.
    [Node.room] bounds the chain at 2^31 blocks, where its [int] counters would
    overflow.

    ** Not modelled

    A repeater's callback and its requests run in two threads.  [Repeater] has the
    points at which the callback has written a part of a block
    ([on_message_part]); a request is answered from the files as they are at one
    point, so that a callback that goes on between two reads of one request is not
    modelled.  [RingQueue] has one producer and one consumer.

    Logging, with [FormatException], tracing, timing and sleeping: they decide
    nothing.  [DevcashWorker], which is declared and never defined, and the signal
    handler, whose installation is commented out.  The helpers of
    [io/zhelpers.hpp] that no program calls; [SetData], [GetData],
    [CheckSizeEqual], [char2int] and [IsSwitchChar], which nothing calls.
    Third-party code: OpenSSL, boost, libpqxx, ZeroMQ and the file system
    (interfaces with their documented laws, above), moodycamel's concurrent queues ([concurrency/concurrentqueue.h] and
    [blockingconcurrentqueue.h]; [Service.Queue] has the order they promise),
    minitrace, and protobuf's parser ([ProtoParser]).  The memory model of C++: see
    above for what is assumed of interleavings. *)

From Stdlib Require Import ZArith Lia.
From stdpp Require Import base list numbers.

#[global] Open Scope Z_scope.

Declare Scope devv_scope.
Delimit Scope devv_scope with devv.

(** ** Machine integers

    A C++ integer of width [w] is a [Z] in its range; every place where the
    source wraps is written with one of these functions. *)
Definition u8_mod : Z := 2 ^ 8.
Definition u32_mod : Z := 2 ^ 32.
Definition u64_mod : Z := 2 ^ 64.

Definition u8 (z : Z) : Z := z mod u8_mod.
Definition u32 (z : Z) : Z := z mod u32_mod.
Definition u64 (z : Z) : Z := z mod u64_mod.
Definition i32 (z : Z) : Z := (z + 2 ^ 31) mod u32_mod - 2 ^ 31.
Definition i64 (z : Z) : Z := (z + 2 ^ 63) mod u64_mod - 2 ^ 63.

Definition in_u8 (z : Z) : Prop := 0 <= z < 2 ^ 8.
Definition in_u32 (z : Z) : Prop := 0 <= z < 2 ^ 32.
Definition in_u64 (z : Z) : Prop := 0 <= z < 2 ^ 64.
Definition in_i32 (z : Z) : Prop := - 2 ^ 31 <= z < 2 ^ 31.
Definition in_i64 (z : Z) : Prop := - 2 ^ 63 <= z < 2 ^ 63.

Definition in_i32b (z : Z) : bool := (- 2 ^ 31 <=? z) && (z <? 2 ^ 31).
Definition in_i64b (z : Z) : bool := (- 2 ^ 63 <=? z) && (z <? 2 ^ 63).

(** Bytes and byte vectors. *)
Abbreviation byte := Z (only parsing).
Abbreviation bytes := (list Z) (only parsing).

Definition bytes_ok (v : bytes) : Prop := Forall in_u8 v.

(** [v.size()] as a [size_t]. *)
Definition zlen {A} (v : list A) : Z := Z.of_nat (length v).

(** ** Outcomes

    A call returns a value, throws an exception, or runs into undefined
    behaviour (an out-of-range iterator, a signed overflow, relocking a
    non-recursive mutex).  [catch (const std::exception&)] sees [Err] and never
    [UB].  [NoFuel] is the outcome of a loop cut off by its fuel: a loop that
    gives it for every fuel does not terminate. *)
Inductive exn :=
| StdException              (* std::exception itself, as after [throw e] in a handler *)
| OutOfRange                (* std::out_of_range, from vector::at and map::at *)
| LengthError               (* std::length_error *)
| RangeError                (* std::range_error *)
| InvalidArgument           (* std::invalid_argument, from std::stoul *)
| BadCast                   (* std::bad_cast, as boost's bad_any_cast *)
| LogicError                (* std::logic_error, as pqxx's usage_error *)
| RuntimeError              (* std::runtime_error *)
| DevcashMessageError       (* derives from std::runtime_error *)
| DeserializationError      (* derives from DevcashMessageError *)
| ThrownString              (* CASH_THROW of a std::string *)
| AssertionFailure.         (* a failed assert() *)

Inductive res (A : Type) :=
| Ok (a : A)
| Err (e : exn)
| UB
| NoFuel.
Arguments Ok {A} a.
Arguments Err {A} e.
Arguments UB {A}.
Arguments NoFuel {A}.

#[global] Instance exn_eq_dec : EqDecision exn.
Proof. solve_decision. Defined.

#[global] Instance res_ret : MRet res := fun A a => Ok a.
#[global] Instance res_bind : MBind res := fun A B f m =>
  match m with Ok a => f a | Err e => Err e | UB => UB | NoFuel => NoFuel end.

(** Computations that read and write a state [S] (an [InputBuffer&], the
    objects a method takes by reference).  The state at the point of a throw
    is kept, because handlers observe it. *)
Definition M (S A : Type) : Type := S -> res A * S.

#[global] Instance M_ret {S} : MRet (M S) := fun A a s => (Ok a, s).
#[global] Instance M_bind {S} : MBind (M S) := fun A B f m s =>
  match m s with
  | (Ok a, s') => f a s'
  | (Err e, s') => (Err e, s')
  | (UB, s') => (UB, s')
  | (NoFuel, s') => (NoFuel, s')
  end.

Definition throw {S A} (e : exn) : M S A := fun s => (Err e, s).
Definition undef {S A} : M S A := fun s => (UB, s).
Definition get {S} : M S S := fun s => (Ok s, s).
Definition put {S} (s' : S) : M S unit := fun _ => (Ok tt, s').
Definition lift {S A} (r : res A) : M S A := fun s => (r, s).

(** What [catch (const std::exception&)] catches: a thrown string is not a
    [std::exception], and a failed assertion aborts the process. *)
Definition is_std_exception (e : exn) : bool :=
  match e with ThrownString | AssertionFailure => false | _ => true end.

(** [try { m } catch (const std::exception& e) { h e }] *)
Definition try_catch {S A} (m : M S A) (h : exn -> M S A) : M S A := fun s =>
  match m s with
  | (Err e, s') => if is_std_exception e then h e s' else (Err e, s')
  | r => r
  end.

Definition res_catch {A} (m : res A) (h : exn -> res A) : res A :=
  match m with
  | Err e => if is_std_exception e then h e else Err e
  | r => r
  end.

(** Signed 64-bit addition: overflow is undefined. *)
Definition add_i64 (a b : Z) : res Z :=
  if in_i64b (a + b) then Ok (a + b) else UB.

(** [v.at(i)] *)
Definition vec_at {A} (v : list A) (i : Z) : res A :=
  if (0 <=? i) && (i <? zlen v)
  then match v !! Z.to_nat i with Some x => Ok x | None => UB end
  else Err OutOfRange.

(** [v[i]] *)
Definition vec_idx {A} (v : list A) (i : Z) : res A :=
  if (0 <=? i) && (i <? zlen v)
  then match v !! Z.to_nat i with Some x => Ok x | None => UB end
  else UB.

(** The vector built from the iterators [v.begin()+a] and [v.begin()+b]. *)
Definition vec_range {A} (v : list A) (a b : Z) : res (list A) :=
  if (0 <=? a) && (a <=? b) && (b <=? zlen v)
  then Ok (take (Z.to_nat (b - a)) (drop (Z.to_nat a) v))
  else UB.

(** [for (x : l) acc = f(acc, x)] with a body that may throw. *)
Fixpoint fold_res {A B} (f : B -> A -> res B) (acc : B) (l : list A) : res B :=
  match l with
  | [] => Ok acc
  | x :: l' => acc' ← f acc x; fold_res f acc' l'
  end.

(** The list of results of a call on every element. *)
Fixpoint map_res {A B} (f : A -> res B) (l : list A) : res (list B) :=
  match l with
  | [] => Ok []
  | x :: l' => y ← f x; ys ← map_res f l'; Ok (y :: ys)
  end.

(** ** Tactics and hint databases *)
Create HintDb devv discriminated.
Create Rewrite HintDb devv_rw.

Ltac unfold_ranges :=
  unfold in_u8, in_u32, in_u64, in_i32, in_i64, u8_mod, u32_mod, u64_mod in *.

Ltac bool_to_prop :=
  repeat match goal with
  | H : (_ && _)%bool = true |- _ => apply andb_prop in H; destruct H
  | H : (_ <=? _) = true |- _ => apply Z.leb_le in H
  | H : (_ <? _) = true |- _ => apply Z.ltb_lt in H
  | H : (_ =? _) = true |- _ => apply Z.eqb_eq in H
  | H : (_ <=? _) = false |- _ => apply Z.leb_gt in H
  | H : (_ <? _) = false |- _ => apply Z.ltb_ge in H
  | H : (_ =? _) = false |- _ => apply Z.eqb_neq in H
  | H : bool_decide _ = true |- _ => apply bool_decide_eq_true_1 in H
  | H : bool_decide _ = false |- _ => apply bool_decide_eq_false_1 in H
  end.

(** ** Monad lemmas *)
Section monad_lemmas.
Context {S A B : Type}.
Implicit Types (m : M S A) (f : A -> M S B) (s : S).

Lemma bind_ok m f s a s' : m s = (Ok a, s') -> (m ≫= f) s = f a s'.
Proof. intros H. unfold mbind, M_bind. by rewrite H. Qed.

Lemma bind_err m f s e s' : m s = (Err e, s') -> (m ≫= f) s = (Err e, s').
Proof. intros H. unfold mbind, M_bind. by rewrite H. Qed.

Lemma bind_ub m f s s' : m s = (UB, s') -> (m ≫= f) s = (UB, s').
Proof. intros H. unfold mbind, M_bind. by rewrite H. Qed.

Lemma bind_inv_ok m f s b s' :
  (m ≫= f) s = (Ok b, s') ->
  exists a s1, m s = (Ok a, s1) /\ f a s1 = (Ok b, s').
Proof.
  unfold mbind, M_bind. destruct (m s) as [[a|e| |] s1]; intros H;
    [by exists a, s1 | discriminate..].
Qed.

Lemma res_bind_inv_ok (r : res A) (f : A -> res B) b :
  (r ≫= f) = Ok b -> exists a, r = Ok a /\ f a = Ok b.
Proof. destruct r; simpl; intros H; [eauto | discriminate..]. Qed.
End monad_lemmas.

(** Rewriting rules that run a sequence: the primitive computations reduce,
    the others are run with a lemma of the form [m s = (Ok a, s')]. *)
Section monad_rules.
Context {S A B : Type}.

Lemma bind_get (f : S -> M S B) s : (get ≫= f) s = f s s.
Proof. done. Qed.

Lemma bind_ret (a : A) (f : A -> M S B) s : (mret a ≫= f) s = f a s.
Proof. done. Qed.

Lemma bind_put s' (f : unit -> M S B) s : (put s' ≫= f) s = f tt s'.
Proof. done. Qed.

Lemma bind_lift (r : res A) (f : A -> M S B) s :
  (lift r ≫= f) s =
    match r with
    | Ok a => f a s | Err e => (Err e, s) | UB => (UB, s) | NoFuel => (NoFuel, s)
    end.
Proof. by destruct r. Qed.

Lemma bind_throw e (f : A -> M S B) s : (throw e ≫= f) s = (Err e, s).
Proof. done. Qed.

Lemma bind_assoc {C} (m : M S A) (f : A -> M S B) (g : B -> M S C) s :
  ((m ≫= f) ≫= g) s = (m ≫= (fun a => f a ≫= g)) s.
Proof. unfold mbind, M_bind. by destruct (m s) as [[]]. Qed.
End monad_rules.

Create Rewrite HintDb mrun.
#[export] Hint Rewrite @bind_get @bind_ret @bind_put @bind_lift @bind_throw : mrun.

(** Decompose a successful run. *)
Ltac minv :=
  repeat match goal with
  | H : mbind _ _ _ = (Ok _, _) |- _ =>
      apply bind_inv_ok in H;
      let a := fresh "a" in let s := fresh "s" in
      let H1 := fresh "H" in destruct H as (a & s & H1 & H)
  | H : @mbind res _ _ _ _ _ = Ok _ |- _ =>
      apply res_bind_inv_ok in H;
      let a := fresh "a" in let H1 := fresh "H" in destruct H as (a & H1 & H)
  | H : mret _ _ = (Ok _, _) |- _ => unfold mret, M_ret in H; simplify_eq
  | H : lift _ _ = (Ok _, _) |- _ => unfold lift in H; simplify_eq
  end.

(** ** Exceptional weakest preconditions

    [wp m s Q E]: run from [s], [m] leaves a state in [E] when it throws a
    [std::exception] and a result and a state in [Q] when it returns.  A run that
    is undefined, diverges, or throws what ends the process owes nothing: no
    later computation sees its state. *)
Definition wp {S A} (m : M S A) (s : S) (Q : A -> S -> Prop) (E : S -> Prop) : Prop :=
  match m s with
  | (Ok a, s') => Q a s'
  | (Err e, s') => is_std_exception e = true -> E s'
  | _ => True
  end.

(** A state from which [m] can only reach states in [I], by returning or by
    throwing. *)
Notation "m '@' s '⊨' I" := (wp m s (fun _ => I) I)
  (at level 70, s at level 9, I at level 69, no associativity) : devv_scope.

Section wp_rules.
Context {S A B : Type}.
Implicit Types (m : M S A) (s : S) (E : S -> Prop).

Lemma wp_ret (a : A) s Q E : Q a s -> wp (mret a) s Q E.
Proof. done. Qed.

Lemma wp_get s (Q : S -> S -> Prop) E : Q s s -> wp get s Q E.
Proof. done. Qed.

Lemma wp_put s' s (Q : unit -> S -> Prop) E : Q tt s' -> wp (put s') s Q E.
Proof. done. Qed.

Lemma wp_throw e s (Q : A -> S -> Prop) E : E s -> wp (throw e) s Q E.
Proof. intros X. unfold wp, throw. by intros _. Qed.

Lemma wp_lift (r : res A) s Q E :
  (forall a, r = Ok a -> Q a s) -> E s -> wp (lift r) s Q E.
Proof. intros Hq He. unfold wp, lift. destruct r; auto. Qed.

Lemma wp_bind m (f : A -> M S B) s Q E :
  wp m s (fun a s' => wp (f a) s' Q E) E -> wp (m ≫= f) s Q E.
Proof. unfold wp, mbind, M_bind. by destruct (m s) as [[a|e| |] s']. Qed.

Lemma wp_mono m s (Q Q' : A -> S -> Prop) E (E' : S -> Prop) :
  wp m s Q E -> (forall a s', m s = (Ok a, s') -> Q a s' -> Q' a s') ->
  (forall s', E s' -> E' s') -> wp m s Q' E'.
Proof. unfold wp. destruct (m s) as [[a|e| |] s'] eqn:R; auto. Qed.

Lemma wp_try m h s Q E :
  wp m s Q (fun s' => forall e, wp (h e) s' Q E) -> wp (try_catch m h) s Q E.
Proof.
  unfold wp, try_catch. destruct (m s) as [[a|e| |] s'] eqn:R; auto. intros W.
  destruct (is_std_exception e) eqn:X; [by apply W | by rewrite X].
Qed.
End wp_rules.

(** ** Integer lemmas *)
Lemma u64_id z : in_u64 z -> u64 z = z.
Proof. intros. unfold u64. rewrite Z.mod_small; auto. Qed.

Lemma u32_id z : in_u32 z -> u32 z = z.
Proof. intros. unfold u32. rewrite Z.mod_small; auto. Qed.

Lemma u64_range z : in_u64 (u64 z).
Proof. unfold u64, in_u64, u64_mod. apply Z.mod_pos_bound. lia. Qed.

Lemma u32_range z : in_u32 (u32 z).
Proof. unfold u32, in_u32, u32_mod. apply Z.mod_pos_bound. lia. Qed.

Lemma u8_range z : in_u8 (u8 z).
Proof. unfold u8, in_u8, u8_mod. apply Z.mod_pos_bound. lia. Qed.

Lemma i64_range z : in_i64 (i64 z).
Proof.
  unfold i64, in_i64, u64_mod.
  pose proof (Z.mod_pos_bound (z + 2 ^ 63) (2 ^ 64)). lia.
Qed.

Lemma i64_id z : in_i64 z -> i64 z = z.
Proof. unfold i64, in_i64, u64_mod. intros. rewrite Z.mod_small; lia. Qed.

(** Conversions between the signed and unsigned 64-bit types keep the value
    modulo 2^64, so a round trip is the identity. *)
Lemma i64_u64 z : i64 (u64 z) = i64 z.
Proof.
  unfold i64, u64, u64_mod. f_equal.
  rewrite <- (Z.add_mod_idemp_l z); [done | lia].
Qed.

Lemma u64_i64 z : u64 (i64 z) = u64 z.
Proof.
  unfold i64, u64, u64_mod.
  rewrite Zminus_mod_idemp_l. f_equal. lia.
Qed.

Lemma i64_u64_id z : in_i64 z -> i64 (u64 z) = z.
Proof. intros. rewrite i64_u64. by apply i64_id. Qed.

Lemma u64_i64_id z : in_u64 z -> u64 (i64 z) = z.
Proof. intros. rewrite u64_i64. by apply u64_id. Qed.

Lemma u64_add_l a b : u64 (u64 a + b) = u64 (a + b).
Proof. unfold u64. apply Z.add_mod_idemp_l. by unfold u64_mod. Qed.

Lemma u64_add_r a b : u64 (a + u64 b) = u64 (a + b).
Proof. unfold u64. apply Z.add_mod_idemp_r. by unfold u64_mod. Qed.

Lemma add_i64_ok a b : in_i64 (a + b) -> add_i64 a b = Ok (a + b).
Proof.
  unfold in_i64, add_i64, in_i64b. intros [H1 H2].
  apply Z.leb_le in H1. apply Z.ltb_lt in H2. by rewrite H1, H2.
Qed.

Lemma add_i64_inv a b c : add_i64 a b = Ok c -> c = a + b /\ in_i64 c.
Proof.
  unfold add_i64, in_i64b, in_i64. case_match; intros; simplify_eq.
  bool_to_prop. lia.
Qed.

(** ** Vector lemmas *)
Lemma zlen_app {A} (l k : list A) : zlen (l ++ k) = zlen l + zlen k.
Proof. unfold zlen. rewrite length_app. lia. Qed.

Lemma zlen_nil {A} : zlen (@nil A) = 0.
Proof. done. Qed.

Lemma zlen_cons {A} (x : A) l : zlen (x :: l) = 1 + zlen l.
Proof. unfold zlen. rewrite length_cons. lia. Qed.

Lemma zlen_nonneg {A} (l : list A) : 0 <= zlen l.
Proof. unfold zlen. lia. Qed.

Lemma zlen_to_nat {A} (l : list A) : Z.to_nat (zlen l) = length l.
Proof. unfold zlen. lia. Qed.

Lemma vec_at_mid {A} (pre rest : list A) x i :
  i = zlen pre -> vec_at (pre ++ x :: rest) i = Ok x.
Proof.
  intros ->. unfold vec_at. rewrite zlen_app, zlen_cons.
  pose proof (zlen_nonneg pre). pose proof (zlen_nonneg rest).
  rewrite (proj2 (Z.leb_le 0 _)), (proj2 (Z.ltb_lt _ _)) by lia. simpl.
  rewrite zlen_to_nat, lookup_app_r by lia. by rewrite Nat.sub_diag.
Qed.

Lemma vec_at_0 {A} (x : A) l : vec_at (x :: l) 0 = Ok x.
Proof. by apply (vec_at_mid []). Qed.

Lemma vec_at_inv {A} (v : list A) i x :
  vec_at v i = Ok x -> 0 <= i < zlen v /\ v !! Z.to_nat i = Some x.
Proof.
  unfold vec_at. destruct (_ && _)%bool eqn:E; [|done].
  destruct (v !! Z.to_nat i) eqn:L; [|done]. intros. simplify_eq.
  bool_to_prop. done.
Qed.

Lemma vec_range_mid {A} (pre mid rest : list A) a b :
  a = zlen pre -> b = zlen pre + zlen mid ->
  vec_range (pre ++ mid ++ rest) a b = Ok mid.
Proof.
  intros -> ->. unfold vec_range. rewrite !zlen_app.
  pose proof (zlen_nonneg pre). pose proof (zlen_nonneg mid).
  pose proof (zlen_nonneg rest).
  rewrite (proj2 (Z.leb_le 0 _)), (proj2 (Z.leb_le (zlen pre) _)),
    (proj2 (Z.leb_le (_ + _) _)) by lia. simpl.
  replace (zlen pre + zlen mid - zlen pre) with (zlen mid) by lia.
  rewrite !zlen_to_nat, drop_app_length, take_app_length. done.
Qed.

Lemma vec_range_prefix {A} (mid rest : list A) b :
  b = zlen mid -> vec_range (mid ++ rest) 0 b = Ok mid.
Proof. intros ->. by apply (vec_range_mid []). Qed.

Lemma vec_range_inv {A} (v : list A) a b w :
  vec_range v a b = Ok w ->
  0 <= a <= b /\ b <= zlen v /\ zlen w = b - a /\
  w = take (Z.to_nat (b - a)) (drop (Z.to_nat a) v).
Proof.
  unfold vec_range. destruct (_ && _)%bool eqn:E; [|done].
  intros. simplify_eq. bool_to_prop. repeat split; try lia.
  unfold zlen in *. rewrite length_take, length_drop. lia.
Qed.

#[export] Hint Rewrite @zlen_app @zlen_cons @zlen_nil : devv_rw.
#[export] Hint Resolve u64_range u32_range u8_range i64_range zlen_nonneg : devv.

#[global] Arguments zlen {A} v : simpl never.
#[global] Arguments u8 z : simpl never.
#[global] Arguments u32 z : simpl never.
#[global] Arguments u64 z : simpl never.
#[global] Arguments i32 z : simpl never.
#[global] Arguments i64 z : simpl never.
#[global] Arguments vec_at {A} v i : simpl never.
#[global] Arguments vec_range {A} v a b : simpl never.
#[global] Arguments Z.eqb x y : simpl never.
#[global] Arguments Z.leb x y : simpl never.
#[global] Arguments Z.ltb x y : simpl never.
