(* ===== verification/OrdMap.v ===== *)
(** * std::map

    The program's maps (summaries, chain states, validations, the key ring, the
    transaction pool) are [std::map]s whose iteration order reaches the wire:
    serialisation walks the map.  A map is therefore modelled as the list of
    its bindings in increasing key order, with the strict order of the key type
    as a type class.  The operations are those of [std::map] the sources use:
    [find]/[count]/[at], [insert] (which keeps an existing binding), assignment
    through [at] or [operator[]], and [erase]. *)

From Stdlib Require Import ZArith Lia.
From stdpp Require Import base list numbers.
From S2P Require Import Prelude.

(** ** Key orders *)
Class KeyOrd (K : Type) := key_ltb : K -> K -> bool.

Class KeyOrdLaws (K : Type) `{KeyOrd K} : Prop := {
  ltb_irrefl : forall k, key_ltb k k = false;
  ltb_trans : forall a b c, key_ltb a b = true -> key_ltb b c = true -> key_ltb a c = true;
  ltb_total : forall a b, key_ltb a b = false -> key_ltb b a = false -> a = b
}.

#[global] Instance Z_key : KeyOrd Z := Z.ltb.

#[global] Instance Z_key_laws : KeyOrdLaws Z.
Proof.
  constructor; unfold key_ltb, Z_key; intros; bool_to_prop.
  - apply Z.ltb_irrefl.
  - apply Z.ltb_lt. lia.
  - lia.
Qed.

(** [operator<] of [std::vector<byte>]: lexicographic comparison. *)
Fixpoint lex_ltb (a b : bytes) : bool :=
  match a, b with
  | _, [] => false
  | [], _ :: _ => true
  | x :: a', y :: b' => if x <? y then true else if y <? x then false else lex_ltb a' b'
  end.

#[global] Instance bytes_key : KeyOrd bytes := lex_ltb.

Lemma lex_ltb_irrefl a : lex_ltb a a = false.
Proof. induction a as [|x a IH]; simpl; [done|]. by rewrite Z.ltb_irrefl. Qed.

Lemma lex_ltb_trans a b c :
  lex_ltb a b = true -> lex_ltb b c = true -> lex_ltb a c = true.
Proof.
  revert b c; induction a as [|x a IH]; intros [|y b] [|z c]; simpl; try done.
  destruct (x <? y) eqn:E1, (y <? x) eqn:E2, (y <? z) eqn:E3, (z <? y) eqn:E4;
    intros H1 H2; try done; bool_to_prop;
    destruct (x <? z) eqn:E5; bool_to_prop; try lia; try done;
    destruct (z <? x) eqn:E6; bool_to_prop; try lia; eauto.
Qed.

Lemma lex_ltb_total a b : lex_ltb a b = false -> lex_ltb b a = false -> a = b.
Proof.
  revert b; induction a as [|x a IH]; intros [|y b]; simpl; try done.
  destruct (x <? y) eqn:E1, (y <? x) eqn:E2; try done.
  bool_to_prop. intros. f_equal; [lia | auto].
Qed.

#[global] Instance bytes_key_laws : KeyOrdLaws bytes.
Proof.
  constructor; [exact lex_ltb_irrefl | exact lex_ltb_trans | exact lex_ltb_total].
Qed.

(** ** Operations *)
Definition omap (K V : Type) : Type := list (K * V).

Section ops.
Context {K V : Type} `{KeyOrd K}.
Implicit Types (m : omap K V) (k : K) (v : V).

(** Keys are compared as [std::map] does: equal when neither is smaller. *)
Definition key_eqb (a b : K) : bool := negb (key_ltb a b) && negb (key_ltb b a).

(** [m.find(k)] *)
Fixpoint om_find (k : K) (m : omap K V) : option V :=
  match m with
  | [] => None
  | (k', v') :: m' => if key_eqb k k' then Some v' else om_find k m'
  end.

(** Bind [k] to [v], replacing an existing binding: [m.at(k) = v] for a key
    that is present, [m[k] = v] in general. *)
Fixpoint om_put (k : K) (v : V) (m : omap K V) : omap K V :=
  match m with
  | [] => [(k, v)]
  | (k', v') :: m' =>
      if key_ltb k k' then (k, v) :: m
      else if key_ltb k' k then (k', v') :: om_put k v m'
      else (k', v) :: m'
  end.

(** [m.insert({k, v})]: an existing binding stays; the flag says whether the
    pair went in. *)
Definition om_insert (k : K) (v : V) (m : omap K V) : omap K V * bool :=
  match om_find k m with
  | Some _ => (m, false)
  | None => (om_put k v m, true)
  end.

(** [m.erase(k)], with the number of removed bindings. *)
Fixpoint om_del (k : K) (m : omap K V) : omap K V :=
  match m with
  | [] => []
  | (k', v') :: m' => if key_eqb k k' then m' else (k', v') :: om_del k m'
  end.

Definition om_erase (k : K) (m : omap K V) : omap K V * Z :=
  match om_find k m with
  | Some _ => (om_del k m, 1)
  | None => (m, 0)
  end.

(** [m.at(k)] *)
Definition om_at (k : K) (m : omap K V) : res V :=
  match om_find k m with Some v => Ok v | None => Err OutOfRange end.

(** [m.insert(first, last)] over another map's bindings. *)
Definition om_insert_all (xs m : omap K V) : omap K V :=
  foldl (fun acc kv => fst (om_insert kv.1 kv.2 acc)) m xs.

(** All keys of [m] are above [k]. *)
Definition above (k : K) (m : omap K V) : Prop :=
  Forall (fun kv => key_ltb k kv.1 = true) m.
Definition below (m : omap K V) (k : K) : Prop :=
  Forall (fun kv => key_ltb kv.1 k = true) m.

(** The representation invariant: keys strictly increase. *)
Fixpoint om_sorted (m : omap K V) : Prop :=
  match m with
  | [] => True
  | (k, _) :: m' => above k m' /\ om_sorted m'
  end.

(** Sum of a measure of the bindings. *)
Definition om_sum (f : K -> V -> Z) (m : omap K V) : Z :=
  foldr (fun kv acc => f kv.1 kv.2 + acc) 0 m.
End ops.

Section laws.
Context {K V : Type} `{KeyOrdLaws K}.
Implicit Types (m : omap K V) (k : K) (v : V).

Lemma key_eqb_spec (a b : K) : key_eqb a b = true <-> a = b.
Proof.
  unfold key_eqb. split.
  - intros E. apply andb_prop in E as [E1 E2].
    apply ltb_total; by apply negb_true_iff.
  - intros ->. by rewrite ltb_irrefl.
Qed.

Lemma key_eqb_refl (a : K) : key_eqb a a = true.
Proof. by apply key_eqb_spec. Qed.

Lemma key_eqb_ne (a b : K) : a <> b -> key_eqb a b = false.
Proof. intros N. destruct (key_eqb a b) eqn:E; [|done]. by apply key_eqb_spec in E. Qed.

Lemma key_ltb_ne (a b : K) : key_ltb a b = true -> a <> b.
Proof. intros E ->. by rewrite ltb_irrefl in E. Qed.

Lemma ltb_asym (a b : K) : key_ltb a b = true -> key_ltb b a = false.
Proof.
  intros E. destruct (key_ltb b a) eqn:F; [|done].
  pose proof (ltb_trans _ _ _ E F) as G. by rewrite ltb_irrefl in G.
Qed.

Lemma om_find_above k m : above k m -> om_find k m = None.
Proof.
  induction m as [|[k' v'] m IH]; simpl; [done|]. intros A; inversion A; subst.
  rewrite key_eqb_ne by (apply key_ltb_ne; done). by apply IH.
Qed.

Lemma om_find_below k m : below m k -> om_find k m = None.
Proof.
  induction m as [|[k' v'] m IH]; simpl; [done|]. intros A; inversion A; subst.
  rewrite key_eqb_ne by (apply not_eq_sym, key_ltb_ne; done). by apply IH.
Qed.

Lemma above_trans k k' m : key_ltb k k' = true -> above k' m -> above k m.
Proof. intros L A. eapply Forall_impl; [|exact A]. simpl. eauto using ltb_trans. Qed.

Lemma om_find_put_eq k v m : om_find k (om_put k v m) = Some v.
Proof.
  induction m as [|[k' v'] m IH]; simpl; [by rewrite key_eqb_refl|].
  destruct (key_ltb k k') eqn:E1; simpl; [by rewrite key_eqb_refl|].
  destruct (key_ltb k' k) eqn:E2; simpl; unfold key_eqb; rewrite E1, E2; done.
Qed.

Lemma om_find_put_ne k k' v m : k <> k' -> om_find k (om_put k' v m) = om_find k m.
Proof.
  intros N. induction m as [|[k1 v1] m IH]; simpl; [by rewrite key_eqb_ne|].
  destruct (key_ltb k' k1) eqn:E1; simpl; [by rewrite key_eqb_ne|].
  destruct (key_ltb k1 k') eqn:E2; simpl; [by rewrite IH|].
  pose proof (ltb_total _ _ E1 E2) as ->. by rewrite !key_eqb_ne.
Qed.

Lemma above_put k k' v m : above k m -> key_ltb k k' = true -> above k (om_put k' v m).
Proof.
  intros A L. induction A as [|[k1 v1] m L1 A IH]; simpl; [by repeat constructor|].
  destruct (key_ltb k' k1) eqn:E1; [by repeat constructor|].
  destruct (key_ltb k1 k') eqn:E2; by constructor.
Qed.

Lemma om_put_sorted k v m : om_sorted m -> om_sorted (om_put k v m).
Proof.
  induction m as [|[k' v'] m IH]; simpl; [by repeat constructor|]. intros [A S].
  destruct (key_ltb k k') eqn:E1; simpl.
  { split; [|done]. constructor; [done|]. by eapply above_trans. }
  destruct (key_ltb k' k) eqn:E2; simpl; split; auto using above_put.
Qed.

Lemma om_insert_sorted k v m : om_sorted m -> om_sorted (fst (om_insert k v m)).
Proof. intros S. unfold om_insert. case_match; simpl; auto using om_put_sorted. Qed.

Lemma om_insert_all_sorted xs m : om_sorted m -> om_sorted (om_insert_all xs m).
Proof.
  revert m; induction xs as [|x xs IH]; intros m S; simpl; [done|].
  apply IH, om_insert_sorted, S.
Qed.

Lemma above_del k k' m : above k m -> above k (om_del k' m).
Proof.
  induction 1 as [|[k1 v1] m L A IH]; simpl; [constructor|].
  case_match; [done | by constructor].
Qed.

Lemma om_del_sorted k m : om_sorted m -> om_sorted (om_del k m).
Proof.
  induction m as [|[k' v'] m IH]; simpl; [done|]. intros [A S].
  case_match; simpl; auto using above_del.
Qed.

Lemma om_find_del_eq k m : om_sorted m -> om_find k (om_del k m) = None.
Proof.
  induction m as [|[k' v'] m IH]; simpl; [done|]. intros [A S].
  destruct (key_eqb k k') eqn:E; simpl; [|rewrite E; auto].
  apply key_eqb_spec in E as ->. by apply om_find_above.
Qed.

Lemma om_find_del_ne k k' m : k <> k' -> om_find k (om_del k' m) = om_find k m.
Proof.
  intros N. induction m as [|[k1 v1] m IH]; simpl; [done|].
  destruct (key_eqb k' k1) eqn:E; simpl; [|by rewrite IH].
  apply key_eqb_spec in E as ->. by rewrite key_eqb_ne.
Qed.

(** Two maps with the same lookups are the same list of bindings. *)
Lemma om_ext m1 m2 :
  om_sorted m1 -> om_sorted m2 -> (forall k, om_find k m1 = om_find k m2) -> m1 = m2.
Proof.
  revert m2; induction m1 as [|[k1 v1] m1 IH]; intros [|[k2 v2] m2]; simpl; try done.
  - intros _ _ F. specialize (F k2). by rewrite key_eqb_refl in F.
  - intros _ _ F. specialize (F k1). by rewrite key_eqb_refl in F.
  - intros [A1 S1] [A2 S2] F.
    assert (k1 = k2) as ->.
    { apply ltb_total; apply not_true_is_false; intros L.
      - pose proof (F k1) as F1. rewrite key_eqb_refl, key_eqb_ne in F1
          by (by apply key_ltb_ne).
        rewrite (om_find_above k1 m2) in F1 by (by eapply above_trans). done.
      - pose proof (F k2) as F2. rewrite key_eqb_refl, key_eqb_ne in F2
          by (by apply key_ltb_ne).
        rewrite (om_find_above k2 m1) in F2 by (by eapply above_trans). done. }
    pose proof (F k2) as F2. rewrite !key_eqb_refl in F2. simplify_eq. f_equal.
    apply IH; [done..|]. intros k. specialize (F k).
    destruct (key_eqb k k2) eqn:E; [|done]. apply key_eqb_spec in E as ->.
    by rewrite !om_find_above.
Qed.

(** Inserting a key above all others appends the binding. *)
Lemma om_put_last k v m : below m k -> om_put k v m = m ++ [(k, v)].
Proof.
  induction 1 as [|[k' v'] m L B IH]; simpl; [done|]. simpl in L.
  by rewrite (ltb_asym _ _ L), L, IH.
Qed.

Lemma om_insert_last k v m : below m k -> om_insert k v m = (m ++ [(k, v)], true).
Proof. intros B. unfold om_insert. by rewrite om_find_below, om_put_last. Qed.

Lemma om_sorted_app m1 m2 :
  om_sorted (m1 ++ m2) <->
  om_sorted m1 /\ om_sorted m2 /\ Forall (fun kv => below m1 kv.1) m2.
Proof.
  induction m1 as [|[k v] m1 IH]; simpl.
  - split; [intros S; repeat split; auto | by intros (_ & S & _)].
    apply Forall_true. intros; constructor.
  - unfold above. rewrite IH, Forall_app. split.
    + intros [[A1 A2] (S1 & S2 & B)]. repeat split; auto.
      apply Forall_forall. intros kv Hin. constructor.
      * by eapply (proj1 (Forall_forall _ _) A2).
      * by eapply (proj1 (Forall_forall _ _) B).
    + intros ([A S1] & S2 & B). repeat split; auto.
      * eapply Forall_impl; [|exact B]. intros ? Hb. by inversion Hb.
      * eapply Forall_impl; [|exact B]. intros ? Hb. by inversion Hb.
Qed.

(** Rebuilding a map by inserting its bindings in order gives it back. *)
Lemma om_insert_all_app m1 m2 : om_sorted (m1 ++ m2) -> om_insert_all m2 m1 = m1 ++ m2.
Proof.
  revert m1; induction m2 as [|[k v] m2 IH]; intros m1 S; simpl; [by rewrite app_nil_r|].
  pose proof (proj1 (om_sorted_app _ _) S) as (_ & _ & B). inversion B; subst.
  rewrite om_insert_last by done. simpl.
  replace (m1 ++ (k, v) :: m2) with ((m1 ++ [(k, v)]) ++ m2) in *
    by (by rewrite <- app_assoc). by apply IH.
Qed.

Lemma om_insert_all_nil m : om_sorted m -> om_insert_all m [] = m.
Proof. intros S. by apply (om_insert_all_app []). Qed.

Lemma om_insert_None k v m : om_find k m = None -> om_insert k v m = (om_put k v m, true).
Proof. intros E. unfold om_insert. by rewrite E. Qed.

Lemma om_insert_Some k v v' m : om_find k m = Some v' -> om_insert k v m = (m, false).
Proof. intros E. unfold om_insert. by rewrite E. Qed.

Lemma om_find_insert_eq k v m :
  om_find k (fst (om_insert k v m)) = Some (default v (om_find k m)).
Proof. unfold om_insert. case_match; simpl; [done|]. by rewrite om_find_put_eq. Qed.

Lemma om_find_insert_ne k k' v m :
  k <> k' -> om_find k (fst (om_insert k' v m)) = om_find k m.
Proof. intros N. unfold om_insert. case_match; simpl; [done|]. by apply om_find_put_ne. Qed.

(** The measure of a map after an assignment. *)
Lemma om_sum_put (f : K -> V -> Z) k v m :
  om_sorted m ->
  om_sum f (om_put k v m) =
    om_sum f m + f k v - match om_find k m with Some v' => f k v' | None => 0 end.
Proof.
  induction m as [|[k' v'] m IH]; simpl; [lia|]. intros [A S].
  destruct (key_ltb k k') eqn:E1; simpl.
  { rewrite key_eqb_ne by (by apply key_ltb_ne).
    rewrite om_find_above by (by eapply above_trans). lia. }
  destruct (key_ltb k' k) eqn:E2; simpl.
  { rewrite key_eqb_ne by (by apply not_eq_sym, key_ltb_ne). rewrite IH by done. lia. }
  pose proof (ltb_total _ _ E1 E2) as ->. rewrite key_eqb_refl. lia.
Qed.

Lemma om_put_length k v m :
  om_sorted m ->
  zlen (om_put k v m) = zlen m + match om_find k m with Some _ => 0 | None => 1 end.
Proof.
  induction m as [|[k' v'] m IH]; simpl; [done|]. intros [A S].
  destruct (key_ltb k k') eqn:E1.
  { rewrite key_eqb_ne by (by apply key_ltb_ne).
    rewrite om_find_above by (by eapply above_trans). autorewrite with devv_rw. lia. }
  destruct (key_ltb k' k) eqn:E2.
  { rewrite key_eqb_ne by (by apply not_eq_sym, key_ltb_ne).
    autorewrite with devv_rw. rewrite IH by done. lia. }
  pose proof (ltb_total _ _ E1 E2) as ->. rewrite key_eqb_refl.
  autorewrite with devv_rw. lia.
Qed.

Lemma om_find_In k v m : om_find k m = Some v -> (k, v) ∈ m.
Proof.
  induction m as [|[k' v'] m IH]; simpl; [done|].
  destruct (key_eqb k k') eqn:E; intros; simplify_eq.
  - apply key_eqb_spec in E as ->. left.
  - right. auto.
Qed.

Lemma om_find_Forall (P : K * V -> Prop) k v m :
  Forall P m -> om_find k m = Some v -> P (k, v).
Proof.
  induction 1 as [|[k' v'] m HP A IH]; simpl; [done|].
  destruct (key_eqb k k') eqn:E; intros; simplify_eq; [|auto].
  by apply key_eqb_spec in E as ->.
Qed.

Lemma om_put_Forall (P : K * V -> Prop) k v m :
  Forall P m -> P (k, v) -> Forall P (om_put k v m).
Proof.
  intros A HP. induction A as [|[k' v'] m HP' A IH]; simpl; [by repeat constructor|].
  destruct (key_ltb k k') eqn:E1; [by repeat constructor|].
  destruct (key_ltb k' k) eqn:E2; [by constructor|].
  pose proof (ltb_total _ _ E1 E2) as ->. by constructor.
Qed.

Lemma om_del_Forall (P : K * V -> Prop) k m : Forall P m -> Forall P (om_del k m).
Proof.
  induction 1 as [|[k' v'] m HP A IH]; simpl; [constructor|]. case_match; [done | by constructor].
Qed.

(** Merging: bindings that are there stay, the others come from [xs]. *)
Lemma om_find_insert_all k xs m :
  om_find k (om_insert_all xs m) =
    match om_find k m with Some v => Some v | None => om_find k xs end.
Proof.
  revert m; induction xs as [|[k' v'] xs IH]; intros m; [cbn; by case_match|].
  cbn [om_insert_all foldl fst snd om_find]. unfold om_insert_all in IH. rewrite IH.
  destruct (key_eqb k k') eqn:E.
  - apply key_eqb_spec in E as ->. rewrite om_find_insert_eq. by case_match.
  - rewrite om_find_insert_ne; [done|]. intros ->. by rewrite key_eqb_refl in E.
Qed.

Lemma om_insert_all_put k v m :
  om_sorted m -> om_find k m = None -> om_insert_all (om_put k v m) m = om_put k v m.
Proof.
  intros S N. apply om_ext; [by apply om_insert_all_sorted | by apply om_put_sorted |].
  intros k'. rewrite om_find_insert_all. destruct (om_find k' m) as [w|] eqn:E; [|done].
  rewrite om_find_put_ne; [done|]. intros ->. by rewrite N in E.
Qed.

(** Sortedness is a matter of the keys. *)
Lemma om_sorted_keys m : forall m', map fst m' = map fst m -> om_sorted m -> om_sorted m'.
Proof.
  induction m as [|[k v] m IH]; intros [|[k' v'] m'] E; simpl in *; try done.
  injection E as -> E. intros [A S]. split; [|by apply IH]. unfold above in *.
  rewrite <- (Forall_map fst (fun x => key_ltb k x = true)) in *. by rewrite E.
Qed.
End laws.

#[export] Hint Resolve om_put_sorted om_insert_sorted om_insert_all_sorted om_del_sorted : devv.
