(* ===== verification/Converters.v ===== *)
(** * common/binary_converters.h

    Little-endian packing of the fixed-width integers and hexadecimal text.
    [std::vector::at] is bounds checked, so decoding returns a [res]; the index
    arithmetic is that of [size_t].  A [std::string] is the list of its
    character codes. *)

From Stdlib Require Import ZArith Lia.
From Stdlib Require Ascii String.
From stdpp Require Import base list numbers.
From S2P Require Import Prelude.

(** ** Integers *)
Definition kBYTES_PER_INT : Z := 4.

(** The loop [for (i = 0; i < 4; ++i) dest |= (bytes.at(start + i) << (i * 8))],
    [wrap] being the conversion to the type of [dest]. *)
Fixpoint bin_or (wrap : Z -> Z) (v : bytes) (start dest : Z) (idx : list Z) : res Z :=
  match idx with
  | [] => Ok dest
  | i :: idx' =>
      b ← vec_at v (u64 (start + i));
      bin_or wrap v start (Z.lor dest (wrap (Z.shiftl b (i * 8)))) idx'
  end.

Definition BinToInt32 (v : bytes) (start : Z) : res Z := bin_or i32 v start 0 [0; 1; 2; 3].
Definition BinToUint32 (v : bytes) (start : Z) : res Z := bin_or u32 v start 0 [0; 1; 2; 3].

(** [for (i = 0; i < 4; ++i) dest.push_back((source >> (i * 8)) & 0xFF)] *)
Definition push_int (source : Z) (dest : bytes) : bytes :=
  foldl (fun d i => d ++ [Z.land (Z.shiftr source (i * 8)) 255]) dest [0; 1; 2; 3].

Definition Int32ToBin (source : Z) (dest : bytes) : bytes := push_int source dest.
Definition Uint32ToBin (source : Z) (dest : bytes) : bytes := push_int source dest.

Definition BinToUint64 (v : bytes) (start : Z) : res Z :=
  lsb ← BinToUint32 v start;
  msb ← BinToUint32 v (u64 (start + kBYTES_PER_INT));
  Ok (Z.lor (u64 (Z.shiftl msb 32)) lsb).

Definition Uint64ToBin (source : Z) (dest : bytes) : bytes :=
  let lsb := u32 (Z.land source 0xffffffff) in
  let msb := u32 (Z.shiftr source 32) in
  Uint32ToBin msb (Uint32ToBin lsb dest).

Definition BinToInt64 (v : bytes) (start : Z) : res Z :=
  lsb ← BinToUint32 v start;
  msb ← BinToUint32 v (u64 (start + kBYTES_PER_INT));
  let d1 := u64 (Z.shiftl msb 32) in
  Ok (i64 (Z.lor d1 lsb)).

Definition Int64ToBin (source : Z) (dest : bytes) : bytes :=
  let lsb := u32 (Z.land source 0xffffffff) in
  let msb := u32 (Z.shiftr source 32) in
  Uint32ToBin msb (Uint32ToBin lsb dest).

(** ** Text *)
Definition Char2Int (c : Z) : Z :=
  if (48 <=? c) && (c <=? 57) then c - 48
  else if (65 <=? c) && (c <=? 70) then c - 65 + 10
  else if (97 <=? c) && (c <=? 102) then c - 97 + 10
  else -1.

Definition Str2Bin (str : bytes) : bytes := str.
Definition Bin2Str (bin : bytes) : bytes := bin.

(** [buf.at(i) = (byte)Char2Int(hex.at(i*2)) * 16 + Char2Int(hex.at(1+i*2))],
    for the [n] values of [i] starting at [i]; [buf] has room for each. *)
Fixpoint hex_loop (hex : bytes) (i : Z) (n : nat) : res bytes :=
  match n with
  | O => Ok []
  | S n' =>
      h ← vec_at hex (i * 2);
      l ← vec_at hex (1 + i * 2);
      rest ← hex_loop hex (i + 1) n';
      Ok (u8 (u8 (Char2Int h) * 16 + Char2Int l) :: rest)
  end.

(** [len] is an [int]; the buffer is allocated with [len / 2 + 1] elements and
    the last one is popped at the end. *)
Definition Hex2Bin (hex : bytes) : res bytes :=
  let len := i32 (zlen hex) in
  let n := Z.quot len 2 in
  if n + 1 <? 0 then Err LengthError
  else if n + 1 =? 0 then UB
  else hex_loop hex 0 (Z.to_nat n).

(** [alpha[n]], the table "0123456789ABCDEF". *)
Definition alpha (n : Z) : Z := if n <? 10 then 48 + n else 55 + n.

Definition hex_byte (c : Z) : bytes :=
  [alpha (Z.land (Z.shiftr c 4) 15); alpha (Z.land c 15)].

Definition ToHex (input : bytes) (num_bytes : Z) : bytes :=
  concat (hex_byte <$> take (Z.to_nat (Z.min num_bytes (zlen input))) input).

(** The character codes of a literal. *)
Definition text (s : String.string) : bytes :=
  (fun c => Z.of_nat (Ascii.nat_of_ascii c)) <$> String.list_ascii_of_string s.

(** ** Packing lemmas *)
Lemma lor_shiftl_add a b n :
  0 <= n -> 0 <= a < 2 ^ n -> Z.lor a (Z.shiftl b n) = a + b * 2 ^ n.
Proof.
  intros Hn Ha. rewrite <- Z.shiftl_mul_pow2 by lia.
  rewrite <- Z.add_lor_land.
  enough (Z.land a (Z.shiftl b n) = 0) as -> by lia.
  apply Z.bits_inj'. intros i Hi. rewrite Z.land_spec, Z.bits_0.
  destruct (decide (i < n)).
  - rewrite Z.shiftl_spec_low by lia. apply andb_false_r.
  - rewrite <- (Z.mod_small a (2 ^ n)), Z.mod_pow2_bits_high by lia. done.
Qed.

Lemma land_255 z : Z.land z 255 = z mod 256.
Proof. change 255 with (Z.ones 8). by rewrite Z.land_ones. Qed.

Lemma land_byte_ok z : in_u8 (Z.land z 255).
Proof. rewrite land_255. unfold in_u8. pose proof (Z.mod_pos_bound z 256). lia. Qed.

Lemma push_int_app x dest : push_int x dest = dest ++ push_int x [].
Proof. unfold push_int. simpl. by rewrite <- !app_assoc. Qed.

Lemma push_int_bytes x : bytes_ok (push_int x []).
Proof. unfold push_int. simpl. repeat constructor; apply land_byte_ok. Qed.

Lemma push_int_length x : zlen (push_int x []) = 4.
Proof. done. Qed.

(** The four digits of a number in base 256. *)
Lemma digits4 x :
  0 <= x < 2 ^ 32 ->
  x mod 256 + x / 256 mod 256 * 256 + x / 65536 mod 256 * 65536
    + x / 16777216 mod 256 * 16777216 = x.
Proof. intros. Z.to_euclidean_division_equations. lia. Qed.

Lemma bin_or_mid wrap pre (b : Z) rest start i dest idx :
  0 <= start -> start + i = zlen pre -> zlen (pre ++ b :: rest) < 2 ^ 63 ->
  bin_or wrap (pre ++ b :: rest) start dest (i :: idx) =
  bin_or wrap (pre ++ b :: rest) start (Z.lor dest (wrap (Z.shiftl b (i * 8)))) idx.
Proof.
  intros Hs Hi Hl. cbn [bin_or]. rewrite vec_at_mid; [done|].
  rewrite zlen_app, zlen_cons in Hl.
  pose proof (zlen_nonneg pre). pose proof (zlen_nonneg rest).
  rewrite u64_id; [done | unfold in_u64; lia].
Qed.

(** What the loop computes on four bytes, for a conversion [wrap] that is the
    identity below 2^31 and agrees with [u32] modulo 2^32. *)
Definition le4 (b0 b1 b2 b3 : Z) : Z := b0 + b1 * 256 + b2 * 65536 + b3 * 16777216.

Lemma BinToUint32_le4 pre b0 b1 b2 b3 rest :
  bytes_ok [b0; b1; b2; b3] ->
  zlen (pre ++ b0 :: b1 :: b2 :: b3 :: rest) < 2 ^ 63 ->
  BinToUint32 (pre ++ b0 :: b1 :: b2 :: b3 :: rest) (zlen pre) = Ok (le4 b0 b1 b2 b3).
Proof.
  intros Hb Hl. unfold BinToUint32.
  assert (forall p x r, pre ++ b0 :: b1 :: b2 :: b3 :: rest = p ++ x :: r ->
    forall i, zlen p = zlen pre + i -> forall d idx,
    bin_or u32 (pre ++ b0 :: b1 :: b2 :: b3 :: rest) (zlen pre) d (i :: idx) =
    bin_or u32 (pre ++ b0 :: b1 :: b2 :: b3 :: rest) (zlen pre)
      (Z.lor d (u32 (Z.shiftl x (i * 8)))) idx) as step.
  { intros p x r E i Hi d idx. rewrite E in *. apply bin_or_mid; auto with devv. }
  rewrite (step pre b0 (b1 :: b2 :: b3 :: rest) eq_refl) by lia.
  rewrite (step (pre ++ [b0]) b1 (b2 :: b3 :: rest)), (step (pre ++ [b0; b1]) b2 (b3 :: rest)),
    (step (pre ++ [b0; b1; b2]) b3 rest)
    by (rewrite <- ?app_assoc; autorewrite with devv_rw; done || lia).
  cbn [bin_or]. f_equal. unfold bytes_ok in Hb.
  repeat match goal with H : Forall _ (_ :: _) |- _ => inversion_clear H end.
  unfold in_u8 in *.
  rewrite !u32_id by (unfold in_u32; rewrite Z.shiftl_mul_pow2 by lia; simpl; lia).
  change (0 * 8) with 0. rewrite Z.lor_0_l, Z.shiftl_0_r.
  rewrite (lor_shiftl_add b0 b1) by lia.
  rewrite (lor_shiftl_add _ b2) by lia.
  rewrite (lor_shiftl_add _ b3) by lia.
  unfold le4. lia.
Qed.

Lemma push_int_le4 x :
  0 <= x < 2 ^ 32 ->
  exists b0 b1 b2 b3, push_int x [] = [b0; b1; b2; b3] /\ le4 b0 b1 b2 b3 = x /\
    bytes_ok [b0; b1; b2; b3].
Proof.
  intros Hx. unfold push_int. simpl. do 4 eexists. split; [reflexivity|]. split.
  - unfold le4. rewrite !land_255, !Z.shiftr_div_pow2 by lia. simpl.
    rewrite Z.div_1_r. by apply digits4.
  - repeat constructor; apply land_byte_ok.
Qed.

Lemma BinToUint32_push pre x rest :
  in_u32 x -> zlen (pre ++ push_int x [] ++ rest) < 2 ^ 63 ->
  BinToUint32 (pre ++ push_int x [] ++ rest) (zlen pre) = Ok x.
Proof.
  intros Hx. destruct (push_int_le4 x Hx) as (b0 & b1 & b2 & b3 & -> & E & Hb).
  intros Hl. simpl in *. rewrite BinToUint32_le4 by done. by rewrite E.
Qed.

Lemma Uint64ToBin_app x dest : Uint64ToBin x dest = dest ++ Uint64ToBin x [].
Proof.
  unfold Uint64ToBin, Uint32ToBin. rewrite push_int_app, (push_int_app _ dest).
  rewrite (push_int_app _ (push_int _ [])). by rewrite <- app_assoc.
Qed.

Lemma Uint32ToBin_app x dest : Uint32ToBin x dest = dest ++ Uint32ToBin x [].
Proof. apply push_int_app. Qed.

Lemma Uint32ToBin_length x : zlen (Uint32ToBin x []) = 4.
Proof. done. Qed.

Lemma Int64ToBin_app x dest : Int64ToBin x dest = dest ++ Int64ToBin x [].
Proof. apply Uint64ToBin_app. Qed.

Lemma Uint64ToBin_split x :
  Uint64ToBin x [] = push_int (u32 (Z.land x 0xffffffff)) [] ++ push_int (u32 (Z.shiftr x 32)) [].
Proof. unfold Uint64ToBin, Uint32ToBin. by rewrite push_int_app. Qed.

Lemma Uint64ToBin_length x : zlen (Uint64ToBin x []) = 8.
Proof. done. Qed.

Lemma Int64ToBin_eq x dest : Int64ToBin x dest = Uint64ToBin x dest.
Proof. done. Qed.

Lemma Int64ToBin_length x : zlen (Int64ToBin x []) = 8.
Proof. done. Qed.

Lemma Uint64ToBin_bytes x : bytes_ok (Uint64ToBin x []).
Proof. rewrite Uint64ToBin_split. apply Forall_app. split; apply push_int_bytes. Qed.

Lemma land_u32 x : u32 (Z.land x 0xffffffff) = x mod 2 ^ 32.
Proof.
  change 0xffffffff with (Z.ones 32). rewrite Z.land_ones by lia.
  unfold u32, u32_mod. by rewrite Z.mod_mod.
Qed.

(** The two halves of a 64-bit value determine it modulo 2^64, whatever its
    sign: right shift is arithmetic. *)
Lemma halves x :
  Z.lor (u64 (Z.shiftl (u32 (Z.shiftr x 32)) 32)) (u32 (Z.land x 0xffffffff)) = u64 x.
Proof.
  rewrite land_u32, Z.lor_comm.
  pose proof (u32_range (Z.shiftr x 32)). unfold in_u32 in *.
  rewrite u64_id by (unfold in_u64; rewrite Z.shiftl_mul_pow2; lia).
  rewrite lor_shiftl_add by (pose proof (Z.mod_pos_bound x (2 ^ 32)); lia).
  unfold u32, u32_mod, u64, u64_mod. rewrite Z.shiftr_div_pow2 by lia.
  rewrite (Z.mul_comm (_ mod _)). rewrite <- Z.rem_mul_r by lia.
  f_equal.
Qed.

(** The buffer window [pre ++ _ ++ rest] at [zlen pre] decodes to the encoded
    value. *)
Section windows.
Context (pre rest : bytes).

Lemma BinToUint64_halves x :
  zlen (pre ++ Uint64ToBin x [] ++ rest) < 2 ^ 63 ->
  BinToUint32 (pre ++ Uint64ToBin x [] ++ rest) (zlen pre) = Ok (u32 (Z.land x 0xffffffff)) /\
  BinToUint32 (pre ++ Uint64ToBin x [] ++ rest) (u64 (zlen pre + kBYTES_PER_INT))
    = Ok (u32 (Z.shiftr x 32)).
Proof.
  rewrite Uint64ToBin_split, <- app_assoc. intros Hl.
  split; [by apply BinToUint32_push; auto with devv|].
  replace (u64 (zlen pre + kBYTES_PER_INT))
    with (zlen (pre ++ push_int (u32 (Z.land x 0xffffffff)) [])).
  - rewrite app_assoc in Hl |- *. apply BinToUint32_push; auto with devv.
  - rewrite !zlen_app, !push_int_length in Hl.
    pose proof (zlen_nonneg pre). pose proof (zlen_nonneg rest).
    rewrite zlen_app, push_int_length, u64_id; unfold in_u64, kBYTES_PER_INT; lia.
Qed.

Lemma BinToUint64_window x :
  in_u64 x -> zlen (pre ++ Uint64ToBin x [] ++ rest) < 2 ^ 63 ->
  BinToUint64 (pre ++ Uint64ToBin x [] ++ rest) (zlen pre) = Ok x.
Proof.
  intros Hx Hl. destruct (BinToUint64_halves x Hl) as [E1 E2].
  unfold BinToUint64. rewrite E1, E2. simpl. rewrite halves. by rewrite u64_id.
Qed.

Lemma BinToUint64_window_i64 x :
  in_i64 x -> zlen (pre ++ Uint64ToBin x [] ++ rest) < 2 ^ 63 ->
  BinToUint64 (pre ++ Uint64ToBin x [] ++ rest) (zlen pre) = Ok (u64 x).
Proof.
  intros Hx Hl. destruct (BinToUint64_halves x Hl) as [E1 E2].
  unfold BinToUint64. rewrite E1, E2. simpl. by rewrite halves.
Qed.

Lemma BinToInt64_window x :
  in_i64 x -> zlen (pre ++ Int64ToBin x [] ++ rest) < 2 ^ 63 ->
  BinToInt64 (pre ++ Int64ToBin x [] ++ rest) (zlen pre) = Ok x.
Proof.
  rewrite Int64ToBin_eq. intros Hx Hl. destruct (BinToUint64_halves x Hl) as [E1 E2].
  unfold BinToInt64. rewrite E1, E2. simpl. rewrite halves, i64_u64_id; done.
Qed.
End windows.

(** ** Hexadecimal *)
Lemma alpha_Char2Int n : 0 <= n < 16 -> Char2Int (alpha n) = n.
Proof.
  intros. unfold alpha, Char2Int.
  destruct (n <? 10) eqn:E; bool_to_prop;
    repeat (case_match; bool_to_prop); try lia;
    repeat match goal with H : (_ && _)%bool = false |- _ => apply andb_false_iff in H end;
    repeat match goal with H : _ \/ _ |- _ => destruct H; bool_to_prop end; lia.
Qed.

Lemma land_15 z : Z.land z 15 = z mod 16.
Proof. change 15 with (Z.ones 4). by rewrite Z.land_ones. Qed.

Lemma hex_pair b :
  in_u8 b ->
  u8 (u8 (Char2Int (alpha (Z.land (Z.shiftr b 4) 15))) * 16 + Char2Int (alpha (Z.land b 15))) = b.
Proof.
  unfold in_u8. intros Hb. rewrite !land_15, Z.shiftr_div_pow2 by lia.
  rewrite !alpha_Char2Int by (apply Z.mod_pos_bound; lia).
  unfold u8, u8_mod. change (2 ^ 4) with 16. change (2 ^ 8) with 256 in *.
  assert (0 <= b / 16 < 16) by (split; [apply Z.div_pos | apply Z.div_lt_upper_bound]; lia).
  pose proof (Z.div_mod b 16). pose proof (Z.mod_pos_bound b 16).
  rewrite (Z.mod_small (b / 16) 16), (Z.mod_small (b / 16) 256) by lia.
  rewrite Z.mod_small; lia.
Qed.

Lemma ToHex_all v n : zlen v <= n -> ToHex v n = concat (hex_byte <$> v).
Proof.
  intros Hn. unfold ToHex. rewrite Z.min_r by done. rewrite zlen_to_nat.
  by rewrite firstn_all.
Qed.

Lemma concat_hex_length v : zlen (concat (hex_byte <$> v)) = 2 * zlen v.
Proof.
  induction v as [|b v IH]; [done|]. rewrite fmap_cons. cbn [concat].
  rewrite zlen_app, IH, zlen_cons. change (zlen (hex_byte b)) with 2. lia.
Qed.

Lemma hex_loop_ToHex pre v :
  bytes_ok v ->
  hex_loop (concat (hex_byte <$> pre) ++ concat (hex_byte <$> v)) (zlen pre) (length v) = Ok v.
Proof.
  intros Hb. revert pre. induction Hb as [|b v Hb Hv IH]; intros pre; [done|].
  rewrite fmap_cons. cbn [concat length hex_loop].
  pose proof (concat_hex_length pre) as Hl.
  pose proof (IH (pre ++ [b])) as IHb.
  rewrite fmap_app, concat_app, zlen_app in IHb. cbn in IHb.
  set (P := concat (hex_byte <$> pre)) in *. set (R := concat (hex_byte <$> v)) in *.
  set (h := alpha (Z.land (Z.shiftr b 4) 15)). set (l := alpha (Z.land b 15)).
  change (hex_byte b ++ R) with (h :: l :: R).
  rewrite <- app_assoc in IHb. change (zlen [b]) with 1 in IHb.
  change (hex_loop (P ++ h :: l :: R) (zlen pre + 1) (length v) = Ok v) in IHb.
  assert (vec_at (P ++ h :: l :: R) (zlen pre * 2) = Ok h) as ->
    by (apply vec_at_mid; lia).
  assert (vec_at (P ++ h :: l :: R) (1 + zlen pre * 2) = Ok l) as ->.
  { replace (P ++ h :: l :: R) with ((P ++ [h]) ++ l :: R) by (by rewrite <- app_assoc).
    apply vec_at_mid. rewrite zlen_app, zlen_cons, zlen_nil. lia. }
  cbn [mbind res_bind].
  rewrite IHb. cbn [mbind res_bind]. subst h l. by rewrite (hex_pair b Hb).
Qed.

(** Hexadecimal text decodes to the bytes it was made from. *)
Lemma Hex2Bin_ToHex v n :
  bytes_ok v -> zlen v <= n -> zlen v < 2 ^ 30 -> Hex2Bin (ToHex v n) = Ok v.
Proof.
  intros Hb Hn Hl. pose proof (zlen_nonneg v). rewrite ToHex_all by done.
  unfold Hex2Bin. rewrite concat_hex_length.
  replace (i32 (2 * zlen v)) with (2 * zlen v)
    by (unfold i32, u32_mod; rewrite Z.mod_small; lia).
  rewrite (Z.mul_comm 2), Z.quot_mul by lia.
  rewrite (proj2 (Z.ltb_ge _ _)), (proj2 (Z.eqb_neq _ _)) by lia.
  rewrite zlen_to_nat. by apply (hex_loop_ToHex []).
Qed.

#[export] Hint Rewrite Uint64ToBin_length Int64ToBin_length push_int_length : devv_rw.

(** ** Ranges of what is read, whatever the bytes *)
Lemma lor_range a b n : 0 <= n -> 0 <= a < 2 ^ n -> 0 <= b < 2 ^ n -> 0 <= Z.lor a b < 2 ^ n.
Proof.
  intros Hn Ha Hb. split; [apply Z.lor_nonneg; lia|].
  replace (Z.lor a b) with (Z.lor a b mod 2 ^ n); [apply Z.mod_pos_bound; lia|].
  rewrite <- !Z.land_ones by lia. rewrite Z.land_lor_distr_l, !Z.land_ones by lia.
  by rewrite !Z.mod_small by lia.
Qed.

Lemma bin_or_range v s idx : forall d x, in_u32 d -> bin_or u32 v s d idx = Ok x -> in_u32 x.
Proof.
  induction idx as [|i idx IH]; intros d x Hd H; cbn [bin_or] in H; [by simplify_eq|].
  minv. eapply IH; [|exact H]. apply lor_range; [lia | done | apply u32_range].
Qed.

Lemma BinToUint32_range v s x : BinToUint32 v s = Ok x -> in_u32 x.
Proof. apply bin_or_range. unfold in_u32. lia. Qed.

Lemma BinToUint64_range v s x : BinToUint64 v s = Ok x -> in_u64 x.
Proof.
  unfold BinToUint64. intros H. minv. simplify_eq.
  pose proof (BinToUint32_range _ _ _ H0). apply lor_range; [lia | apply u64_range|].
  unfold_ranges. lia.
Qed.

Lemma BinToInt64_range v s x : BinToInt64 v s = Ok x -> in_i64 x.
Proof. unfold BinToInt64. intros H. minv. simplify_eq. apply i64_range. Qed.

#[export] Hint Rewrite Uint32ToBin_length : devv_rw.
