(* ===== verification/Keys.v ===== *)
(** * primitives/Address.h, primitives/Signature.h and the constants

    Public keys and signatures as length-prefixed byte vectors.  The type
    prefix equals the length of what follows: 33/49 for wallet/node addresses,
    73/105 for wallet/node signatures. *)

From Stdlib Require Import ZArith Lia.
From stdpp Require Import base list numbers countable.
From S2P Require Import Prelude OrdMap Converters.

(** ** common/devcash_constants.h, common/devcash_types.h *)
Definition kWALLET_ADDR_SIZE : Z := 33.
Definition kNODE_ADDR_SIZE : Z := 49.
Definition kWALLET_ADDR_BUF_SIZE : Z := kWALLET_ADDR_SIZE + 1.
Definition kNODE_ADDR_BUF_SIZE : Z := kNODE_ADDR_SIZE + 1.
Definition kFILE_KEY_SIZE : Z := 379.
Definition kFILE_NODEKEY_SIZE : Z := 448.

Definition kWALLET_SIG_SIZE : Z := 73.
Definition kNODE_SIG_SIZE : Z := 105.
Definition kWALLET_SIG_BUF_SIZE : Z := kWALLET_SIG_SIZE + 1.
Definition kNODE_SIG_BUF_SIZE : Z := kNODE_SIG_SIZE + 1.

Definition kTX_MIN_SIZE : Z := 89 + 2.
Definition kENVELOPE_SIZE : Z := 17.
Definition kOPERATION_OFFSET : Z := 16.
Definition kTRANSFER_OFFSET : Z := 17.
Definition kMIN_NONCE_SIZE : Z := 8.
Definition kUINT64_SIZE : Z := 8.
Definition kTRANSFER_NONADDR_DATA_SIZE : Z := kUINT64_SIZE * 3.
Definition kHASH_LENGTH : Z := 32.

(** [enum eOpType : byte] *)
Module eOpType.
Definition Create : Z := 0.
Definition Modify : Z := 1.
Definition Exchange : Z := 2.
Definition Delete : Z := 3.
Definition NumOperations : Z := 4.
End eOpType.

Inductive eAppMode := T1 | T2 | scan.

#[global] Instance eAppMode_eq_dec : EqDecision eAppMode.
Proof. solve_decision. Defined.

(** The test [vec.at(0) == t] under a guard that makes the access valid. *)
Definition first_is (v : bytes) (t : Z) : bool :=
  match v with b :: _ => b =? t | [] => false end.

(** ** Address *)
Record Address := mkAddress { a_canonical : bytes }.

#[global] Instance Address_eq_dec : EqDecision Address.
Proof. solve_decision. Defined.

#[global] Instance Address_countable : Countable Address :=
  inj_countable' a_canonical mkAddress (fun a => match a with mkAddress _ => eq_refl end).

(** [operator<] compares the canonical vectors. *)
#[global] Instance Address_key : KeyOrd Address := fun a b =>
  lex_ltb (a_canonical a) (a_canonical b).

#[global] Instance Address_key_laws : KeyOrdLaws Address.
Proof.
  constructor; unfold key_ltb, Address_key.
  - intros. apply lex_ltb_irrefl.
  - intros ? ? ?. apply lex_ltb_trans.
  - intros [a] [b]; simpl. intros. f_equal. by apply lex_ltb_total.
Qed.

Module AddressOps.
Definition default : Address := mkAddress [0].

(** The constructor prepends the type to a raw key, keeps a prefixed one, and
    keeps anything else too, after logging an error. *)
Definition ctor (vec : bytes) : Address :=
  if zlen vec =? kWALLET_ADDR_SIZE then mkAddress (kWALLET_ADDR_SIZE :: vec)
  else if (zlen vec =? kWALLET_ADDR_BUF_SIZE) && first_is vec kWALLET_ADDR_SIZE
  then mkAddress vec
  else if zlen vec =? kNODE_ADDR_SIZE then mkAddress (kNODE_ADDR_SIZE :: vec)
  else if (zlen vec =? kNODE_ADDR_BUF_SIZE) && first_is vec kNODE_ADDR_SIZE
  then mkAddress vec
  else mkAddress vec.

Definition getSizeByType (addr_type : Z) : Z :=
  if addr_type =? kWALLET_ADDR_SIZE then kWALLET_ADDR_SIZE
  else if addr_type =? kNODE_ADDR_SIZE then kNODE_ADDR_SIZE
  else 0.

Definition at_ (a : Address) (loc : Z) : res Z := vec_at (a_canonical a) loc.
Definition size (a : Address) : Z := zlen (a_canonical a).
Definition getCanonical (a : Address) : bytes := a_canonical a.

Definition isNull (a : Address) : bool :=
  match a_canonical a with [] => true | b :: _ => b =? 0 end.

Definition getJSON (a : Address) : bytes :=
  if isNull a then [] else concat (hex_byte <$> a_canonical a).

Definition getAddressType (a : Address) : res Z :=
  if isNull a then Err RuntimeError else vec_at (a_canonical a) 0.

Definition isWalletAddress (a : Address) : bool :=
  if isNull a then false else first_is (a_canonical a) kWALLET_ADDR_SIZE.

Definition isNodeAddress (a : Address) : bool :=
  if isNull a then false else first_is (a_canonical a) kNODE_ADDR_SIZE.

Definition getAddressRaw (a : Address) : res bytes :=
  if isNull a then Err RuntimeError
  else vec_range (a_canonical a) 1 (zlen (a_canonical a)).

Definition getHexString (a : Address) : res bytes :=
  if isNull a then Err RuntimeError else Ok (drop 2 (getJSON a)).
End AddressOps.

(** ** Signature *)
Record Signature := mkSignature { s_canonical : bytes }.

#[global] Instance Signature_eq_dec : EqDecision Signature.
Proof. solve_decision. Defined.

#[global] Instance Signature_key : KeyOrd Signature := fun a b =>
  lex_ltb (s_canonical a) (s_canonical b).

#[global] Instance Signature_key_laws : KeyOrdLaws Signature.
Proof.
  constructor; unfold key_ltb, Signature_key.
  - intros. apply lex_ltb_irrefl.
  - intros ? ? ?. apply lex_ltb_trans.
  - intros [a] [b]; simpl. intros. f_equal. by apply lex_ltb_total.
Qed.

Module SignatureOps.
Definition default : Signature := mkSignature [0].

(** Unlike [Address], an ill-sized vector makes the constructor throw. *)
Definition ctor (vec : bytes) : res Signature :=
  if zlen vec =? kWALLET_SIG_SIZE then Ok (mkSignature (kWALLET_SIG_SIZE :: vec))
  else if zlen vec =? kWALLET_SIG_BUF_SIZE then
    if first_is vec kWALLET_SIG_SIZE then Ok (mkSignature vec) else Err RuntimeError
  else if zlen vec =? kNODE_SIG_SIZE then Ok (mkSignature (kNODE_SIG_SIZE :: vec))
  else if zlen vec =? kNODE_SIG_BUF_SIZE then
    if first_is vec kNODE_SIG_SIZE then Ok (mkSignature vec) else Err RuntimeError
  else Err RuntimeError.

Definition getSizeByType (addr_type : Z) : Z :=
  if addr_type =? kWALLET_SIG_SIZE then kWALLET_SIG_SIZE
  else if addr_type =? kNODE_SIG_SIZE then kNODE_SIG_SIZE
  else 0.

Definition size (s : Signature) : Z := zlen (s_canonical s).
Definition getCanonical (s : Signature) : bytes := s_canonical s.

Definition isNull (s : Signature) : bool :=
  match s_canonical s with [] => true | b :: _ => b =? 0 end.

Definition getJSON (s : Signature) : bytes :=
  if isNull s then [] else concat (hex_byte <$> s_canonical s).

Definition getSignatureType (s : Signature) : res Z := vec_at (s_canonical s) 0.

Definition isWalletSignature (s : Signature) : bool :=
  if isNull s then false else first_is (s_canonical s) kWALLET_SIG_SIZE.

Definition isNodeSignature (s : Signature) : bool :=
  if isNull s then false else first_is (s_canonical s) kNODE_SIG_SIZE.

Definition getRawSignature (s : Signature) : res bytes :=
  if isNull s then Err RuntimeError
  else vec_range (s_canonical s) 1 (zlen (s_canonical s)).
End SignatureOps.

(** ** Well-formed addresses and signatures *)
Inductive key_shape (w n : Z) : bytes -> Prop :=
| shape_wallet raw : zlen raw = w -> key_shape w n (w :: raw)
| shape_node raw : zlen raw = n -> key_shape w n (n :: raw).

(** A wallet or node address: the prefix is the length of the rest. *)
Definition addr_wf (a : Address) : Prop :=
  key_shape kWALLET_ADDR_SIZE kNODE_ADDR_SIZE (a_canonical a).

Definition sig_wf (s : Signature) : Prop :=
  key_shape kWALLET_SIG_SIZE kNODE_SIG_SIZE (s_canonical s).

Definition addr_wfb (a : Address) : bool :=
  match a_canonical a with
  | t :: raw => ((t =? 33) && (zlen raw =? 33)) || ((t =? 49) && (zlen raw =? 49))
  | [] => false
  end.

Definition sig_wfb (s : Signature) : bool :=
  match s_canonical s with
  | t :: raw => ((t =? 73) && (zlen raw =? 73)) || ((t =? 105) && (zlen raw =? 105))
  | [] => false
  end.

(** A node address and a node signature. *)
Definition node_addr (a : Address) : Prop :=
  exists raw, a_canonical a = kNODE_ADDR_SIZE :: raw /\ zlen raw = kNODE_ADDR_SIZE.
Definition node_sig (s : Signature) : Prop :=
  exists raw, s_canonical s = kNODE_SIG_SIZE :: raw /\ zlen raw = kNODE_SIG_SIZE.

Lemma addr_wfb_spec a : addr_wfb a = true -> addr_wf a.
Proof.
  destruct a as [[|t raw]]; unfold addr_wfb, addr_wf; simpl; [done|].
  intros H. apply orb_prop in H as [H|H]; bool_to_prop; subst t;
    [by apply shape_wallet | by apply shape_node].
Qed.

Lemma sig_wfb_spec s : sig_wfb s = true -> sig_wf s.
Proof.
  destruct s as [[|t raw]]; unfold sig_wfb, sig_wf; simpl; [done|].
  intros H. apply orb_prop in H as [H|H]; bool_to_prop; subst t;
    [by apply shape_wallet | by apply shape_node].
Qed.

Lemma node_addr_wf a : node_addr a -> addr_wf a.
Proof. intros (raw & E & L). unfold addr_wf. rewrite E. by apply shape_node. Qed.

Lemma node_sig_wf s : node_sig s -> sig_wf s.
Proof. intros (raw & E & L). unfold sig_wf. rewrite E. by apply shape_node. Qed.

#[export] Hint Resolve node_addr_wf node_sig_wf : devv.

Ltac unfold_sizes :=
  unfold kWALLET_ADDR_BUF_SIZE, kNODE_ADDR_BUF_SIZE, kWALLET_SIG_BUF_SIZE,
    kNODE_SIG_BUF_SIZE, kTRANSFER_NONADDR_DATA_SIZE, kTX_MIN_SIZE, kENVELOPE_SIZE,
    kOPERATION_OFFSET, kTRANSFER_OFFSET, kMIN_NONCE_SIZE, kHASH_LENGTH in *;
  unfold kWALLET_ADDR_SIZE, kNODE_ADDR_SIZE, kWALLET_SIG_SIZE, kNODE_SIG_SIZE,
    kUINT64_SIZE in *.

(** The size tells a node's from a wallet's. *)
Lemma node_addr_of_size a :
  addr_wf a -> AddressOps.size a = kNODE_ADDR_BUF_SIZE -> node_addr a.
Proof.
  unfold addr_wf, AddressOps.size, node_addr. intros [raw L|raw L] Z; [|eauto].
  rewrite zlen_cons, L in Z. unfold_sizes. lia.
Qed.

Lemma node_sig_of_size s :
  sig_wf s -> SignatureOps.size s = kNODE_SIG_BUF_SIZE -> node_sig s.
Proof.
  unfold sig_wf, SignatureOps.size, node_sig. intros [raw L|raw L] Z; [|eauto].
  rewrite zlen_cons, L in Z. unfold_sizes. lia.
Qed.

(** Reduce the comparisons of a vector's size with the constants. *)
Ltac size_cases L :=
  repeat match goal with
  | |- context [?a =? ?b] =>
      first [ rewrite (proj2 (Z.eqb_eq a b)) by
                (rewrite ?zlen_cons, ?L; unfold_sizes; lia)
            | rewrite (proj2 (Z.eqb_neq a b)) by
                (rewrite ?zlen_cons, ?L; unfold_sizes; lia) ]; cbn [andb orb negb first_is]
  end.

(** The constructor maps a raw key to the prefixed address... *)
Lemma addr_ctor_raw t raw :
  (t = kWALLET_ADDR_SIZE \/ t = kNODE_ADDR_SIZE) -> zlen raw = t ->
  AddressOps.ctor raw = mkAddress (t :: raw).
Proof. intros [-> | ->] L; unfold AddressOps.ctor; size_cases L; done. Qed.

(** ... and leaves a well-formed one as it is. *)
Lemma addr_ctor_canonical a : addr_wf a -> AddressOps.ctor (a_canonical a) = a.
Proof.
  destruct a as [c]; unfold addr_wf; simpl. intros W.
  destruct W as [raw L | raw L]; unfold AddressOps.ctor; size_cases L; done.
Qed.

Lemma sig_ctor_raw t raw :
  (t = kWALLET_SIG_SIZE \/ t = kNODE_SIG_SIZE) -> zlen raw = t ->
  SignatureOps.ctor raw = Ok (mkSignature (t :: raw)).
Proof. intros [-> | ->] L; unfold SignatureOps.ctor; size_cases L; done. Qed.

Lemma sig_ctor_canonical s : sig_wf s -> SignatureOps.ctor (s_canonical s) = Ok s.
Proof.
  destruct s as [c]; unfold sig_wf; simpl. intros W.
  destruct W as [raw L | raw L]; unfold SignatureOps.ctor; size_cases L; done.
Qed.

(** A signature that was constructed is well formed. *)
Lemma sig_ctor_wf v s : SignatureOps.ctor v = Ok s -> sig_wf s.
Proof.
  unfold SignatureOps.ctor, sig_wf. intros H.
  repeat (case_match; bool_to_prop); simplify_eq; simpl; try (by constructor);
    destruct v as [|b v]; simpl in *; bool_to_prop; try done; subst b;
    rewrite zlen_cons in *; constructor;
    unfold_sizes; lia.
Qed.

Lemma addr_wf_parts a :
  addr_wf a ->
  exists t raw, a_canonical a = t :: raw /\ zlen raw = t /\
    (t = kWALLET_ADDR_SIZE \/ t = kNODE_ADDR_SIZE).
Proof. intros W. unfold addr_wf in W. destruct W; eauto 10. Qed.

Lemma sig_wf_parts s :
  sig_wf s ->
  exists t raw, s_canonical s = t :: raw /\ zlen raw = t /\
    (t = kWALLET_SIG_SIZE \/ t = kNODE_SIG_SIZE).
Proof. intros W. unfold sig_wf in W. destruct W; eauto 10. Qed.

Lemma addr_wf_size a : addr_wf a -> AddressOps.size a = 34 \/ AddressOps.size a = 50.
Proof.
  intros (t & raw & E & L & [-> | ->])%addr_wf_parts; unfold AddressOps.size;
    rewrite E, zlen_cons, L; [left | right]; done.
Qed.

Lemma addr_wf_notnull a : addr_wf a -> AddressOps.isNull a = false.
Proof.
  intros (t & raw & E & L & [-> | ->])%addr_wf_parts; unfold AddressOps.isNull;
    by rewrite E.
Qed.

Lemma node_addr_isNode a : node_addr a -> AddressOps.isNodeAddress a = true.
Proof.
  intros (raw & E & L). unfold AddressOps.isNodeAddress, AddressOps.isNull.
  by rewrite E.
Qed.

Lemma node_addr_size a : node_addr a -> AddressOps.size a = kNODE_ADDR_BUF_SIZE.
Proof. intros (raw & E & L). unfold AddressOps.size. by rewrite E, zlen_cons, L. Qed.

Lemma node_sig_size s : node_sig s -> SignatureOps.size s = kNODE_SIG_BUF_SIZE.
Proof. intros (raw & E & L). unfold SignatureOps.size. by rewrite E, zlen_cons, L. Qed.

(** The printed form of an address, with the type prefix stripped, names the
    same address when it is read back. *)
Lemma addr_hex_round_trip a :
  addr_wf a -> bytes_ok (a_canonical a) ->
  exists hex raw, AddressOps.getHexString a = Ok hex /\ Hex2Bin hex = Ok raw /\
    AddressOps.ctor raw = a.
Proof.
  intros W Hb. pose proof (addr_wf_notnull a W) as N.
  apply addr_wf_parts in W as (t & raw & E & L & Ht).
  unfold AddressOps.getHexString, AddressOps.getJSON. rewrite N, E in *.
  inversion Hb; subst. eexists _, raw. split; [reflexivity|].
  rewrite fmap_cons. change (drop 2 _) with (concat (hex_byte <$> raw)).
  split.
  - rewrite <- (ToHex_all raw (zlen raw)) by lia. apply Hex2Bin_ToHex; [done | lia |].
    destruct Ht as [-> | ->]; done.
  - destruct a as [c]; simpl in *; subst c. apply addr_ctor_raw; auto.
Qed.
