(* ===== verification/Buffers.v ===== *)
(** * primitives/buffers.h

    [InputBuffer] is a byte vector with a read position.  Its readers are
    computations over the buffer; index and size arithmetic is that of
    [size_t].  The second half of the file is the interface the other
    components are proved against: a reader [parses] an encoding when, at any
    place of any buffer, it returns the encoded value and advances by exactly
    the encoding's length. *)

From Stdlib Require Import ZArith Lia.
From stdpp Require Import base list numbers.
From S2P Require Import Prelude OrdMap Converters Keys.

Record InputBuffer := mkIB { buffer_ : bytes; offset_ : Z }.

(** Readers. *)
Abbreviation P := (M InputBuffer) (only parsing).

Module Buf.
Definition size : P Z := fun b => (Ok (zlen (buffer_ b)), b).
Definition getOffset : P Z := fun b => (Ok (offset_ b), b).

Definition increment (amount : Z) : P unit := fun b =>
  (Ok tt, mkIB (buffer_ b) (u64 (offset_ b + amount))).

Definition reset : P unit := fun b => (Ok tt, mkIB (buffer_ b) 0).

Definition at_ (loc : Z) : P Z := fun b => (vec_at (buffer_ b) loc, b).

Definition offsetAt (loc : Z) : P Z := fun b =>
  (vec_at (buffer_ b) (u64 (loc + offset_ b)), b).

(** [if (increment_buffer) { offset_ += n; }] *)
Definition advance (increment_buffer : bool) (n : Z) : P unit :=
  if increment_buffer then increment n else mret tt.

(** [copy(out_iter, length)] and [copy(std::array<byte, N>&)]: [std::copy_n]
    from the current position. *)
Definition copy (length : Z) (increment_buffer : bool) : P bytes :=
  b ← get;
  v ← lift (vec_range (buffer_ b) (offset_ b) (offset_ b + length));
  advance increment_buffer length;;
  mret v.

Definition getNextByte (increment_buffer : bool) : P Z :=
  off ← getOffset;
  ret ← at_ off;
  advance increment_buffer 1;;
  mret ret.

Definition copyAddress (increment_buffer : bool) : P Address :=
  t ← getNextByte true;
  b ← get;
  bin_addr ← lift (vec_range (buffer_ b) (offset_ b) (offset_ b + t));
  advance increment_buffer (zlen bin_addr);;
  mret (AddressOps.ctor bin_addr).

Definition copySignature (increment_buffer : bool) : P Signature :=
  t ← getNextByte true;
  b ← get;
  bin_sig ← lift (vec_range (buffer_ b) (offset_ b) (offset_ b + t));
  new_sig ← lift (SignatureOps.ctor bin_sig);
  advance increment_buffer (zlen bin_sig);;
  mret new_sig.

Definition getNextUint32 (increment_buffer : bool) : P Z :=
  b ← get;
  ret ← lift (BinToUint32 (buffer_ b) (offset_ b));
  advance increment_buffer 4;;
  mret ret.

Definition getNextUint64 (increment_buffer : bool) : P Z :=
  b ← get;
  ret ← lift (BinToUint64 (buffer_ b) (offset_ b));
  advance increment_buffer 8;;
  mret ret.

(** Reads eight bytes further on, and advances by eight when asked to. *)
Definition getSecondUint64 (increment_buffer : bool) : P Z :=
  b ← get;
  ret ← lift (BinToUint64 (buffer_ b) (u64 (offset_ b + 8)));
  advance increment_buffer 8;;
  mret ret.

Definition getNextT1Transaction : P bytes :=
  sum_size ← getNextUint64 false;
  let tx_size := u64 (sum_size + kNODE_SIG_BUF_SIZE + kUINT64_SIZE + kNODE_ADDR_BUF_SIZE) in
  sz ← size;
  off ← getOffset;
  if sz <? u64 (off + tx_size) then mret []
  else copy tx_size true.

Definition getNextTransaction : P bytes :=
  sz ← size;
  off ← getOffset;
  if sz <? u64 (off + kTX_MIN_SIZE) then getNextT1Transaction
  else
    xfer_size ← getNextUint64 false;
    nonce_size ← getSecondUint64 false;
    if nonce_size <? kMIN_NONCE_SIZE then getNextT1Transaction
    else
      oper ← offsetAt kOPERATION_OFFSET;
      if eOpType.NumOperations <=? oper then getNextT1Transaction
      else
        t ← offsetAt (u64 (kTRANSFER_OFFSET + xfer_size + nonce_size));
        let tx_size := u64 (t + kTRANSFER_OFFSET + xfer_size + nonce_size + 1) in
        if sz <? u64 (off + tx_size) then getNextT1Transaction
        else copy tx_size true.
End Buf.

(** The position and bounds-checked accesses reduce; the other readers are run
    with their own lemmas. *)
Section rules.
Context {B : Type}.

Lemma bind_size (f : Z -> P B) b : (Buf.size ≫= f) b = f (zlen (buffer_ b)) b.
Proof. done. Qed.

Lemma bind_offset (f : Z -> P B) b : (Buf.getOffset ≫= f) b = f (offset_ b) b.
Proof. done. Qed.

Lemma bind_at i (f : Z -> P B) b :
  (Buf.at_ i ≫= f) b = (lift (vec_at (buffer_ b) i) ≫= f) b.
Proof. done. Qed.

Lemma bind_offsetAt i (f : Z -> P B) b :
  (Buf.offsetAt i ≫= f) b = (lift (vec_at (buffer_ b) (u64 (i + offset_ b))) ≫= f) b.
Proof. done. Qed.
End rules.

#[export] Hint Rewrite @bind_size @bind_offset @bind_at @bind_offsetAt : mrun.

Ltac mstep := autorewrite with mrun; cbn [buffer_ offset_].

(** Run the first reader of a sequence whose result is known. *)
Ltac mrun H := rewrite (bind_ok _ _ _ _ _ H).

(** ** Round-trip interface *)
Definition parses {A} (p : P A) (bs : bytes) (x : A) : Prop :=
  forall pre rest, zlen (pre ++ bs ++ rest) < 2 ^ 63 ->
    p (mkIB (pre ++ bs ++ rest) (zlen pre)) =
      (Ok x, mkIB (pre ++ bs ++ rest) (zlen pre + zlen bs)).

(** What a serialisable component promises to the formats built from it. *)
Class Codec (A : Type) := {
  encode : A -> bytes;
  decode : P A;
  codable : A -> Prop;
  decode_encode : forall x, codable x -> parses decode (encode x) x
}.

Lemma parses_ret {A} (x : A) : parses (mret x) [] x.
Proof. intros pre rest _. by rewrite zlen_nil, Z.add_0_r. Qed.

Lemma parses_bind {A B} (p : P A) (f : A -> P B) bs1 bs2 x y :
  parses p bs1 x -> parses (f x) bs2 y -> parses (p ≫= f) (bs1 ++ bs2) y.
Proof.
  intros H1 H2 pre rest Hl. rewrite <- !app_assoc in *.
  mrun (H1 pre (bs2 ++ rest) Hl).
  specialize (H2 (pre ++ bs1) rest). rewrite <- !app_assoc in H2. specialize (H2 Hl).
  rewrite zlen_app in H2. rewrite H2. by rewrite zlen_app, Z.add_assoc.
Qed.

Lemma parses_fmap {A B} (p : P A) (g : A -> B) bs x :
  parses p bs x -> parses (a ← p; mret (g a)) bs (g x).
Proof.
  intros H. rewrite <- (app_nil_r bs). eapply parses_bind; [exact H|]. apply parses_ret.
Qed.

(** A reader whose value is discarded by the continuation. *)
Lemma parses_ext {A} (p q : P A) bs x : (forall b, p b = q b) -> parses p bs x -> parses q bs x.
Proof. intros E H pre rest Hl. rewrite <- E. by apply H. Qed.

(** The length of an encoding that fits in a buffer may be assumed. *)
Lemma parses_small {A} (p : P A) bs x : (zlen bs < 2 ^ 63 -> parses p bs x) -> parses p bs x.
Proof.
  intros H pre rest Hl. apply H; [|done]. rewrite !zlen_app in Hl.
  pose proof (zlen_nonneg pre). pose proof (zlen_nonneg rest). lia.
Qed.

(** A reader that looks at the end of the buffer: the encoding is its tail. *)
Definition parses_end {A} (p : P A) (bs : bytes) (x : A) : Prop :=
  forall pre, zlen (pre ++ bs) < 2 ^ 63 ->
    p (mkIB (pre ++ bs) (zlen pre)) = (Ok x, mkIB (pre ++ bs) (zlen pre + zlen bs)).

Lemma parses_to_end {A} (p : P A) bs x : parses p bs x -> parses_end p bs x.
Proof.
  intros H pre Hl. specialize (H pre []). rewrite app_nil_r in H. by apply H.
Qed.

Lemma parses_end_bind {A B} (p : P A) (f : A -> P B) bs1 bs2 x y :
  parses p bs1 x -> parses_end (f x) bs2 y -> parses_end (p ≫= f) (bs1 ++ bs2) y.
Proof.
  intros H1 H2 pre Hl. mrun (H1 pre bs2 Hl).
  specialize (H2 (pre ++ bs1)). rewrite <- !app_assoc in H2. specialize (H2 Hl).
  rewrite zlen_app in H2. rewrite H2. by rewrite zlen_app, Z.add_assoc.
Qed.

Lemma parses_end_fmap {A B} (p : P A) (g : A -> B) bs x :
  parses_end p bs x -> parses_end (a ← p; mret (g a)) bs (g x).
Proof. intros H pre Hl. by mrun (H pre Hl). Qed.

(** A reader whose behaviour depends on where it starts, such as one that
    compares the offset with an absolute position: the encoding begins at
    [start] and is the tail of the buffer. *)
Definition parses_at {A} (start : Z) (p : P A) (bs : bytes) (x : A) : Prop :=
  forall pre, zlen pre = start -> zlen (pre ++ bs) < 2 ^ 63 ->
    p (mkIB (pre ++ bs) start) = (Ok x, mkIB (pre ++ bs) (start + zlen bs)).

Lemma parses_end_at {A} start (p : P A) bs x : parses_end p bs x -> parses_at start p bs x.
Proof. intros H pre <- Hl. by apply H. Qed.

(** Only the first reader has to know the position. *)
Lemma parses_at_bind_at {A B} start (p : P A) (f : A -> P B) bs1 bs2 x y :
  (forall pre rest, zlen pre = start -> zlen (pre ++ bs1 ++ rest) < 2 ^ 63 ->
     p (mkIB (pre ++ bs1 ++ rest) (zlen pre)) =
       (Ok x, mkIB (pre ++ bs1 ++ rest) (zlen pre + zlen bs1))) ->
  parses_at (start + zlen bs1) (f x) bs2 y -> parses_at start (p ≫= f) (bs1 ++ bs2) y.
Proof.
  intros H1 H2 pre Hp Hl. rewrite <- Hp. mrun (H1 pre bs2 Hp Hl).
  specialize (H2 (pre ++ bs1)). rewrite <- !app_assoc in H2.
  rewrite Hp, H2, zlen_app, Z.add_assoc; [done | rewrite zlen_app; lia | done].
Qed.

Lemma parses_at_bind {A B} start (p : P A) (f : A -> P B) bs1 bs2 x y :
  parses p bs1 x -> parses_at (start + zlen bs1) (f x) bs2 y ->
  parses_at start (p ≫= f) (bs1 ++ bs2) y.
Proof. intros H1. apply parses_at_bind_at. intros pre rest _. apply H1. Qed.

Section readers.
Implicit Types (pre rest bs : bytes).

Lemma in_u64_pos bs n : 0 <= n <= zlen bs -> zlen bs < 2 ^ 63 -> in_u64 n.
Proof. unfold in_u64. lia. Qed.

Lemma bind_advance {A} incr n v off (f : unit -> P A) :
  in_u64 (off + n) ->
  (Buf.advance incr n ≫= f) (mkIB v off) = f tt (mkIB v (if incr then off + n else off)).
Proof.
  intros H. unfold Buf.advance, Buf.increment. destruct incr; [|done].
  unfold mbind, M_bind. simpl. by rewrite u64_id.
Qed.

Lemma window_bounds pre bs rest :
  zlen (pre ++ bs ++ rest) < 2 ^ 63 -> in_u64 (zlen pre) /\ in_u64 (zlen pre + zlen bs).
Proof.
  rewrite !zlen_app. pose proof (zlen_nonneg pre). pose proof (zlen_nonneg bs).
  pose proof (zlen_nonneg rest). unfold in_u64. lia.
Qed.

(** Copying a window of known length. *)
Lemma copy_run incr pre bs rest n :
  n = zlen bs -> zlen (pre ++ bs ++ rest) < 2 ^ 63 ->
  Buf.copy n incr (mkIB (pre ++ bs ++ rest) (zlen pre)) =
    (Ok bs, mkIB (pre ++ bs ++ rest) (if incr then zlen pre + zlen bs else zlen pre)).
Proof.
  intros -> Hl. unfold Buf.copy. destruct (window_bounds _ _ _ Hl).
  mstep.
  rewrite vec_range_mid by done. by rewrite bind_advance.
Qed.

Lemma parses_copy bs n : n = zlen bs -> parses (Buf.copy n true) bs bs.
Proof. intros E pre rest Hl. by apply copy_run. Qed.

Lemma getNextByte_run incr pre b rest :
  zlen (pre ++ b :: rest) < 2 ^ 63 ->
  Buf.getNextByte incr (mkIB (pre ++ b :: rest) (zlen pre)) =
    (Ok b, mkIB (pre ++ b :: rest) (if incr then zlen pre + 1 else zlen pre)).
Proof.
  intros Hl. destruct (window_bounds pre [b] rest Hl). unfold Buf.getNextByte.
  mstep.
  rewrite vec_at_mid by done. by rewrite bind_advance.
Qed.

Lemma parses_byte b : parses (Buf.getNextByte true) [b] b.
Proof. intros pre rest Hl. apply (getNextByte_run true pre b rest Hl). Qed.

Lemma getNextUint64_run incr pre x rest :
  in_u64 x -> zlen (pre ++ Uint64ToBin x [] ++ rest) < 2 ^ 63 ->
  Buf.getNextUint64 incr (mkIB (pre ++ Uint64ToBin x [] ++ rest) (zlen pre)) =
    (Ok x, mkIB (pre ++ Uint64ToBin x [] ++ rest) (if incr then zlen pre + 8 else zlen pre)).
Proof.
  intros Hx Hl. destruct (window_bounds _ _ _ Hl). unfold Buf.getNextUint64.
  mstep.
  rewrite BinToUint64_window by done. by rewrite bind_advance.
Qed.

Lemma parses_uint64 x : in_u64 x -> parses (Buf.getNextUint64 true) (Uint64ToBin x []) x.
Proof. intros Hx pre rest Hl. by apply getNextUint64_run. Qed.

(** A signed value read as an unsigned one. *)
Lemma parses_int64_as_u64 x :
  in_i64 x -> parses (Buf.getNextUint64 true) (Int64ToBin x []) (u64 x).
Proof.
  intros Hx pre rest Hl. rewrite Int64ToBin_eq in *.
  destruct (window_bounds _ _ _ Hl). unfold Buf.getNextUint64.
  mstep.
  rewrite BinToUint64_window_i64 by done. by rewrite bind_advance.
Qed.

(** An unsigned delta written with [Int64ToBin] and read back. *)
Lemma parses_uint32 x : in_u32 x -> parses (Buf.getNextUint32 true) (Uint32ToBin x []) x.
Proof.
  intros Hx pre rest Hl. destruct (window_bounds _ _ _ Hl). unfold Buf.getNextUint32.
  mstep. unfold Uint32ToBin in *.
  rewrite BinToUint32_push by done. by rewrite bind_advance.
Qed.

Lemma parses_address a : addr_wf a -> parses (Buf.copyAddress true) (a_canonical a) a.
Proof.
  intros (t & raw & E & L & Ht)%addr_wf_parts pre rest Hl. rewrite E in *.
  unfold Buf.copyAddress. cbn [app] in Hl |- *.
  mrun (getNextByte_run true pre t (raw ++ rest) Hl).
  mstep.
  replace (pre ++ t :: raw ++ rest) with ((pre ++ [t]) ++ raw ++ rest) in *
    by (by rewrite <- app_assoc).
  rewrite vec_range_mid by (rewrite zlen_app, zlen_cons, zlen_nil; lia).
  destruct (window_bounds _ _ _ Hl) as [_ B]. rewrite zlen_app in B.
  rewrite bind_advance by done. unfold mret, M_ret.
  rewrite (addr_ctor_raw t) by done. destruct a; simpl in *; subst.
  by rewrite zlen_cons, Z.add_assoc.
Qed.

Lemma parses_signature s : sig_wf s -> parses (Buf.copySignature true) (s_canonical s) s.
Proof.
  intros (t & raw & E & L & Ht)%sig_wf_parts pre rest Hl. rewrite E in *.
  unfold Buf.copySignature. cbn [app] in Hl |- *.
  mrun (getNextByte_run true pre t (raw ++ rest) Hl).
  mstep.
  replace (pre ++ t :: raw ++ rest) with ((pre ++ [t]) ++ raw ++ rest) in *
    by (by rewrite <- app_assoc).
  rewrite vec_range_mid by (rewrite zlen_app, zlen_cons, zlen_nil; lia).
  destruct (window_bounds _ _ _ Hl) as [_ B]. rewrite zlen_app in B.
  mstep. rewrite (sig_ctor_raw t) by done. rewrite bind_advance by done. unfold mret, M_ret.
  destruct s; simpl in *; subst. by rewrite zlen_cons, Z.add_assoc.
Qed.
End readers.

#[global] Program Instance Address_codec : Codec Address := {|
  encode := a_canonical;
  decode := Buf.copyAddress true;
  codable := addr_wf;
  decode_encode := parses_address
|}.

#[global] Program Instance Signature_codec : Codec Signature := {|
  encode := s_canonical;
  decode := Buf.copySignature true;
  codable := sig_wf;
  decode_encode := parses_signature
|}.

#[export] Hint Resolve parses_ret parses_byte parses_uint64 parses_uint32
  parses_address parses_signature : devv.

(** ** Counted loops

    [for (rem = n; rem >= d; rem -= d) acc = step(acc)] over a reader; with
    [d = 1] this is a loop with a count.  Counts come from the wire and may be
    anything up to 2^64-1, while every iteration consumes at least one byte or
    throws, so the buffer's length bounds the number of iterations: it is the
    fuel, and [count_fold_terminates] shows that it is enough. *)
Section count_loop.
Context {A : Type} (d : Z) (step : A -> P A).

Fixpoint count_loop (fuel : nat) (rem : Z) (acc : A) : P A :=
  if rem <? d then mret acc
  else match fuel with
  | O => lift NoFuel
  | S fuel' => acc' ← step acc; count_loop fuel' (rem - d) acc'
  end.

Definition count_fold (rem : Z) (acc : A) : P A := fun b =>
  count_loop (S (length (buffer_ b))) rem acc b.
End count_loop.

Lemma count_loop_parses {A B} d (step : A -> P A) (e : B -> bytes) (f : A -> B -> A) l :
  0 < d ->
  Forall (fun x => forall acc, parses (step acc) (e x) (f acc x)) l ->
  forall fuel rem acc, (length l <= fuel)%nat -> d * zlen l <= rem < d * zlen l + d ->
    parses (count_loop d step fuel rem acc) (concat (e <$> l)) (foldl f acc l).
Proof.
  intros Hd. induction 1 as [|x l Hx Hl IH]; intros fuel rem acc Hf Hr.
  - rewrite zlen_nil in Hr.
    destruct fuel; cbn [count_loop]; rewrite (proj2 (Z.ltb_lt _ _)) by lia; apply parses_ret.
  - destruct fuel as [|fuel]; [simpl in Hf; lia|].
    rewrite zlen_cons in Hr. pose proof (zlen_nonneg l).
    cbn [count_loop]. rewrite (proj2 (Z.ltb_ge _ _)) by nia.
    rewrite fmap_cons. cbn [concat foldl].
    eapply parses_bind; [apply Hx|]. apply IH; [simpl in Hf; lia | lia].
Qed.

Lemma concat_length_ge {B} (e : B -> bytes) l :
  Forall (fun x => 0 < zlen (e x)) l -> (length l <= length (concat (e <$> l)))%nat.
Proof.
  induction 1 as [|x l Hx Hl IH]; [simpl; lia|]. rewrite fmap_cons. cbn [concat length].
  rewrite length_app. unfold zlen in Hx. lia.
Qed.

Lemma concat_zlen_ge {B} (e : B -> bytes) l :
  Forall (fun x => 0 < zlen (e x)) l -> zlen l <= zlen (concat (e <$> l)).
Proof. intros H. pose proof (concat_length_ge e l H). unfold zlen. lia. Qed.

Lemma count_fold_parses {A B} d (step : A -> P A) (e : B -> bytes) (f : A -> B -> A) l rem acc :
  0 < d -> d * zlen l <= rem < d * zlen l + d ->
  Forall (fun x => forall acc, parses (step acc) (e x) (f acc x)) l ->
  Forall (fun x => 0 < zlen (e x)) l ->
  parses (count_fold d step rem acc) (concat (e <$> l)) (foldl f acc l).
Proof.
  intros Hd Hr Hl Hp pre rest Hlen. unfold count_fold. cbn [buffer_].
  apply (count_loop_parses d step e f l Hd Hl); [|done|done].
  pose proof (concat_length_ge e l Hp). rewrite !length_app. lia.
Qed.

(** A position inside the buffer. *)
Definition ib_ok (b : InputBuffer) : Prop :=
  0 <= offset_ b <= zlen (buffer_ b) /\ zlen (buffer_ b) < 2 ^ 63.

(** A reader that consumes [n] or more bytes when it returns, and never
    touches the bytes. *)
Definition consumes {A} (n : Z) (p : P A) : Prop :=
  forall b x b', ib_ok b -> p b = (Ok x, b') ->
    buffer_ b' = buffer_ b /\ offset_ b + n <= offset_ b' /\ ib_ok b'.

(** A reader that never runs out of fuel. *)
Definition total {A} (p : P A) : Prop := forall b, ib_ok b -> fst (p b) <> NoFuel.

Lemma consumes_ret {A} (x : A) : consumes 0 (mret x).
Proof. intros b y b' I H. unfold mret, M_ret in H. simplify_eq. repeat split; try apply I. lia. Qed.

Lemma consumes_weaken {A} n m (p : P A) : m <= n -> consumes n p -> consumes m p.
Proof. intros L C b x b' I H. destruct (C b x b' I H) as (E & O & I'). repeat split; try apply I'; [done | lia]. Qed.

Lemma consumes_bind {A B} n m (p : P A) (f : A -> P B) :
  consumes n p -> (forall a, consumes m (f a)) -> consumes (n + m) (p ≫= f).
Proof.
  intros Cp Cf b y b' I H. apply bind_inv_ok in H as (a & b1 & H1 & H2).
  destruct (Cp _ _ _ I H1) as (E1 & O1 & I1). destruct (Cf a _ _ _ I1 H2) as (E2 & O2 & I2).
  repeat split; try apply I2; [congruence | lia].
Qed.

Lemma total_ret {A} (x : A) : total (mret x).
Proof. intros b _. done. Qed.

Lemma total_bind {A B} n (p : P A) (f : A -> P B) :
  consumes n p -> total p -> (forall a, total (f a)) -> total (p ≫= f).
Proof.
  intros C Tp Tf b I. specialize (Tp b I). unfold mbind, M_bind.
  destruct (p b) as [[a|e| |] b1] eqn:E; simpl in *; try done.
  apply Tf. apply (C _ _ _ I E).
Qed.

Lemma count_loop_consumes {A} d (step : A -> P A) :
  (forall a, consumes 1 (step a)) ->
  forall fuel rem acc, consumes 0 (count_loop d step fuel rem acc).
Proof.
  intros Cs fuel; induction fuel as [|fuel IH]; intros count acc; cbn [count_loop];
    case_match; try apply consumes_ret.
  - intros b x b' _ H1. done.
  - eapply (consumes_weaken (1 + 0)); [lia|]. eapply consumes_bind; [apply Cs | intros; apply IH].
Qed.

Lemma count_loop_total {A} d (step : A -> P A) :
  (forall a, consumes 1 (step a)) -> (forall a, total (step a)) ->
  forall fuel rem acc b, ib_ok b -> zlen (buffer_ b) - offset_ b < Z.of_nat fuel ->
    fst (count_loop d step fuel rem acc b) <> NoFuel.
Proof.
  intros Cs Ts fuel; induction fuel as [|fuel IH]; intros count acc b I Hf.
  - destruct I. lia.
  - cbn [count_loop]. case_match; [done|]. pose proof (Ts acc b I) as T.
    unfold mbind, M_bind. destruct (step acc b) as [[a|e| |] b1] eqn:E; try done.
    destruct (Cs acc _ _ _ I E) as (Eb & O & I1). apply IH; [done|]. rewrite Eb. lia.
Qed.

Lemma count_fold_consumes {A} d (step : A -> P A) rem acc :
  (forall a, consumes 1 (step a)) -> consumes 0 (count_fold d step rem acc).
Proof.
  intros Cs b x b' I H. unfold count_fold in H.
  by apply (count_loop_consumes d step Cs _ _ _ b x b' I H).
Qed.

(** The buffer's length is enough fuel. *)
Lemma count_fold_terminates {A} d (step : A -> P A) rem acc :
  (forall a, consumes 1 (step a)) -> (forall a, total (step a)) ->
  total (count_fold d step rem acc).
Proof.
  intros Cs Ts b I. unfold count_fold. apply count_loop_total; auto.
  destruct I as [[] _]. unfold zlen in *. lia.
Qed.

Section readers_consume.
Lemma bin_or_bound wrap v start d i idx x :
  0 <= start -> start + i < 2 ^ 64 -> 0 <= i -> bin_or wrap v start d (i :: idx) = Ok x ->
  start + i < zlen v /\ exists d', bin_or wrap v start d' idx = Ok x.
Proof.
  intros Hs Hb Hi H. cbn [bin_or] in H. apply res_bind_inv_ok in H as (b & Hb' & H).
  apply vec_at_inv in Hb' as [Hr _]. rewrite u64_id in Hr by (unfold in_u64; lia).
  split; [lia | eauto].
Qed.

Lemma BinToUint32_bound v start x :
  0 <= start -> start + 3 < 2 ^ 64 -> BinToUint32 v start = Ok x -> start + 4 <= zlen v.
Proof.
  unfold BinToUint32. intros Hs Hb H.
  do 4 (apply bin_or_bound in H as [? [? H]]; [|lia..]). lia.
Qed.

Lemma BinToUint64_bound v start x :
  0 <= start -> start + 7 < 2 ^ 64 -> BinToUint64 v start = Ok x -> start + 8 <= zlen v.
Proof.
  unfold BinToUint64, kBYTES_PER_INT. intros Hs Hb H. minv.
  rewrite u64_id in H1 by (unfold in_u64; lia).
  apply BinToUint32_bound in H1; lia.
Qed.

Lemma advance_consumes n b :
  ib_ok b -> 0 <= n -> offset_ b + n <= zlen (buffer_ b) ->
  exists b', Buf.advance true n b = (Ok tt, b') /\
    buffer_ b' = buffer_ b /\ offset_ b' = offset_ b + n /\ ib_ok b'.
Proof.
  intros [? ?] ? ?. unfold Buf.advance, Buf.increment.
  rewrite u64_id by (unfold in_u64; lia). eexists. split; [reflexivity|].
  simpl. repeat split; simpl; lia.
Qed.

(** One step of inversion for the primitive reads. *)
Ltac adv I H :=
  match type of H with
  | context [Buf.advance true ?n] =>
      let b' := fresh "b" in let E := fresh "E" in
      destruct (advance_consumes n _ I) as (b' & E & ? & ? & ?); [lia | lia |];
      rewrite (bind_ok _ _ _ _ _ E) in H; unfold mret, M_ret in H; simplify_eq
  end.

Lemma getNextUint64_consumes : consumes 8 (Buf.getNextUint64 true).
Proof.
  intros b x b' I H. unfold Buf.getNextUint64 in H. autorewrite with mrun in H.
  destruct (BinToUint64 _ _) eqn:E; try done.
  apply BinToUint64_bound in E; [|destruct I; lia..].
  adv I H. repeat split; try done; try (by apply H2); lia.
Qed.

Lemma getNextUint32_consumes : consumes 4 (Buf.getNextUint32 true).
Proof.
  intros b x b' I H. unfold Buf.getNextUint32 in H. autorewrite with mrun in H.
  destruct (BinToUint32 _ _) eqn:E; try done.
  apply BinToUint32_bound in E; [|destruct I; lia..].
  adv I H. repeat split; try done; try (by apply H2); lia.
Qed.

Lemma getNextByte_consumes : consumes 1 (Buf.getNextByte true).
Proof.
  intros b x b' I H. unfold Buf.getNextByte in H. autorewrite with mrun in H.
  destruct (vec_at _ _) eqn:E; try done. apply vec_at_inv in E as [E _].
  adv I H. repeat split; try done; try (by apply H2); lia.
Qed.

Lemma copy_consumes n : 0 <= n -> consumes n (Buf.copy n true).
Proof.
  intros Hn b x b' I H. unfold Buf.copy in H. autorewrite with mrun in H.
  destruct (vec_range _ _ _) eqn:E; try done. apply vec_range_inv in E as (E1 & E2 & _).
  adv I H. repeat split; try done; try (by apply H2); lia.
Qed.

Lemma copyAddress_consumes : consumes 1 (Buf.copyAddress true).
Proof.
  apply (consumes_weaken (1 + 0)); [lia|].
  eapply consumes_bind; [apply getNextByte_consumes|].
  intros t b x b' I H. autorewrite with mrun in H.
  destruct (vec_range _ _ _) eqn:E; try done. apply vec_range_inv in E as (E1 & E2 & E3 & _).
  adv I H. repeat split; try done; try (by apply H2); lia.
Qed.

Lemma copySignature_consumes : consumes 1 (Buf.copySignature true).
Proof.
  apply (consumes_weaken (1 + 0)); [lia|].
  eapply consumes_bind; [apply getNextByte_consumes|].
  intros t b x b' I H. autorewrite with mrun in H.
  destruct (vec_range _ _ _) eqn:E; try done. apply vec_range_inv in E as (E1 & E2 & E3 & _).
  autorewrite with mrun in H. destruct (SignatureOps.ctor _); try done.
  adv I H. repeat split; try done; try (by apply H2); lia.
Qed.
End readers_consume.

(** The primitive reads do not loop. *)
Lemma vec_at_nofuel {A} (v : list A) i : vec_at v i <> NoFuel.
Proof. unfold vec_at. repeat case_match; done. Qed.

Lemma vec_range_nofuel {A} (v : list A) a b : vec_range v a b <> NoFuel.
Proof. unfold vec_range. case_match; done. Qed.

Lemma bin_or_nofuel wrap v s idx : forall d, bin_or wrap v s d idx <> NoFuel.
Proof.
  induction idx as [|i idx IH]; intros d; cbn [bin_or]; [done|].
  pose proof (vec_at_nofuel v (u64 (s + i))). destruct (vec_at _ _); simpl; try done.
Qed.

Lemma BinToUint64_nofuel v s : BinToUint64 v s <> NoFuel.
Proof.
  unfold BinToUint64, BinToUint32.
  pose proof (bin_or_nofuel u32 v s [0; 1; 2; 3] 0).
  pose proof (bin_or_nofuel u32 v (u64 (s + kBYTES_PER_INT)) [0; 1; 2; 3] 0).
  destruct (bin_or u32 v s _ _); try done. cbn [mbind res_bind].
  by destruct (bin_or u32 v (u64 (s + kBYTES_PER_INT)) _ _).
Qed.

Ltac nofuel :=
  first [ done
        | by (unfold Buf.advance, Buf.increment, mbind, M_bind, mret, M_ret, lift; simpl) ].

Lemma getNextByte_total : total (Buf.getNextByte true).
Proof.
  intros b _. unfold Buf.getNextByte. autorewrite with mrun.
  pose proof (vec_at_nofuel (buffer_ b) (offset_ b)). destruct (vec_at _ _); nofuel.
Qed.

Lemma getNextUint64_total : total (Buf.getNextUint64 true).
Proof.
  intros b _. unfold Buf.getNextUint64. autorewrite with mrun.
  pose proof (BinToUint64_nofuel (buffer_ b) (offset_ b)). destruct (BinToUint64 _ _); nofuel.
Qed.

Lemma getNextUint32_total : total (Buf.getNextUint32 true).
Proof.
  intros b _. unfold Buf.getNextUint32, BinToUint32. autorewrite with mrun.
  pose proof (bin_or_nofuel u32 (buffer_ b) (offset_ b) [0; 1; 2; 3] 0).
  destruct (bin_or _ _ _ _ _); nofuel.
Qed.

Lemma copy_total n : total (Buf.copy n true).
Proof.
  intros b _. unfold Buf.copy. autorewrite with mrun.
  pose proof (vec_range_nofuel (buffer_ b) (offset_ b) (offset_ b + n)).
  destruct (vec_range _ _ _); nofuel.
Qed.

Lemma copyAddress_total : total (Buf.copyAddress true).
Proof.
  eapply total_bind; [apply getNextByte_consumes | apply getNextByte_total |].
  intros t b _. autorewrite with mrun.
  pose proof (vec_range_nofuel (buffer_ b) (offset_ b) (offset_ b + t)).
  destruct (vec_range _ _ _); nofuel.
Qed.

Lemma sig_ctor_nofuel v : SignatureOps.ctor v <> NoFuel.
Proof. unfold SignatureOps.ctor. repeat case_match; done. Qed.

Lemma copySignature_total : total (Buf.copySignature true).
Proof.
  eapply total_bind; [apply getNextByte_consumes | apply getNextByte_total |].
  intros t b _. autorewrite with mrun.
  pose proof (vec_range_nofuel (buffer_ b) (offset_ b) (offset_ b + t)).
  destruct (vec_range _ _ _) as [v| | |]; try done. autorewrite with mrun.
  pose proof (sig_ctor_nofuel v). destruct (SignatureOps.ctor v); nofuel.
Qed.

#[export] Hint Resolve consumes_ret total_ret getNextByte_consumes getNextUint64_consumes
  getNextUint32_consumes copyAddress_consumes copySignature_consumes getNextByte_total
  getNextUint64_total getNextUint32_total copy_total copyAddress_total copySignature_total
  : devv.

(** ** Loops up to an offset

    [while (buffer.getOffset() < stop) acc = step(acc)].  A step that does not
    move the offset makes the loop run forever, which shows as [NoFuel] for
    every fuel; the callers pass the length of the buffer. *)
Fixpoint offset_loop {A} (step : A -> P A) (stop : Z) (fuel : nat) (acc : A) : P A :=
  off ← Buf.getOffset;
  if off <? stop then
    match fuel with
    | O => lift NoFuel
    | S fuel' => acc' ← step acc; offset_loop step stop fuel' acc'
    end
  else mret acc.

Definition offset_fold {A} (step : A -> P A) (stop : Z) (acc : A) : P A := fun b =>
  offset_loop step stop (S (length (buffer_ b))) acc b.

Lemma offset_loop_unfold {A} (step : A -> P A) stop fuel acc b :
  offset_loop step stop fuel acc b =
    if offset_ b <? stop then
      match fuel with
      | O => (NoFuel, b)
      | S fuel' => (acc' ← step acc; offset_loop step stop fuel' acc') b
      end
    else (Ok acc, b).
Proof. destruct fuel; cbn [offset_loop]; mstep; by case_match. Qed.

Lemma offset_loop_parses {A B} (step : A -> P A) (e : B -> bytes) (f : A -> B -> A) l :
  Forall (fun x => forall acc, parses (step acc) (e x) (f acc x)) l ->
  Forall (fun x => 0 < zlen (e x)) l ->
  forall fuel acc pre rest, (length l <= fuel)%nat ->
    zlen (pre ++ concat (e <$> l) ++ rest) < 2 ^ 63 ->
    offset_loop step (zlen pre + zlen (concat (e <$> l))) fuel acc
      (mkIB (pre ++ concat (e <$> l) ++ rest) (zlen pre)) =
    (Ok (foldl f acc l), mkIB (pre ++ concat (e <$> l) ++ rest) (zlen pre + zlen (concat (e <$> l)))).
Proof.
  induction 1 as [|x l Hx _ IH]; intros Hp fuel acc pre rest Hf Hl; rewrite offset_loop_unfold;
    cbn [offset_].
  - cbn [fmap list_fmap concat]. rewrite zlen_nil, (proj2 (Z.ltb_ge _ _)) by lia.
    by rewrite Z.add_0_r.
  - inversion Hp; subst. rewrite fmap_cons in *. cbn [concat foldl] in *. rewrite <- !app_assoc in *.
    rewrite zlen_app. pose proof (zlen_nonneg (concat (e <$> l))).
    rewrite (proj2 (Z.ltb_lt _ _)) by lia.
    destruct fuel as [|fuel]; [simpl in Hf; lia|].
    mrun (Hx acc pre (concat (e <$> l) ++ rest) Hl).
    replace (pre ++ e x ++ concat (e <$> l) ++ rest)
      with ((pre ++ e x) ++ concat (e <$> l) ++ rest) in * by (by rewrite <- app_assoc).
    rewrite Z.add_assoc, <- zlen_app. apply IH; [done | simpl in Hf; lia | done].
Qed.

Lemma offset_fold_run {A B} (step : A -> P A) (e : B -> bytes) (f : A -> B -> A) l stop acc pre rest :
  Forall (fun x => forall acc, parses (step acc) (e x) (f acc x)) l ->
  Forall (fun x => 0 < zlen (e x)) l ->
  zlen (pre ++ concat (e <$> l) ++ rest) < 2 ^ 63 ->
  stop = zlen pre + zlen (concat (e <$> l)) ->
  offset_fold step stop acc (mkIB (pre ++ concat (e <$> l) ++ rest) (zlen pre)) =
    (Ok (foldl f acc l), mkIB (pre ++ concat (e <$> l) ++ rest) stop).
Proof.
  intros Hs Hp Hl ->. unfold offset_fold. apply offset_loop_parses; try done.
  cbn [buffer_]. pose proof (concat_length_ge e l Hp). rewrite !length_app. lia.
Qed.

(** A loop whose step may return without moving the offset never ends. *)
Lemma offset_loop_stuck {A} (step : A -> P A) stop b :
  offset_ b < stop -> (forall acc, exists acc', step acc b = (Ok acc', b)) ->
  forall fuel acc, fst (offset_loop step stop fuel acc b) = NoFuel.
Proof.
  intros Ho Hs fuel; induction fuel as [|fuel IH]; intros acc; rewrite offset_loop_unfold;
    rewrite (proj2 (Z.ltb_lt _ _)) by done; [done|].
  destruct (Hs acc) as (acc' & E). mrun E. apply IH.
Qed.
