(* ===== verification/Transfer.v ===== *)
(** * primitives/SmartCoin.h and primitives/Transfer.h

    A coin amount at an address, and the serialised movement of coins.  A
    transfer holds only its canonical bytes, 58 or 74 of them; the getters
    decode at positions that depend on the address type. *)

From Stdlib Require Import ZArith Lia.
From stdpp Require Import base list numbers.
From S2P Require Import Prelude OrdMap Converters Keys Buffers.

(** ** SmartCoin *)
Definition kCOIN : Z := 100000000.
Definition kMAX_COIN : Z := u64 (184000000000 * kCOIN).

Record SmartCoin := mkSmartCoin { sc_addr : Address; sc_coin : Z; sc_amount : Z }.

Module SmartCoinOps.
Definition setAddress (c : SmartCoin) (addr : Address) : SmartCoin :=
  mkSmartCoin addr (sc_coin c) (sc_amount c).
Definition setCoin (c : SmartCoin) (coin : Z) : SmartCoin :=
  mkSmartCoin (sc_addr c) coin (sc_amount c).
Definition setAmount (c : SmartCoin) (amount : Z) : SmartCoin :=
  mkSmartCoin (sc_addr c) (sc_coin c) amount.
End SmartCoinOps.

(** ** Transfer *)
Record Transfer := mkTransfer { x_canonical : bytes }.

#[global] Instance Transfer_eq_dec : EqDecision Transfer.
Proof. solve_decision. Defined.

Module TransferOps.
Definition ctor (addr : Address) (coin amount delay : Z) : Transfer :=
  mkTransfer (Uint64ToBin delay (Int64ToBin amount
               (Uint64ToBin coin (AddressOps.getCanonical addr)))).

(** The constructor for a hexadecimal address. *)
Definition ctor_hex (addr_string : bytes) (coin amount delay : Z) : res Transfer :=
  raw ← Hex2Bin addr_string;
  Ok (ctor (AddressOps.ctor raw) coin amount delay).

Definition from_buffer : P Transfer :=
  addr ← Buf.copyAddress true;
  rest ← Buf.copy kTRANSFER_NONADDR_DATA_SIZE true;
  mret (mkTransfer (AddressOps.getCanonical addr ++ rest)).

Definition Size (t : Transfer) : Z := zlen (x_canonical t).
Definition MinSize : Z := kWALLET_ADDR_BUF_SIZE + kTRANSFER_NONADDR_DATA_SIZE.
Definition MaxSize : Z := kNODE_ADDR_BUF_SIZE + kTRANSFER_NONADDR_DATA_SIZE.
Definition getCanonical (t : Transfer) : bytes := x_canonical t.

(** The getters branch on the type prefix; [k] gets the size of the address. *)
Definition by_type {A} (t : Transfer) (k : Z -> res A) : res A :=
  b ← vec_at (x_canonical t) 0;
  if b =? kWALLET_ADDR_SIZE then k kWALLET_ADDR_BUF_SIZE
  else
    b' ← vec_at (x_canonical t) 0;
    if b' =? kNODE_ADDR_SIZE then k kNODE_ADDR_BUF_SIZE
    else Err RuntimeError.

Definition getAddress (t : Transfer) : res Address :=
  by_type t (fun n => v ← vec_range (x_canonical t) 0 n; Ok (AddressOps.ctor v)).

Definition getCoin (t : Transfer) : res Z :=
  by_type t (fun n => BinToUint64 (x_canonical t) n).

Definition getAmount (t : Transfer) : res Z :=
  by_type t (fun n => BinToInt64 (x_canonical t) (n + kUINT64_SIZE)).

Definition getDelay (t : Transfer) : res Z :=
  by_type t (fun n => BinToUint64 (x_canonical t) (n + kUINT64_SIZE * 2)).
End TransferOps.

(** ** Well-formed transfers

    [tview] is the abstract content of a transfer; [xfer_is t v] says that [t]
    is the serialisation of [v]. *)
Record tview := mkView { v_addr : Address; v_coin : Z; v_amount : Z; v_delay : Z }.

Definition view_ok (v : tview) : Prop :=
  addr_wf (v_addr v) /\ in_u64 (v_coin v) /\ in_i64 (v_amount v) /\ in_u64 (v_delay v).

Definition xfer_of (v : tview) : Transfer :=
  TransferOps.ctor (v_addr v) (v_coin v) (v_amount v) (v_delay v).

Lemma xfer_canonical v :
  x_canonical (xfer_of v) =
    a_canonical (v_addr v) ++ Uint64ToBin (v_coin v) [] ++
    Int64ToBin (v_amount v) [] ++ Uint64ToBin (v_delay v) [].
Proof.
  unfold xfer_of, TransferOps.ctor, AddressOps.getCanonical. cbn [x_canonical].
  rewrite Uint64ToBin_app, (Int64ToBin_app (v_amount v)), (Uint64ToBin_app (v_coin v)).
  by rewrite <- !app_assoc.
Qed.

Lemma xfer_size v : TransferOps.Size (xfer_of v) = AddressOps.size (v_addr v) + 24.
Proof.
  unfold TransferOps.Size, AddressOps.size. rewrite xfer_canonical.
  autorewrite with devv_rw. lia.
Qed.

Lemma xfer_size_bounds v :
  view_ok v -> TransferOps.MinSize <= TransferOps.Size (xfer_of v) <= TransferOps.MaxSize.
Proof.
  intros (W & _). rewrite xfer_size. unfold TransferOps.MinSize, TransferOps.MaxSize.
  unfold_sizes. destruct (addr_wf_size _ W) as [-> | ->]; lia.
Qed.

(** The type dispatch finds the size of a well-formed address. *)
Lemma by_type_wf {A} v (k : Z -> res A) :
  view_ok v -> TransferOps.by_type (xfer_of v) k = k (AddressOps.size (v_addr v)).
Proof.
  intros (W & _). unfold TransferOps.by_type, AddressOps.size. rewrite xfer_canonical.
  apply addr_wf_parts in W as (t & raw & E & L & Ht). rewrite E, zlen_cons, L.
  cbn [app]. rewrite vec_at_0. cbn [mbind res_bind].
  destruct Ht as [-> | ->]; done.
Qed.

Section getters.
Context (v : tview) (Hv : view_ok v).

Let a_size := addr_wf_size (v_addr v) (proj1 Hv).

Lemma xfer_getAddress : TransferOps.getAddress (xfer_of v) = Ok (v_addr v).
Proof.
  unfold TransferOps.getAddress. rewrite by_type_wf by done. rewrite xfer_canonical.
  rewrite vec_range_prefix by done. cbn [mbind res_bind].
  f_equal. apply addr_ctor_canonical, Hv.
Qed.

Lemma xfer_getCoin : TransferOps.getCoin (xfer_of v) = Ok (v_coin v).
Proof.
  unfold TransferOps.getCoin. rewrite by_type_wf by done. rewrite xfer_canonical.
  pose proof Hv as (_ & Hc & _). apply BinToUint64_window; [done|].
  autorewrite with devv_rw. unfold AddressOps.size in a_size.
  destruct a_size as [-> | ->]; lia.
Qed.

Lemma xfer_getAmount : TransferOps.getAmount (xfer_of v) = Ok (v_amount v).
Proof.
  unfold TransferOps.getAmount. rewrite by_type_wf by done. rewrite xfer_canonical.
  pose proof Hv as (_ & _ & Ha & _). rewrite app_assoc.
  replace (AddressOps.size (v_addr v) + kUINT64_SIZE)
    with (zlen (a_canonical (v_addr v) ++ Uint64ToBin (v_coin v) [])) by (by rewrite zlen_app).
  apply BinToInt64_window; [done|].
  autorewrite with devv_rw. unfold AddressOps.size in a_size.
  destruct a_size as [-> | ->]; lia.
Qed.

Lemma xfer_getDelay : TransferOps.getDelay (xfer_of v) = Ok (v_delay v).
Proof.
  unfold TransferOps.getDelay. rewrite by_type_wf by done. rewrite xfer_canonical.
  pose proof Hv as (_ & _ & _ & Hd). rewrite !app_assoc.
  rewrite <- (app_nil_r (Uint64ToBin (v_delay v) [])).
  replace (AddressOps.size (v_addr v) + kUINT64_SIZE * 2)
    with (zlen ((a_canonical (v_addr v) ++ Uint64ToBin (v_coin v) [])
                  ++ Int64ToBin (v_amount v) []))
    by (autorewrite with devv_rw; unfold AddressOps.size, kUINT64_SIZE; lia).
  apply BinToUint64_window; [done|].
  autorewrite with devv_rw. unfold AddressOps.size in a_size.
  destruct a_size as [-> | ->]; lia.
Qed.

Lemma parses_transfer :
  parses TransferOps.from_buffer (x_canonical (xfer_of v)) (xfer_of v).
Proof.
  unfold TransferOps.from_buffer. rewrite xfer_canonical.
  eapply parses_bind; [apply parses_address, Hv|].
  replace (xfer_of v) with (mkTransfer (x_canonical (xfer_of v))) by done.
  rewrite xfer_canonical.
  apply (parses_fmap _ (fun r => mkTransfer (AddressOps.getCanonical (v_addr v) ++ r))).
  by apply parses_copy.
Qed.
End getters.

(** ** The content of any transfer the getters accept *)
Definition view_of (t : Transfer) : res tview :=
  addr ← TransferOps.getAddress t;
  coin ← TransferOps.getCoin t;
  amount ← TransferOps.getAmount t;
  delay ← TransferOps.getDelay t;
  Ok (mkView addr coin amount delay).

Lemma view_of_xfer v : view_ok v -> view_of (xfer_of v) = Ok v.
Proof.
  intros W. unfold view_of.
  rewrite xfer_getAddress, xfer_getCoin, xfer_getAmount, xfer_getDelay by done.
  by destruct v.
Qed.

Lemma by_type_inv {A} t (k : Z -> res A) x :
  TransferOps.by_type t k = Ok x ->
  exists b rest, x_canonical t = b :: rest /\ k (b + 1) = Ok x /\
    (b = kWALLET_ADDR_SIZE \/ b = kNODE_ADDR_SIZE).
Proof.
  unfold TransferOps.by_type. intros H. apply res_bind_inv_ok in H as (b & Hb & H).
  pose proof Hb as Hb'. apply vec_at_inv in Hb as [_ Hb].
  destruct (x_canonical t) as [|b0 rest] eqn:E; [done|]. simpl in Hb. simplify_eq.
  exists b, rest. split; [done|]. case_match; bool_to_prop; [subst; auto|].
  minv. rewrite Hb' in H1. simplify_eq. case_match; bool_to_prop; subst; [auto | done].
Qed.

(** Whatever the bytes, what the getters return is well formed. *)
Lemma getAddress_wf t a : TransferOps.getAddress t = Ok a -> addr_wf a.
Proof.
  intros E. unfold TransferOps.getAddress in E. apply by_type_inv in E as (b & rest & Ec & E & Hb).
  minv. simplify_eq. rewrite Ec in H. apply vec_range_inv in H as (_ & Hz & Hl & Ev).
  replace (Z.to_nat (b + 1 - 0)) with (S (Z.to_nat b)) in Ev by (unfold_sizes; lia).
  change (drop (Z.to_nat 0) (b :: rest)) with (b :: rest) in Ev.
  rewrite firstn_cons in Ev. subst. rewrite zlen_cons in Hl.
  assert (zlen (take (Z.to_nat b) rest) = b) as L by lia.
  unfold addr_wf, AddressOps.ctor. destruct Hb as [-> | ->]; size_cases L; by constructor.
Qed.

Lemma getCoin_range t x : TransferOps.getCoin t = Ok x -> in_u64 x.
Proof. intros (b & rest & _ & E & _)%by_type_inv. by apply BinToUint64_range in E. Qed.

Lemma getAmount_range t x : TransferOps.getAmount t = Ok x -> in_i64 x.
Proof. intros (b & rest & _ & E & _)%by_type_inv. by apply BinToInt64_range in E. Qed.

Lemma getDelay_range t x : TransferOps.getDelay t = Ok x -> in_u64 x.
Proof. intros (b & rest & _ & E & _)%by_type_inv. by apply BinToUint64_range in E. Qed.

Lemma view_of_ok t v : view_of t = Ok v -> view_ok v.
Proof.
  unfold view_of. intros H. minv. simplify_eq.
  unfold view_ok. cbn [v_addr v_coin v_amount v_delay].
  split; [|split; [|split]];
    eauto using getAddress_wf, getCoin_range, getAmount_range, getDelay_range.
Qed.

#[export] Hint Rewrite xfer_getAddress xfer_getCoin xfer_getAmount xfer_getDelay
  using done : devv_rw.
