(* ===== verification/ChainState.v ===== *)
(** * consensus/chainstate.h, consensus/chainstate.cpp

    The balances of a shard: a map from addresses to maps from coin types to
    signed 64-bit amounts.  The abstract specification is the total function
    [balance]; [addCoin] refines a pointwise update of it. *)

From Stdlib Require Import ZArith Lia.
From stdpp Require Import base list numbers.
From S2P Require Import Prelude OrdMap Converters Keys Buffers Transfer.

Abbreviation CoinMap := (omap Z Z) (only parsing).

Record ChainState := mkChainState { state_map_ : omap Address CoinMap }.

Module ChainStateOps.
Definition empty : ChainState := mkChainState [].

(** [operator[]] makes a missing coin 0 before the addition; the addition is
    signed.  [insert] reports whether the new address went in. *)
Definition addCoin (st : ChainState) (coin : SmartCoin) : res (bool * ChainState) :=
  match om_find (sc_addr coin) (state_map_ st) with
  | Some inner =>
      v ← add_i64 (default 0 (om_find (sc_coin coin) inner)) (sc_amount coin);
      Ok (true, mkChainState (om_put (sc_addr coin) (om_put (sc_coin coin) v inner)
                                (state_map_ st)))
  | None =>
      let inner := fst (om_insert (sc_coin coin) (sc_amount coin) []) in
      let result := om_insert (sc_addr coin) inner (state_map_ st) in
      Ok (snd result && true, mkChainState (fst result))
  end.

(** An unknown address has nothing; an unknown coin at a known address makes
    [at] throw. *)
Definition getAmount (st : ChainState) (type : Z) (addr : Address) : res Z :=
  match om_find addr (state_map_ st) with
  | Some inner => om_at type inner
  | None => Ok 0
  end.

Definition getStateMap (st : ChainState) : omap Address CoinMap := state_map_ st.
End ChainStateOps.

(** ** Abstract specification *)
Definition coin_amount (coin : Z) (inner : CoinMap) : Z := default 0 (om_find coin inner).

Definition balance (st : ChainState) (addr : Address) (coin : Z) : Z :=
  match om_find addr (state_map_ st) with
  | Some inner => coin_amount coin inner
  | None => 0
  end.

(** Coins of one type over all addresses. *)
Definition supply (coin : Z) (st : ChainState) : Z :=
  om_sum (fun _ inner => coin_amount coin inner) (state_map_ st).

(** The coin is recorded at the address, so that [getAmount] returns. *)
Definition recorded (st : ChainState) (addr : Address) (coin : Z) : bool :=
  match om_find addr (state_map_ st) with
  | Some inner => bool_decide (is_Some (om_find coin inner))
  | None => true
  end.

(** Representation invariant: keys in order at both levels, amounts in range. *)
Definition inner_ok (inner : CoinMap) : Prop :=
  om_sorted inner /\ Forall (fun kv => in_i64 kv.2) inner.

Definition cs_ok (st : ChainState) : Prop :=
  om_sorted (state_map_ st) /\ Forall (fun kv => inner_ok kv.2) (state_map_ st).

(** The change of the balances one coin makes. *)
Definition delta_of (c : SmartCoin) (addr : Address) (coin : Z) : Z :=
  if decide (addr = sc_addr c /\ coin = sc_coin c) then sc_amount c else 0.

Section lemmas.
Implicit Types (st : ChainState) (c : SmartCoin) (addr : Address) (coin : Z).

Lemma coin_amount_put k k' v inner :
  coin_amount k (om_put k' v inner) = if decide (k = k') then v else coin_amount k inner.
Proof.
  unfold coin_amount. case_decide; [subst; by rewrite om_find_put_eq|].
  by rewrite om_find_put_ne.
Qed.

(** Every branch of [addCoin] as one map update. *)
Lemma addCoin_inv st c b st' :
  ChainStateOps.addCoin st c = Ok (b, st') ->
  exists inner,
    inner = default [] (om_find (sc_addr c) (state_map_ st)) /\
    b = true /\
    state_map_ st' =
      om_put (sc_addr c)
        (om_put (sc_coin c) (coin_amount (sc_coin c) inner + sc_amount c) inner)
        (state_map_ st) /\
    (om_find (sc_addr c) (state_map_ st) = None \/
     in_i64 (coin_amount (sc_coin c) inner + sc_amount c)).
Proof.
  unfold ChainStateOps.addCoin, coin_amount. intros H. eexists. split; [reflexivity|].
  destruct (om_find (sc_addr c) (state_map_ st)) as [inner|] eqn:E; simpl in *.
  - apply res_bind_inv_ok in H as (v & Hv & H). apply add_i64_inv in Hv as [-> R].
    simplify_eq. simpl. auto.
  - unfold om_insert in H. rewrite E in H. simpl in H. simplify_eq. simpl. auto.
Qed.

(** [addCoin] refines a pointwise update of the balances. *)
Lemma addCoin_balance st c b st' addr coin :
  ChainStateOps.addCoin st c = Ok (b, st') ->
  balance st' addr coin = balance st addr coin + delta_of c addr coin.
Proof.
  intros (inner & Hi & -> & Hm & _)%addCoin_inv. unfold balance, delta_of. rewrite Hm.
  destruct (decide (addr = sc_addr c)) as [->|N].
  - rewrite om_find_put_eq, coin_amount_put. subst inner.
    destruct (om_find (sc_addr c) (state_map_ st)) eqn:E; simpl; repeat case_decide;
      simplify_eq; try tauto; unfold coin_amount; simpl; try lia.
  - rewrite om_find_put_ne by done. rewrite decide_False by tauto. lia.
Qed.

Lemma addCoin_flag st c b st' : ChainStateOps.addCoin st c = Ok (b, st') -> b = true.
Proof. by intros (? & _ & -> & _)%addCoin_inv. Qed.

Lemma addCoin_recorded st c b st' addr coin :
  ChainStateOps.addCoin st c = Ok (b, st') ->
  (recorded st addr coin = true \/ (addr = sc_addr c /\ coin = sc_coin c)) ->
  addr <> sc_addr c \/ coin = sc_coin c \/ om_find addr (state_map_ st) <> None ->
  recorded st' addr coin = true.
Proof.
  intros (inner & Hi & -> & Hm & _)%addCoin_inv. unfold recorded. rewrite Hm.
  destruct (decide (addr = sc_addr c)) as [->|N].
  - rewrite om_find_put_eq. intros R K. apply bool_decide_eq_true.
    destruct (decide (coin = sc_coin c)) as [->|Nc]; [rewrite om_find_put_eq; eauto|].
    rewrite om_find_put_ne by done. subst inner.
    destruct (om_find (sc_addr c) (state_map_ st)); simpl in *.
    + destruct R as [R|R]; [by apply bool_decide_eq_true in R | tauto].
    + tauto.
  - rewrite om_find_put_ne by done. intros [R|R]; [done | tauto].
Qed.

Lemma addCoin_ok st c b st' :
  cs_ok st -> in_i64 (sc_amount c) -> ChainStateOps.addCoin st c = Ok (b, st') -> cs_ok st'.
Proof.
  intros [S F] Hc (inner & Hi & -> & Hm & R)%addCoin_inv. unfold cs_ok. rewrite Hm.
  split; [by apply om_put_sorted|]. apply om_put_Forall; [done|]. simpl.
  assert (inner_ok inner) as [Si Fi].
  { subst inner. destruct (om_find (sc_addr c) (state_map_ st)) eqn:E; simpl.
    - by apply (om_find_Forall _ _ _ _ F E).
    - by repeat constructor. }
  split; [by apply om_put_sorted|]. apply om_put_Forall; [done|]. simpl.
  destruct R as [E|R]; [|done]. subst inner. rewrite E. simpl. unfold coin_amount. simpl.
  by rewrite Z.add_0_l.
Qed.

Lemma addCoin_supply st c b st' coin :
  cs_ok st -> ChainStateOps.addCoin st c = Ok (b, st') ->
  supply coin st' = supply coin st + (if decide (coin = sc_coin c) then sc_amount c else 0).
Proof.
  intros [S F] (inner & Hi & -> & Hm & _)%addCoin_inv. unfold supply. rewrite Hm.
  rewrite om_sum_put by done. rewrite coin_amount_put. subst inner.
  destruct (om_find (sc_addr c) (state_map_ st)); simpl; case_decide; simplify_eq;
    unfold coin_amount; simpl; lia.
Qed.

Lemma getAmount_balance st type addr v :
  ChainStateOps.getAmount st type addr = Ok v -> v = balance st addr type.
Proof.
  unfold ChainStateOps.getAmount, balance, om_at, coin_amount. intros H.
  repeat case_match; simplify_eq; done.
Qed.

Lemma getAmount_total st type addr :
  ChainStateOps.getAmount st type addr =
    if recorded st addr type then Ok (balance st addr type) else Err OutOfRange.
Proof.
  unfold ChainStateOps.getAmount, recorded, balance, om_at, coin_amount.
  destruct (om_find addr (state_map_ st)) as [inner|]; [|done].
  by destruct (om_find type inner).
Qed.

Lemma balance_in_i64 st addr coin : cs_ok st -> in_i64 (balance st addr coin).
Proof.
  intros [S F]. unfold balance, coin_amount.
  destruct (om_find addr (state_map_ st)) as [inner|] eqn:E; [|unfold in_i64; lia].
  pose proof (om_find_Forall _ _ _ _ F E) as [_ Fi].
  destruct (om_find coin inner) eqn:Ec; simpl; [|unfold in_i64; lia].
  by apply (om_find_Forall _ _ _ _ Fi Ec).
Qed.

(** When the sum fits, [addCoin] returns. *)
Lemma addCoin_total st c :
  in_i64 (balance st (sc_addr c) (sc_coin c) + sc_amount c) ->
  exists st', ChainStateOps.addCoin st c = Ok (true, st').
Proof.
  intros R. unfold ChainStateOps.addCoin, balance, coin_amount in *.
  destruct (om_find (sc_addr c) (state_map_ st)) as [inner|] eqn:E; simpl in *.
  - rewrite add_i64_ok by done. simpl. eauto.
  - unfold om_insert. rewrite E. simpl. eauto.
Qed.
End lemmas.
