(* ===== verification/Summary.v ===== *)
(** * primitives/Summary.h, primitives/Summary.cpp

    The change in chain state caused by a set of transactions: for each address
    a map of delayed coins and a map of immediate coins.  Deltas of delayed
    items are unsigned in the source and wrap modulo 2^64; deltas of immediate
    coins are signed and are added through an unsigned temporary. *)

From Stdlib Require Import ZArith Lia.
From stdpp Require Import base list numbers.
From S2P Require Import Prelude OrdMap Converters Keys Buffers Transfer ChainState.

Record DelayedItem := mkDelayed { di_delay : Z; di_delta : Z }.

(** The constructor takes a signed delta and stores it unsigned. *)
Definition DelayedItem_ctor (delay_val delta_val : Z) : DelayedItem :=
  mkDelayed delay_val (u64 delta_val).

Abbreviation DelayedMap := (omap Z DelayedItem) (only parsing).
Abbreviation SummaryPair := (omap Z DelayedItem * omap Z Z)%type (only parsing).
Abbreviation SummaryMap := (omap Address (omap Z DelayedItem * omap Z Z)) (only parsing).

Definition AddToDelayedMap (coin : Z) (item : DelayedItem) (existing : DelayedMap)
    : bool * DelayedMap :=
  match om_find coin existing with
  | Some the_item =>
      (true, om_put coin (mkDelayed (Z.max (di_delay the_item) (di_delay item))
                                    (u64 (di_delta the_item + di_delta item))) existing)
  | None => (true, fst (om_insert coin item existing))
  end.

Definition AddToCoinMap (coin : Z) (item : DelayedItem) (existing : CoinMap) : bool * CoinMap :=
  match om_find coin existing with
  | Some v =>
      let the_item := u64 v in
      let the_item := u64 (the_item + di_delta item) in
      (true, om_put coin (i64 the_item) existing)
  | None => (true, fst (om_insert coin (i64 (di_delta item)) existing))
  end.

Record Summary := mkSummary { summary_ : SummaryMap }.

Module SummaryOps.
Definition Create : Summary := mkSummary [].
Definition Copy (s : Summary) : Summary := mkSummary (summary_ s).
Definition MinSize : Z := 4.

(** [addItem(addr, coin, item)]: the summary and whether it was added. *)
Definition addItem (s : Summary) (addr : Address) (coin : Z) (item : DelayedItem)
    : bool * Summary :=
  match om_find addr (summary_ s) with
  | Some existing =>
      if 0 <? di_delay item then
        let '(ok, delayed) := AddToDelayedMap coin item existing.1 in
        if negb ok then (false, s)
        else (true, mkSummary (om_put addr (delayed, existing.2) (summary_ s)))
      else
        let '(ok, the_map) := AddToCoinMap coin item existing.2 in
        if negb ok then (false, s)
        else (true, mkSummary (om_put addr (existing.1, the_map) (summary_ s)))
  | None =>
      let new_summary :=
        if 0 <? di_delay item
        then (fst (om_insert coin item []), [])
        else ([], fst (om_insert coin (i64 (di_delta item)) [])) in
      (true, mkSummary (fst (om_insert addr new_summary (summary_ s))))
  end.

(** The overload that takes the delta and the delay. *)
Definition addItem_delta (s : Summary) (addr : Address) (coin_type delta delay : Z)
    : bool * Summary :=
  addItem s addr coin_type (DelayedItem_ctor delay delta).

Definition addTransfer (s : Summary) (t : Transfer) : res (bool * Summary) :=
  delay ← TransferOps.getDelay t;
  amount ← TransferOps.getAmount t;
  addr ← TransferOps.getAddress t;
  coin ← TransferOps.getCoin t;
  Ok (addItem s addr coin (DelayedItem_ctor delay amount)).

(** One delayed coin, one coin and one address on the wire. *)
Definition delayed_canonical (kv : Z * DelayedItem) : bytes :=
  Int64ToBin (i64 (di_delta kv.2)) (Uint64ToBin (di_delay kv.2) (Uint64ToBin kv.1 [])).

Definition coin_canonical (kv : Z * Z) : bytes :=
  Int64ToBin kv.2 (Uint64ToBin kv.1 []).

Definition addr_canonical (kv : Address * SummaryPair) : bytes :=
  Uint64ToBin (zlen kv.2.2) (Uint64ToBin (zlen kv.2.1) (AddressOps.getCanonical kv.1))
    ++ concat (delayed_canonical <$> kv.2.1)
    ++ concat (coin_canonical <$> kv.2.2).

Definition getCanonical (s : Summary) : bytes :=
  Uint32ToBin (u32 (zlen (summary_ s))) [] ++ concat (addr_canonical <$> summary_ s).

Definition getByteSize (s : Summary) : Z := zlen (getCanonical s).

Definition addr_transfers (kv : Address * SummaryPair) : list Transfer :=
  ((fun d => TransferOps.ctor kv.1 d.1 (i64 (di_delta d.2)) (di_delay d.2)) <$> kv.2.1)
    ++ ((fun c => TransferOps.ctor kv.1 c.1 c.2 0) <$> kv.2.2).

Definition getTransfers (s : Summary) : list Transfer :=
  concat (addr_transfers <$> summary_ s).

Definition getTransferCount (s : Summary) : Z :=
  foldl (fun n kv => n + zlen kv.2.1 + zlen kv.2.2) 0 (summary_ s).

Definition getCoinsByAddr (s : Summary) (addr : Address) (elapsed : Z) : list SmartCoin :=
  match om_find addr (summary_ s) with
  | Some existing =>
      ((fun d => mkSmartCoin addr d.1 (i64 (di_delta d.2)))
         <$> filter (fun d => (di_delay d.2 <? elapsed) = true) existing.1)
      ++ ((fun c => mkSmartCoin addr c.1 c.2) <$> existing.2)
  | None => []
  end.

(** The running total of [isSane], an unsigned 64-bit sum over all coins. *)
Definition coin_total (s : Summary) : Z :=
  foldl (fun t kv =>
           foldl (fun t c => u64 (t + c.2))
             (foldl (fun t d => u64 (t + di_delta d.2)) t kv.2.1) kv.2.2)
    0 (summary_ s).

Definition isSane (s : Summary) : bool :=
  match summary_ s with
  | [] => false
  | _ => coin_total s =? 0
  end.

(** The readers of [Create(InputBuffer&)]; [insert] keeps the first binding
    of a repeated key. *)
Definition read_delayed (delayed : DelayedMap) : P DelayedMap :=
  coin ← Buf.getNextUint64 true;
  delay ← Buf.getNextUint64 true;
  delta ← Buf.getNextUint64 true;
  mret (fst (om_insert coin (DelayedItem_ctor delay (i64 delta)) delayed)).

Definition read_coin (coin_map : CoinMap) : P CoinMap :=
  coin ← Buf.getNextUint64 true;
  delta ← Buf.getNextUint64 true;
  mret (fst (om_insert coin (i64 delta) coin_map)).

Definition read_addr (m : SummaryMap) : P SummaryMap :=
  one_addr ← Buf.copyAddress true;
  delayed_count ← Buf.getNextUint64 true;
  coin_count ← Buf.getNextUint64 true;
  delayed ← count_fold 1 read_delayed delayed_count [];
  coin_map ← count_fold 1 read_coin coin_count [];
  mret (fst (om_insert one_addr (delayed, coin_map) m)).

Definition from_buffer : P Summary :=
  sz ← Buf.size;
  off ← Buf.getOffset;
  if sz <? u64 (MinSize + off) then throw RuntimeError
  else
    addr_count ← Buf.getNextUint32 true;
    m ← count_fold 1 read_addr addr_count [];
    mret (mkSummary m).
End SummaryOps.

Import SummaryOps.

(** ** Invariant *)
Definition delayed_ok (kv : Z * DelayedItem) : Prop :=
  in_u64 kv.1 /\ in_u64 (di_delay kv.2) /\ in_u64 (di_delta kv.2).
Definition coin_ok (kv : Z * Z) : Prop := in_u64 kv.1 /\ in_i64 kv.2.

Definition pair_ok (kv : Address * SummaryPair) : Prop :=
  addr_wf kv.1 /\
  om_sorted kv.2.1 /\ Forall delayed_ok kv.2.1 /\
  om_sorted kv.2.2 /\ Forall coin_ok kv.2.2.

Definition summary_ok (s : Summary) : Prop :=
  om_sorted (summary_ s) /\ Forall pair_ok (summary_ s).

(** ** Preservation *)
Lemma delayed_ctor_ok coin delay delta :
  in_u64 coin -> in_u64 delay -> delayed_ok (coin, DelayedItem_ctor delay delta).
Proof. intros. repeat split; simpl; try apply u64_range; try done; try apply H; apply H0. Qed.

Lemma AddToDelayedMap_ok coin item m :
  om_sorted m -> Forall delayed_ok m -> delayed_ok (coin, item) ->
  om_sorted (AddToDelayedMap coin item m).2 /\ Forall delayed_ok (AddToDelayedMap coin item m).2.
Proof.
  intros S F D. unfold AddToDelayedMap, om_insert.
  destruct (om_find coin m) as [it|] eqn:E; simpl;
    (split; [by apply om_put_sorted | apply om_put_Forall; [done|]]); [|done].
  pose proof (om_find_Forall _ _ _ _ F E) as (A1 & A2 & A3). destruct D as (B1 & B2 & B3).
  simpl in *. repeat split; simpl; try apply u64_range; try apply B1;
    unfold in_u64 in *; lia.
Qed.

Lemma AddToCoinMap_ok coin item m :
  om_sorted m -> Forall coin_ok m -> in_u64 coin ->
  om_sorted (AddToCoinMap coin item m).2 /\ Forall coin_ok (AddToCoinMap coin item m).2.
Proof.
  intros S F D. unfold AddToCoinMap, om_insert.
  destruct (om_find coin m) as [it|] eqn:E; simpl;
    (split; [by apply om_put_sorted | apply om_put_Forall; [done|]]);
    (split; [done | apply i64_range]).
Qed.

(** [addItem] as one update of the binding of [addr]. *)
Definition item_update (coin : Z) (item : DelayedItem) (p : SummaryPair) : SummaryPair :=
  if 0 <? di_delay item
  then ((AddToDelayedMap coin item p.1).2, p.2)
  else (p.1, (AddToCoinMap coin item p.2).2).

Lemma addItem_update s addr coin item :
  addItem s addr coin item =
    (true, mkSummary (om_put addr
             (item_update coin item (default ([], []) (om_find addr (summary_ s))))
             (summary_ s))).
Proof.
  unfold addItem, item_update. destruct (om_find addr (summary_ s)) as [[d c]|] eqn:E.
  - unfold AddToDelayedMap, AddToCoinMap. simpl.
    by destruct (0 <? di_delay item), (om_find coin d), (om_find coin c).
  - rewrite (om_insert_None addr) by done. by case_match.
Qed.

Lemma addItem_ok s addr coin item :
  summary_ok s -> addr_wf addr -> delayed_ok (coin, item) ->
  summary_ok (addItem s addr coin item).2.
Proof.
  intros [S F] W D. rewrite addItem_update. simpl.
  split; [by apply om_put_sorted|]. apply om_put_Forall; [done|].
  assert (pair_ok (addr, default ([], []) (om_find addr (summary_ s)))) as (_ & S1 & F1 & S2 & F2).
  { destruct (om_find addr (summary_ s)) eqn:E; simpl.
    - by apply (om_find_Forall _ _ _ _ F E).
    - repeat constructor; done. }
  unfold item_update. case_match; (split; [done|]); cbn [fst snd] in *.
  - pose proof (AddToDelayedMap_ok coin item _ S1 F1 D) as []. done.
  - pose proof (AddToCoinMap_ok coin item _ S2 F2 (proj1 D)) as []. done.
Qed.

Lemma Copy_id s : Copy s = s.
Proof. by destruct s. Qed.

Lemma Create_ok : summary_ok Create.
Proof. split; simpl; constructor. Qed.

#[export] Hint Resolve addItem_ok Create_ok delayed_ctor_ok : devv.

(** ** Round trip *)
Lemma delayed_canonical_eq kv :
  delayed_canonical kv =
    Uint64ToBin kv.1 [] ++ Uint64ToBin (di_delay kv.2) [] ++ Int64ToBin (i64 (di_delta kv.2)) [].
Proof.
  unfold delayed_canonical. rewrite Int64ToBin_app, (Uint64ToBin_app (di_delay _)).
  by rewrite <- app_assoc.
Qed.

Lemma coin_canonical_eq kv :
  coin_canonical kv = Uint64ToBin kv.1 [] ++ Int64ToBin kv.2 [].
Proof. unfold coin_canonical. by rewrite Int64ToBin_app. Qed.

Lemma delayed_canonical_length kv : zlen (delayed_canonical kv) = 24.
Proof. done. Qed.

Lemma coin_canonical_length kv : zlen (coin_canonical kv) = 16.
Proof. done. Qed.

Lemma read_delayed_parses kv m :
  delayed_ok kv ->
  parses (read_delayed m) (delayed_canonical kv) (fst (om_insert kv.1 kv.2 m)).
Proof.
  destruct kv as [k [dl dt]]. intros (Hk & Hd & Ht). simpl in *.
  rewrite delayed_canonical_eq. unfold read_delayed.
  eapply parses_bind; [by apply parses_uint64|].
  eapply parses_bind; [by apply parses_uint64|].
  cbn [fst snd di_delay di_delta].
  replace (om_insert k (mkDelayed dl dt) m)
    with (om_insert k (DelayedItem_ctor dl (i64 (u64 (i64 dt)))) m).
  - apply (parses_fmap _ (fun d => fst (om_insert k (DelayedItem_ctor dl (i64 d)) m))).
    apply parses_int64_as_u64, i64_range.
  - unfold DelayedItem_ctor. by rewrite !u64_i64, !(u64_id dt) by done.
Qed.

Lemma read_coin_parses kv m :
  coin_ok kv -> parses (read_coin m) (coin_canonical kv) (fst (om_insert kv.1 kv.2 m)).
Proof.
  destruct kv as [k v]. intros (Hk & Hv). simpl in *.
  rewrite coin_canonical_eq. unfold read_coin.
  eapply parses_bind; [by apply parses_uint64|].
  replace v with (i64 (u64 v)) at 2 by (by apply i64_u64_id).
  apply (parses_fmap _ (fun d => fst (om_insert k (i64 d) m))). by apply parses_int64_as_u64.
Qed.

Lemma addr_canonical_eq kv :
  addr_canonical kv =
    a_canonical kv.1 ++ Uint64ToBin (zlen kv.2.1) [] ++ Uint64ToBin (zlen kv.2.2) [] ++
    concat (delayed_canonical <$> kv.2.1) ++ concat (coin_canonical <$> kv.2.2).
Proof.
  unfold addr_canonical, AddressOps.getCanonical.
  rewrite Uint64ToBin_app, (Uint64ToBin_app (zlen kv.2.1)). by rewrite <- !app_assoc.
Qed.

Lemma zlen_addr_canonical kv :
  zlen (addr_canonical kv) = AddressOps.size kv.1 + 16 + 24 * zlen kv.2.1 + 16 * zlen kv.2.2.
Proof.
  rewrite addr_canonical_eq. autorewrite with devv_rw. unfold AddressOps.size.
  assert (forall l, zlen (concat (delayed_canonical <$> l)) = 24 * zlen l) as ->.
  { induction l as [|x l IH]; [done|]. rewrite fmap_cons. cbn [concat].
    rewrite zlen_app, zlen_cons, IH, delayed_canonical_length. lia. }
  assert (forall l, zlen (concat (coin_canonical <$> l)) = 16 * zlen l) as ->.
  { induction l as [|x l IH]; [done|]. rewrite fmap_cons. cbn [concat].
    rewrite zlen_app, zlen_cons, IH, coin_canonical_length. lia. }
  lia.
Qed.

Lemma read_addr_parses kv m :
  pair_ok kv -> parses (read_addr m) (addr_canonical kv) (fst (om_insert kv.1 kv.2 m)).
Proof.
  intros (W & S1 & F1 & S2 & F2). apply parses_small. intros Hs.
  rewrite zlen_addr_canonical in Hs.
  destruct kv as [a [d c]]. cbn [fst snd] in *.
  pose proof (zlen_nonneg d). pose proof (zlen_nonneg c).
  pose proof (zlen_nonneg (a_canonical a)). unfold AddressOps.size in Hs.
  rewrite addr_canonical_eq. cbn [fst snd]. unfold read_addr.
  eapply parses_bind; [by apply parses_address|].
  eapply parses_bind; [apply parses_uint64; unfold in_u64; lia|].
  eapply parses_bind; [apply parses_uint64; unfold in_u64; lia|].
  eapply parses_bind.
  { apply (count_fold_parses 1 _ _ (fun acc kv => fst (om_insert kv.1 kv.2 acc))); [lia | lia | |].
    - eapply Forall_impl; [|exact F1]. intros ? D acc. by apply read_delayed_parses.
    - apply Forall_true. intros. by rewrite delayed_canonical_length. }
  change (foldl _ [] d) with (om_insert_all d []). rewrite om_insert_all_nil by done.
  replace c with (om_insert_all c []) at 3 by (by apply om_insert_all_nil).
  apply (parses_fmap _ (fun cm => fst (om_insert a (d, cm) m))).
  apply (count_fold_parses 1 _ _ (fun acc kv => fst (om_insert kv.1 kv.2 acc))); [lia | lia | |].
  - eapply Forall_impl; [|exact F2]. intros ? D acc. by apply read_coin_parses.
  - apply Forall_true. intros. by rewrite coin_canonical_length.
Qed.

Lemma addr_canonical_pos kv : 0 < zlen (addr_canonical kv).
Proof.
  rewrite zlen_addr_canonical. unfold AddressOps.size.
  pose proof (zlen_nonneg (a_canonical kv.1)). pose proof (zlen_nonneg kv.2.1).
  pose proof (zlen_nonneg kv.2.2). lia.
Qed.

Lemma parses_summary s :
  summary_ok s -> zlen (summary_ s) < 2 ^ 32 ->
  parses SummaryOps.from_buffer (SummaryOps.getCanonical s) s.
Proof.
  intros [S F] Hn pre rest Hl. pose proof (zlen_nonneg (summary_ s)).
  unfold SummaryOps.getCanonical in *. rewrite u32_id in * by (unfold in_u32; lia).
  unfold SummaryOps.from_buffer. mstep.
  assert (zlen (Uint32ToBin (zlen (summary_ s)) []) = 4) as L4 by done.
  rewrite (proj2 (Z.ltb_ge _ _)).
  - replace s with (mkSummary (om_insert_all (summary_ s) [])) at 3
      by (rewrite om_insert_all_nil by done; by destruct s).
    revert pre rest Hl. change (parses (addr_count ← Buf.getNextUint32 true;
      m ← count_fold 1 read_addr addr_count []; mret (mkSummary m))
      (Uint32ToBin (zlen (summary_ s)) [] ++ concat (addr_canonical <$> summary_ s))
      (mkSummary (om_insert_all (summary_ s) []))).
    eapply parses_bind; [apply parses_uint32; unfold in_u32; lia|].
    apply (parses_fmap _ mkSummary).
    apply (count_fold_parses 1 _ _ (fun acc kv => fst (om_insert kv.1 kv.2 acc))); [lia | lia | |].
    + eapply Forall_impl; [|exact F]. intros ? D acc. by apply read_addr_parses.
    + apply Forall_true. intros. apply addr_canonical_pos.
  - unfold SummaryOps.MinSize. rewrite !zlen_app, L4 in *.
    pose proof (zlen_nonneg pre). pose proof (zlen_nonneg rest).
    pose proof (zlen_nonneg (concat (addr_canonical <$> summary_ s))).
    rewrite u64_id by (unfold in_u64; lia). lia.
Qed.

(** The size of a summary on the wire. *)
Lemma summary_byte_size s :
  SummaryOps.getByteSize s =
    4 + om_sum (fun a p => AddressOps.size a + 16 + 24 * zlen p.1 + 16 * zlen p.2) (summary_ s).
Proof.
  unfold SummaryOps.getByteSize, SummaryOps.getCanonical. rewrite zlen_app.
  change (zlen (Uint32ToBin _ [])) with 4. f_equal.
  induction (summary_ s) as [|kv m IH]; [done|]. rewrite fmap_cons. cbn [concat om_sum foldr].
  rewrite zlen_app, zlen_addr_canonical, IH. done.
Qed.

(** ** Totals

    [summary_sum] is the exact sum of all deltas; the program only ever sees it
    modulo 2^64. *)
Definition delayed_sum (m : DelayedMap) : Z := om_sum (fun _ d => di_delta d) m.
Definition coins_sum (m : CoinMap) : Z := om_sum (fun _ v => v) m.
Definition pair_sum (p : SummaryPair) : Z := delayed_sum p.1 + coins_sum p.2.
Definition summary_sum (s : Summary) : Z := om_sum (fun _ p => pair_sum p) (summary_ s).

Lemma fold_u64 {A} (g : A -> Z) l t :
  foldl (fun t x => u64 (t + g x)) t l = u64 (t + foldr (fun x acc => g x + acc) 0 l)
  \/ l = [].
Proof.
  revert t; induction l as [|x l IH]; intros t; [by right|]. left. cbn [foldl foldr].
  destruct (IH (u64 (t + g x))) as [-> | ->].
  - rewrite u64_add_l. f_equal. lia.
  - simpl. f_equal. lia.
Qed.

Lemma fold_u64_u64 {A} (g : A -> Z) l t :
  u64 (foldl (fun t x => u64 (t + g x)) t l) = u64 (t + foldr (fun x acc => g x + acc) 0 l).
Proof.
  destruct (fold_u64 g l t) as [-> | ->]; [by rewrite u64_id by apply u64_range|].
  simpl. by rewrite Z.add_0_r.
Qed.

(** One address of [isSane]'s loop. *)
Definition total_step (t : Z) (kv : Address * SummaryPair) : Z :=
  foldl (fun t c => u64 (t + c.2)) (foldl (fun t d => u64 (t + di_delta d.2)) t kv.2.1) kv.2.2.

Lemma total_step_sum t kv : u64 (total_step t kv) = u64 (t + pair_sum kv.2).
Proof.
  destruct kv as [a [d c]]. unfold total_step. cbn [fst snd].
  rewrite (fold_u64_u64 (fun c : Z * Z => c.2)).
  rewrite <- u64_add_l, (fold_u64_u64 (fun d : Z * DelayedItem => di_delta d.2)), u64_add_l.
  f_equal. unfold pair_sum, delayed_sum, coins_sum, om_sum. simpl. lia.
Qed.

Lemma total_step_range t kv : in_u64 t -> in_u64 (total_step t kv).
Proof.
  intros I. destruct kv as [a [d c]]. unfold total_step. cbn [fst snd].
  destruct (fold_u64 (fun c : Z * Z => c.2) c
    (foldl (fun t d => u64 (t + di_delta d.2)) t d)) as [-> | ->]; [apply u64_range|].
  simpl. destruct (fold_u64 (fun d : Z * DelayedItem => di_delta d.2) d t) as [-> | ->];
    [apply u64_range | done].
Qed.

Lemma total_fold m t :
  u64 (foldl total_step t m) = u64 (t + om_sum (fun (_ : Address) p => pair_sum p) m).
Proof.
  revert t; induction m as [|kv m IH]; intros t; [simpl; by rewrite Z.add_0_r|].
  cbn [foldl om_sum foldr]. rewrite IH. rewrite <- u64_add_l, total_step_sum, u64_add_l.
  f_equal. unfold om_sum. lia.
Qed.

Lemma total_fold_range m t : in_u64 t -> in_u64 (foldl total_step t m).
Proof. revert t; induction m as [|kv m IH]; intros t I; [done|]. by apply IH, total_step_range. Qed.

Lemma coin_total_sum s : coin_total s = u64 (summary_sum s).
Proof.
  change (coin_total s) with (foldl total_step 0 (summary_ s)).
  rewrite <- (u64_id (foldl _ _ _)) by (apply total_fold_range; unfold in_u64; lia).
  by rewrite total_fold.
Qed.

Lemma isSane_spec s : isSane s = true <-> summary_ s <> [] /\ u64 (summary_sum s) = 0.
Proof.
  rewrite <- coin_total_sum.
  unfold isSane. destruct (summary_ s); [split; [done | tauto]|].
  rewrite Z.eqb_eq. split; [done | tauto].
Qed.

Lemma u64_sub_add a b c : u64 (a + u64 b - c) = u64 (a + b - c).
Proof.
  replace (a + u64 b - c) with (a - c + u64 b) by lia. rewrite u64_add_r. f_equal. lia.
Qed.

Lemma AddToDelayedMap_sum coin item m :
  om_sorted m ->
  u64 (delayed_sum (AddToDelayedMap coin item m).2) = u64 (delayed_sum m + di_delta item).
Proof.
  intros S. unfold AddToDelayedMap, delayed_sum. destruct (om_find coin m) as [it|] eqn:E; simpl.
  - rewrite om_sum_put, E by done. simpl. rewrite u64_sub_add. f_equal. lia.
  - rewrite om_insert_None by done. simpl. rewrite om_sum_put, E by done. f_equal. lia.
Qed.

Lemma u64_add_i64 a b c : u64 (a + i64 b - c) = u64 (a + b - c).
Proof. rewrite <- (u64_sub_add a (i64 b)), u64_i64. apply u64_sub_add. Qed.

Lemma AddToCoinMap_sum coin item m :
  om_sorted m ->
  u64 (coins_sum (AddToCoinMap coin item m).2) = u64 (coins_sum m + di_delta item).
Proof.
  intros S. unfold AddToCoinMap, coins_sum. destruct (om_find coin m) as [v|] eqn:E; simpl.
  - rewrite om_sum_put, E by done. rewrite u64_add_i64, u64_sub_add.
    replace (om_sum (fun _ v => v) m + (u64 v + di_delta item) - v)
      with (om_sum (fun _ v => v) m + u64 v - (v - di_delta item)) by lia.
    rewrite u64_sub_add. f_equal. lia.
  - rewrite om_insert_None by done. simpl. rewrite om_sum_put, E by done.
    rewrite u64_add_i64. f_equal. lia.
Qed.

Lemma u64_cong_l a b c : u64 a = u64 b -> u64 (a + c) = u64 (b + c).
Proof. intros E. by rewrite <- u64_add_l, E, u64_add_l. Qed.

(** Adding an item changes the total by its delta. *)
Lemma addItem_sum s addr coin item :
  summary_ok s ->
  u64 (summary_sum (addItem s addr coin item).2) = u64 (summary_sum s + di_delta item).
Proof.
  intros [S F]. rewrite addItem_update. unfold summary_sum. cbn [snd summary_].
  rewrite om_sum_put by done.
  set (p := default ([], []) (om_find addr (summary_ s))).
  assert (u64 (pair_sum (item_update coin item p)) = u64 (pair_sum p + di_delta item)) as E.
  { assert (om_sorted p.1 /\ om_sorted p.2) as [S1 S2].
    { subst p. destruct (om_find addr (summary_ s)) eqn:Ef; simpl; [|done].
      pose proof (om_find_Forall _ _ _ _ F Ef) as (_ & ? & _ & ? & _). done. }
    unfold item_update, pair_sum. case_match; cbn [fst snd].
    - rewrite (u64_cong_l _ _ _ (AddToDelayedMap_sum coin item _ S1)).
      f_equal. apply Z.add_shuffle0.
    - rewrite !(Z.add_comm (delayed_sum p.1)),
        (u64_cong_l _ _ _ (AddToCoinMap_sum coin item _ S2)). f_equal. apply Z.add_shuffle0. }
  replace (match om_find addr (summary_ s) with Some v' => pair_sum v' | None => 0 end)
    with (pair_sum p) by (subst p; by destruct (om_find addr (summary_ s))).
  rewrite <- u64_sub_add, E, u64_sub_add. f_equal. lia.
Qed.

Lemma addItem_nonempty s addr coin item : summary_ (addItem s addr coin item).2 <> [].
Proof.
  rewrite addItem_update. simpl. intros E.
  pose proof (om_find_put_eq addr (item_update coin item
    (default ([], []) (om_find addr (summary_ s)))) (summary_ s)) as F.
  by rewrite E in F.
Qed.

(** ** Reading stops *)
Lemma read_delayed_consumes m : consumes 1 (read_delayed m).
Proof.
  apply (consumes_weaken (8 + (8 + (8 + 0)))); [lia|].
  repeat (apply consumes_bind; [auto with devv | intros]). apply consumes_ret.
Qed.

Lemma read_coin_consumes m : consumes 1 (read_coin m).
Proof.
  apply (consumes_weaken (8 + (8 + 0))); [lia|].
  repeat (apply consumes_bind; [auto with devv | intros]). apply consumes_ret.
Qed.

Lemma read_delayed_total m : total (read_delayed m).
Proof. repeat (eapply total_bind; [auto with devv.. | intros]). apply total_ret. Qed.

Lemma read_coin_total m : total (read_coin m).
Proof. repeat (eapply total_bind; [auto with devv.. | intros]). apply total_ret. Qed.

Lemma read_addr_consumes m : consumes 1 (read_addr m).
Proof.
  apply (consumes_weaken (1 + (8 + (8 + (0 + (0 + 0)))))); [lia|].
  do 3 (apply consumes_bind; [auto with devv | intros]).
  apply consumes_bind; [apply count_fold_consumes, read_delayed_consumes | intros].
  apply consumes_bind; [apply count_fold_consumes, read_coin_consumes | intros].
  apply consumes_ret.
Qed.

Lemma read_addr_total m : total (read_addr m).
Proof.
  do 3 (eapply total_bind; [auto with devv.. | intros]).
  eapply total_bind;
    [apply count_fold_consumes, read_delayed_consumes
    |apply count_fold_terminates; [apply read_delayed_consumes | apply read_delayed_total] | intros].
  eapply total_bind;
    [apply count_fold_consumes, read_coin_consumes
    |apply count_fold_terminates; [apply read_coin_consumes | apply read_coin_total] | intros].
  apply total_ret.
Qed.

Lemma summary_from_buffer_total : total SummaryOps.from_buffer.
Proof.
  intros b I. unfold SummaryOps.from_buffer. mstep. case_match; [done|].
  revert b I H. intros b I _. revert b I.
  eapply total_bind; [auto with devv.. | intros].
  eapply total_bind; [apply count_fold_consumes, read_addr_consumes
    | apply count_fold_terminates; [apply read_addr_consumes | apply read_addr_total]
    | intros; apply total_ret].
Qed.

Lemma summary_from_buffer_consumes : consumes 4 SummaryOps.from_buffer.
Proof.
  intros b x b' I H. unfold SummaryOps.from_buffer in H. autorewrite with mrun in H.
  case_match; [done|]. revert b x b' I H H0.
  intros b x b' I H _. revert b x b' I H.
  change (consumes (4 + (0 + 0)) (addr_count ← Buf.getNextUint32 true;
    m ← count_fold 1 read_addr addr_count []; mret (mkSummary m))).
  apply consumes_bind; [auto with devv | intros].
  apply consumes_bind; [apply count_fold_consumes, read_addr_consumes | intros; apply consumes_ret].
Qed.

(** ** Transfers of a summary *)
Lemma transfer_count_length s :
  SummaryOps.getTransferCount s = zlen (SummaryOps.getTransfers s).
Proof.
  unfold SummaryOps.getTransferCount, SummaryOps.getTransfers.
  rewrite <- (Z.add_0_l (zlen _)). generalize 0 as n.
  induction (summary_ s) as [|[a [d c]] m IH]; intros n; [simpl; by rewrite zlen_nil, Z.add_0_r|].
  cbn [foldl]. rewrite IH, fmap_cons. cbn [concat fst snd].
  rewrite zlen_app. unfold addr_transfers. rewrite zlen_app. cbn [fst snd].
  unfold zlen. rewrite !length_fmap. lia.
Qed.
