(* ===== verification/Validation.v ===== *)
(** * primitives/Validation.h

    The validations of a block: a map from node addresses to their signatures
    of the block's summary. *)

From Stdlib Require Import ZArith Lia.
From stdpp Require Import base list numbers.
From S2P Require Import Prelude OrdMap Converters Keys Buffers.

Record Validation := mkValidation { sigs_ : omap Address Signature }.

Module ValidationOps.
Definition Create : Validation := mkValidation [].

(** Only the sizes are checked; an existing entry for the node stays. *)
Definition addValidation (v : Validation) (node : Address) (sig : Signature)
    : res (bool * Validation) :=
  if negb (AddressOps.size node =? kNODE_ADDR_BUF_SIZE) then Err RuntimeError
  else if negb (SignatureOps.size sig =? kNODE_SIG_BUF_SIZE) then Err RuntimeError
  else Ok (true, mkValidation (fst (om_insert node sig (sigs_ v)))).

(** The overload that merges another object's entries. *)
Definition addValidation_all (v other : Validation) : bool * Validation :=
  (true, mkValidation (om_insert_all (sigs_ other) (sigs_ v))).

Definition getFirstValidation (v : Validation) : res (Address * Signature) :=
  match sigs_ v with
  | [] => Err RangeError
  | x :: _ => Ok (x.1, x.2)
  end.

Definition pair_canonical (item : Address * Signature) : bytes :=
  AddressOps.getCanonical item.1 ++ SignatureOps.getCanonical item.2.

Definition getCanonical (v : Validation) : bytes := concat (pair_canonical <$> sigs_ v).

(** Both return [unsigned int]. *)
Definition getByteSize (v : Validation) : Z := u32 (zlen (getCanonical v)).
Definition getValidationCount (v : Validation) : Z := u32 (zlen (sigs_ v)).

Definition pairSize : Z := kNODE_ADDR_BUF_SIZE + kNODE_SIG_BUF_SIZE.

Definition getValidationMap (v : Validation) : omap Address Signature := sigs_ v.

Definition read_pair (m : omap Address Signature) : P (omap Address Signature) :=
  one_addr ← Buf.copyAddress true;
  one_sig ← Buf.copySignature true;
  mret (fst (om_insert one_addr one_sig m)).

(** [Create(InputBuffer&)] reads pairs while a whole pair fits in what is
    left of the buffer, counting each pair as [pairSize] bytes. *)
Definition from_buffer : P Validation :=
  sz ← Buf.size;
  off ← Buf.getOffset;
  m ← count_fold pairSize read_pair (u64 (sz - off)) [];
  mret (mkValidation m).

(** [Create(InputBuffer&, uint32_t count)] reads [count] pairs; a buffer that
    looks too small only logs a warning. *)
Definition from_buffer_count (count : Z) : P Validation :=
  m ← count_fold 1 read_pair count [];
  mret (mkValidation m).
End ValidationOps.

Import ValidationOps.

(** ** Invariant: node addresses with node signatures, in order. *)
Definition val_pair_ok (kv : Address * Signature) : Prop := node_addr kv.1 /\ node_sig kv.2.

Definition val_ok (v : Validation) : Prop :=
  om_sorted (sigs_ v) /\ Forall val_pair_ok (sigs_ v).

Lemma val_Create_ok : val_ok ValidationOps.Create.
Proof. split; constructor. Qed.

Lemma addValidation_ok v node sig b v' :
  val_ok v -> addr_wf node -> sig_wf sig ->
  addValidation v node sig = Ok (b, v') -> val_ok v' /\ b = true.
Proof.
  intros [S F] Wa Ws H. unfold addValidation in H.
  destruct (AddressOps.size node =? _) eqn:E1; [|done].
  destruct (SignatureOps.size sig =? _) eqn:E2; [|done]. simpl in H. simplify_eq.
  bool_to_prop. split; [|done]. split; simpl; [by apply om_insert_sorted|].
  unfold om_insert. case_match; simpl; [done|]. apply om_put_Forall; [done|].
  split; [by apply node_addr_of_size | by apply node_sig_of_size].
Qed.

Lemma om_insert_all_Forall {K V} `{KeyOrdLaws K} (P : K * V -> Prop) (xs m : omap K V) :
  Forall P xs -> Forall P m -> Forall P (om_insert_all xs m).
Proof.
  revert m; induction xs as [|[k v] xs IH]; intros m Fx Fm; [done|]. inversion Fx; subst.
  simpl. apply IH; [done|]. unfold om_insert. case_match; simpl; [done|].
  by apply om_put_Forall.
Qed.

Lemma addValidation_all_ok v other :
  val_ok v -> val_ok other -> val_ok (addValidation_all v other).2.
Proof.
  intros [S F] [S' F']. split; simpl; [by apply om_insert_all_sorted|].
  by apply om_insert_all_Forall.
Qed.

(** ** Round trips *)
Lemma pair_canonical_length kv : val_pair_ok kv -> zlen (pair_canonical kv) = pairSize.
Proof.
  intros [A S]. unfold pair_canonical, AddressOps.getCanonical, SignatureOps.getCanonical.
  rewrite zlen_app. apply node_addr_size in A. apply node_sig_size in S.
  unfold AddressOps.size, SignatureOps.size, pairSize in *. lia.
Qed.

Lemma val_canonical_length v :
  Forall val_pair_ok (sigs_ v) -> zlen (ValidationOps.getCanonical v) = pairSize * zlen (sigs_ v).
Proof.
  unfold ValidationOps.getCanonical. induction 1 as [|kv m Hkv F IH]; [done|].
  rewrite fmap_cons. cbn [concat]. rewrite zlen_app, zlen_cons, IH, pair_canonical_length by done.
  lia.
Qed.

Lemma read_pair_parses kv m :
  val_pair_ok kv -> parses (read_pair m) (pair_canonical kv) (fst (om_insert kv.1 kv.2 m)).
Proof.
  intros [A S]. unfold read_pair, pair_canonical.
  eapply parses_bind; [apply parses_address; by apply node_addr_wf|].
  apply (parses_fmap _ (fun s => fst (om_insert kv.1 s m))).
  apply parses_signature. by apply node_sig_wf.
Qed.

Lemma read_pairs_parses d rem v :
  val_ok v -> 0 < d -> d * zlen (sigs_ v) <= rem < d * zlen (sigs_ v) + d ->
  parses (count_fold d read_pair rem []) (ValidationOps.getCanonical v) (sigs_ v).
Proof.
  intros [S F] Hd Hr.
  assert (om_insert_all (sigs_ v) [] = sigs_ v) as <- by (by apply om_insert_all_nil).
  unfold ValidationOps.getCanonical.
  apply (count_fold_parses d _ _ (fun acc kv => fst (om_insert kv.1 kv.2 acc))); [done..| |].
  - eapply Forall_impl; [|exact F]. intros ? D acc. by apply read_pair_parses.
  - eapply Forall_impl; [|exact F]. intros ? D. rewrite pair_canonical_length by done. done.
Qed.

Lemma parses_validation_count v :
  val_ok v -> parses (from_buffer_count (zlen (sigs_ v))) (ValidationOps.getCanonical v) v.
Proof.
  intros V. unfold from_buffer_count. destruct v as [m]. cbn [sigs_] in *.
  apply (parses_fmap _ mkValidation). apply (read_pairs_parses 1 _ (mkValidation m)); simpl; lia || done.
Qed.

(** At the end of a buffer the open-ended reader finds every pair. *)
Lemma parses_validation_end v :
  val_ok v -> parses_end ValidationOps.from_buffer (ValidationOps.getCanonical v) v.
Proof.
  intros V pre Hl. unfold ValidationOps.from_buffer. mstep.
  rewrite zlen_app in *. pose proof (zlen_nonneg pre).
  pose proof (val_canonical_length v (proj2 V)) as L.
  pose proof (zlen_nonneg (ValidationOps.getCanonical v)).
  rewrite u64_id by (unfold in_u64; lia).
  replace (zlen pre + _ - zlen pre) with (zlen (ValidationOps.getCanonical v)) by lia.
  assert (parses (count_fold pairSize read_pair (zlen (ValidationOps.getCanonical v)) [])
            (ValidationOps.getCanonical v) (sigs_ v)) as R.
  { apply read_pairs_parses; [done | done |]. rewrite L. unfold pairSize. unfold_sizes. lia. }
  apply parses_to_end in R. rewrite <- zlen_app in Hl. mrun (R pre Hl). by destruct v.
Qed.

(** ** Reading stops *)
Lemma read_pair_consumes m : consumes 1 (read_pair m).
Proof.
  apply (consumes_weaken (1 + (1 + 0))); [lia|].
  repeat (apply consumes_bind; [auto with devv | intros]). apply consumes_ret.
Qed.

Lemma read_pair_total m : total (read_pair m).
Proof. repeat (eapply total_bind; [auto with devv.. | intros]). apply total_ret. Qed.

Lemma validation_from_buffer_total : total ValidationOps.from_buffer.
Proof.
  intros b I. unfold ValidationOps.from_buffer. mstep. revert b I.
  assert (forall r, total (m ← count_fold pairSize read_pair r []; mret (mkValidation m))) as T.
  { intros r. eapply total_bind; [apply count_fold_consumes, read_pair_consumes
      | apply count_fold_terminates; [apply read_pair_consumes | apply read_pair_total]
      | intros; apply total_ret]. }
  intros b I. by apply T.
Qed.

Lemma validation_from_buffer_count_total n : total (from_buffer_count n).
Proof.
  eapply total_bind; [apply count_fold_consumes, read_pair_consumes
    | apply count_fold_terminates; [apply read_pair_consumes | apply read_pair_total]
    | intros; apply total_ret].
Qed.

Lemma validation_from_buffer_count_consumes n : consumes 0 (from_buffer_count n).
Proof.
  apply (consumes_weaken (0 + 0)); [lia|].
  apply consumes_bind; [apply count_fold_consumes, read_pair_consumes | intros; apply consumes_ret].
Qed.
