(* ===== verification/KeyRing.v ===== *)
(** * consensus/KeyRing.h, consensus/KeyRing.cpp and common/ossladapter.h

    OpenSSL is outside the sources: the class [Crypto] holds the functions the
    adapter calls, and [CryptoLaws] what their documentation promises.  The
    adapter's own code (padding and framing of signatures, key type dispatch,
    error paths) and the key directory are definitions over them. *)

From Stdlib Require Import ZArith Lia.
From stdpp Require Import base list numbers.
From S2P Require Import Prelude OrdMap Converters Keys Buffers.

Class Crypto := {
  EC_KEY : Type;
  (* SHA256_Init/Update/Final *)
  SHA256 : bytes -> bytes;
  (* ECDSA_do_sign followed by i2d_ECDSA_SIG: the DER encoding *)
  ECDSA_sign_der : EC_KEY -> bytes -> bytes;
  (* d2i_ECDSA_SIG followed by ECDSA_do_verify returning 1 *)
  ECDSA_verify_der : EC_KEY -> bytes -> bytes -> bool;
  (* the key of a compressed point on secp384r1 (true) or secp256k1 (false),
     None when EC_KEY_set_public_key fails *)
  EC_public_key : bool -> bytes -> option EC_KEY;
  (* the key pair of a point and an encrypted PEM private key, None when one
     of the OpenSSL calls that the adapter checks fails *)
  EC_key_pair : bool -> bytes -> bytes -> bytes -> option EC_KEY;
  (* the bytes of a stack array that are never written *)
  uninit : nat -> bytes
}.

(** A key on the node curve secp384r1 or the wallet curve secp256k1 is told by
    the length of the signatures it makes. *)
Class CryptoLaws `{Crypto} := {
  is_node_key : EC_KEY -> bool;
  SHA256_length : forall m, zlen (SHA256 m) = kHASH_LENGTH;
  wallet_der_length : forall k h, is_node_key k = false -> zlen (ECDSA_sign_der k h) <= 72;
  node_der_length : forall k h, is_node_key k = true -> 80 <= zlen (ECDSA_sign_der k h) <= 104;
  uninit_length : forall n, length (uninit n) = n;
  (* d2i_ECDSA_SIG ignores what follows the DER value *)
  verify_signed : forall k h pad, ECDSA_verify_der k h (ECDSA_sign_der k h ++ pad) = true
}.

(** ** common/ossladapter.h *)
Section adapter.
Context `{Crypto}.

Definition DevcashHash (msg : bytes) : bytes := SHA256 msg.

Definition VerifyByteSig (ecKey : EC_KEY) (msg : bytes) (sig : Signature) : res bool :=
  res_catch (raw_sig ← SignatureOps.getRawSignature sig;
             Ok (ECDSA_verify_der ecKey msg raw_sig))
            (fun _ => Ok false).

(** The array of the chosen size keeps its unwritten bytes; writing past its
    end is undefined. *)
Definition fill_array (size : Z) (der : bytes) : res bytes :=
  if zlen der <=? size then Ok (der ++ uninit (Z.to_nat (size - zlen der))) else UB.

Definition SignBinary (ec_key : EC_KEY) (msg : bytes) : res Signature :=
  res_catch
    (let der := ECDSA_sign_der ec_key msg in
     if zlen der <? 80 then
       a ← fill_array kWALLET_SIG_SIZE der;
       SignatureOps.ctor a
     else
       a ← fill_array kNODE_SIG_SIZE der;
       SignatureOps.ctor a)
    (fun _ => Err RuntimeError).

Definition LoadPublicKey (public_key : Address) : res EC_KEY :=
  node ← (if AddressOps.isWalletAddress public_key then Ok false
          else if AddressOps.isNodeAddress public_key then Ok true
          else Err RuntimeError);
  publicKey ← AddressOps.getHexString public_key;
  match EC_public_key node publicKey with
  | Some k => Ok k
  | None => Err RuntimeError
  end.

Definition LoadEcKey (publicKey privKey aes_password : bytes) : res EC_KEY :=
  if zlen aes_password <? 1 then Err RuntimeError
  else
    node ← (if zlen publicKey =? kWALLET_ADDR_SIZE * 2 then Ok false
            else if zlen publicKey =? kNODE_ADDR_SIZE * 2 then Ok true
            else Err RuntimeError);
    match EC_key_pair node publicKey privKey aes_password with
    | Some k => Ok k
    | None => Err RuntimeError
    end.
End adapter.

(** ** KeyRing *)
Section keyring.
Context `{Crypto}.

Record KeyRing := mkKeyRing {
  key_map_ : omap Address EC_KEY;
  node_list_ : list Address;
  wallet_list_ : list Address;
  inn_addr_ : Address
}.

Definition KeyRing_empty : KeyRing := mkKeyRing [] [] [] AddressOps.default.

Definition InsertAddress (hex : bytes) (key : EC_KEY) : M KeyRing Address :=
  addr ← lift (Hex2Bin hex);
  let to_insert := AddressOps.ctor addr in
  kr ← get;
  put (mkKeyRing (fst (om_insert to_insert key (key_map_ kr)))
                 (node_list_ kr) (wallet_list_ kr) (inn_addr_ kr));;
  mret to_insert.

(** The self test of a key pair: sign and verify the hash of "hello". *)
Definition hello : bytes := [104; 101; 108; 108; 111].

Definition check_key_pair (address key password : bytes) : res (EC_KEY * bool) :=
  k ← LoadEcKey address key password;
  let test_hash := DevcashHash hello in
  sig ← SignBinary k test_hash;
  ok ← VerifyByteSig k test_hash sig;
  Ok (k, ok).

Definition addWalletKeyPair (address key password : bytes) : M KeyRing unit :=
  p ← lift (check_key_pair address key password);
  if negb p.2 then throw RuntimeError
  else
    wallet_addr ← InsertAddress address p.1;
    kr ← get;
    put (mkKeyRing (key_map_ kr) (node_list_ kr) (wallet_list_ kr ++ [wallet_addr])
                   (inn_addr_ kr)).

Definition addNodeKeyPair (address key password : bytes) : M KeyRing unit :=
  p ← lift (check_key_pair address key password);
  if negb p.2 then throw RuntimeError
  else
    wallet_addr ← InsertAddress address p.1;
    kr ← get;
    put (mkKeyRing (key_map_ kr) (node_list_ kr ++ [wallet_addr]) (wallet_list_ kr)
                   (inn_addr_ kr)).

(** A key that fails the test is only logged here. *)
Definition setInnKeyPair (address key password : bytes) : M KeyRing unit :=
  p ← lift (check_key_pair address key password);
  if negb p.2 then mret tt
  else
    a ← InsertAddress address p.1;
    kr ← get;
    put (mkKeyRing (key_map_ kr) (node_list_ kr) (wallet_list_ kr) a).

(** [s.substr(pos, len)] *)
Definition substr (s : bytes) (pos len : Z) : res bytes :=
  if zlen s <? pos then Err OutOfRange
  else Ok (take (Z.to_nat len) (drop (Z.to_nat pos) s)).

(** [while (counter < (size-1)) ...] over a key file whose records are a hex
    address and an armoured key; a record that throws is logged and
    skipped. *)
Fixpoint key_loop (add : bytes -> bytes -> M KeyRing unit) (content : bytes)
    (addr_len key_len : Z) (fuel : nat) (counter : Z) : M KeyRing unit :=
  if zlen content - 1 <=? counter then mret tt
  else match fuel with
  | O => lift NoFuel
  | S fuel' =>
      addr ← lift (substr content counter addr_len);
      key ← lift (substr content (counter + addr_len) key_len);
      try_catch (add addr key) (fun _ => mret tt);;
      key_loop add content addr_len key_len fuel' (counter + addr_len + key_len)
  end.

Definition load_keys (add : bytes -> bytes -> M KeyRing unit) (content : bytes)
    (addr_len key_len : Z) : M KeyRing unit :=
  key_loop add content addr_len key_len (S (length content)) 0.

(** The constructor from the contents of the two key files ("" when the path
    is empty or the file unreadable): a file of a wrong size ends it. *)
Definition KeyRing_ctor (inn_keys node_keys key_password : bytes) : M KeyRing unit :=
  try_catch (
    ok ← (match inn_keys with
          | [] => mret true
          | _ =>
              if zlen inn_keys mod (kFILE_NODEKEY_SIZE + kNODE_ADDR_SIZE * 2) =? 0
              then load_keys (fun a k => setInnKeyPair a k key_password) inn_keys
                     (kNODE_ADDR_SIZE * 2) kFILE_NODEKEY_SIZE;; mret true
              else mret false
          end);
    if negb ok then mret tt
    else match node_keys with
         | [] => mret tt
         | _ =>
             if zlen node_keys mod (kFILE_NODEKEY_SIZE + kNODE_ADDR_SIZE * 2) =? 0
             then load_keys (fun a k => addNodeKeyPair a k key_password) node_keys
                    (kNODE_ADDR_SIZE * 2) kFILE_NODEKEY_SIZE
             else mret tt
         end)
    (fun _ => mret tt).

Definition LoadWallets (wallet_keys file_pass : bytes) : M KeyRing bool :=
  match wallet_keys with
  | [] => mret false
  | _ =>
      if zlen wallet_keys mod (kFILE_KEY_SIZE + kWALLET_ADDR_SIZE * 2) =? 0
      then load_keys (fun a k => addWalletKeyPair a k file_pass) wallet_keys
             (kWALLET_ADDR_SIZE * 2) kFILE_KEY_SIZE;; mret true
      else mret false
  end.

Definition getKey (kr : KeyRing) (addr : Address) : res EC_KEY :=
  match om_find addr (key_map_ kr) with
  | Some k => Ok k
  | None => LoadPublicKey addr
  end.

Definition isINN (kr : KeyRing) (addr : Address) : bool := AddressOps.isNodeAddress addr.

Definition getInnAddr (kr : KeyRing) : res Address :=
  if isINN kr (inn_addr_ kr) then Ok (inn_addr_ kr) else Err RuntimeError.

Definition CountNodes (kr : KeyRing) : Z := zlen (node_list_ kr).
Definition CountWallets (kr : KeyRing) : Z := zlen (wallet_list_ kr).

(** The position of the first occurrence, the length when there is none. *)
Fixpoint find_pos (addr : Address) (l : list Address) : Z :=
  match l with
  | [] => 0
  | a :: l' => if bool_decide (a = addr) then 0 else 1 + find_pos addr l'
  end.

Definition getNodeIndex (kr : KeyRing) (addr : Address) : res Z :=
  let pos := u32 (find_pos addr (node_list_ kr)) in
  if zlen (node_list_ kr) <=? pos then Err RangeError else Ok pos.

Definition getNodeAddr (kr : KeyRing) (index : Z) : res Address := vec_at (node_list_ kr) index.
Definition getWalletAddr (kr : KeyRing) (index : Z) : res Address :=
  vec_at (wallet_list_ kr) (u64 index).

(** A missing key throws a [std::string]. *)
Definition getNodeKey (kr : KeyRing) (index : Z) : res EC_KEY :=
  node_addr ← vec_at (node_list_ kr) (u64 index);
  match om_find node_addr (key_map_ kr) with
  | Some k => Ok k
  | None => Err ThrownString
  end.

Definition getWalletKey (kr : KeyRing) (index : Z) : res EC_KEY :=
  wallet_addr ← vec_at (wallet_list_ kr) (u64 index);
  match om_find wallet_addr (key_map_ kr) with
  | Some k => Ok k
  | None => Err ThrownString
  end.

(** [index * 2] and [index * 2 + 1] are signed 32-bit: their overflow is
    undefined. *)
Definition getDesignatedWallets (kr : KeyRing) (index : Z) : res (list Address) :=
  if negb (in_i32b (index * 2) && in_i32b (index * 2 + 1)) then UB
  else
    a ← vec_at (wallet_list_ kr) (u64 (index * 2));
    b ← vec_at (wallet_list_ kr) (u64 (index * 2 + 1));
    Ok [a; b].
End keyring.

(** ** Signing *)
Section laws.
Context `{CryptoLaws}.

(** A DER signature padded to one of the two sizes is a signature object that
    verifies. *)
Lemma padded_signature k h n :
  n = kWALLET_SIG_SIZE \/ n = kNODE_SIG_SIZE -> zlen (ECDSA_sign_der k h) <= n ->
  exists a sig, fill_array n (ECDSA_sign_der k h) = Ok a /\ SignatureOps.ctor a = Ok sig /\
    VerifyByteSig k h sig = Ok true /\ sig_wf sig /\ SignatureOps.size sig = n + 1.
Proof.
  intros Hn L. unfold fill_array. rewrite (proj2 (Z.leb_le _ _)) by lia.
  set (v := _ ++ uninit _).
  assert (zlen v = n) as Lv.
  { subst v. rewrite zlen_app. unfold zlen in *. rewrite uninit_length. lia. }
  exists v, (mkSignature (n :: v)). split; [done|]. split; [by apply sig_ctor_raw; [destruct Hn; auto|]|].
  split; [|split].
  - unfold VerifyByteSig, SignatureOps.getRawSignature. cbn [SignatureOps.isNull s_canonical].
    rewrite (proj2 (Z.eqb_neq n 0)) by (destruct Hn; unfold_sizes; lia).
    change (n :: v) with ([n] ++ v).
    rewrite <- (app_nil_r v) at 1. rewrite vec_range_mid
      by (rewrite ?zlen_app, ?zlen_cons, ?zlen_nil; lia).
    cbn [mbind res_bind res_catch]. subst v. by rewrite verify_signed.
  - destruct Hn; subst n; [by apply shape_wallet | by apply shape_node].
  - unfold SignatureOps.size. cbn [s_canonical]. rewrite zlen_cons. lia.
Qed.

(** [SignBinary] always returns, and what it returns verifies under the same
    key. *)
Lemma SignBinary_ok k h :
  exists sig, SignBinary k h = Ok sig /\ VerifyByteSig k h sig = Ok true /\ sig_wf sig /\
    SignatureOps.size sig =
      (if is_node_key k then kNODE_SIG_BUF_SIZE else kWALLET_SIG_BUF_SIZE).
Proof.
  unfold SignBinary. destruct (is_node_key k) eqn:E.
  - pose proof (node_der_length k h E). rewrite (proj2 (Z.ltb_ge _ _)) by lia.
    destruct (padded_signature k h kNODE_SIG_SIZE) as (a & sig & Ea & Es & V & W & Z);
      [auto | unfold_sizes; lia |].
    rewrite Ea. cbn [mbind res_bind]. rewrite Es. by exists sig.
  - pose proof (wallet_der_length k h E). rewrite (proj2 (Z.ltb_lt _ _)) by lia.
    destruct (padded_signature k h kWALLET_SIG_SIZE) as (a & sig & Ea & Es & V & W & Z);
      [auto | unfold_sizes; lia |].
    rewrite Ea. cbn [mbind res_bind]. rewrite Es. by exists sig.
Qed.
End laws.
