(* ===== verification/Context.v ===== *)
(** * common/devcash_context.h

    The runtime constants of a node: its index in its shard, its shard and its
    mode.  Also [std::to_string], which the uris and the JSON printers use. *)

From Stdlib Require Import ZArith Lia.
From stdpp Require Import base list numbers.
From S2P Require Import Prelude Keys.

(** [std::to_string] on a 64-bit integer: twenty digits are enough. *)
Fixpoint digits (fuel : nat) (n : Z) (acc : bytes) : bytes :=
  match fuel with
  | O => acc
  | S fuel' =>
      let acc' := (48 + n mod 10) :: acc in
      if n <? 10 then acc' else digits fuel' (n / 10) acc'
  end.

Definition to_string (n : Z) : bytes :=
  if n <? 0 then 45 :: digits 20 (- n) [] else digits 20 n [].

(** The number a digit string denotes. *)
Definition of_digits (s : bytes) : Z := foldl (fun n c => 10 * n + (c - 48)) 0 s.

Definition of_string (s : bytes) : Z :=
  match s with
  | 45 :: s' => - of_digits s'
  | _ => of_digits s
  end.

Record DevcashContext := mkContext {
  current_node_ : Z;
  current_shard_ : Z;
  app_mode_ : eAppMode;
  batch_size_ : Z;
  max_wait_ : Z
}.

Definition kPROPOSAL_TIMEOUT : Z := 60000.

Module ContextOps.
(** [peer_count_] is a constant member. *)
Definition get_peer_count (c : DevcashContext) : Z := 3.

(** [unsigned int] *)
Definition get_current_node (c : DevcashContext) : Z :=
  u32 (current_node_ c + current_shard_ c * get_peer_count c).

Definition get_current_shard (c : DevcashContext) : Z := current_shard_ c.
Definition get_app_mode (c : DevcashContext) : eAppMode := app_mode_ c.
Definition get_batch_size (c : DevcashContext) : Z := batch_size_ c.
Definition get_max_wait (c : DevcashContext) : Z := max_wait_ c.

(** "RemoteURI-" and the index *)
Definition get_uri_from_index (c : DevcashContext) (node_index : Z) : bytes :=
  [82; 101; 109; 111; 116; 101; 85; 82; 73; 45] ++ to_string (u32 node_index).

Definition get_uri (c : DevcashContext) : bytes :=
  get_uri_from_index c (current_node_ c + current_shard_ c * get_peer_count c).

(** "shard-" and the shard *)
Definition get_shard_uri (c : DevcashContext) : bytes :=
  [115; 104; 97; 114; 100; 45] ++ to_string (current_shard_ c).
End ContextOps.

(** The index of a node within its shard is its own number, for the nodes of
    one shard. *)
Lemma node_in_shard c :
  0 <= current_node_ c < ContextOps.get_peer_count c ->
  0 <= current_shard_ c < 2 ^ 30 ->
  ContextOps.get_current_node c mod ContextOps.get_peer_count c = current_node_ c.
Proof.
  unfold ContextOps.get_current_node, ContextOps.get_peer_count. intros Hn Hs.
  rewrite u32_id by (unfold in_u32; lia).
  rewrite Z.mod_add by lia. apply Z.mod_small. lia.
Qed.

(** ** Decimal printing is faithful *)
Lemma of_digits_app n s : 
  foldl (fun n c => 10 * n + (c - 48)) n s = n * 10 ^ zlen s + of_digits s.
Proof.
  revert n; induction s as [|c s IH]; intros n; [unfold of_digits; simpl; rewrite zlen_nil; lia|].
  unfold of_digits in *. cbn [foldl]. rewrite IH, (IH (10 * 0 + _)).
  rewrite zlen_cons. pose proof (zlen_nonneg s). rewrite Z.pow_add_r, Z.pow_1_r by lia. lia.
Qed.

Lemma digits_acc fuel : forall n acc, 0 <= n < 10 ^ Z.of_nat fuel -> (0 < fuel)%nat ->
  exists pre, digits fuel n acc = pre ++ acc /\ of_digits pre = n /\
    Forall (fun c => 48 <= c <= 57) pre /\ pre <> [].
Proof.
  induction fuel as [|fuel IH]; intros n acc Hn Hf; [lia|]. cbn [digits].
  pose proof (Z.mod_pos_bound n 10). case_match; bool_to_prop.
  - exists [48 + n mod 10]. rewrite Z.mod_small in * by lia.
    repeat split; [unfold of_digits; simpl; lia | repeat constructor; lia | done].
  - assert (0 < fuel)%nat as Hf' by (destruct fuel; [simpl in Hn; lia | lia]).
    destruct (IH (n / 10) ((48 + n mod 10) :: acc)) as (pre & E & O & F & N); [|done|].
    { rewrite Nat2Z.inj_succ, Z.pow_succ_r in Hn by lia.
      split; [apply Z.div_pos; lia | apply Z.div_lt_upper_bound; lia]. }
    exists (pre ++ [48 + n mod 10]). rewrite <- app_assoc. split; [done|]. split.
    { unfold of_digits in *. rewrite foldl_app, O. cbn [foldl].
      pose proof (Z.div_mod n 10). lia. }
    split; [apply Forall_app; split; [done | repeat constructor; lia]|]. by destruct pre.
Qed.

Lemma to_string_of n : in_i64 n \/ in_u64 n -> of_string (to_string n) = n.
Proof.
  intros R. unfold to_string. case_match; bool_to_prop.
  - destruct (digits_acc 20 (- n) []) as (pre & -> & O & _); [|lia|].
    { change (10 ^ Z.of_nat 20) with 100000000000000000000. unfold_ranges. lia. }
    rewrite app_nil_r. unfold of_string. lia.
  - destruct (digits_acc 20 n []) as (pre & -> & O & F & N); [|lia|].
    { change (10 ^ Z.of_nat 20) with 100000000000000000000. unfold_ranges. lia. }
    rewrite app_nil_r. unfold of_string. destruct pre as [|c pre]; [done|].
    inversion F; subst. repeat case_match; try done; lia.
Qed.
