(* ===== verification/DevvUri.v ===== *)
(** * common/devv_uri.h and trim of common/util.h

    The uris that name a shard, a block, a transaction and an address.  The
    file ends with the proof that a uri is read back. *)

From Stdlib Require Import ZArith Lia.
From stdpp Require Import base list numbers.
From S2P Require Import Prelude Converters OrdMap Keys Context.

(** ** util.h *)

(** " \t\n\r\f\v" *)
Definition is_space (c : Z) : bool :=
  (c =? 32) || (c =? 9) || (c =? 10) || (c =? 13) || (c =? 12) || (c =? 11).

Fixpoint ltrim (s : bytes) : bytes :=
  match s with
  | c :: s' => if is_space c then ltrim s' else s
  | [] => []
  end.

Definition rtrim (s : bytes) : bytes := reverse (ltrim (reverse s)).

Definition trim (s : bytes) : bytes := rtrim (ltrim s).

(** ** The standard library *)

(** [boost::split] at a character, without compressing. *)
Fixpoint split (sep : Z) (s : bytes) : list bytes :=
  match s with
  | [] => [[]]
  | c :: s' =>
      if c =? sep then [] :: split sep s'
      else match split sep s' with
           | p :: ps => (c :: p) :: ps
           | [] => [[c]]
           end
  end.

Definition is_digit (c : Z) : bool := (48 <=? c) && (c <=? 57).

(** The digits at the front of a string. *)
Fixpoint leading_digits (s : bytes) : bytes :=
  match s with
  | c :: s' => if is_digit c then c :: leading_digits s' else []
  | [] => []
  end.

(** [std::stoul(s, nullptr, 10)]: blanks, a sign, and as many digits as there
    are; what follows is ignored and a minus sign negates modulo 2^64. *)
Definition stoul (s : bytes) : res Z :=
  let s := ltrim s in
  let '(neg, s) := match s with
                   | 43 :: s' => (false, s')
                   | 45 :: s' => (true, s')
                   | _ => (false, s)
                   end in
  match leading_digits s with
  | [] => Err InvalidArgument
  | ds =>
      let n := of_digits ds in
      if 2 ^ 64 <=? n then Err OutOfRange else Ok (if (neg : bool) then u64 (- n) else n)
  end.

(** ** devv_uri.h *)

(** "devv://" *)
Definition kDEVV_PROTOCOL : bytes := [100; 101; 118; 118; 58; 47; 47].
Definition UINT32_MAX : Z := 2 ^ 32 - 1.
Definition slash : Z := 47.

Record DevvUri := mkUri {
  valid : bool;
  shard : bytes;
  block_height : Z;
  uri_sig : Signature;
  uri_addr : Address
}.

Definition DevvUri_default : DevvUri :=
  mkUri false [] UINT32_MAX SignatureOps.default AddressOps.default.

Definition MakeDevvUri_shard (shard_name : bytes) : bytes := kDEVV_PROTOCOL ++ shard_name.

Definition MakeDevvUri_block (shard_name : bytes) (block_height : Z) : bytes :=
  kDEVV_PROTOCOL ++ shard_name ++ [slash] ++ to_string block_height.

Definition MakeDevvUri_sig (shard_name : bytes) (block_height : Z) (sig : Signature) : bytes :=
  MakeDevvUri_block shard_name block_height ++ [slash] ++ SignatureOps.getJSON sig.

Definition MakeDevvUri_addr (shard_name : bytes) (block_height : Z) (sig : Signature)
    (addr : Address) : bytes :=
  MakeDevvUri_sig shard_name block_height sig ++ [slash] ++ AddressOps.getJSON addr.

(** Each part is left out with all that follow it when it is missing. *)
Definition MakeDevvUri (u : DevvUri) : bytes :=
  if negb (valid u) then []
  else match shard u with
  | [] => []
  | _ =>
      let uri := kDEVV_PROTOCOL ++ shard u in
      if block_height u =? UINT32_MAX then uri
      else
        let uri := uri ++ [slash] ++ to_string (block_height u) in
        if SignatureOps.isNull (uri_sig u) then uri
        else
          let uri := uri ++ [slash] ++ SignatureOps.getJSON (uri_sig u) in
          if AddressOps.isNull (uri_addr u) then uri
          else uri ++ [slash] ++ AddressOps.getJSON (uri_addr u)
  end.

(** Part [i], when there is one and it is not empty. *)
Definition part (parts : list bytes) (i : nat) : option bytes :=
  match parts !! i with Some (c :: s) => Some (trim (c :: s)) | _ => None end.

(** [pos != 0] unless the string starts with the protocol. *)
Definition ParseDevvUri (uri : bytes) : res DevvUri :=
  if negb (bool_decide (take (length kDEVV_PROTOCOL) uri = kDEVV_PROTOCOL)) then Ok DevvUri_default
  else
    let parts := split slash (drop (length kDEVV_PROTOCOL) uri) in
    let shard := default [] (part parts 0) in
    height ← match part parts 1 with Some s => n ← stoul s; Ok (u32 n) | None => Ok UINT32_MAX end;
    sig ← match part parts 2 with
          | Some s => v ← Hex2Bin s; SignatureOps.ctor v
          | None => Ok SignatureOps.default
          end;
    addr ← match part parts 3 with
           | Some s => v ← Hex2Bin s; Ok (AddressOps.ctor v)
           | None => Ok AddressOps.default
           end;
    Ok (mkUri true shard height sig addr).

(** ** Reading back *)
Definition plain (s : bytes) : Prop := Forall (fun c => c <> slash /\ is_space c = false) s.

Lemma ltrim_plain s : plain s -> ltrim s = s.
Proof. destruct 1 as [|c s [_ Hc] _]; [done|]. cbn [ltrim]. by rewrite Hc. Qed.

Lemma trim_plain s : plain s -> trim s = s.
Proof.
  intros P. unfold trim, rtrim. rewrite (ltrim_plain s) by done.
  rewrite ltrim_plain; [apply reverse_involutive | by apply Forall_reverse].
Qed.

Lemma split_one s : Forall (fun c => c <> slash) s -> split slash s = [s].
Proof.
  induction 1 as [|c s Hc _ IH]; [done|]. cbn [split].
  rewrite (proj2 (Z.eqb_neq _ _)) by done. by rewrite IH.
Qed.

Lemma split_cons s rest : Forall (fun c => c <> slash) s ->
  split slash (s ++ [slash] ++ rest) = s :: split slash rest.
Proof.
  induction 1 as [|c s Hc _ IH]; [done|]. cbn [split app].
  rewrite (proj2 (Z.eqb_neq _ _)) by done. cbn [app] in IH. by rewrite IH.
Qed.

Lemma plain_no_slash s : plain s -> Forall (fun c => c <> slash) s.
Proof. apply Forall_impl. by intros c [? _]. Qed.

Lemma part_plain parts i s : parts !! i = Some s -> plain s -> s <> [] -> part parts i = Some s.
Proof. intros E P N. unfold part. rewrite E. destruct s; [done|]. by rewrite trim_plain. Qed.

(** Decimal and hexadecimal digits are plain. *)
Lemma plain_digits s : Forall (fun c => 48 <= c <= 57) s -> plain s.
Proof. apply Forall_impl. intros c Hc. unfold slash, is_space. lia. Qed.

Lemma alpha_range n : 0 <= n < 16 -> 48 <= alpha n <= 57 \/ 65 <= alpha n <= 70.
Proof. intros Hn. unfold alpha. case_match; bool_to_prop; lia. Qed.

Lemma plain_hex v : bytes_ok v -> plain (concat (hex_byte <$> v)).
Proof.
  induction 1 as [|c v Hc _ IH]; [constructor|]. rewrite fmap_cons. cbn [concat].
  apply Forall_app. split; [|done]. unfold hex_byte.
  assert (forall z, 0 <= Z.land z 15 < 16) as L
    by (intros z; change 15 with (Z.ones 4); rewrite Z.land_ones by lia; apply Z.mod_pos_bound; lia).
  repeat constructor; unfold slash, is_space;
    match goal with |- context [alpha ?n] => pose proof (alpha_range n (L _)) end; lia.
Qed.

Lemma leading_digits_all s : Forall (fun c => 48 <= c <= 57) s -> leading_digits s = s.
Proof.
  induction 1 as [|c s Hc _ IH]; [done|]. cbn [leading_digits]. unfold is_digit.
  rewrite (proj2 (Z.leb_le _ _)), (proj2 (Z.leb_le _ _)) by lia. cbn [andb]. by rewrite IH.
Qed.

Lemma to_string_digits n : in_u32 n ->
  exists s, to_string n = s /\ Forall (fun c => 48 <= c <= 57) s /\ s <> [] /\ of_digits s = n.
Proof.
  intros Hn. unfold to_string, in_u32 in *. rewrite (proj2 (Z.ltb_ge _ _)) by lia.
  destruct (digits_acc 20 n []) as (s & -> & O & F & N); [|lia|].
  - change (10 ^ Z.of_nat 20) with 100000000000000000000. lia.
  - exists s. by rewrite app_nil_r.
Qed.

Lemma stoul_to_string n : in_u32 n -> stoul (to_string n) = Ok n.
Proof.
  intros Hn. destruct (to_string_digits n Hn) as (s & -> & F & N & O). unfold stoul.
  rewrite (ltrim_plain s) by by apply plain_digits.
  destruct s as [|c s]; [done|]. assert (48 <= c <= 57) as Hc by (by inversion F).
  rewrite (surjective_pairing (match c :: s with _ => _ end)).
  assert (match c :: s with 43 :: s' => (false, s') | 45 :: s' => (true, s') | _ => (false, c :: s) end
          = (false, c :: s)) as ->.
  { repeat case_match; try done; lia. }
  cbn [fst snd]. rewrite leading_digits_all by done. rewrite O.
  unfold in_u32 in Hn. by rewrite (proj2 (Z.leb_gt _ _)) by lia.
Qed.

(** A uri whose parts are present up to some point and well formed. *)
Definition sig_part (s : Signature) : Prop := sig_wf s /\ bytes_ok (s_canonical s).
Definition addr_part (a : Address) : Prop := addr_wf a /\ bytes_ok (a_canonical a).

Definition uri_ok (u : DevvUri) : Prop :=
  valid u = true /\ plain (shard u) /\ shard u <> [] /\ in_u32 (block_height u) /\
  (sig_part (uri_sig u) \/ uri_sig u = SignatureOps.default) /\
  (addr_part (uri_addr u) \/ uri_addr u = AddressOps.default) /\
  (block_height u = UINT32_MAX -> uri_sig u = SignatureOps.default) /\
  (uri_sig u = SignatureOps.default -> uri_addr u = AddressOps.default).

Lemma sig_text s : sig_part s ->
  SignatureOps.isNull s = false /\ plain (SignatureOps.getJSON s) /\ SignatureOps.getJSON s <> [] /\
  (v ← Hex2Bin (SignatureOps.getJSON s); SignatureOps.ctor v) = Ok s.
Proof.
  intros [W B]. pose proof W as (t & raw & E & L & Ht)%sig_wf_parts.
  assert (SignatureOps.isNull s = false) as N.
  { unfold SignatureOps.isNull. rewrite E. by destruct Ht as [-> | ->]. }
  unfold SignatureOps.getJSON. rewrite N. split; [done|]. split; [by apply plain_hex|].
  split; [rewrite E; done|].
  rewrite <- (ToHex_all _ (zlen (s_canonical s))) by lia.
  rewrite Hex2Bin_ToHex; [by apply sig_ctor_canonical | done | lia|].
  rewrite E, zlen_cons, L. unfold_sizes. lia.
Qed.

Lemma addr_text a : addr_part a ->
  AddressOps.isNull a = false /\ plain (AddressOps.getJSON a) /\ AddressOps.getJSON a <> [] /\
  (v ← Hex2Bin (AddressOps.getJSON a); Ok (AddressOps.ctor v)) = Ok a.
Proof.
  intros [W B]. pose proof W as (t & raw & E & L & Ht)%addr_wf_parts.
  assert (AddressOps.isNull a = false) as N.
  { unfold AddressOps.isNull. rewrite E. by destruct Ht as [-> | ->]. }
  unfold AddressOps.getJSON. rewrite N. split; [done|]. split; [by apply plain_hex|].
  split; [rewrite E; done|].
  rewrite <- (ToHex_all _ (zlen (a_canonical a))) by lia.
  rewrite Hex2Bin_ToHex; [by cbn [mbind res_bind]; rewrite addr_ctor_canonical | done | lia|].
  rewrite E, zlen_cons, L. unfold_sizes. lia.
Qed.

(** The suffix of a uri after the shard, and what the parser makes of it. *)
Definition uri_parts (u : DevvUri) : list bytes :=
  shard u ::
  (if block_height u =? UINT32_MAX then []
   else to_string (block_height u) ::
     (if SignatureOps.isNull (uri_sig u) then []
      else SignatureOps.getJSON (uri_sig u) ::
        (if AddressOps.isNull (uri_addr u) then [] else [AddressOps.getJSON (uri_addr u)]))).

Lemma split_MakeDevvUri u : uri_ok u ->
  exists path, MakeDevvUri u = kDEVV_PROTOCOL ++ path /\ split slash path = uri_parts u.
Proof.
  intros (Hv & Hp & Hs & Hh & Hsig & Haddr & _). unfold MakeDevvUri, uri_parts.
  rewrite Hv. cbn [negb]. destruct (shard u) as [|c sh] eqn:E; [done|]. rewrite <- E in *.
  pose proof (plain_no_slash _ Hp) as Np.
  destruct (block_height u =? UINT32_MAX); [exists (shard u); split; [done | by apply split_one]|].
  destruct (to_string_digits _ Hh) as (ds & -> & Fd & _).
  pose proof (plain_no_slash _ (plain_digits _ Fd)) as Nd.
  destruct (SignatureOps.isNull (uri_sig u)) eqn:Ns.
  { exists (shard u ++ [slash] ++ ds). rewrite !app_assoc. split; [done|].
    rewrite <- app_assoc, split_cons by done. by rewrite split_one. }
  destruct Hsig as [Hsig | Hsig]; [|by rewrite Hsig in Ns].
  destruct (sig_text _ Hsig) as (_ & Ps & _). pose proof (plain_no_slash _ Ps) as Nps.
  destruct (AddressOps.isNull (uri_addr u)) eqn:Na.
  { exists (shard u ++ [slash] ++ ds ++ [slash] ++ SignatureOps.getJSON (uri_sig u)).
    rewrite !app_assoc. split; [done|]. rewrite <- !app_assoc, !split_cons by done. by rewrite split_one. }
  destruct Haddr as [Haddr | Haddr]; [|by rewrite Haddr in Na].
  destruct (addr_text _ Haddr) as (_ & Pa & _). pose proof (plain_no_slash _ Pa) as Npa.
  exists (shard u ++ [slash] ++ ds ++ [slash] ++ SignatureOps.getJSON (uri_sig u) ++ [slash]
            ++ AddressOps.getJSON (uri_addr u)).
  rewrite !app_assoc. split; [done|]. rewrite <- !app_assoc, !split_cons by done. by rewrite split_one.
Qed.

(** The parser on the parts: the missing ones take their defaults. *)
Lemma parse_parts u : uri_ok u ->
  default [] (part (uri_parts u) 0) = shard u /\
  (match part (uri_parts u) 1 with Some s => n ← stoul s; Ok (u32 n) | None => Ok UINT32_MAX end)
    = Ok (block_height u) /\
  (match part (uri_parts u) 2 with
   | Some s => v ← Hex2Bin s; SignatureOps.ctor v | None => Ok SignatureOps.default end) = Ok (uri_sig u) /\
  (match part (uri_parts u) 3 with
   | Some s => v ← Hex2Bin s; Ok (AddressOps.ctor v) | None => Ok AddressOps.default end)
    = Ok (uri_addr u).
Proof.
  intros (Hv & Hp & Hs & Hh & Hsig & Haddr & Hd & Hd'). unfold uri_parts.
  split; [by rewrite (part_plain _ 0 (shard u))|].
  destruct (block_height u =? UINT32_MAX) eqn:Eh; bool_to_prop.
  { unfold part. cbn [lookup list_lookup]. by rewrite Eh, Hd', (Hd Eh) by auto. }
  destruct (to_string_digits _ Hh) as (ds & E & Fd & Nd & _).
  rewrite (part_plain _ 1 (to_string (block_height u))) by (try done; rewrite E; try done; by apply plain_digits).
  rewrite stoul_to_string by done. cbn [mbind res_bind]. rewrite u32_id by done. split; [done|].
  destruct Hsig as [Hsig | Hsig]; [|rewrite Hsig, Hd' by done; done].
  destruct (sig_text _ Hsig) as (Ns & Ps & Es & Rs). rewrite Ns.
  rewrite (part_plain _ 2 (SignatureOps.getJSON (uri_sig u))) by done. split; [done|].
  destruct Haddr as [Haddr | Haddr]; [|by rewrite Haddr].
  destruct (addr_text _ Haddr) as (Na & Pa & Ea & Ra). rewrite Na.
  by rewrite (part_plain _ 3 (AddressOps.getJSON (uri_addr u))) by done.
Qed.

(** [ParseDevvUri] undoes [MakeDevvUri]. *)
Lemma ParseDevvUri_Make u : uri_ok u -> ParseDevvUri (MakeDevvUri u) = Ok u.
Proof.
  intros Hu. destruct (split_MakeDevvUri u Hu) as (path & -> & E).
  unfold ParseDevvUri. rewrite take_app_length, drop_app_length, E.
  rewrite bool_decide_true by done. cbn [negb]. cbv zeta.
  destruct (parse_parts u Hu) as (-> & -> & -> & ->). cbn [mbind res_bind].
  destruct Hu as (Hv & _). destruct u; cbn in *; by subst.
Qed.
