(* ===== verification/RingQueue.v ===== *)
(** * concurrency/DevcashRingQueue.h

    A bounded queue of messages in a ring of pointers, used by one producer and
    one consumer.  A null pointer is [None].  [push] runs under [pushLock_] and,
    from the store on, under [update_]; [popGuard] runs under [popGuardLock_] and
    [popLock_]; [pop] runs under [update_].  So [push] and [popGuard] exclude each
    other nowhere, and both write [pending_] and [isEmpty_]: a thread is a program
    counter, and every access to a member that the other thread may touch at the
    same time is a step of its own, in the order of the source and interleaved in
    any way.  Only [update_] is ever contended; the other three mutexes have one
    user each.

    The accesses to [pending_], [isEmpty_], [isFull_] and [pushAt_] that no mutex
    orders are data races, which the language leaves undefined; the machine below
    gives them the mildest meaning, one access after the other.  A thread that
    waits on a condition variable evaluates the predicate, falls asleep in a later
    step, and wakes up on a notification that comes while it sleeps, or for no
    reason; a notification that comes between the two steps is lost.

    [clearBlockers] is the last operation on a queue and takes no part in the
    runs. *)

From Stdlib Require Import ZArith Lia.
From stdpp Require Import base list numbers relations.
From S2P Require Import Prelude.

#[local] Open Scope Z_scope.

Section ring.
Context {A : Type}.

Record DevcashRingQueue := mkRing {
  kRingSize_ : Z;
  ptrRing_ : list (option A);
  pushAt_ : Z;
  popAt_ : Z;
  pending_ : Z;
  isEmpty_ : bool;
  isFull_ : bool;
  stopNow_ : bool
}.

Definition kDEFAULT_RING_SIZE : Z := 10.

(** The size is stored as an [int]. *)
Definition ring_ctor (size : Z) : DevcashRingQueue :=
  mkRing (i32 size) (replicate (Z.to_nat (i32 size)) None) 0 0 0 true false false.

Definition set_ptrRing q v := mkRing (kRingSize_ q) v (pushAt_ q) (popAt_ q) (pending_ q) (isEmpty_ q) (isFull_ q) (stopNow_ q).
Definition set_pushAt q v := mkRing (kRingSize_ q) (ptrRing_ q) v (popAt_ q) (pending_ q) (isEmpty_ q) (isFull_ q) (stopNow_ q).
Definition set_popAt q v := mkRing (kRingSize_ q) (ptrRing_ q) (pushAt_ q) v (pending_ q) (isEmpty_ q) (isFull_ q) (stopNow_ q).
Definition set_pending q v := mkRing (kRingSize_ q) (ptrRing_ q) (pushAt_ q) (popAt_ q) v (isEmpty_ q) (isFull_ q) (stopNow_ q).
Definition set_isEmpty q v := mkRing (kRingSize_ q) (ptrRing_ q) (pushAt_ q) (popAt_ q) (pending_ q) v (isFull_ q) (stopNow_ q).
Definition set_isFull q v := mkRing (kRingSize_ q) (ptrRing_ q) (pushAt_ q) (popAt_ q) (pending_ q) (isEmpty_ q) v (stopNow_ q).

Definition clearBlockers (q : DevcashRingQueue) : DevcashRingQueue :=
  mkRing (kRingSize_ q) (ptrRing_ q) (pushAt_ q) (popAt_ q) 0 false false true.

(** [at(i)] *)
Definition at_ (q : DevcashRingQueue) (i : Z) : option (option A) :=
  if 0 <=? i then ptrRing_ q !! Z.to_nat i else None.

(** ** The threads *)

(** Where the producer is in [push]; [x] is the message until it is stored. *)
Inductive push_pc :=
| PIdle                  (* between two calls *)
| PTest (x : A)          (* while (isFull_) *)
| PPred (x : A)          (* pending_ < kRingSize_ *)
| PBlock (x : A)         (* the predicate was false: about to sleep *)
| PAsleep (x : A)
| PLock (x : A)          (* eqLock(update_) *)
| PStore (x : A)         (* ptrRing_.at(pushAt_) = std::move(pointer) *)
| PPending               (* pending_++, the read *)
| PPending' (v : Z)      (* ... and the write *)
| PFull                  (* if (pushAt_+1 == popAt_) ... *)
| PWrap                  (* if (pushAt_+1 >= kRingSize_&& popAt_ == 0) ... *)
| PNotEmpty              (* isEmpty_ = false *)
| PNotifyEmpty           (* empty_.notify_one() *)
| PAdvance               (* pushAt_++ *)
| PAround                (* if (pushAt_ >= kRingSize_) ... *)
| PDecide                (* if (pushAt_ == popAt_) ... *)
| PNotifyFull            (* full_.notify_one() *)
| PReturn.               (* return true *)

(** Where the consumer is in [popGuard] and in the [pop] that follows it; [out]
    is what [pop] took. *)
Inductive pop_pc :=
| CIdle
| CTest                  (* while (isEmpty_) *)
| CPred                  (* pending_ > 0 *)
| CBlock
| CAsleep
| CPending               (* pending_--, the read *)
| CPending' (v : Z)
| CNext                  (* if ((popAt_ + 1) == pushAt_) *)
| CNext'                 (* { isEmpty_ = true; } *)
| CLast                  (* if ((popAt_ + 1) >= kRingSize_&& pushAt_ == 0) *)
| CLast'
| CGuarded               (* popGuard has returned; eqLock(update_) *)
| CTake                  (* out = std::move(ptrRing_.at(popAt_)) *)
| CNotFull (out : option A)
| CNotifyFull (out : option A)
| CAdvance (out : option A)
| CAround (out : option A)
| CDecide (out : option A)
| CNotifyEmpty (out : option A)
| CAssert (out : option A)   (* assert(out); return out *)
| CAborted.

(** The queue, its mutex [update_], the two threads, the messages the producer
    still has to push, those it stored, those [pop] returned, and how many calls
    of [push] returned false and of [pop] a null pointer. *)
Record conf := mkConf {
  queue : DevcashRingQueue;
  update_ : bool;
  producer : push_pc;
  consumer : pop_pc;
  todo : list A;
  stored : list A;
  popped : list A;
  failures : nat
}.

Definition ring_start (size : Z) (msgs : list A) : conf :=
  mkConf (ring_ctor size) false PIdle CIdle msgs [] [] 0.

Definition to_p c p := mkConf (queue c) (update_ c) p (consumer c) (todo c) (stored c) (popped c) (failures c).
Definition to_c c k := mkConf (queue c) (update_ c) (producer c) k (todo c) (stored c) (popped c) (failures c).
Definition set_queue c q := mkConf q (update_ c) (producer c) (consumer c) (todo c) (stored c) (popped c) (failures c).
Definition set_update c b := mkConf (queue c) b (producer c) (consumer c) (todo c) (stored c) (popped c) (failures c).
Definition upd c f := set_queue c (f (queue c)).

(** A notification wakes a thread that sleeps; it evaluates its predicate
    again. *)
Definition notify_empty (c : conf) : conf :=
  match consumer c with CAsleep => to_c c CPred | _ => c end.
Definition notify_full (c : conf) : conf :=
  match producer c with PAsleep x => to_p c (PPred x) | _ => c end.

(** [push], one access at a time.  [None] while the producer cannot go on. *)
Definition push (c : conf) : option conf :=
  let q := queue c in
  match producer c with
  | PIdle =>
      match todo c with
      | [] => None
      | x :: l => Some (mkConf q (update_ c) (PTest x) (consumer c) l (stored c) (popped c) (failures c))
      end
  | PTest x => Some (to_p c (if isFull_ q then PPred x else PLock x))
  | PPred x => Some (to_p c (if pending_ q <? kRingSize_ q then PTest x else PBlock x))
  | PBlock x => Some (to_p c (PAsleep x))
  | PAsleep x => None
  | PLock x => if update_ c then None else Some (to_p (set_update c true) (PStore x))
  | PStore x =>
      match at_ q (pushAt_ q) with
      | None => Some (mkConf q false PIdle (consumer c) (todo c) (stored c) (popped c) (S (failures c)))
      | Some _ =>
          Some (mkConf (set_ptrRing q (<[Z.to_nat (pushAt_ q) := Some x]> (ptrRing_ q))) (update_ c)
                  PPending (consumer c) (todo c) (stored c ++ [x]) (popped c) (failures c))
      end
  | PPending => Some (to_p c (PPending' (pending_ q)))
  | PPending' v => Some (to_p (upd c (fun q => set_pending q (v + 1))) PFull)
  | PFull =>
      Some (to_p (if pushAt_ q + 1 =? popAt_ q then upd c (fun q => set_isFull q true) else c) PWrap)
  | PWrap =>
      Some (to_p (if (kRingSize_ q <=? pushAt_ q + 1) && (popAt_ q =? 0)
                  then upd c (fun q => set_isEmpty q true) else c) PNotEmpty)
  | PNotEmpty => Some (to_p (upd c (fun q => set_isEmpty q false)) PNotifyEmpty)
  | PNotifyEmpty => Some (to_p (notify_empty c) PAdvance)
  | PAdvance => Some (to_p (upd c (fun q => set_pushAt q (pushAt_ q + 1))) PAround)
  | PAround =>
      Some (to_p (if kRingSize_ q <=? pushAt_ q then upd c (fun q => set_pushAt q 0) else c) PDecide)
  | PDecide =>
      if pushAt_ q =? popAt_ q then Some (to_p (upd c (fun q => set_isFull q true)) PReturn)
      else Some (to_p (upd c (fun q => set_isFull q false)) PNotifyFull)
  | PNotifyFull => Some (to_p c PReturn)   (* the only producer is awake *)
  | PReturn => Some (to_p (set_update c false) PIdle)
  end.

(** [popGuard], up to [CGuarded]. *)
Definition popGuard (c : conf) : option conf :=
  let q := queue c in
  match consumer c with
  | CIdle => Some (to_c c CTest)
  | CTest => Some (to_c c (if isEmpty_ q then CPred else CPending))
  | CPred => Some (to_c c (if 0 <? pending_ q then CTest else CBlock))
  | CBlock => Some (to_c c CAsleep)
  | CPending => Some (to_c c (CPending' (pending_ q)))
  | CPending' v => Some (to_c (upd c (fun q => set_pending q (v - 1))) CNext)
  | CNext => Some (to_c c (if popAt_ q + 1 =? pushAt_ q then CNext' else CLast))
  | CNext' => Some (to_c (upd c (fun q => set_isEmpty q true)) CLast)
  | CLast =>
      Some (to_c c (if (kRingSize_ q <=? popAt_ q + 1) && (pushAt_ q =? 0) then CLast' else CGuarded))
  | CLast' => Some (to_c (upd c (fun q => set_isEmpty q true)) CGuarded)
  | _ => None
  end.

(** [pop]: a null pointer fails the assertion; [at] may throw, which returns
    one. *)
Definition pop (c : conf) : option conf :=
  let q := queue c in
  match consumer c with
  | CGuarded => if update_ c then None else Some (to_c (set_update c true) CTake)
  | CTake =>
      match at_ q (popAt_ q) with
      | None => Some (mkConf q false (producer c) CIdle (todo c) (stored c) (popped c) (S (failures c)))
      | Some out =>
          Some (to_c (upd c (fun q => set_ptrRing q (<[Z.to_nat (popAt_ q) := None]> (ptrRing_ q))))
                  (CNotFull out))
      end
  | CNotFull out => Some (to_c (upd c (fun q => set_isFull q false)) (CNotifyFull out))
  | CNotifyFull out => Some (to_c (notify_full c) (CAdvance out))
  | CAdvance out => Some (to_c (upd c (fun q => set_popAt q (popAt_ q + 1))) (CAround out))
  | CAround out =>
      Some (to_c (if kRingSize_ q <=? popAt_ q then upd c (fun q => set_popAt q 0) else c) (CDecide out))
  | CDecide out =>
      if popAt_ q =? pushAt_ q then Some (to_c (upd c (fun q => set_isEmpty q true)) (CAssert out))
      else Some (to_c (upd c (fun q => set_isEmpty q false)) (CNotifyEmpty out))
  | CNotifyEmpty out => Some (to_c c (CAssert out))   (* the only consumer is awake *)
  | CAssert (Some x) =>
      Some (mkConf q false (producer c) CIdle (todo c) (stored c) (popped c ++ [x]) (failures c))
  | CAssert None => Some (to_c c CAborted)
  | _ => None
  end.

(** The steps the threads make by themselves, and those that may happen as
    well: a sleeper wakes up without a notification. *)
Inductive ring_active (c : conf) : conf -> Prop :=
| active_push c' : push c = Some c' -> ring_active c c'
| active_guard c' : popGuard c = Some c' -> ring_active c c'
| active_pop c' : pop c = Some c' -> ring_active c c'.

Inductive ring_step (c : conf) : conf -> Prop :=
| step_active c' : ring_active c c' -> ring_step c c'
| step_push_wakes x : producer c = PAsleep x -> ring_step c (to_p c (PPred x))
| step_pop_wakes : consumer c = CAsleep -> ring_step c (to_c c CPred).

(** ** Where the threads are

    [stores]: the producer has stored its message and still has [update_];
    [full_open]: it has not yet decided whether the ring is full;
    [takes]: the consumer has taken a message that [pop] did not return yet;
    [empty_open]: it has not yet decided whether the ring is empty;
    [committed]: the consumer has passed the loop of [popGuard] and not yet
    taken its message. *)
Definition stores (p : push_pc) : bool :=
  match p with
  | PPending | PPending' _ | PFull | PWrap | PNotEmpty | PNotifyEmpty | PAdvance | PAround | PDecide
  | PNotifyFull | PReturn => true
  | _ => false
  end.
Definition full_open (p : push_pc) : bool :=
  match p with
  | PPending | PPending' _ | PFull | PWrap | PNotEmpty | PNotifyEmpty | PAdvance | PAround | PDecide => true
  | _ => false
  end.
Definition push_crit (p : push_pc) : bool := match p with PStore _ => true | _ => stores p end.
Definition push_room (p : push_pc) : bool := match p with PLock _ | PStore _ => true | _ => false end.

(** The message that [push] has been given and not stored. *)
Definition holding (p : push_pc) : list A :=
  match p with PTest x | PPred x | PBlock x | PAsleep x | PLock x | PStore x => [x] | _ => [] end.

Definition taken (k : pop_pc) : option (option A) :=
  match k with
  | CNotFull out | CNotifyFull out | CAdvance out | CAround out | CDecide out | CNotifyEmpty out
  | CAssert out => Some out
  | _ => None
  end.
Definition takes (k : pop_pc) : bool := match taken k with Some _ => true | None => false end.
Definition empty_open (k : pop_pc) : bool :=
  match k with
  | CNotFull _ | CNotifyFull _ | CAdvance _ | CAround _ | CDecide _ => true
  | _ => false
  end.
Definition committed (k : pop_pc) : bool :=
  match k with
  | CPending | CPending' _ | CNext | CNext' | CLast | CLast' | CGuarded | CTake => true
  | _ => false
  end.
Definition pop_crit (k : pop_pc) : bool := match k with CTake => true | _ => takes k end.

#[local] Arguments stores !p /.
#[local] Arguments full_open !p /.
#[local] Arguments push_crit !p /.
#[local] Arguments push_room !p /.
#[local] Arguments holding !p /.
#[local] Arguments taken !k /.
#[local] Arguments takes !k /.
#[local] Arguments empty_open !k /.
#[local] Arguments committed !k /.
#[local] Arguments pop_crit !k /.

(** The messages stored and taken so far, and where the two positions are. *)
Definition n_stored (c : conf) : Z := zlen (stored c).
Definition n_taken (c : conf) : Z := zlen (popped c) + (if takes (consumer c) then 1 else 0).

Definition push_pos (p : push_pc) (n t : Z) : Z :=
  match p with
  | PPending | PPending' _ | PFull | PWrap | PNotEmpty | PNotifyEmpty | PAdvance => (t - 1) mod n
  | PAround => (t - 1) mod n + 1
  | _ => t mod n
  end.
Definition pop_pos (k : pop_pc) (n h : Z) : Z :=
  match k with
  | CNotFull _ | CNotifyFull _ | CAdvance _ => (h - 1) mod n
  | CAround _ => (h - 1) mod n + 1
  | _ => h mod n
  end.

#[local] Arguments push_pos !p n t /.
#[local] Arguments pop_pos !k n h /.

(** [msgs] are all the messages the producer is given. *)
Record ring_inv (size : Z) (msgs : list A) (c : conf) : Prop := {
  i_size : kRingSize_ (queue c) = size /\ 0 < size < 2 ^ 31;
  i_ring : zlen (ptrRing_ (queue c)) = size;
  i_msgs : msgs = stored c ++ holding (producer c) ++ todo c;
  i_popped : popped c `prefix_of` stored c;
  i_taken out : taken (consumer c) = Some out ->
    exists x, out = Some x /\ stored c !! length (popped c) = Some x;
  i_count : n_taken c <= n_stored c <= n_taken c + size;
  i_slots i : n_taken c <= i < n_stored c ->
    ptrRing_ (queue c) !! Z.to_nat (i mod size) = Some (stored c !! Z.to_nat i);
  i_push : pushAt_ (queue c) = push_pos (producer c) size (n_stored c);
  i_pop : popAt_ (queue c) = pop_pos (consumer c) size (n_taken c);
  i_update : update_ c = push_crit (producer c) || pop_crit (consumer c);
  i_excl : push_crit (producer c) && pop_crit (consumer c) = false;
  i_stores : stores (producer c) = true -> n_taken c < n_stored c;
  i_takes : takes (consumer c) = true -> n_stored c < n_taken c + size;
  i_committed : committed (consumer c) = true -> n_taken c < n_stored c;
  i_room : push_room (producer c) = true -> n_stored c < n_taken c + size;
  i_empty : isEmpty_ (queue c) = false -> empty_open (consumer c) = true \/ n_taken c < n_stored c;
  i_full : isFull_ (queue c) = false -> full_open (producer c) = true \/ n_stored c < n_taken c + size;
  i_failures : failures c = 0%nat;
  i_running : consumer c <> CAborted
}.

Lemma ring_start_inv size msgs : 0 < size < 2 ^ 31 -> ring_inv size msgs (ring_start size msgs).
Proof.
  intros Hs. assert (i32 size = size) as E.
  { unfold i32, u32_mod. rewrite Z.mod_small by lia. lia. }
  unfold ring_start, ring_ctor. rewrite E.
  split; cbn; unfold n_taken, n_stored; cbn; rewrite ?zlen_nil; try done; try lia.
  - unfold zlen. rewrite length_replicate. lia.
Qed.

(** Moving a position one step round the ring. *)
Lemma wrap_next n x : 0 < n -> 0 <= x < n -> (if n <=? x + 1 then 0 else x + 1) = (x + 1) mod n.
Proof.
  intros Hn Hx. case_match; bool_to_prop; [|by rewrite Z.mod_small by lia].
  replace (x + 1) with n by lia. by rewrite Z.mod_same by lia.
Qed.

Lemma next_pos n i : 0 < n -> ((i - 1) mod n + 1) mod n = i mod n.
Proof.
  intros Hn. rewrite Z.add_mod_idemp_l by lia. f_equal. lia.
Qed.

(** Two numbers less than a turn apart are at the same place only if equal. *)
Lemma same_place n i j : 0 < n -> 0 <= j - i < n -> i mod n = j mod n -> i = j.
Proof.
  intros Hn Hd E. assert ((j - i) mod n = 0) as D by (rewrite Zminus_mod, E, Z.sub_diag; by apply Z.mod_0_l; lia).
  rewrite Z.mod_small in D; lia.
Qed.

(** Everything in terms of the fields; then what arithmetic and the flags
    decide. *)
Ltac ring_open c :=
  destruct c as [[n ring pu po pe em fu sn] up p k td st pp fl];
  unfold push, popGuard, pop, notify_empty, notify_full, n_taken, n_stored, upd, set_queue, set_update, to_p,
    to_c, set_ptrRing, set_pushAt, set_popAt, set_pending, set_isEmpty, set_isFull in *;
  cbn [queue update_ producer consumer todo stored popped failures kRingSize_ ptrRing_ pushAt_ popAt_
       pending_ isEmpty_ isFull_ stopNow_] in *.

Ltac ring_frame :=
  split; unfold n_taken, n_stored in *; cbn in *; try done; try lia; auto;
  try (intuition (congruence || lia)).

Lemma takes_crit k : takes k = true -> pop_crit k = true.
Proof. by destruct k. Qed.

(** The three steps of [push] that depend on where the positions are. *)
Lemma push_store size msgs c c' x :
  ring_inv size msgs c -> producer c = PStore x -> push c = Some c' -> ring_inv size msgs c'.
Proof.
  intros [] Ep E. ring_open c. subst p. cbn in *. destruct i_size0 as [-> Hs].
  set (h := zlen pp + _) in *. pose proof (i_room0 eq_refl) as Hr.
  assert (0 <= h) as Hh by (unfold h; pose proof (zlen_nonneg pp); destruct (takes k); lia).
  pose proof (Z.mod_pos_bound (zlen st) size ltac:(lia)) as Hb. rewrite <- i_push0 in Hb.
  assert (exists o, at_ (mkRing size ring pu po pe em fu sn) pu = Some o) as [o Eo].
  { unfold at_. rewrite (proj2 (Z.leb_le 0 pu)) by lia. apply lookup_lt_is_Some. cbn. unfold zlen in *. lia. }
  rewrite Eo in E. injection E as <-. assert (zlen (st ++ [x]) = zlen st + 1) as Es by (by rewrite zlen_app).
  split; unfold n_taken, n_stored; cbn; rewrite ?Es; fold h; try done; try lia; auto.
  - unfold zlen in *. by rewrite length_insert.
  - by rewrite <- app_assoc.
  - by apply prefix_app_r.
  - intros out Eout. destruct (i_taken0 out Eout) as (y & -> & Ey). exists y. split; [done|]. by apply lookup_app_l_Some.
  - intros i Hi. destruct (decide (i = zlen st)) as [->|Ni].
    + rewrite i_push0, list_lookup_insert_eq by (rewrite <- i_push0; unfold zlen in i_ring0; lia). by rewrite zlen_to_nat, list_lookup_middle.
    + rewrite i_push0, list_lookup_insert_ne.
      { rewrite i_slots0 by lia. rewrite lookup_app_l; [done|]. unfold zlen in Hi, Ni. lia. }
      intros Ei. apply Ni. apply (same_place size); [lia..|].
      pose proof (Z.mod_pos_bound i size ltac:(lia)). pose proof (Z.mod_pos_bound (zlen st) size ltac:(lia)). lia.
  - rewrite i_push0. f_equal. lia.
  - intros T. by rewrite (takes_crit _ T) in i_excl0.
Qed.

Lemma push_around size msgs c c' :
  ring_inv size msgs c -> producer c = PAround -> push c = Some c' -> ring_inv size msgs c'.
Proof.
  intros [] Ep E. ring_open c. subst p. cbn in *. destruct i_size0 as [-> Hs].
  pose proof (Z.mod_pos_bound (zlen st - 1) size ltac:(lia)) as Hb.
  pose proof (wrap_next size _ (proj1 Hs) Hb) as W. rewrite next_pos in W by lia. subst pu.
  destruct (size <=? _); simplify_eq; ring_frame.
Qed.

Lemma push_decide size msgs c c' :
  ring_inv size msgs c -> producer c = PDecide -> push c = Some c' -> ring_inv size msgs c'.
Proof.
  intros [] Ep E. ring_open c. subst p. cbn in *. destruct i_size0 as [-> Hs].
  pose proof (i_stores0 eq_refl) as Hst.
  assert (po = (zlen pp + (if takes k then 1 else 0)) mod size) as Epo by (by destruct k).
  destruct (Z.eqb_spec pu po) as [Eq|Nq]; injection E as <-; ring_frame.
  intros _. right. destruct (decide (zlen st = zlen pp + (if takes k then 1 else 0) + size)) as [Z|]; [|lia].
  destruct Nq. rewrite i_push0, Epo, Z, <- (Z.mul_1_l size) at 1. by rewrite Z.mod_add by lia.
Qed.

Lemma push_inv size msgs c c' : ring_inv size msgs c -> push c = Some c' -> ring_inv size msgs c'.
Proof.
  intros I E. pose proof I as []. ring_open c. destruct p.
  - destruct td; simplify_eq. ring_frame.
  - simplify_eq. destruct fu; ring_frame.
  - simplify_eq. destruct (_ <? _); ring_frame.
  - simplify_eq. ring_frame.
  - done.
  - destruct up; simplify_eq. ring_frame.
  - by apply (push_store _ _ _ _ x I eq_refl E).
  - simplify_eq. ring_frame.
  - simplify_eq. ring_frame.
  - destruct (_ =? _); simplify_eq; ring_frame.
  - destruct (n <=? pu + 1), (po =? 0); simplify_eq; ring_frame.
  - simplify_eq. ring_frame.
  - destruct k; simplify_eq; ring_frame.
  - simplify_eq. ring_frame.
  - by apply (push_around _ _ _ _ I eq_refl E).
  - by apply (push_decide _ _ _ _ I eq_refl E).
  - simplify_eq. ring_frame.
  - simplify_eq. ring_frame.
Qed.

Lemma popGuard_inv size msgs c c' : ring_inv size msgs c -> popGuard c = Some c' -> ring_inv size msgs c'.
Proof.
  intros [] E. ring_open c. destruct k; try done.
  - simplify_eq. ring_frame.
  - destruct em; simplify_eq; ring_frame.
  - destruct (_ <? _); simplify_eq; ring_frame.
  - simplify_eq. ring_frame.
  - simplify_eq. ring_frame.
  - simplify_eq. ring_frame.
  - destruct (po + 1 =? pu); simplify_eq; ring_frame.
  - simplify_eq. ring_frame.
  - destruct (n <=? po + 1), (pu =? 0); simplify_eq; ring_frame.
  - simplify_eq. ring_frame.
Qed.

Lemma stores_crit p : stores p = true -> push_crit p = true.
Proof. by destruct p. Qed.

(** The steps of [pop] that depend on where the positions are. *)
Lemma pop_take size msgs c c' :
  ring_inv size msgs c -> consumer c = CTake -> pop c = Some c' -> ring_inv size msgs c'.
Proof.
  intros [] Ek E. ring_open c. subst k. cbn in *. destruct i_size0 as [-> Hs].
  rewrite Z.add_0_r in *. pose proof (i_committed0 eq_refl) as Hc. pose proof (zlen_nonneg pp) as Hp.
  pose proof (Z.mod_pos_bound (zlen pp) size ltac:(lia)) as Hb. rewrite <- i_pop0 in Hb.
  pose proof (i_slots0 (zlen pp) ltac:(lia)) as S0. rewrite <- i_pop0, zlen_to_nat in S0.
  destruct (lookup_lt_is_Some_2 st (length pp)) as [x Ex]; [unfold zlen in Hc; lia|].
  assert (at_ (mkRing size ring pu po pe em fu sn) po = Some (Some x)) as Eo.
  { unfold at_. rewrite (proj2 (Z.leb_le 0 po)) by lia. cbn. by rewrite S0, Ex. }
  rewrite Eo in E. injection E as <-.
  split; unfold n_taken, n_stored; cbn; try done; try lia; auto.
  - unfold zlen in *. by rewrite length_insert.
  - intros out Eq. injection Eq as <-. eauto.
  - intros i Hi. rewrite list_lookup_insert_ne; [apply i_slots0; lia|]. rewrite i_pop0. intros Ei.
    assert (zlen pp = i); [|lia]. apply (same_place size); [lia..|].
    pose proof (Z.mod_pos_bound i size ltac:(lia)). pose proof (Z.mod_pos_bound (zlen pp) size ltac:(lia)). lia.
  - rewrite i_pop0. f_equal. lia.
  - intros T. apply stores_crit in T. by rewrite T in i_excl0.
Qed.

Lemma pop_around size msgs c c' out :
  ring_inv size msgs c -> consumer c = CAround out -> pop c = Some c' -> ring_inv size msgs c'.
Proof.
  intros [] Ek E. ring_open c. subst k. cbn in *. destruct i_size0 as [-> Hs].
  pose proof (Z.mod_pos_bound (zlen pp + 1 - 1) size ltac:(lia)) as Hb.
  pose proof (wrap_next size _ (proj1 Hs) Hb) as W. rewrite next_pos in W by lia. subst po.
  destruct (size <=? _); simplify_eq; ring_frame.
Qed.

Lemma pop_decide size msgs c c' out :
  ring_inv size msgs c -> consumer c = CDecide out -> pop c = Some c' -> ring_inv size msgs c'.
Proof.
  intros [] Ek E. ring_open c. subst k. cbn in *. destruct i_size0 as [-> Hs].
  assert (pu = zlen st mod size) as Epu by (rewrite andb_true_r in i_excl0; by destruct p).
  destruct (Z.eqb_spec po pu) as [Eq|Nq]; injection E as <-; ring_frame.
  intros _. right. destruct (decide (zlen pp + 1 = zlen st)) as [Z|]; [|lia].
  destruct Nq. by rewrite i_pop0, Epu, Z.
Qed.

Lemma pop_return size msgs c c' out :
  ring_inv size msgs c -> consumer c = CAssert out -> pop c = Some c' -> ring_inv size msgs c'.
Proof.
  intros [] Ek E. ring_open c. subst k. cbn in *. destruct (i_taken0 out eq_refl) as (x & -> & Ex).
  injection E as <-. assert (zlen (pp ++ [x]) = zlen pp + 1) as Es by (by rewrite zlen_app).
  rewrite andb_true_r in i_excl0.
  split; unfold n_taken, n_stored; cbn; rewrite ?Es, ?Z.add_0_r; try done; auto.
  - destruct i_popped0 as [l ->]. rewrite lookup_app_r, Nat.sub_diag in Ex by lia.
    destruct l as [|y l]; [done|]. injection Ex as ->. exists l. by rewrite <- app_assoc.
  - by rewrite i_excl0.
  - by rewrite andb_false_r.
Qed.

Lemma pop_inv size msgs c c' : ring_inv size msgs c -> pop c = Some c' -> ring_inv size msgs c'.
Proof.
  intros I E. pose proof I as []. ring_open c. destruct k; try done.
  - destruct up; simplify_eq. ring_frame.
  - by apply (pop_take _ _ _ _ I eq_refl E).
  - simplify_eq. ring_frame.
  - destruct p; simplify_eq; ring_frame.
  - simplify_eq. ring_frame.
  - by apply (pop_around _ _ _ _ out I eq_refl E).
  - by apply (pop_decide _ _ _ _ out I eq_refl E).
  - simplify_eq. ring_frame.
  - by apply (pop_return _ _ _ _ out I eq_refl E).
Qed.

Lemma ring_step_inv size msgs c c' : ring_inv size msgs c -> ring_step c c' -> ring_inv size msgs c'.
Proof.
  intros I St. destruct St as [c' [c1 E|c1 E|c1 E] | x Ep | Ek];
    [by eapply push_inv | by eapply popGuard_inv | by eapply pop_inv | |].
  - destruct I. ring_open c. subst p. ring_frame.
  - destruct I. ring_open c. subst k. ring_frame.
Qed.

Lemma ring_reachable_inv size msgs c : 0 < size < 2 ^ 31 ->
  rtc ring_step (ring_start size msgs) c -> ring_inv size msgs c.
Proof.
  intros Hs R. pose proof (ring_start_inv size msgs Hs) as I.
  induction R as [|c1 c2 c3 St _ IH]; [done|]. apply IH. by eapply ring_step_inv.
Qed.

(** ** The counter of pending messages

    Both threads add to [pending_] without a common mutex, so updates get lost
    and it need not be the number of messages waiting; but it stays between the
    number of calls of [popGuard], negated, and the number of calls of [push]. *)
Definition unbooked (p : push_pc) : Z := match p with PPending | PPending' _ => 1 | _ => 0 end.
Definition booked (k : pop_pc) : Z :=
  match k with
  | CNext | CNext' | CLast | CLast' | CGuarded | CTake => 1
  | _ => if takes k then 1 else 0
  end.
#[local] Arguments unbooked !p /.
#[local] Arguments booked !k /.

Record pending_inv (c : conf) : Prop := {
  p_now : - (zlen (popped c) + booked (consumer c)) <= pending_ (queue c) <= zlen (stored c) - unbooked (producer c);
  p_push v : producer c = PPending' v -> - (zlen (popped c) + booked (consumer c)) <= v < zlen (stored c);
  p_pop v : consumer c = CPending' v -> - zlen (popped c) <= v <= zlen (stored c) - unbooked (producer c)
}.

Ltac pending_frame :=
  split; cbn in *; rewrite ?zlen_app, ?zlen_cons, ?zlen_nil in *;
    repeat (let v := fresh "v" in let E := fresh "E" in intros v E; simplify_eq); try lia;
    try (match goal with H : forall v, _ = _ -> _, E : _ = _ |- _ => specialize (H _ E); lia end);
    try (match goal with H : forall v, _ _ = _ -> _ |- _ => specialize (H _ eq_refl); lia end).

Lemma pending_push c c' : pending_inv c -> push c = Some c' -> failures c' = 0%nat -> pending_inv c'.
Proof.
  intros [] E F. ring_open c. destruct p; try (repeat case_match; simplify_eq; pending_frame).
Qed.

Lemma pending_popGuard c c' : pending_inv c -> popGuard c = Some c' -> pending_inv c'.
Proof.
  intros [] E. ring_open c. destruct k; try (repeat case_match; simplify_eq; pending_frame).
Qed.

Lemma pending_pop c c' : pending_inv c -> pop c = Some c' -> failures c' = 0%nat ->
  consumer c' <> CAborted -> pending_inv c'.
Proof.
  intros [] E F N. ring_open c. destruct k; try (repeat case_match; simplify_eq; pending_frame).
Qed.

Lemma ring_reachable_pending size msgs c : 0 < size < 2 ^ 31 ->
  rtc ring_step (ring_start size msgs) c -> pending_inv c.
Proof.
  intros Hs R. pose proof (ring_start_inv size msgs Hs) as I.
  assert (pending_inv (ring_start size msgs)) as J by (by split).
  induction R as [|c1 c2 c3 St _ IH]; [done|].
  pose proof (ring_step_inv _ _ _ _ I St) as I2. apply IH; [done|]. pose proof (i_failures _ _ _ I2) as F.
  destruct St as [c' [c2 E|c2 E|c2 E] | x Ep | Ek].
  - by eapply pending_push.
  - by eapply pending_popGuard.
  - eapply pending_pop; [done.. |]. apply I2.
  - destruct J. ring_open c1. subst p. pending_frame.
  - destruct J. ring_open c1. subst k. pending_frame.
Qed.

(** C30: the ring is a first-in first-out queue.  However the accesses of one
    producer and one consumer interleave, and however often they are woken for
    nothing: the messages that [pop] has returned are the first ones given to
    [push], in order; those stored and not yet returned are the next ones, and
    there are at most [size] of them; no [push] returns false, no [pop] returns a
    null pointer and no assertion fails; and [pending_] does not overflow on fewer
    than 2^31 messages. *)
Theorem ring_queue_fifo (size : Z) (msgs : list A) (c : conf) :
  0 < size < 2 ^ 31 -> rtc ring_step (ring_start size msgs) c ->
  exists waiting later,
    msgs = popped c ++ waiting ++ later /\ stored c = popped c ++ waiting /\
    zlen waiting <= size /\ failures c = 0%nat /\ consumer c <> CAborted /\
    (zlen msgs < 2 ^ 31 -> in_i32 (pending_ (queue c))).
Proof.
  intros Hs R. destruct (ring_reachable_inv size msgs c Hs R). destruct i_popped0 as [waiting Ew].
  exists waiting, (holding (producer c) ++ todo c).
  split; [by rewrite i_msgs0, Ew, <- app_assoc|]. split; [done|].
  unfold n_taken, n_stored in *. pose proof (zlen_nonneg waiting). split; [|split; [done|split; [done|]]].
  - rewrite Ew, zlen_app in *. destruct (takes (consumer c)); [specialize (i_takes0 eq_refl)|]; lia.
  - intros L. destruct (ring_reachable_pending size msgs c Hs R) as [N _ _]. unfold in_i32.
    assert (zlen (stored c) <= zlen msgs) as Ls.
    { rewrite i_msgs0, zlen_app. pose proof (zlen_nonneg (holding (producer c) ++ todo c)). lia. }
    assert (booked (consumer c) <= 1 /\ 0 <= unbooked (producer c)) as [B U]
      by (destruct (consumer c), (producer c); cbn; lia).
    rewrite Ew, zlen_app in *. lia.
Qed.

(** Where a thread stops. *)
Lemma producer_blocked c : push c = None ->
  (producer c = PIdle /\ todo c = []) \/ (exists x, producer c = PAsleep x) \/
  ((exists x, producer c = PLock x) /\ update_ c = true).
Proof.
  unfold push. destruct (producer c); try done; intros E; try (repeat case_match; done); eauto.
  - destruct (todo c); [auto | done].
  - destruct (update_ c); [eauto 10 | done].
Qed.

Lemma consumer_blocked c : popGuard c = None -> pop c = None ->
  consumer c = CAsleep \/ consumer c = CAborted \/ (consumer c = CGuarded /\ update_ c = true).
Proof.
  unfold popGuard, pop. destruct (consumer c); try done; intros E1 E2; try (repeat case_match; done); auto.
  destruct (update_ c); [auto | done].
Qed.

(** Where the ring can come to a halt.  The two threads never block each other
    on the mutex: when neither can make a step, the consumer sleeps in
    [popGuard], and the producer sleeps in [push] or has pushed all it was
    given. *)
Theorem ring_halts_asleep (size : Z) (msgs : list A) (c : conf) :
  0 < size < 2 ^ 31 -> rtc ring_step (ring_start size msgs) c ->
  (forall c', ~ ring_active c c') ->
  consumer c = CAsleep /\
  ((exists x, producer c = PAsleep x) \/ producer c = PIdle /\ todo c = [] /\ stored c = msgs).
Proof.
  intros Hs R H. destruct (ring_reachable_inv size msgs c Hs R).
  assert (push c = None) as Ep
    by (destruct (push c) eqn:E; [by destruct (H _ (active_push _ _ E)) | done]).
  assert (popGuard c = None) as Eg
    by (destruct (popGuard c) eqn:E; [by destruct (H _ (active_guard _ _ E)) | done]).
  assert (pop c = None) as Eq
    by (destruct (pop c) eqn:E; [by destruct (H _ (active_pop _ _ E)) | done]).
  destruct (consumer_blocked c Eg Eq) as [Ek | [Ek | [Ek U]]], (producer_blocked c Ep)
    as [[Pi Td] | [[x Pa] | [[x Pl] U']]]; try done;
    rewrite ?Ek, ?Pi, ?Pa, ?Pl in *; cbn in *; try congruence; split; eauto.
  right. rewrite Td, app_nil_r in i_msgs0. auto.
Qed.

(** ** Schedules *)
Inductive side := Push | Guard | Pop.

Fixpoint play (l : list side) (c : conf) : option conf :=
  match l with
  | [] => Some c
  | s :: l => match s with Push => push c | Guard => popGuard c | Pop => pop c end ≫= play l
  end.

Lemma play_reaches l : forall c c', play l c = Some c' -> rtc ring_step c c'.
Proof.
  induction l as [|s l IH]; intros c c' E; cbn in E; [simplify_eq; constructor|].
  destruct s; apply bind_Some in E as (c1 & E1 & E);
    (eapply rtc_l; [apply step_active; first [by apply active_push | by apply active_guard | by apply active_pop]|]); by apply IH.
Qed.

(** ** A lost wakeup *)

(** One producer with a single message, one consumer, on a fresh queue: the
    consumer finds the queue empty and nothing pending; before it falls asleep
    the producer does all its work. *)
Definition lost_schedule : list side :=
  [Guard; Guard; Guard] ++ replicate 15 Push ++ [Guard].

Definition lost (size : Z) (x : A) : conf :=
  mkConf (mkRing size (<[0%nat := Some x]> (replicate (Z.to_nat size) None)) 1 0 1 false false false)
    false PIdle CAsleep [] [x] [] 0.

(** The producer at work inside [push] while the consumer is about to sleep. *)
Definition storing (size : Z) (x : A) (i : Z) (empty : bool) (p : push_pc) : conf :=
  mkConf (mkRing size (<[0%nat := Some x]> (replicate (Z.to_nat size) None)) i 0 1 empty false false)
    true p CBlock [] [x] [] 0.

(** The two tests that compare with the ring's size, on a ring of more than one
    place. *)
Lemma storing_tests size x : 1 < size ->
  rtc ring_step (storing size x 0 true PWrap) (storing size x 0 true PNotEmpty) /\
  rtc ring_step (storing size x 1 false PAround) (storing size x 1 false PDecide).
Proof.
  intros Hs. assert ((size <=? 1) = false) as G by (apply Z.leb_gt; lia).
  split; apply rtc_once, step_active, active_push; unfold push, storing; cbn -[Z.leb];
    [change (0 + 1) with 1 | idtac]; rewrite G; reflexivity.
Qed.

(** C29: a wakeup is lost.  On a fresh queue of two places or more, whatever the
    message: the threads can reach a state where [push] has returned true, the
    message is in the queue with [pending_] at 1 and [isEmpty_] false, and the
    consumer sleeps in [popGuard]; and from there neither thread can make a
    step, so the message stays until something else wakes the consumer. *)
Theorem ring_lost_wakeup (size : Z) (x : A) :
  1 < size < 2 ^ 31 ->
  rtc ring_step (ring_start size [x]) (lost size x) /\
  stored (lost size x) = [x] /\ popped (lost size x) = [] /\
  pending_ (queue (lost size x)) = 1 /\ isEmpty_ (queue (lost size x)) = false /\
  consumer (lost size x) = CAsleep /\
  forall c, ~ ring_active (lost size x) c.
Proof.
  intros Hs. split; [|do 5 (split; [done|]); by intros c' [c E|c E|c E]; cbn in E].
  assert (i32 size = size) as E by (unfold i32, u32_mod; rewrite Z.mod_small by lia; lia).
  destruct (storing_tests size x) as [W R]; [lia|].
  transitivity (storing size x 0 true PWrap).
  - apply (play_reaches ([Guard; Guard; Guard] ++ replicate 7 Push)).
    unfold ring_start, ring_ctor, storing. rewrite E.
    destruct (Z.to_nat size) as [|m] eqn:Em; [lia|]. vm_compute. reflexivity.
  - etransitivity; [exact W|]. etransitivity; [apply (play_reaches [Push; Push; Push]); reflexivity|].
    etransitivity; [exact R|]. apply (play_reaches [Push; Push; Push; Guard]). reflexivity.
Qed.

End ring.
Arguments DevcashRingQueue : clear implicits.
Arguments conf : clear implicits.

(** Three messages through a ring of two places: the consumer passes the loop of
    [popGuard] while the producer stores the second, and takes the first while
    the producer waits for the mutex with the third. *)
Definition mixed_schedule : list side :=
  replicate 16 Push ++ replicate 4 Guard ++ replicate 8 Push ++ replicate 3 Guard ++ replicate 8 Push ++
  replicate 3 Pop ++ [Push] ++ replicate 6 Pop.

Definition mixed_start : conf Z := ring_start 2 [7; 8; 9].
Definition mixed : conf Z := default mixed_start (play mixed_schedule mixed_start).

Lemma mixed_reached : rtc ring_step mixed_start mixed.
Proof. apply (play_reaches mixed_schedule). vm_compute. reflexivity. Qed.

Lemma ring_queue_fifo_witness :
  popped mixed = [7] /\ stored mixed = [7; 8] /\ producer mixed = PLock 9 /\
  exists waiting later,
    [7; 8; 9] = popped mixed ++ waiting ++ later /\ stored mixed = popped mixed ++ waiting /\
    zlen waiting <= 2 /\ failures mixed = 0%nat /\ consumer mixed <> CAborted /\
    (zlen [7; 8; 9] < 2 ^ 31 -> in_i32 (pending_ (queue mixed))).
Proof.
  do 3 (split; [vm_compute; reflexivity|]).
  apply (ring_queue_fifo 2 [7; 8; 9] mixed); [lia | exact mixed_reached].
Defined.

Lemma lost_reached : rtc ring_step (ring_start 10 [7]) (lost 10 7).
Proof. apply (play_reaches lost_schedule). vm_compute. reflexivity. Qed.

Lemma ring_halts_asleep_witness :
  consumer (lost 10 7) = CAsleep /\
  ((exists x, producer (lost 10 7) = PAsleep x) \/
   producer (lost 10 7) = PIdle /\ todo (lost 10 7) = [] /\ stored (lost 10 7) = [7]).
Proof.
  apply (ring_halts_asleep 10 [7] (lost 10 7)); [lia | exact lost_reached|].
  by intros c' [c E|c E|c E]; cbn in E.
Defined.

(** A queue of the default size. *)
Lemma ring_lost_wakeup_witness :
  rtc ring_step (ring_start kDEFAULT_RING_SIZE [7]) (lost kDEFAULT_RING_SIZE 7) /\
  stored (lost kDEFAULT_RING_SIZE 7) = [7] /\ popped (lost kDEFAULT_RING_SIZE 7) = [] /\
  pending_ (queue (lost kDEFAULT_RING_SIZE 7)) = 1 /\ isEmpty_ (queue (lost kDEFAULT_RING_SIZE 7)) = false /\
  consumer (lost kDEFAULT_RING_SIZE 7) = CAsleep /\
  forall c, ~ ring_active (lost kDEFAULT_RING_SIZE 7) c.
Proof. apply (ring_lost_wakeup kDEFAULT_RING_SIZE 7). unfold kDEFAULT_RING_SIZE. lia. Defined.
