(* ===== verification/SpscQueue.v ===== *)
(** * concurrency/DevcashSPSCQueue.h

    A queue of pointers between one producer and one consumer over
    [boost::lockfree::spsc_queue], which is not part of the sources: [SpscLib] is
    its interface and [SpscLaws] what its documentation promises to one thread
    that pushes and one that pops.  [push] and [pop] try, and sleep for a
    millisecond between two tries; a try is a step, and so is the call. *)

From Stdlib Require Import ZArith Lia.
From stdpp Require Import base list numbers relations option.
From S2P Require Import Prelude.

#[local] Open Scope nat_scope.

(** [boost::lockfree::capacity<1024>] *)
Definition kSPSC_CAPACITY : nat := 1024.

Class SpscLib (A : Type) := {
  lib_queue : Type;
  lib_ctor : lib_queue;
  (** [push(t)]: whether it was pushed *)
  lib_push : A -> lib_queue -> bool * lib_queue;
  (** [pop(ret)]: the element, if there was one *)
  lib_pop : lib_queue -> option (A * lib_queue)
}.

Class SpscLaws (A : Type) `{SpscLib A} := {
  lib_items : lib_queue -> list A;
  items_ctor : lib_items lib_ctor = [];
  (** an element is pushed exactly when there is room, behind the others *)
  push_room a q : length (lib_items q) < kSPSC_CAPACITY ->
    exists q', lib_push a q = (true, q') /\ lib_items q' = lib_items q ++ [a];
  push_full a q : length (lib_items q) >= kSPSC_CAPACITY -> lib_push a q = (false, q);
  (** the oldest element is popped *)
  pop_empty q : lib_items q = [] -> lib_pop q = None;
  pop_oldest a l q : lib_items q = a :: l -> exists q', lib_pop q = Some (a, q') /\ lib_items q' = l
}.

Section queue.
Context {A : Type} `{SpscLib A}.

(** The queue, the pointer that a call of [push] has released, whether a call of
    [pop] waits, and what the calls of [pop] have returned. *)
Record DevcashSPSCQueue := mkSpsc {
  spsc_queue_ : lib_queue;
  pushing : option A;
  popping : bool;
  received : list A
}.

Definition spsc_ctor : DevcashSPSCQueue := mkSpsc lib_ctor None false [].

(** [pointer.release()] *)
Definition push_call (pointer : A) (s : DevcashSPSCQueue) : option DevcashSPSCQueue :=
  match pushing s with
  | Some _ => None
  | None => Some (mkSpsc (spsc_queue_ s) (Some pointer) (popping s) (received s))
  end.

(** [while (!spsc_queue_.push(ptr)) sleep; return true;] *)
Definition push_try (s : DevcashSPSCQueue) : option DevcashSPSCQueue :=
  match pushing s with
  | None => None
  | Some ptr =>
      let '(ok, q) := lib_push ptr (spsc_queue_ s) in
      Some (mkSpsc q (if ok : bool then None else Some ptr) (popping s) (received s))
  end.

Definition pop_call (s : DevcashSPSCQueue) : option DevcashSPSCQueue :=
  if popping s then None else Some (mkSpsc (spsc_queue_ s) (pushing s) true (received s)).

(** [while (!spsc_queue_.pop(ptr)) sleep; return pointer;] *)
Definition pop_try (s : DevcashSPSCQueue) : option DevcashSPSCQueue :=
  if popping s then
    match lib_pop (spsc_queue_ s) with
    | None => Some s
    | Some (ptr, q) => Some (mkSpsc q (pushing s) false (received s ++ [ptr]))
    end
  else None.

Inductive spsc_event := PushCall (pointer : A) | PushTry | PopCall | PopTry.

Definition spsc_exec1 (e : spsc_event) : DevcashSPSCQueue -> option DevcashSPSCQueue :=
  match e with
  | PushCall pointer => push_call pointer
  | PushTry => push_try
  | PopCall => pop_call
  | PopTry => pop_try
  end.

Fixpoint spsc_exec (es : list spsc_event) (s : DevcashSPSCQueue) : option DevcashSPSCQueue :=
  match es with
  | [] => Some s
  | e :: es' => match spsc_exec1 e s with Some s' => spsc_exec es' s' | None => None end
  end.

(** The pointers given to [push]. *)
Definition given (es : list spsc_event) : list A :=
  omap (fun e => match e with PushCall pointer => Some pointer | _ => None end) es.
End queue.
Arguments spsc_event : clear implicits.

(** ** First in, first out *)
Section fifo.
Context {A : Type} `{SpscLaws A}.
Implicit Types (s : DevcashSPSCQueue) (e : spsc_event A).

Definition in_hand s : list A := match pushing s with Some a => [a] | None => [] end.

(** Everything that has been given is received, or waits, or is in the hand of
    [push], in this order. *)
Definition passed s : list A := received s ++ lib_items (spsc_queue_ s) ++ in_hand s.

Definition bounded s : Prop := length (lib_items (spsc_queue_ s)) <= kSPSC_CAPACITY.

Lemma step_passes e s s' : bounded s -> spsc_exec1 e s = Some s' ->
  bounded s' /\ passed s' = passed s ++ given [e].
Proof.
  unfold bounded, passed, in_hand. intros B.
  destruct e as [a| | |]; cbn [spsc_exec1]; unfold push_call, push_try, pop_call, pop_try.
  - destruct (pushing s) eqn:P; [done|]. intros [= <-]. cbn. split; [done|]. by rewrite app_nil_r, <- app_assoc.
  - destruct (pushing s) as [a|] eqn:P; [|done].
    destruct (decide (length (lib_items (spsc_queue_ s)) < kSPSC_CAPACITY)) as [L|L].
    + destruct (push_room a (spsc_queue_ s) L) as (q & -> & Q). intros [= <-]. cbn. rewrite Q.
      rewrite length_app. cbn. split; [lia|]. by rewrite !app_nil_r.
    + rewrite push_full by lia. intros [= <-]. cbn. by rewrite app_nil_r.
  - destruct (popping s); [done|]. intros [= <-]. cbn. by rewrite app_nil_r.
  - destruct (popping s); [|done]. destruct (lib_items (spsc_queue_ s)) as [|a l] eqn:Q.
    + rewrite pop_empty by done. intros [= <-]. cbn. rewrite Q. by rewrite app_nil_r.
    + destruct (pop_oldest a l _ Q) as (q & -> & Q'). intros [= <-]. cbn. rewrite Q'. cbn in B.
      split; [lia|]. by rewrite app_nil_r, <- app_assoc.
Qed.

Lemma run_passes es : forall s s', bounded s -> spsc_exec es s = Some s' ->
  bounded s' /\ passed s' = passed s ++ given es.
Proof.
  induction es as [|e es IH]; intros s s' B; cbn [spsc_exec]; [intros [= <-]; by rewrite app_nil_r|].
  destruct (spsc_exec1 e s) as [s1|] eqn:E; [|done]. intros R.
  destruct (step_passes _ _ _ B E) as [B1 P1]. destruct (IH _ _ B1 R) as [B2 P2]. split; [done|].
  rewrite P2, P1, <- app_assoc. f_equal. symmetry. exact (omap_app _ [e] es).
Qed.

(** When a try goes through. *)
Lemma push_goes_through s a : pushing s = Some a ->
  (exists s', push_try s = Some s' /\ pushing s' = None) <-> length (lib_items (spsc_queue_ s)) < kSPSC_CAPACITY.
Proof.
  intros P. unfold push_try. rewrite P. split.
  - intros (s' & E & N). destruct (decide (length (lib_items (spsc_queue_ s)) < kSPSC_CAPACITY)); [done|].
    rewrite push_full in E by lia. by injection E as <-.
  - intros L. destruct (push_room a _ L) as (q & -> & _). by eexists.
Qed.

Lemma pop_goes_through s : popping s = true ->
  (exists s', pop_try s = Some s' /\ popping s' = false) <-> lib_items (spsc_queue_ s) <> [].
Proof.
  intros P. unfold pop_try. rewrite P. split.
  - intros (s' & E & N) Q. rewrite pop_empty in E by done. injection E as <-. congruence.
  - intros Q. destruct (lib_items (spsc_queue_ s)) as [|a l] eqn:I; [done|].
    destruct (pop_oldest a l _ I) as (q & -> & _). by eexists.
Qed.

(** One producer and one consumer.  After any sequence of calls and tries, what
    [push] was given is what [pop] has returned, then what waits in the queue, at
    most 1024 pointers, then the one that a call of [push] still has: nothing is
    lost, doubled or reordered.  A waiting [push] goes through exactly when there
    is room and a waiting [pop] exactly when something waits, so that two waiting
    calls are never both stuck. *)
Theorem spsc_fifo (es : list (spsc_event A)) (s : DevcashSPSCQueue) :
  spsc_exec es spsc_ctor = Some s ->
  exists waiting,
    given es = received s ++ waiting ++ in_hand s /\ length waiting <= 1024 /\
    (forall a, pushing s = Some a ->
       (exists s', push_try s = Some s' /\ pushing s' = None) <-> length waiting < 1024) /\
    (popping s = true -> (exists s', pop_try s = Some s' /\ popping s' = false) <-> waiting <> []) /\
    (is_Some (pushing s) -> popping s = true ->
       exists s', (push_try s = Some s' /\ pushing s' = None) \/ (pop_try s = Some s' /\ popping s' = false)).
Proof.
  intros E. destruct (run_passes es spsc_ctor s) as [B P]; [|done|].
  { unfold bounded, spsc_ctor. cbn. rewrite items_ctor. cbn. lia. }
  exists (lib_items (spsc_queue_ s)). split_and!.
  - unfold passed in P at 2. cbn in P. by rewrite items_ctor in P.
  - exact B.
  - intros a. apply push_goes_through.
  - apply pop_goes_through.
  - intros [a Pa] Po. destruct (decide (lib_items (spsc_queue_ s) = [])) as [N|N].
    + destruct (proj2 (push_goes_through s a Pa)) as (s' & X); [rewrite N; cbn; unfold kSPSC_CAPACITY; lia | eauto].
    + destruct (proj2 (pop_goes_through s Po) N) as (s' & X). eauto.
Qed.
End fifo.

(** A list with room for 1024. *)
#[global] Instance list_spsc A : SpscLib A := {|
  lib_queue := list A;
  lib_ctor := [];
  lib_push a q := if decide (length q < kSPSC_CAPACITY)%nat then (true, q ++ [a]) else (false, q);
  lib_pop q := match q with a :: q' => Some (a, q') | [] => None end
|}.

#[global] Instance list_spsc_laws A : SpscLaws A.
Proof.
  refine {| lib_items := (fun q : lib_queue => (q : list A)) |}.
  - done.
  - intros a q L. exists (q ++ [a]). cbn. by rewrite decide_True.
  - intros a q L. cbn. rewrite decide_False by lia. done.
  - by intros q ->.
  - intros a l q ->. by exists l.
Defined.

Definition spsc_sample : DevcashSPSCQueue := mkSpsc (H := list_spsc nat) [] (Some 8) true [7].

Lemma spsc_fifo_witness :
  exists waiting,
    spsc_exec [PushCall 7; PushTry; PopCall; PushCall 8; PopTry; PopCall] spsc_ctor = Some spsc_sample /\
    [7; 8] = received spsc_sample ++ waiting ++ in_hand spsc_sample /\ length waiting <= 1024.
Proof.
  destruct (spsc_fifo [PushCall 7; PushTry; PopCall; PushCall 8; PopTry; PopCall] spsc_sample)
    as (w & E & L & _); [reflexivity|].
  exists w. split; [reflexivity|]. split; [exact E | exact L].
Defined.
