(* ===== verification/Transactions.v ===== *)
(** * primitives/Transaction.h, Tier2Transaction.{h,cpp}, Tier1Transaction.{h,cpp},
    primitives/factories.h, concurrency/TransactionCreationManager.h

    A tier 2 transaction holds its canonical bytes

      xfer_size (8) | nonce_size (8) | operation (1) | transfers | nonce | signature

    and decodes its fields from them.  A tier 1 transaction is the summary of a
    tier 2 block with the address and signature of the node that proposed it.
    Validation threads the chain state, the summary and the aggregate of
    committed coins, which the source takes by reference: what was written
    before a throw or a rejection stays written.  Logging is not modelled. *)

From Stdlib Require Import ZArith Lia.
From stdpp Require Import base list numbers.
From S2P Require Import Prelude OrdMap Converters Keys Buffers Transfer ChainState Summary.
From S2P Require Import Validation KeyRing.

(** The objects that validation updates. *)
Record VCtx := mkVCtx {
  v_state : ChainState;
  v_summary : Summary;
  v_aggregate : omap Address SmartCoin
}.

(** [SmartCoin next_flow(addr, coin, amount); state.addCoin(next_flow);
    summary.addItem(addr, coin, amount, t->getDelay());] *)
Definition apply_flow (addr : Address) (coin amount : Z) (t : Transfer) : M VCtx unit :=
  c ← get;
  st ← lift (ChainStateOps.addCoin (v_state c) (mkSmartCoin addr coin amount));
  put (mkVCtx st.2 (v_summary c) (v_aggregate c));;
  delay ← lift (TransferOps.getDelay t);
  c ← get;
  put (mkVCtx (v_state c) (SummaryOps.addItem_delta (v_summary c) addr coin amount delay).2
         (v_aggregate c)).

(** The aggregate of a sender: the coins committed by transactions that may be
    ordered either way.  [None] when the transfer is refused, otherwise whether
    the insertion worked. *)
Definition commit_aggregate (prior : ChainState) (addr : Address) (coin amount : Z)
    : M VCtx (option bool) :=
  c ← get;
  match om_find addr (v_aggregate c) with
  | Some sc =>
      historic ← lift (ChainStateOps.getAmount prior coin addr);
      let committed := sc_amount sc in
      hc ← lift (add_i64 historic committed);
      total ← lift (add_i64 hc amount);
      if total <? 0 then mret None
      else
        sum ← lift (add_i64 amount committed);
        put (mkVCtx (v_state c) (v_summary c)
               (om_put addr (mkSmartCoin addr coin sum) (v_aggregate c)));;
        mret (Some true)
  | None =>
      let result := om_insert addr (mkSmartCoin addr coin amount) (v_aggregate c) in
      put (mkVCtx (v_state c) (v_summary c) (fst result));;
      mret (Some (snd result))
  end.

Section transactions.
Context `{Crypto}.

(** ** Tier 2 *)
Record Tier2Transaction := mkT2 {
  t2_canonical : bytes;
  t2_is_sound : bool;
  t2_xfer_size : Z;
  t2_nonce_size : Z
}.

Definition t2_default : Tier2Transaction := mkT2 [] false 0 0.

Definition t2_set_sound (tx : Tier2Transaction) (b : bool) : Tier2Transaction :=
  mkT2 (t2_canonical tx) b (t2_xfer_size tx) (t2_nonce_size tx).

Definition t2_getOperation (tx : Tier2Transaction) : res Z :=
  vec_idx (t2_canonical tx) kOPERATION_OFFSET.

Definition t2_getNonce (tx : Tier2Transaction) : res bytes :=
  vec_range (t2_canonical tx) (u64 (kENVELOPE_SIZE + t2_xfer_size tx))
    (u64 (kENVELOPE_SIZE + t2_xfer_size tx + t2_nonce_size tx)).

Definition t2_getMessageDigest (tx : Tier2Transaction) : res bytes :=
  vec_range (t2_canonical tx) 0
    (u64 (kENVELOPE_SIZE + t2_nonce_size tx + t2_xfer_size tx)).

(** Every iteration moves the offset by 24 or more, or throws at the end of
    the canonical bytes, whose length is therefore enough fuel. *)
Fixpoint xfer_loop (canonical : bytes) (xfer_size : Z) (fuel : nat) (offset : Z)
    : res (list Transfer) :=
  if offset <? xfer_size then
    match fuel with
    | O => NoFuel
    | S fuel' =>
        t ← fst (TransferOps.from_buffer (mkIB canonical (u64 (kTRANSFER_OFFSET + offset))));
        out ← xfer_loop canonical xfer_size fuel' (u64 (offset + TransferOps.Size t));
        Ok (t :: out)
    end
  else Ok [].

Definition t2_getTransfers (tx : Tier2Transaction) : res (list Transfer) :=
  xfer_loop (t2_canonical tx) (t2_xfer_size tx) (S (length (t2_canonical tx))) 0.

(** The size of the signature is chosen by the operation. *)
Definition t2_getSignature (tx : Tier2Transaction) : res Signature :=
  oper ← t2_getOperation tx;
  let start := u64 (kENVELOPE_SIZE + t2_nonce_size tx + t2_xfer_size tx) in
  if oper =? eOpType.Exchange then
    sig_bin ← vec_range (t2_canonical tx) start (start + kWALLET_SIG_BUF_SIZE);
    SignatureOps.ctor sig_bin
  else
    sig_bin ← vec_range (t2_canonical tx) start (start + kNODE_SIG_BUF_SIZE);
    SignatureOps.ctor sig_bin.

(** The running total, whether a sender was seen, and the sender. *)
Record Scan := mkScan { sn_total : Z; sn_set : bool; sn_sender : Address }.

Definition scan_step (s : Scan) (t : Transfer) : res Scan :=
  amount ← TransferOps.getAmount t;
  total ← add_i64 (sn_total s) amount;
  if amount <? 0 then
    (if sn_set s then
       a ← TransferOps.getAddress t;
       if bool_decide (sn_sender s <> a) then Err RuntimeError else Ok tt
     else Ok tt);;
    sender ← TransferOps.getAddress t;
    Ok (mkScan total true sender)
  else Ok (mkScan total (sn_set s) (sn_sender s)).

Definition scan_start : Scan := mkScan 0 false AddressOps.default.

Definition t2_isSound (tx : Tier2Transaction) (keys : KeyRing) : res bool :=
  res_catch
    (if t2_is_sound tx then Ok (t2_is_sound tx)
     else
       oper ← t2_getOperation tx;
       xfers ← t2_getTransfers tx;
       s ← fold_res scan_step scan_start xfers;
       let sender := sn_sender s in
       if ((oper =? eOpType.Create) || (oper =? eOpType.Delete) || (oper =? eOpType.Modify))
            && negb (isINN keys sender)
       then Err RuntimeError
       else if negb (sn_total s =? 0) then Err RuntimeError
       else if negb (oper =? eOpType.Exchange) && negb (isINN keys sender)
       then Err RuntimeError
       else
         eckey ← getKey keys sender;
         msg ← t2_getMessageDigest tx;
         sig ← t2_getSignature tx;
         ok ← VerifyByteSig eckey (DevcashHash msg) sig;
         if negb ok then Err RuntimeError else Ok true)
    (fun e => Err e).

(** A transaction that throws keeps its flag. *)
Definition t2_setIsSound (keys : KeyRing) : M Tier2Transaction bool :=
  tx ← get;
  ok ← lift (t2_isSound tx keys);
  put (t2_set_sound tx ok);;
  mret ok.

(** What the four constructors share: everything up to the signature. *)
Definition t2_unsigned (oper : Z) (xfers : list Transfer) (nonce : bytes) : Tier2Transaction :=
  let nonce_size := zlen nonce in
  let canonical := Uint64ToBin nonce_size [] ++ [oper] in
  let p := foldl (fun p t => (u64 (p.1 + TransferOps.Size t), p.2 ++ TransferOps.getCanonical t))
             (0, canonical) xfers in
  mkT2 (Uint64ToBin p.1 [] ++ p.2 ++ nonce) false p.1 nonce_size.

Definition t2_append_sig (tx : Tier2Transaction) (sig : Signature) : Tier2Transaction :=
  mkT2 (t2_canonical tx ++ SignatureOps.getCanonical sig) (t2_is_sound tx)
       (t2_xfer_size tx) (t2_nonce_size tx).

Definition t2_check (tx : Tier2Transaction) (keys : KeyRing) : res Tier2Transaction :=
  ok ← t2_isSound tx keys;
  if negb ok then Err DevcashMessageError else Ok (t2_set_sound tx ok).

(** [(oper, xfers, nonce, eckey, keys)] *)
Definition t2_ctor_sign_checked (oper : Z) (xfers : list Transfer) (nonce : bytes)
    (eckey : EC_KEY) (keys : KeyRing) : res Tier2Transaction :=
  if zlen nonce <? kMIN_NONCE_SIZE then Err DevcashMessageError
  else
    let tx := t2_unsigned oper xfers nonce in
    msg ← t2_getMessageDigest tx;
    sig ← SignBinary eckey (DevcashHash msg);
    t2_check (t2_append_sig tx sig) keys.

(** [(oper, xfers, nonce, eckey, keys, signature)]: a short nonce is only
    logged, here and below. *)
Definition t2_ctor_sig_checked (oper : Z) (xfers : list Transfer) (nonce : bytes)
    (eckey : EC_KEY) (keys : KeyRing) (signature : Signature) : res Tier2Transaction :=
  let tx := t2_unsigned oper xfers nonce in
  msg ← t2_getMessageDigest tx;
  t2_check (t2_append_sig tx signature) keys.

(** [(oper, xfers, nonce, eckey)] *)
Definition t2_ctor_sign (oper : Z) (xfers : list Transfer) (nonce : bytes)
    (eckey : EC_KEY) : res Tier2Transaction :=
  let tx := t2_unsigned oper xfers nonce in
  msg ← t2_getMessageDigest tx;
  signature ← SignBinary eckey (DevcashHash msg);
  Ok (t2_append_sig tx signature).

(** [(oper, xfers, nonce, signature)] *)
Definition t2_ctor_sig (oper : Z) (xfers : list Transfer) (nonce : bytes)
    (signature : Signature) : res Tier2Transaction :=
  let tx := t2_unsigned oper xfers nonce in
  msg ← t2_getMessageDigest tx;
  Ok (t2_append_sig tx signature).

(** The guards are those of the source; [tx_size] has no room for the type
    byte of the signature. *)
Definition t2_QuickFill (tx : Tier2Transaction) : P Tier2Transaction :=
  sz ← Buf.size;
  off ← Buf.getOffset;
  if sz <? u64 (off + kTX_MIN_SIZE) then throw DeserializationError
  else
    xfer_size ← Buf.getNextUint64 false;
    nonce_size ← Buf.getSecondUint64 false;
    if nonce_size <? kMIN_NONCE_SIZE then throw DeserializationError
    else
      oper ← Buf.offsetAt kOPERATION_OFFSET;
      if eOpType.NumOperations <=? oper then throw DeserializationError
      else
        t ← Buf.offsetAt (u64 (kTRANSFER_OFFSET + xfer_size + nonce_size));
        let tx_size := u64 (t + kTRANSFER_OFFSET + xfer_size + nonce_size) in
        if sz <? u64 (off + tx_size) then throw DeserializationError
        else
          v ← Buf.copy tx_size true;
          mret (mkT2 (t2_canonical tx ++ v) (t2_is_sound tx) xfer_size nonce_size).

Definition t2_Fill (tx : Tier2Transaction) (keys : KeyRing) (calculate_soundness : bool)
    : P Tier2Transaction :=
  sz ← Buf.size;
  off ← Buf.getOffset;
  if sz <? u64 (off + kTX_MIN_SIZE) then throw DeserializationError
  else
    xfer_size ← Buf.getNextUint64 false;
    nonce_size ← Buf.getSecondUint64 false;
    if nonce_size <? kMIN_NONCE_SIZE then throw DeserializationError
    else
      oper ← Buf.offsetAt 16;
      if eOpType.NumOperations <=? oper then throw DeserializationError
      else
        t ← Buf.offsetAt (u64 (kTRANSFER_OFFSET + xfer_size + nonce_size));
        let tx_size := u64 (t + kTRANSFER_OFFSET + xfer_size + nonce_size) in
        if sz <? u64 (off + tx_size) then throw DeserializationError
        else
          v ← Buf.copy tx_size true;
          let tx := mkT2 (t2_canonical tx ++ v) (t2_is_sound tx) xfer_size nonce_size in
          if calculate_soundness then
            ok ← lift (t2_isSound tx keys);
            mret (t2_set_sound tx ok)
          else mret tx.

Definition t2_Create (keys : KeyRing) (calculate_soundness : bool) : P Tier2Transaction :=
  t2_Fill t2_default keys calculate_soundness.

Definition t2_QuickCreate : P Tier2Transaction := t2_QuickFill t2_default.

Definition t2_CreateUniquePtr (keys : KeyRing) (calculate_soundness : bool)
    : P Tier2Transaction :=
  t2_Fill t2_default keys calculate_soundness.

(** The loops of [isValid] and [isValidInAggregate] over the transfers. *)
Fixpoint t2_valid_loop (oper : Z) (xfers : list Transfer) : M VCtx bool :=
  match xfers with
  | [] => mret true
  | t :: rest =>
      amount ← lift (TransferOps.getAmount t);
      coin ← lift (TransferOps.getCoin t);
      addr ← lift (TransferOps.getAddress t);
      refused ←
        (if (amount <? 0) && (oper =? eOpType.Exchange) then
           c ← get;
           have ← lift (ChainStateOps.getAmount (v_state c) coin addr);
           mret (have <? amount)
         else mret false);
      if (refused : bool) then mret false
      else
        apply_flow addr coin amount t;;
        t2_valid_loop oper rest
  end.

Definition t2_isValid (tx : Tier2Transaction) (keys : KeyRing) : M VCtx bool :=
  try_catch
    (ok ← lift (t2_isSound tx keys);
     if negb ok then mret false
     else
       oper ← lift (t2_getOperation tx);
       xfers ← lift (t2_getTransfers tx);
       t2_valid_loop oper xfers)
    (fun _ => mret false).

Fixpoint t2_aggregate_loop (oper : Z) (prior : ChainState) (no_error : bool)
    (xfers : list Transfer) : M VCtx bool :=
  match xfers with
  | [] => mret no_error
  | t :: rest =>
      amount ← lift (TransferOps.getAmount t);
      coin ← lift (TransferOps.getCoin t);
      addr ← lift (TransferOps.getAddress t);
      r ←
        (if amount <? 0 then
           refused ←
             (if oper =? eOpType.Exchange then
                c ← get;
                have ← lift (ChainStateOps.getAmount (v_state c) coin addr);
                mret (have <? amount)
              else mret false);
           if (refused : bool) then mret None
           else commit_aggregate prior addr coin amount
         else mret (Some true));
      match r with
      | None => mret false
      | Some inserted =>
          apply_flow addr coin amount t;;
          t2_aggregate_loop oper prior (inserted && no_error) rest
      end
  end.

Definition t2_isValidInAggregate (tx : Tier2Transaction) (keys : KeyRing)
    (prior : ChainState) : M VCtx bool :=
  try_catch
    (ok ← lift (t2_isSound tx keys);
     if negb ok then mret false
     else
       oper ← lift (t2_getOperation tx);
       xfers ← lift (t2_getTransfers tx);
       t2_aggregate_loop oper prior true xfers)
    (fun _ => mret false).

(** ** Tier 1 *)
Record Tier1Transaction := mkT1 {
  t1_canonical : bytes;
  t1_is_sound : bool;
  t1_sum_size : Z
}.

Definition t1_default : Tier1Transaction := mkT1 [] false 0.

Definition t1_set_sound (tx : Tier1Transaction) (b : bool) : Tier1Transaction :=
  mkT1 (t1_canonical tx) b (t1_sum_size tx).

Definition t1_getNodeAddress (tx : Tier1Transaction) : res Address :=
  tmp ← vec_range (t1_canonical tx) (t1_sum_size tx + kUINT64_SIZE)
          (t1_sum_size tx + kUINT64_SIZE + kNODE_ADDR_BUF_SIZE);
  Ok (AddressOps.ctor tmp).

Definition t1_getMessageDigest (tx : Tier1Transaction) : res bytes :=
  vec_range (t1_canonical tx) kUINT64_SIZE (t1_sum_size tx + kUINT64_SIZE).

Definition t1_getTransfers (tx : Tier1Transaction) : res (list Transfer) :=
  summary ← fst (SummaryOps.from_buffer (mkIB (t1_canonical tx) kUINT64_SIZE));
  Ok (SummaryOps.getTransfers summary).

Definition t1_getSignature (tx : Tier1Transaction) : res Signature :=
  sig_bin ← vec_range (t1_canonical tx) (t1_sum_size tx + kUINT64_SIZE + kNODE_ADDR_BUF_SIZE)
              (t1_sum_size tx + kUINT64_SIZE + kNODE_ADDR_BUF_SIZE + kNODE_SIG_BUF_SIZE);
  SignatureOps.ctor sig_bin.

Definition t1_isSound (tx : Tier1Transaction) (keys : KeyRing) : res bool :=
  if t1_is_sound tx then Ok (t1_is_sound tx)
  else
    node_addr ← t1_getNodeAddress tx;
    eckey ← getKey keys node_addr;
    msg ← t1_getMessageDigest tx;
    sig ← t1_getSignature tx;
    ok ← VerifyByteSig eckey (DevcashHash msg) sig;
    if negb ok then Ok false else Ok true.

Definition t1_setIsSound (keys : KeyRing) : M Tier1Transaction bool :=
  tx ← get;
  ok ← lift (t1_isSound tx keys);
  put (t1_set_sound tx ok);;
  if negb ok then throw DevcashMessageError else mret ok.

(** The size of a tier 1 transaction with a summary of the given size. *)
Definition t1_size (sum_size : Z) : Z :=
  u64 (sum_size + kNODE_SIG_BUF_SIZE + kUINT64_SIZE + kNODE_ADDR_BUF_SIZE).

(** The constructor from a buffer compares the sizes after the copy has moved
    the offset. *)
Definition t1_ctor_buffer (keys : KeyRing) (calculate_soundness : bool) : P Tier1Transaction :=
  sum_size ← Buf.getNextUint64 false;
  canonical ← Buf.copy (t1_size sum_size) true;
  let tx := mkT1 canonical false sum_size in
  sz ← Buf.size;
  off ← Buf.getOffset;
  if sz <? u64 (off + sum_size + kNODE_SIG_BUF_SIZE + kUINT64_SIZE + kNODE_ADDR_BUF_SIZE)
  then mret tx
  else if calculate_soundness then
    ok ← lift (t1_isSound tx keys);
    if negb ok then throw DevcashMessageError else mret (t1_set_sound tx ok)
  else mret tx.

Definition t1_ctor_summary (summary : Summary) (sig : Signature) (node_addr : Address)
    (keys : KeyRing) : res Tier1Transaction :=
  if negb (SummaryOps.isSane summary) then Err DevcashMessageError
  else if negb (SignatureOps.size sig =? kNODE_SIG_BUF_SIZE) then Err DevcashMessageError
  else
    let sum_size := SummaryOps.getByteSize summary in
    let canonical := Uint64ToBin sum_size [] ++ SummaryOps.getCanonical summary
                       ++ AddressOps.getCanonical node_addr ++ SignatureOps.getCanonical sig in
    let tx := mkT1 canonical false sum_size in
    ok ← t1_isSound tx keys;
    if negb ok then Err DevcashMessageError else Ok (t1_set_sound tx ok).

Definition t1_Fill (tx : Tier1Transaction) (keys : KeyRing) (calculate_soundness : bool)
    : P Tier1Transaction :=
  sum_size ← Buf.getNextUint64 false;
  let tx := mkT1 (t1_canonical tx) (t1_is_sound tx) sum_size in
  let tx_size := t1_size sum_size in
  sz ← Buf.size;
  off ← Buf.getOffset;
  if sz <? u64 (off + tx_size) then mret tx
  else
    v ← Buf.copy tx_size true;
    let tx := mkT1 (t1_canonical tx ++ v) (t1_is_sound tx) sum_size in
    if calculate_soundness then
      ok ← lift (t1_isSound tx keys);
      mret (t1_set_sound tx ok)
    else mret tx.

Definition t1_Create (keys : KeyRing) (calculate_soundness : bool) : P Tier1Transaction :=
  t1_Fill t1_default keys calculate_soundness.

Definition t1_CreateUniquePtr (keys : KeyRing) (calculate_soundness : bool)
    : P Tier1Transaction :=
  t1_Fill t1_default keys calculate_soundness.

Fixpoint t1_valid_loop (xfers : list Transfer) : M VCtx bool :=
  match xfers with
  | [] => mret true
  | t :: rest =>
      amount ← lift (TransferOps.getAmount t);
      coin ← lift (TransferOps.getCoin t);
      addr ← lift (TransferOps.getAddress t);
      apply_flow addr coin amount t;;
      t1_valid_loop rest
  end.

Definition t1_isValid (tx : Tier1Transaction) (keys : KeyRing) : M VCtx bool :=
  try_catch
    (ok ← lift (t1_isSound tx keys);
     if negb ok then mret false
     else
       xfers ← lift (t1_getTransfers tx);
       t1_valid_loop xfers)
    (fun _ => mret false).

Fixpoint t1_aggregate_loop (prior : ChainState) (no_error : bool) (xfers : list Transfer)
    : M VCtx bool :=
  match xfers with
  | [] => mret no_error
  | t :: rest =>
      coin ← lift (TransferOps.getCoin t);
      addr ← lift (TransferOps.getAddress t);
      amount ← lift (TransferOps.getAmount t);
      r ← (if amount <? 0 then commit_aggregate prior addr coin amount
           else mret (Some true));
      match r with
      | None => mret false
      | Some inserted =>
          apply_flow addr coin amount t;;
          t1_aggregate_loop prior (inserted && no_error) rest
      end
  end.

Definition t1_isValidInAggregate (tx : Tier1Transaction) (keys : KeyRing)
    (prior : ChainState) : M VCtx bool :=
  try_catch
    (ok ← lift (t1_isSound tx keys);
     if negb ok then mret false
     else
       xfers ← lift (t1_getTransfers tx);
       t1_aggregate_loop prior true xfers)
    (fun _ => mret false).

(** ** The abstract base class: a virtual call dispatches on the tier *)
Inductive Transaction :=
| Tier1 (tx : Tier1Transaction)
| Tier2 (tx : Tier2Transaction).

Definition tx_getCanonical (t : Transaction) : bytes :=
  match t with Tier1 tx => t1_canonical tx | Tier2 tx => t2_canonical tx end.

Definition tx_getByteSize (t : Transaction) : Z := zlen (tx_getCanonical t).

Definition tx_getMessageDigest (t : Transaction) : res bytes :=
  match t with Tier1 tx => t1_getMessageDigest tx | Tier2 tx => t2_getMessageDigest tx end.

Definition tx_getTransfers (t : Transaction) : res (list Transfer) :=
  match t with Tier1 tx => t1_getTransfers tx | Tier2 tx => t2_getTransfers tx end.

Definition tx_getSignature (t : Transaction) : res Signature :=
  match t with Tier1 tx => t1_getSignature tx | Tier2 tx => t2_getSignature tx end.

Definition tx_isSound (t : Transaction) (keys : KeyRing) : res bool :=
  match t with Tier1 tx => t1_isSound tx keys | Tier2 tx => t2_isSound tx keys end.

Definition tx_setIsSound (keys : KeyRing) (t : Transaction) : res bool * Transaction :=
  match t with
  | Tier1 tx => let '(r, tx') := t1_setIsSound keys tx in (r, Tier1 tx')
  | Tier2 tx => let '(r, tx') := t2_setIsSound keys tx in (r, Tier2 tx')
  end.

Definition tx_isValid (t : Transaction) (keys : KeyRing) : M VCtx bool :=
  match t with Tier1 tx => t1_isValid tx keys | Tier2 tx => t2_isValid tx keys end.

Definition tx_isValidInAggregate (t : Transaction) (keys : KeyRing) (prior : ChainState)
    : M VCtx bool :=
  match t with
  | Tier1 tx => t1_isValidInAggregate tx keys prior
  | Tier2 tx => t2_isValidInAggregate tx keys prior
  end.

(** [operator==] compares the canonical bytes only. *)
Definition tx_eqb (a b : Transaction) : bool :=
  bool_decide (tx_getCanonical a = tx_getCanonical b).

Definition tx_clone (t : Transaction) : Transaction :=
  match t with
  | Tier1 tx => Tier1 (mkT1 (t1_canonical tx) (t1_is_sound tx) (t1_sum_size tx))
  | Tier2 tx => Tier2 (mkT2 (t2_canonical tx) (t2_is_sound tx) (t2_xfer_size tx)
                         (t2_nonce_size tx))
  end.

(** ** factories.h *)
Definition CreateTransaction (keys : KeyRing) (mode : eAppMode) (calculate_soundness : bool)
    : P Transaction :=
  match mode with
  | T1 => tx ← t1_ctor_buffer keys calculate_soundness; mret (Tier1 tx)
  | T2 => tx ← t2_CreateUniquePtr keys calculate_soundness; mret (Tier2 tx)
  | scan => throw DeserializationError
  end.

(** ** TransactionCreationManager

    [push_job] runs [setIsSound] of one transaction on a pool thread; an
    exception ends up in the job's future, which is never read.  The jobs
    touch distinct transactions, so their order does not matter. *)
Definition run_job (keys : KeyRing) (t : Transaction) : res Transaction :=
  match tx_setIsSound keys t with
  | (UB, _) => UB
  | (NoFuel, _) => NoFuel
  | (_, t') => Ok t'
  end.

(** The body of the loop: one transaction, not yet checked. *)
Definition create_step (keys : KeyRing) (mode : eAppMode)
    (acc : list bytes * list Transaction) : P (list bytes * list Transaction) :=
  tx ← CreateTransaction keys mode false;
  mret (acc.1 ++ [tx_getCanonical tx], acc.2 ++ [tx]).

(** The raw transactions, and the transactions after their jobs. *)
Definition CreateTransactions (keys : KeyRing) (mode : eAppMode) (start_size tx_size : Z)
    : P (list bytes * list Transaction) :=
  p ← offset_fold (create_step keys mode) (u64 (start_size + tx_size)) ([], []);
  vtx ← lift (map_res (run_job keys) p.2);
  mret (p.1, vtx).
End transactions.

(** ** Layout of a tier 2 transaction *)
Section layout.
Context `{Crypto}.

Definition xfers_canonical (vs : list tview) : bytes :=
  concat ((fun v => x_canonical (xfer_of v)) <$> vs).

(** The bytes that are signed. *)
Definition t2_body (oper : Z) (vs : list tview) (nonce : bytes) : bytes :=
  Uint64ToBin (zlen (xfers_canonical vs)) [] ++ Uint64ToBin (zlen nonce) [] ++ [oper]
    ++ xfers_canonical vs ++ nonce.

Lemma xfers_canonical_bound vs : Forall view_ok vs -> zlen (xfers_canonical vs) <= 74 * zlen vs.
Proof.
  induction 1 as [|v vs W _ IH]; [done|].
  change (xfers_canonical (v :: vs)) with (x_canonical (xfer_of v) ++ xfers_canonical vs).
  rewrite zlen_app, zlen_cons. pose proof (xfer_size_bounds v W) as [_ B].
  unfold TransferOps.Size, TransferOps.MaxSize in B. unfold_sizes. lia.
Qed.

Lemma t2_unsigned_fold (vs : list tview) acc :
  in_u64 acc.1 -> acc.1 + zlen (xfers_canonical vs) < 2 ^ 64 ->
  foldl (fun p t => (u64 (p.1 + TransferOps.Size t), p.2 ++ TransferOps.getCanonical t))
    acc (xfer_of <$> vs) =
  (acc.1 + zlen (xfers_canonical vs), acc.2 ++ xfers_canonical vs).
Proof.
  revert acc; induction vs as [|v vs IH]; intros [n c] I L; cbn [fst snd] in *.
  - change (xfers_canonical []) with (@nil Z). simpl. rewrite zlen_nil, Z.add_0_r.
    by rewrite app_nil_r.
  - unfold xfers_canonical in *. rewrite !fmap_cons in *. cbn [foldl concat fst snd] in *.
    rewrite zlen_app in L. pose proof (zlen_nonneg (x_canonical (xfer_of v))).
    pose proof (zlen_nonneg (concat ((fun v => x_canonical (xfer_of v)) <$> vs))).
    unfold TransferOps.Size, in_u64 in *.
    rewrite u64_id by (unfold in_u64; lia).
    rewrite IH; cbn [fst snd]; [|lia..].
    f_equal; [rewrite zlen_app; lia | by rewrite <- app_assoc].
Qed.

Lemma t2_unsigned_eq oper vs nonce :
  zlen (xfers_canonical vs) < 2 ^ 63 ->
  t2_unsigned oper (xfer_of <$> vs) nonce =
    mkT2 (t2_body oper vs nonce) false (zlen (xfers_canonical vs)) (zlen nonce).
Proof.
  intros L. unfold t2_unsigned.
  rewrite t2_unsigned_fold; cbn [fst snd]; [|unfold in_u64; lia | lia].
  rewrite Z.add_0_l. unfold t2_body. by rewrite <- !app_assoc.
Qed.

(** Every transfer is read back where it was written. *)
Lemma xfer_loop_parses vs : Forall view_ok vs ->
  forall pre rest offset fuel,
    zlen pre = kTRANSFER_OFFSET + offset -> 0 <= offset -> (length vs <= fuel)%nat ->
    zlen (pre ++ xfers_canonical vs ++ rest) < 2 ^ 63 ->
    xfer_loop (pre ++ xfers_canonical vs ++ rest) (offset + zlen (xfers_canonical vs)) fuel offset
      = Ok (xfer_of <$> vs).
Proof.
  induction 1 as [|v vs Hv _ IH]; intros pre rest offset fuel Hp Ho Hf Hl.
  - unfold xfers_canonical. cbn [fmap list_fmap concat]. rewrite zlen_nil.
    destruct fuel; cbn [xfer_loop]; by rewrite (proj2 (Z.ltb_ge _ _)) by lia.
  - destruct fuel as [|fuel]; [simpl in Hf; lia|].
    pose proof (xfer_size_bounds v Hv) as [B _]. unfold TransferOps.MinSize, TransferOps.Size in B.
    assert (xfers_canonical (v :: vs) = x_canonical (xfer_of v) ++ xfers_canonical vs) as E by done.
    rewrite E in *. rewrite <- !app_assoc in *.
    pose proof (zlen_nonneg (xfers_canonical vs)). pose proof (zlen_nonneg rest).
    pose proof (zlen_nonneg pre).
    assert (zlen (x_canonical (xfer_of v)) + zlen pre < 2 ^ 63) as Hb
      by (rewrite !zlen_app in Hl; lia).
    cbn [xfer_loop]. unfold_sizes.
    rewrite (proj2 (Z.ltb_lt _ _)) by (rewrite zlen_app; lia).
    rewrite u64_id by (unfold in_u64; lia). rewrite <- Hp.
    rewrite (parses_transfer v Hv pre (xfers_canonical vs ++ rest) Hl). cbn [fst mbind res_bind].
    unfold TransferOps.Size. rewrite u64_id by (unfold in_u64; lia).
    rewrite zlen_app, Z.add_assoc.
    replace (pre ++ x_canonical (xfer_of v) ++ xfers_canonical vs ++ rest)
      with ((pre ++ x_canonical (xfer_of v)) ++ xfers_canonical vs ++ rest) in *
      by (by rewrite <- app_assoc).
    rewrite (IH (pre ++ x_canonical (xfer_of v)) rest (offset + zlen (x_canonical (xfer_of v))) fuel);
      [done | rewrite zlen_app; lia | lia | simpl in Hf; lia | done].
Qed.

(** A serialised transaction whose fields are known. *)
Section built.
Context (oper : Z) (vs : list tview) (nonce : bytes) (sig : Signature) (s : bool).
Context (Hv : Forall view_ok vs).
Context (Hl : zlen (t2_body oper vs nonce ++ s_canonical sig) < 2 ^ 63).

Definition t2_built : Tier2Transaction :=
  mkT2 (t2_body oper vs nonce ++ s_canonical sig) s (zlen (xfers_canonical vs)) (zlen nonce).

Lemma t2_body_length :
  zlen (t2_body oper vs nonce) = 17 + zlen (xfers_canonical vs) + zlen nonce.
Proof. unfold t2_body. autorewrite with devv_rw. lia. Qed.

Lemma built_bounds :
  0 <= zlen (xfers_canonical vs) /\ 0 <= zlen nonce /\
  17 + zlen (xfers_canonical vs) + zlen nonce + zlen (s_canonical sig) < 2 ^ 63 /\
  0 <= zlen (s_canonical sig).
Proof.
  rewrite zlen_app, t2_body_length in Hl. pose proof (zlen_nonneg (xfers_canonical vs)).
  pose proof (zlen_nonneg nonce). pose proof (zlen_nonneg (s_canonical sig)). lia.
Qed.

Lemma built_getOperation : t2_getOperation t2_built = Ok oper.
Proof.
  unfold t2_getOperation, t2_built, t2_body, vec_idx. cbn [t2_canonical].
  pose proof built_bounds. rewrite <- !app_assoc. autorewrite with devv_rw.
  unfold_sizes. rewrite (proj2 (Z.ltb_lt _ _)) by lia. done.
Qed.

Lemma built_getTransfers : t2_getTransfers t2_built = Ok (xfer_of <$> vs).
Proof.
  unfold t2_getTransfers, t2_built. cbn [t2_canonical t2_xfer_size].
  pose proof built_bounds.
  set (pre := Uint64ToBin (zlen (xfers_canonical vs)) [] ++ Uint64ToBin (zlen nonce) [] ++ [oper]).
  assert (t2_body oper vs nonce ++ s_canonical sig
          = pre ++ xfers_canonical vs ++ nonce ++ s_canonical sig) as E.
  { unfold pre, t2_body. by rewrite <- !app_assoc. }
  rewrite E in *. rewrite <- (Z.add_0_l (zlen (xfers_canonical vs))).
  apply xfer_loop_parses; try done.
  assert (length vs <= length (xfers_canonical vs))%nat.
  { apply concat_length_ge. eapply Forall_impl; [|exact Hv]. intros v W.
    pose proof (xfer_size_bounds v W). unfold TransferOps.Size, TransferOps.MinSize in *.
    unfold_sizes. lia. }
  rewrite !length_app. lia.
Qed.

Lemma built_getMessageDigest : t2_getMessageDigest t2_built = Ok (t2_body oper vs nonce).
Proof.
  unfold t2_getMessageDigest, t2_built. cbn [t2_canonical t2_xfer_size t2_nonce_size].
  pose proof built_bounds. unfold_sizes. apply vec_range_prefix. rewrite t2_body_length.
  rewrite u64_id by (unfold in_u64; lia). lia.
Qed.

Lemma built_getNonce : t2_getNonce t2_built = Ok nonce.
Proof.
  unfold t2_getNonce, t2_built. cbn [t2_canonical t2_xfer_size t2_nonce_size].
  pose proof built_bounds. unfold_sizes. rewrite !u64_id by (unfold in_u64; lia).
  unfold t2_body. rewrite <- !app_assoc.
  set (a := Uint64ToBin (zlen (xfers_canonical vs)) []).
  set (b := Uint64ToBin (zlen nonce) []).
  replace (a ++ b ++ [oper] ++ xfers_canonical vs ++ nonce ++ s_canonical sig)
    with ((a ++ b ++ [oper] ++ xfers_canonical vs) ++ nonce ++ s_canonical sig)
    by (by rewrite <- !app_assoc).
  apply vec_range_mid; subst a b; autorewrite with devv_rw; lia.
Qed.

(** The signature comes back when it has the size the operation implies. *)
Lemma built_getSignature :
  sig_wf sig ->
  SignatureOps.size sig =
    (if oper =? eOpType.Exchange then kWALLET_SIG_BUF_SIZE else kNODE_SIG_BUF_SIZE) ->
  t2_getSignature t2_built = Ok sig.
Proof.
  intros W Hs. unfold t2_getSignature. rewrite built_getOperation. cbn [mbind res_bind].
  pose proof built_bounds. pose proof t2_body_length. unfold t2_built.
  cbn [t2_canonical t2_xfer_size t2_nonce_size].
  rewrite <- (app_nil_r (s_canonical sig)).
  rewrite u64_id by (unfold_sizes; unfold in_u64; lia). unfold SignatureOps.size in Hs.
  destruct (oper =? eOpType.Exchange);
    rewrite vec_range_mid by (unfold_sizes; lia); cbn [mbind res_bind];
    by apply sig_ctor_canonical.
Qed.
End built.
End layout.

(** The content of a Tier-2 transaction, and its bytes. *)
Record t2_content := mkT2c { c_oper : Z; c_xfers : list tview; c_nonce : bytes; c_sig : Signature }.

Definition t2c_bytes (c : t2_content) : bytes :=
  t2_body (c_oper c) (c_xfers c) (c_nonce c) ++ s_canonical (c_sig c).

(** What the readers accept. *)
Definition t2c_readable (c : t2_content) : Prop :=
  Forall view_ok (c_xfers c) /\ sig_wf (c_sig c) /\ kMIN_NONCE_SIZE <= zlen (c_nonce c) /\
  0 <= c_oper c < eOpType.NumOperations /\ zlen (t2c_bytes c) < 2 ^ 63.

#[export] Hint Rewrite @built_getOperation @built_getTransfers @built_getMessageDigest
  @built_getNonce using done : devv_rw.

(** ** Soundness of tier 2 transactions *)
Definition zsum (l : list Z) : Z := foldr Z.add 0 l.

(** The amounts of a list of transfers, as the getters read them. *)
Definition amounts (xfers : list Transfer) : res (list Z) := map_res TransferOps.getAmount xfers.

(** A transfer that takes coins takes them from [a]. *)
Definition sent_by (a : Address) (t : Transfer) : Prop :=
  forall amount, TransferOps.getAmount t = Ok amount -> amount < 0 ->
    TransferOps.getAddress t = Ok a.

(** The running totals stay in the range of [long]. *)
Fixpoint sums_ok (n : Z) (vs : list tview) : bool :=
  match vs with
  | [] => true
  | v :: vs' => in_i64b (n + v_amount v) && sums_ok (n + v_amount v) vs'
  end.

Definition has_sender (vs : list tview) : bool := existsb (fun v => v_amount v <? 0) vs.

Section soundness.
Context `{Crypto}.

Lemma scan_step_inv s t s' :
  scan_step s t = Ok s' ->
  exists amount, TransferOps.getAmount t = Ok amount /\
    sn_total s' = sn_total s + amount /\ in_i64 (sn_total s') /\
    (sn_set s = true -> sn_set s' = true /\ sn_sender s' = sn_sender s) /\
    (amount < 0 -> sn_set s' = true /\ TransferOps.getAddress t = Ok (sn_sender s')).
Proof.
  unfold scan_step. intros E. minv. apply add_i64_inv in H1 as [-> R].
  exists a. split; [done|]. case_match; bool_to_prop.
  - minv. simplify_eq. cbn. repeat split; try done; try (by apply R).
    rewrite H4, H3 in H2. cbn [mbind res_bind] in H2. case_match; [done|].
    bool_to_prop. symmetry. by apply dec_stable.
  - simplify_eq. cbn. repeat split; try done; try (by apply R); lia.
Qed.

Lemma scan_inv xfers : forall s s',
  fold_res scan_step s xfers = Ok s' ->
  exists l, amounts xfers = Ok l /\ sn_total s' = sn_total s + zsum l /\
    (sn_set s = true -> sn_set s' = true /\ sn_sender s' = sn_sender s) /\
    Forall (sent_by (sn_sender s')) xfers.
Proof.
  induction xfers as [|t xfers IH]; intros s s' E; cbn [fold_res] in E.
  - simplify_eq. exists []. simpl. repeat split; try done; try lia.
  - minv. apply scan_step_inv in H0 as (n & Hn & Ht & _ & Hset & Hneg).
    apply IH in E as (l & Hl & Hs & Hset' & HF).
    exists (n :: l). unfold amounts in *. cbn [map_res]. rewrite Hn. cbn [mbind res_bind].
    rewrite Hl. cbn [mbind res_bind]. split; [done|]. split; [simpl; lia|]. split.
    + intros S. destruct (Hset S) as [S1 E1]. destruct (Hset' S1) as [S2 E2].
      split; [done | congruence].
    + constructor; [|done]. intros n' Hn' Hlt. rewrite Hn in Hn'. simplify_eq.
      destruct (Hneg Hlt) as [S1 A]. destruct (Hset' S1) as [_ E2]. by rewrite E2.
Qed.

(** What an unsound flag and a positive answer imply. *)
Lemma t2_isSound_inv tx keys b :
  t2_isSound tx keys = Ok b -> t2_is_sound tx = false ->
  b = true /\
  exists oper xfers l sender eckey msg sig,
    t2_getOperation tx = Ok oper /\ t2_getTransfers tx = Ok xfers /\
    amounts xfers = Ok l /\ zsum l = 0 /\ Forall (sent_by sender) xfers /\
    (oper <> eOpType.Exchange -> AddressOps.isNodeAddress sender = true) /\
    getKey keys sender = Ok eckey /\ t2_getMessageDigest tx = Ok msg /\
    t2_getSignature tx = Ok sig /\ VerifyByteSig eckey (DevcashHash msg) sig = Ok true.
Proof.
  unfold t2_isSound. intros E N. rewrite N in E.
  match type of E with res_catch ?m _ = _ => destruct m eqn:Em; simpl in E; try done end.
  2: { repeat case_match; done. }
  simplify_eq. minv. apply scan_inv in H2 as (l & Hl & Hs & _ & HF).
  repeat (case_match; try done). minv. case_match; simplify_eq.
  match goal with H : negb ?x = false |- _ => apply negb_false_iff in H end.
  cbn in Hs. split; [done|]. exists a, a0, l, (sn_sender a1), a2, a3, a4.
  repeat match goal with H : negb _ = false |- _ => apply negb_false_iff in H end.
  bool_to_prop. subst. repeat split; try done; try lia.
  intros No. rewrite (proj2 (Z.eqb_neq a _)) in H4 by done. simpl in H4.
  repeat match goal with H : negb _ = false |- _ => apply negb_false_iff in H end.
  done.
Qed.

(** The ways in which the program makes a tier 2 transaction, where [keys] is the
    key ring it checks soundness with: the constructors, the three functions that
    read one from a buffer, [setIsSound] (which a pool thread runs on every
    transaction of a block) and [clone]. *)
Inductive t2_made (keys : KeyRing) : Tier2Transaction -> Prop :=
| made_default : t2_made keys t2_default
| made_sign_checked oper xfers nonce k tx :
    t2_ctor_sign_checked oper xfers nonce k keys = Ok tx -> t2_made keys tx
| made_sig_checked oper xfers nonce k sig tx :
    t2_ctor_sig_checked oper xfers nonce k keys sig = Ok tx -> t2_made keys tx
| made_sign oper xfers nonce k tx : t2_ctor_sign oper xfers nonce k = Ok tx -> t2_made keys tx
| made_sig oper xfers nonce sig tx : t2_ctor_sig oper xfers nonce sig = Ok tx -> t2_made keys tx
| made_create calc b b' tx : t2_Create keys calc b = (Ok tx, b') -> t2_made keys tx
| made_create_ptr calc b b' tx : t2_CreateUniquePtr keys calc b = (Ok tx, b') -> t2_made keys tx
| made_quick b b' tx : t2_QuickCreate b = (Ok tx, b') -> t2_made keys tx
| made_checked tx r tx' : t2_made keys tx -> t2_setIsSound keys tx = (r, tx') -> t2_made keys tx'
| made_clone tx tx' : t2_made keys tx -> tx_clone (Tier2 tx) = Tier2 tx' -> t2_made keys tx'.

(** The flag of such a transaction is only ever raised by a check that passed. *)
Definition flag_earned (keys : KeyRing) (tx : Tier2Transaction) : Prop :=
  t2_is_sound tx = true -> t2_isSound (t2_set_sound tx false) keys = Ok true.

Lemma flag_down keys tx : t2_is_sound tx = false -> flag_earned keys tx.
Proof. intros E. unfold flag_earned. by rewrite E. Qed.

Lemma flag_set keys tx b :
  flag_earned keys tx -> t2_isSound tx keys = Ok b -> flag_earned keys (t2_set_sound tx b).
Proof.
  intros F E _. change (t2_set_sound (t2_set_sound tx b) false) with (t2_set_sound tx false).
  destruct (t2_is_sound tx) eqn:Es; [by apply F|].
  destruct (t2_isSound_inv tx keys b E Es) as [-> _]. rewrite <- E. f_equal.
  destruct tx. cbn in Es. by subst.
Qed.

Lemma flag_check keys tx tx' : t2_is_sound tx = false -> t2_check tx keys = Ok tx' -> flag_earned keys tx'.
Proof.
  intros Es E. unfold t2_check in E. minv. case_match; [done|]. simplify_eq.
  apply flag_set; [by apply flag_down | done].
Qed.

Lemma flag_fill keys calc b b' tx :
  t2_Fill t2_default keys calc b = (Ok tx, b') -> flag_earned keys tx.
Proof.
  unfold t2_Fill. intros E. minv. repeat (case_match; try done; minv; simplify_eq).
  - apply flag_set; [by apply flag_down | done].
  - by apply flag_down.
Qed.

Lemma made_flag_earned keys tx : t2_made keys tx -> flag_earned keys tx.
Proof.
  induction 1 as [| ????? E | ?????? E | ????? E | ????? E | ???? E | ???? E | b b' tx E
                 | tx r tx' _ IH E | tx tx' _ IH E].
  - by apply flag_down.
  - unfold t2_ctor_sign_checked in E. case_match; [done|]. minv. by eapply flag_check; [|exact E].
  - unfold t2_ctor_sig_checked in E. minv. by eapply flag_check; [|exact E].
  - unfold t2_ctor_sign in E. minv. simplify_eq. by apply flag_down.
  - unfold t2_ctor_sig in E. minv. simplify_eq. by apply flag_down.
  - by eapply flag_fill.
  - by eapply flag_fill.
  - apply flag_down. unfold t2_QuickCreate, t2_QuickFill in E. minv.
    repeat (case_match; try done; minv; simplify_eq). done.
  - unfold t2_setIsSound in E. rewrite bind_get in E. autorewrite with mrun in E.
    destruct (t2_isSound tx keys) as [b| | |] eqn:Es; cbn in E; simplify_eq; try done.
    rewrite bind_put in E. unfold mret, M_ret in E. simplify_eq. by apply flag_set.
  - destruct tx. cbn in E. by simplify_eq.
Qed.

(** What [isSound] means for a transaction of the program, flagged or not. *)
Lemma made_isSound_inv tx keys b :
  t2_made keys tx -> t2_isSound tx keys = Ok b ->
  b = true /\
  exists oper xfers l sender eckey msg sig,
    t2_getOperation tx = Ok oper /\ t2_getTransfers tx = Ok xfers /\
    amounts xfers = Ok l /\ zsum l = 0 /\ Forall (sent_by sender) xfers /\
    (oper <> eOpType.Exchange -> AddressOps.isNodeAddress sender = true) /\
    getKey keys sender = Ok eckey /\ t2_getMessageDigest tx = Ok msg /\
    t2_getSignature tx = Ok sig /\ VerifyByteSig eckey (DevcashHash msg) sig = Ok true.
Proof.
  intros Hm E. destruct (t2_is_sound tx) eqn:Es; [|by apply t2_isSound_inv].
  split. { unfold t2_isSound in E. rewrite Es in E. cbn in E. by simplify_eq. }
  by apply (t2_isSound_inv (t2_set_sound tx false) keys true (made_flag_earned _ _ Hm Es)).
Qed.


Lemma scan_step_view n set a' a v :
  view_ok v -> (v_amount v < 0 -> v_addr v = a) -> (set = true -> a' = a) ->
  in_i64 (n + v_amount v) ->
  scan_step (mkScan n set a') (xfer_of v) =
    Ok (mkScan (n + v_amount v) (set || (v_amount v <? 0)) (if v_amount v <? 0 then a else a')).
Proof.
  intros W Ha Hs R. unfold scan_step. rewrite xfer_getAmount by done. cbn [mbind res_bind sn_total].
  rewrite add_i64_ok by done. cbn [mbind res_bind sn_set sn_sender].
  rewrite xfer_getAddress by done. destruct (v_amount v <? 0) eqn:E; bool_to_prop.
  - rewrite Ha by done. rewrite orb_true_r. cbn [mbind res_bind].
    destruct set; [rewrite bool_decide_false by (rewrite Hs by done; tauto)|]; done.
  - by rewrite orb_false_r.
Qed.

Lemma scan_complete a vs : Forall view_ok vs ->
  Forall (fun v => v_amount v < 0 -> v_addr v = a) vs ->
  forall n set a', (set = true -> a' = a) -> sums_ok n vs = true ->
  fold_res scan_step (mkScan n set a') (xfer_of <$> vs) =
    Ok (mkScan (n + zsum (v_amount <$> vs)) (set || has_sender vs)
               (if has_sender vs then a else a')).
Proof.
  induction 1 as [|v vs W _ IH]; intros F n set a' Hs R; inversion F; subst.
  - cbn. by rewrite Z.add_0_r, orb_false_r.
  - cbn [sums_ok] in R. bool_to_prop. rewrite fmap_cons. cbn [fold_res].
    rewrite (scan_step_view n set a' a) by (try done; unfold in_i64b, in_i64 in *; bool_to_prop; lia).
    cbn [mbind res_bind]. rewrite IH; try done.
    + rewrite fmap_cons. cbn [has_sender existsb zsum foldr]. f_equal.
      f_equal; [unfold zsum; lia | by rewrite orb_assoc |].
      fold (has_sender vs). by destruct (v_amount v <? 0), (has_sender vs).
    + destruct (v_amount v <? 0); [done|]. rewrite orb_false_r. done.
Qed.

Lemma amounts_views vs : Forall view_ok vs -> amounts (xfer_of <$> vs) = Ok (v_amount <$> vs).
Proof.
  induction 1 as [|v vs W _ IH]; [done|]. unfold amounts in *. rewrite !fmap_cons.
  cbn [map_res]. rewrite xfer_getAmount, IH by done. done.
Qed.

(** A content that [isSound] accepts: it moves coins of one sender, the
    amounts cancel, and only a node creates, modifies or deletes. *)
Definition sound_content (oper : Z) (vs : list tview) (a : Address) : Prop :=
  Forall view_ok vs /\ Forall (fun v => v_amount v < 0 -> v_addr v = a) vs /\
  has_sender vs = true /\ sums_ok 0 vs = true /\ zsum (v_amount <$> vs) = 0 /\
  (oper <> eOpType.Exchange -> AddressOps.isNodeAddress a = true).

Lemma t2_built_sound oper vs nonce sig keys a k :
  sound_content oper vs a -> getKey keys a = Ok k ->
  zlen (t2_body oper vs nonce ++ s_canonical sig) < 2 ^ 63 ->
  sig_wf sig ->
  SignatureOps.size sig =
    (if oper =? eOpType.Exchange then kWALLET_SIG_BUF_SIZE else kNODE_SIG_BUF_SIZE) ->
  VerifyByteSig k (DevcashHash (t2_body oper vs nonce)) sig = Ok true ->
  t2_isSound (t2_built oper vs nonce sig false) keys = Ok true.
Proof.
  intros (W & F & Hh & Hs & Hz & Ho) Hk Hl Hw Hsz Hv. unfold t2_isSound.
  rewrite built_getOperation, built_getTransfers, built_getMessageDigest, built_getSignature
    by done.
  cbn [t2_built t2_is_sound mbind res_bind]. unfold scan_start.
  rewrite (scan_complete a) by done. cbn [mbind res_bind sn_total sn_sender].
  rewrite Hh, Hz, Hk. cbn [mbind res_bind]. rewrite Hv. cbn [mbind res_bind].
  unfold isINN. destruct (decide (oper = eOpType.Exchange)) as [->|N]; [done|].
  rewrite Ho by done. by rewrite !andb_false_r.
Qed.
End soundness.

(** The signing constructor returns exactly the transaction it was asked for. *)
Section signing.
Context `{CryptoLaws}.

(** Before the check: the transaction that was asked for, signed. *)
Lemma t2_sign_steps oper vs nonce k keys :
  is_node_key k = negb (oper =? eOpType.Exchange) ->
  kMIN_NONCE_SIZE <= zlen nonce ->
  zlen (t2_body oper vs nonce) < 2 ^ 62 ->
  exists sig,
    t2_ctor_sign_checked oper (xfer_of <$> vs) nonce k keys =
      t2_check (t2_built oper vs nonce sig false) keys /\
    sig_wf sig /\ VerifyByteSig k (DevcashHash (t2_body oper vs nonce)) sig = Ok true /\
    SignatureOps.size sig =
      (if oper =? eOpType.Exchange then kWALLET_SIG_BUF_SIZE else kNODE_SIG_BUF_SIZE) /\
    zlen (t2_body oper vs nonce ++ s_canonical sig) < 2 ^ 63.
Proof.
  intros Hn Hmin Hl. pose proof (t2_body_length oper vs nonce) as Lb.
  pose proof (zlen_nonneg nonce). pose proof (zlen_nonneg (xfers_canonical vs)).
  destruct (SignBinary_ok k (DevcashHash (t2_body oper vs nonce))) as (sig & Hs & Hv & Hw & Hz).
  exists sig. rewrite Hn in Hz.
  assert (SignatureOps.size sig =
      (if oper =? eOpType.Exchange then kWALLET_SIG_BUF_SIZE else kNODE_SIG_BUF_SIZE)) as Hsz.
  { rewrite Hz. by destruct (oper =? eOpType.Exchange). }
  split; [|split; [done|split; [done|split; [done|]]]].
  - unfold t2_ctor_sign_checked. rewrite (proj2 (Z.ltb_ge _ _)) by lia.
    rewrite t2_unsigned_eq by lia.
    assert (t2_getMessageDigest (mkT2 (t2_body oper vs nonce) false (zlen (xfers_canonical vs))
              (zlen nonce)) = Ok (t2_body oper vs nonce)) as ->.
    { unfold t2_getMessageDigest. cbn [t2_canonical t2_xfer_size t2_nonce_size]. unfold_sizes.
      rewrite u64_id by (unfold in_u64; lia).
      rewrite <- (app_nil_r (t2_body oper vs nonce)) at 1. by apply vec_range_prefix; lia. }
    cbn [mbind res_bind]. by rewrite Hs.
  - rewrite zlen_app. unfold SignatureOps.size in Hsz. rewrite Hsz.
    destruct (oper =? _); unfold_sizes; lia.
Qed.

Lemma t2_sign_ok oper vs nonce k keys a :
  sound_content oper vs a -> getKey keys a = Ok k ->
  is_node_key k = negb (oper =? eOpType.Exchange) ->
  kMIN_NONCE_SIZE <= zlen nonce ->
  zlen (t2_body oper vs nonce) < 2 ^ 62 ->
  exists sig,
    t2_ctor_sign_checked oper (xfer_of <$> vs) nonce k keys =
      Ok (t2_built oper vs nonce sig true) /\
    sig_wf sig /\ VerifyByteSig k (DevcashHash (t2_body oper vs nonce)) sig = Ok true /\
    SignatureOps.size sig =
      (if oper =? eOpType.Exchange then kWALLET_SIG_BUF_SIZE else kNODE_SIG_BUF_SIZE).
Proof.
  intros C Hk Hn Hmin Hl.
  destruct (t2_sign_steps oper vs nonce k keys Hn Hmin Hl) as (sig & E & Hw & Hv & Hsz & Lb).
  exists sig. rewrite E. unfold t2_check. by rewrite (t2_built_sound oper vs nonce sig keys a k).
Qed.

(** Nobody sends: a transaction that creates coins is refused. *)
Lemma t2_create_senderless vs nonce k keys :
  Forall view_ok vs -> Forall (fun v => v_amount v = 0) vs -> is_node_key k = true ->
  kMIN_NONCE_SIZE <= zlen nonce -> zlen (t2_body eOpType.Create vs nonce) < 2 ^ 62 ->
  t2_ctor_sign_checked eOpType.Create (xfer_of <$> vs) nonce k keys = Err RuntimeError.
Proof.
  intros W F Hk Hmin Hl.
  destruct (t2_sign_steps eOpType.Create vs nonce k keys Hk Hmin Hl) as (sig & -> & Hw & _ & _ & Lb).
  unfold t2_check, t2_isSound. rewrite built_getOperation, built_getTransfers by done.
  cbn [t2_built t2_is_sound mbind res_bind]. unfold scan_start.
  assert (has_sender vs = false /\ sums_ok 0 vs = true) as [Hh Hs].
  { clear -F. induction F as [|v vs E _ [IH1 IH2]]; [done|]. unfold has_sender in *. cbn [existsb sums_ok].
    rewrite E, IH1. by rewrite Z.add_0_l, IH2. }
  rewrite (scan_complete AddressOps.default); [|done| |done|done].
  - cbn [mbind res_bind sn_sender]. by rewrite Hh.
  - eapply List.Forall_impl; [|exact F]. cbn. intros v ->. lia.
Qed.
End signing.

(** ** What validation does

    The specification of the four validation loops: the transfers are applied
    in order, each to the balances and to the summary. *)
Definition flow (v : tview) : SmartCoin := mkSmartCoin (v_addr v) (v_coin v) (v_amount v).

Definition apply_view (p : ChainState * Summary) (v : tview) : res (ChainState * Summary) :=
  st ← ChainStateOps.addCoin p.1 (flow v);
  Ok (st.2, (SummaryOps.addItem_delta p.2 (v_addr v) (v_coin v) (v_amount v) (v_delay v)).2).

Definition apply_views (p : ChainState * Summary) (vs : list tview) : res (ChainState * Summary) :=
  fold_res apply_view p vs.

Definition views (xfers : list Transfer) : res (list tview) := map_res view_of xfers.

(** The change of one balance, the change of one coin's supply, and the total. *)
Definition views_delta (vs : list tview) (a : Address) (coin : Z) : Z :=
  zsum ((fun v => delta_of (flow v) a coin) <$> vs).
Definition coin_delta (vs : list tview) (coin : Z) : Z :=
  zsum ((fun v => if decide (coin = v_coin v) then v_amount v else 0) <$> vs).

(** All coins of all types. *)
Definition holdings (st : ChainState) : Z :=
  om_sum (fun _ inner => om_sum (fun _ v => v) inner) (state_map_ st).

Section apply_views.
Implicit Types (p : ChainState * Summary) (vs : list tview).

Lemma views_ok xfers : forall vs, views xfers = Ok vs -> Forall view_ok vs.
Proof.
  induction xfers as [|t xfers IH]; intros vs H; unfold views in *; cbn [map_res] in H;
    minv; simplify_eq; constructor; eauto using view_of_ok.
Qed.

Lemma views_amounts xfers : forall vs, views xfers = Ok vs -> amounts xfers = Ok (v_amount <$> vs).
Proof.
  induction xfers as [|t xfers IH]; intros vs H; unfold views, amounts in *; cbn [map_res] in *;
    minv; simplify_eq; [done|].
  rewrite (IH _ H1). unfold view_of in H0. minv. simplify_eq. by rewrite H3.
Qed.

Lemma apply_view_inv p v p' :
  apply_view p v = Ok p' ->
  ChainStateOps.addCoin p.1 (flow v) = Ok (true, p'.1) /\
  p'.2 = (SummaryOps.addItem_delta p.2 (v_addr v) (v_coin v) (v_amount v) (v_delay v)).2.
Proof.
  unfold apply_view. intros H. minv. simplify_eq. destruct a as [b st]. cbn [fst snd].
  by rewrite (addCoin_flag _ _ _ _ H0) in H0.
Qed.

Lemma flow_cs_ok st v b st' :
  view_ok v -> cs_ok st -> ChainStateOps.addCoin st (flow v) = Ok (b, st') -> cs_ok st'.
Proof. intros (_ & _ & R & _) C. by apply addCoin_ok. Qed.

Lemma apply_views_balance vs : forall p p' a coin,
  apply_views p vs = Ok p' ->
  balance p'.1 a coin = balance p.1 a coin + views_delta vs a coin.
Proof.
  induction vs as [|v vs IH]; intros p p' a coin H; unfold apply_views in *; cbn [fold_res] in H.
  - simplify_eq. unfold views_delta. simpl. lia.
  - minv. apply apply_view_inv in H0 as [H0 _].
    rewrite (IH _ _ _ _ H), (addCoin_balance _ _ _ _ a coin H0).
    unfold views_delta. rewrite fmap_cons. cbn [zsum foldr]. unfold zsum. lia.
Qed.

Lemma apply_views_cs_ok vs : Forall view_ok vs ->
  forall p p', cs_ok p.1 -> apply_views p vs = Ok p' -> cs_ok p'.1.
Proof.
  induction 1 as [|v vs W _ IH]; intros p p' C H; unfold apply_views in *; cbn [fold_res] in H.
  - by simplify_eq.
  - minv. apply apply_view_inv in H0 as [H0 _]. eapply IH; [|done].
    by eapply flow_cs_ok.
Qed.

Lemma apply_views_supply vs : Forall view_ok vs ->
  forall p p' coin, cs_ok p.1 -> apply_views p vs = Ok p' ->
  supply coin p'.1 = supply coin p.1 + coin_delta vs coin.
Proof.
  induction 1 as [|v vs W _ IH]; intros p p' coin C H; unfold apply_views in *; cbn [fold_res] in H.
  - simplify_eq. unfold coin_delta. simpl. lia.
  - minv. apply apply_view_inv in H0 as [H0 _].
    pose proof (flow_cs_ok _ _ _ _ W C H0) as C1.
    rewrite (IH _ _ coin C1 H), (addCoin_supply _ _ _ _ coin C H0).
    unfold coin_delta. rewrite fmap_cons. cbn [zsum foldr flow sc_coin sc_amount].
    unfold zsum. lia.
Qed.

Lemma addCoin_holdings st c b st' :
  cs_ok st -> ChainStateOps.addCoin st c = Ok (b, st') ->
  holdings st' = holdings st + sc_amount c.
Proof.
  intros [S F] (inner & Hi & -> & Hm & _)%addCoin_inv. unfold holdings. rewrite Hm.
  rewrite om_sum_put by done. subst inner.
  destruct (om_find (sc_addr c) (state_map_ st)) as [inner|] eqn:E; simpl.
  - destruct (om_find_Forall _ _ _ _ F E) as [Si _]. rewrite om_sum_put by done.
    unfold coin_amount. destruct (om_find (sc_coin c) inner); simpl; lia.
  - unfold coin_amount. simpl. lia.
Qed.

Lemma apply_views_holdings vs : Forall view_ok vs ->
  forall p p', cs_ok p.1 -> apply_views p vs = Ok p' ->
  holdings p'.1 = holdings p.1 + zsum (v_amount <$> vs).
Proof.
  induction 1 as [|v vs W _ IH]; intros p p' C H; unfold apply_views in *; cbn [fold_res] in H.
  - simplify_eq. simpl. lia.
  - minv. apply apply_view_inv in H0 as [H0 _].
    pose proof (flow_cs_ok _ _ _ _ W C H0) as C1.
    rewrite (IH _ _ C1 H), (addCoin_holdings _ _ _ _ C H0).
    rewrite fmap_cons. cbn [zsum foldr flow sc_amount]. unfold zsum. lia.
Qed.

Lemma apply_views_summary vs : Forall view_ok vs ->
  forall p p', summary_ok p.2 -> apply_views p vs = Ok p' ->
  summary_ok p'.2 /\ u64 (summary_sum p'.2) = u64 (summary_sum p.2 + zsum (v_amount <$> vs)) /\
  (vs <> [] \/ summary_ p.2 <> [] -> summary_ p'.2 <> []).
Proof.
  induction 1 as [|v vs W _ IH]; intros p p' C H; unfold apply_views in *; cbn [fold_res] in H.
  - simplify_eq. simpl. rewrite Z.add_0_r. tauto.
  - minv. apply apply_view_inv in H0 as [_ H0]. destruct W as (Wa & Wc & Wm & Wd).
    assert (summary_ok a.2) as C1.
    { rewrite H0. apply addItem_ok; [done | done|]. by apply delayed_ctor_ok. }
    destruct (IH _ _ C1 H) as (C2 & Hs & Hn). split; [done|]. split.
    + rewrite Hs, fmap_cons. cbn [zsum foldr]. fold (zsum (v_amount <$> vs)).
      rewrite <- u64_add_l, H0. unfold SummaryOps.addItem_delta.
      rewrite addItem_sum by done. cbn [DelayedItem_ctor di_delta].
      rewrite u64_add_r, u64_add_l. f_equal. lia.
    + intros _. apply Hn. right. rewrite H0. apply addItem_nonempty.
Qed.
End apply_views.

(** ** The validation loops refine [apply_views] *)
Definition refines (xfers : list Transfer) (c c' : VCtx) : Prop :=
  exists vs, views xfers = Ok vs /\
    apply_views (v_state c, v_summary c) vs = Ok (v_state c', v_summary c').

Section refinement.
Context `{Crypto}.

Lemma apply_flow_inv addr coin amount t c u c' :
  apply_flow addr coin amount t c = (Ok u, c') ->
  exists delay, TransferOps.getDelay t = Ok delay /\ v_aggregate c' = v_aggregate c /\
    apply_view (v_state c, v_summary c) (mkView addr coin amount delay)
      = Ok (v_state c', v_summary c').
Proof.
  unfold apply_flow. intros E. autorewrite with mrun in E.
  destruct (ChainStateOps.addCoin _ _) as [[b st]| | |] eqn:Ea; try done.
  autorewrite with mrun in E. destruct (TransferOps.getDelay t) as [delay| | |]; try done.
  autorewrite with mrun in E. unfold put in E. simplify_eq. exists delay.
  split; [done|]. split; [done|]. unfold apply_view, flow. cbn. by rewrite Ea.
Qed.

(** One transfer followed by the rest of the loop. *)
Lemma refines_cons t xfers addr coin amount u c c1 c' :
  TransferOps.getAmount t = Ok amount -> TransferOps.getCoin t = Ok coin ->
  TransferOps.getAddress t = Ok addr ->
  apply_flow addr coin amount t c = (Ok u, c1) -> refines xfers c1 c' ->
  refines (t :: xfers) c c'.
Proof.
  intros Ha Hc Hd Hf (vs & Hv & Hr). apply apply_flow_inv in Hf as (delay & Hy & _ & Hp).
  exists (mkView addr coin amount delay :: vs). unfold views, view_of in *. cbn [map_res].
  rewrite Hd, Hc, Ha, Hy. cbn [mbind res_bind]. rewrite Hv. split; [done|].
  unfold apply_views. cbn [fold_res]. rewrite Hp. done.
Qed.

Lemma refines_nil c : refines [] c c.
Proof. by exists []. Qed.

Lemma t1_valid_loop_refines xfers : forall c c',
  t1_valid_loop xfers c = (Ok true, c') -> refines xfers c c'.
Proof.
  induction xfers as [|t xfers IH]; intros c c' E; cbn [t1_valid_loop] in E; minv;
    [apply refines_nil|].
  eapply refines_cons; eauto.
Qed.

Lemma t2_valid_loop_refines oper xfers : forall c c',
  t2_valid_loop oper xfers c = (Ok true, c') -> refines xfers c c'.
Proof.
  induction xfers as [|t xfers IH]; intros c c' E; cbn [t2_valid_loop] in E; minv;
    [apply refines_nil|].
  assert (s2 = s1) as ->.
  { destruct (_ && _)%bool in H3; minv; [|done]. unfold get in *. by simplify_eq. }
  destruct a2; [done|]. minv. eapply refines_cons; eauto.
Qed.

Lemma commit_aggregate_frame prior addr coin amount c r c' :
  commit_aggregate prior addr coin amount c = (Ok r, c') ->
  v_state c' = v_state c /\ v_summary c' = v_summary c.
Proof.
  unfold commit_aggregate. rewrite bind_get. intros E. case_match; minv.
  - case_match; minv; [done|]. unfold put in *. by simplify_eq.
  - unfold put in *. by simplify_eq.
Qed.

Lemma refines_frame xfers c0 c c' :
  v_state c = v_state c0 -> v_summary c = v_summary c0 -> refines xfers c c' -> refines xfers c0 c'.
Proof. intros E1 E2. unfold refines. by rewrite E1, E2. Qed.

Lemma t1_aggregate_loop_refines prior xfers : forall ne c c',
  t1_aggregate_loop prior ne xfers c = (Ok true, c') -> refines xfers c c'.
Proof.
  induction xfers as [|t xfers IH]; intros ne c c' E; cbn [t1_aggregate_loop] in E; minv;
    [apply refines_nil|].
  assert (v_state s2 = v_state s1 /\ v_summary s2 = v_summary s1) as [E1 E2].
  { destruct (_ <? _) in H3; [eapply commit_aggregate_frame; eauto | by minv]. }
  destruct a2; [|done]. minv. apply (refines_frame _ _ s2); [done | done|].
  eapply refines_cons; eauto.
Qed.

Lemma t2_aggregate_loop_refines oper prior xfers : forall ne c c',
  t2_aggregate_loop oper prior ne xfers c = (Ok true, c') -> refines xfers c c'.
Proof.
  induction xfers as [|t xfers IH]; intros ne c c' E; cbn [t2_aggregate_loop] in E; minv;
    [apply refines_nil|].
  assert (v_state s2 = v_state s1 /\ v_summary s2 = v_summary s1) as [E1 E2].
  { destruct (_ <? _) in H3; minv; [|done].
    assert (s = s1) as ->.
    { destruct (_ =? _) in H4; minv; [unfold get in *; by simplify_eq | done]. }
    destruct a3; [by minv | eapply commit_aggregate_frame; eauto]. }
  destruct a2; [|done]. minv. apply (refines_frame _ _ s2); [done | done|].
  eapply refines_cons; eauto.
Qed.

Lemma try_false_inv {S} (m : M S bool) s s' :
  try_catch m (fun _ => mret false) s = (Ok true, s') -> m s = (Ok true, s').
Proof. unfold try_catch. intros E. repeat case_match; simplify_eq; done. Qed.

(** A transfer that [isValid] refuses: it takes coins in an exchange where the
    coin is unknown, or where there is less than its (negative) amount. *)
Definition refused_at (oper : Z) (v : tview) (st : ChainState) : Prop :=
  oper = eOpType.Exchange /\ v_amount v < 0 /\
  (recorded st (v_addr v) (v_coin v) = false \/ balance st (v_addr v) (v_coin v) < v_amount v).

Definition returns {A} (r : res A) : Prop := match r with Ok _ | Err _ => True | _ => False end.

Lemma addCoin_never_throws st c e : ChainStateOps.addCoin st c <> Err e.
Proof.
  unfold ChainStateOps.addCoin. case_match; [|done]. unfold add_i64. by case_match.
Qed.

Lemma apply_flow_cases {B} (k : M VCtx B) t v c r c' :
  view_of t = Ok v ->
  (apply_flow (v_addr v) (v_coin v) (v_amount v) t;; k) c = (r, c') -> returns r ->
  exists c1, apply_view (v_state c, v_summary c) v = Ok (v_state c1, v_summary c1) /\ k c1 = (r, c').
Proof.
  intros Hv E Hr. unfold view_of in Hv. minv. simplify_eq. cbn [v_addr v_coin v_amount] in E.
  unfold apply_flow in E. rewrite !bind_assoc, bind_get in E.
  rewrite !bind_assoc, bind_lift in E. unfold apply_view, flow.
  cbn [fst snd v_addr v_coin v_amount v_delay].
  destruct (ChainStateOps.addCoin _ _) as [[b st]|e| |] eqn:Ea; cbn [mbind res_bind].
  - rewrite bind_assoc, bind_put, bind_assoc, bind_lift, H3 in E.
    rewrite bind_assoc, bind_get, bind_put in E. eexists. split; [|exact E]. done.
  - by apply addCoin_never_throws in Ea.
  - by simplify_eq.
  - by simplify_eq.
Qed.

(** The funds check in front of a transfer's effect. *)
Lemma funds_check_cases oper v c f s :
  (if (v_amount v <? 0) && (oper =? eOpType.Exchange) then
     c ← get;
     have ← lift (ChainStateOps.getAmount (v_state c) (v_coin v) (v_addr v));
     mret (have <? v_amount v)
   else mret false) c = (f, s) ->
  s = c /\ (f = Ok false \/ refused_at oper v (v_state c) /\ (f = Ok true \/ exists e, f = Err e)).
Proof.
  unfold refused_at. destruct (_ && _)%bool eqn:G.
  - bool_to_prop. intros Ef. autorewrite with mrun in Ef. rewrite getAmount_total in Ef.
    destruct (recorded _ _ _) eqn:R; unfold mret, M_ret in Ef; simplify_eq; [|naive_solver].
    destruct (_ <? v_amount v) eqn:L; bool_to_prop; naive_solver.
  - intros Ef. unfold mret, M_ret in Ef. simplify_eq. auto.
Qed.

(** The loop of [isValid] at a state where it neither diverges nor overflows. *)
Lemma t2_valid_loop_spec oper xfers : forall vs c r c',
  views xfers = Ok vs -> t2_valid_loop oper xfers c = (r, c') -> returns r ->
  exists before rest, vs = before ++ rest /\
    apply_views (v_state c, v_summary c) before = Ok (v_state c', v_summary c') /\
    match rest with
    | [] => r = Ok true
    | v :: _ => r <> Ok true /\ refused_at oper v (v_state c')
    end.
Proof.
  induction xfers as [|t xfers IH]; intros vs c r c' Hv E Hr.
  - cbn in Hv, E. unfold mret, M_ret in E. simplify_eq. by exists [], [].
  - unfold views in Hv. cbn [map_res] in Hv. minv. simplify_eq. rename a into v, a0 into vs.
    pose proof H0 as Hv. unfold view_of in Hv. minv. simplify_eq. cbn [t2_valid_loop] in E.
    rewrite bind_lift, H4, bind_lift, H3, bind_lift, H2 in E.
    match type of E with (?m ≫= _) _ = _ => destruct (m c) as [f s] eqn:Ef end.
    destruct (funds_check_cases oper (mkView a a0 a1 a2) c f s Ef) as [-> [-> | [Hf Hx]]].
    + rewrite (bind_ok _ _ _ _ _ Ef) in E.
      apply (apply_flow_cases _ t (mkView a a0 a1 a2)) in E as (c1 & Ha & E); [|done..].
      destruct (IH vs c1 r c' H1 E Hr) as (before & rest & -> & Hb & Hx).
      exists (mkView a a0 a1 a2 :: before), rest. split; [done|]. split; [|done].
      unfold apply_views. cbn [fold_res]. by rewrite Ha.
    + exists [], (mkView a a0 a1 a2 :: vs). destruct Hx as [-> | [e ->]];
        [rewrite (bind_ok _ _ _ _ _ Ef) in E | rewrite (bind_err _ _ _ _ _ Ef) in E];
        unfold mret, M_ret in E; by simplify_eq.
Qed.

Lemma t2_isValid_inv tx keys c c' b :
  t2_isValid tx keys c = (Ok b, c') ->
  (t2_isSound tx keys <> Ok true /\ b = false /\ c' = c) \/
  (t2_isSound tx keys = Ok true /\
   exists r, (oper ← lift (t2_getOperation tx); xfers ← lift (t2_getTransfers tx);
              t2_valid_loop oper xfers) c = (r, c') /\
     (r = Ok b \/ exists e, r = Err e /\ b = false)).
Proof.
  unfold t2_isValid, try_catch. rewrite bind_lift. intros E.
  destruct (t2_isSound tx keys) as [[|]| | |]; cbn [negb] in E.
  - right. split; [done|].
    match type of E with match ?m with _ => _ end = _ => destruct m as [r s] eqn:Em end.
    exists r. repeat case_match; unfold mret, M_ret in E; simplify_eq; eauto.
  - left. unfold mret, M_ret in E. by simplify_eq.
  - left. case_match; unfold mret, M_ret in E; by simplify_eq.
  - done.
  - done.
Qed.

(** The four entry points at once. *)
Lemma tx_isValid_refines t keys c c' :
  tx_isValid t keys c = (Ok true, c') ->
  tx_isSound t keys = Ok true /\ exists xfers, tx_getTransfers t = Ok xfers /\ refines xfers c c'.
Proof.
  destruct t as [tx|tx]; cbn [tx_isValid tx_isSound tx_getTransfers]; intros E%try_false_inv;
    minv; destruct a; cbn [negb] in E; minv; try done; (split; [done|]); eexists; split; eauto.
  - by apply t1_valid_loop_refines.
  - by eapply t2_valid_loop_refines.
Qed.

Lemma tx_isValidInAggregate_refines t keys prior c c' :
  tx_isValidInAggregate t keys prior c = (Ok true, c') ->
  tx_isSound t keys = Ok true /\ exists xfers, tx_getTransfers t = Ok xfers /\ refines xfers c c'.
Proof.
  destruct t as [tx|tx]; cbn [tx_isValidInAggregate tx_isSound tx_getTransfers];
    intros E%try_false_inv;
    minv; destruct a; cbn [negb] in E; minv; try done; (split; [done|]); eexists; split; eauto.
  - by eapply t1_aggregate_loop_refines.
  - by eapply t2_aggregate_loop_refines.
Qed.
End refinement.

(** ** Reading tier 2 transactions *)
Section t2_reading.
Context `{Crypto}.
Context (oper : Z) (vs : list tview) (nonce : bytes) (sig : Signature).
Context (Hsig : sig_wf sig) (Hnonce : kMIN_NONCE_SIZE <= zlen nonce)
        (Hoper : 0 <= oper < eOpType.NumOperations).

#[local] Abbreviation canon := (t2_body oper vs nonce ++ s_canonical sig).
#[local] Abbreviation xs := (zlen (xfers_canonical vs)).
#[local] Abbreviation ns := (zlen nonce).

Context (pre rest : bytes) (Hl : zlen (pre ++ canon ++ rest) < 2 ^ 63).
#[local] Abbreviation b := (mkIB (pre ++ canon ++ rest) (zlen pre)).

Lemma read_bounds :
  0 <= zlen pre /\ 0 <= xs /\ 8 <= ns /\ 0 <= zlen rest /\
  zlen canon = 17 + xs + ns + zlen (s_canonical sig) /\
  (zlen (s_canonical sig) = 74 \/ zlen (s_canonical sig) = 106) /\
  zlen (pre ++ canon ++ rest) = zlen pre + (17 + xs + ns + zlen (s_canonical sig)) + zlen rest /\
  zlen pre + (17 + xs + ns + zlen (s_canonical sig)) + zlen rest < 2 ^ 63.
Proof.
  pose proof Hsig as (t & raw & E & L & Ht)%sig_wf_parts. rewrite E, zlen_cons, L.
  rewrite !zlen_app, t2_body_length, E, zlen_cons, L in Hl.
  rewrite !zlen_app, t2_body_length. rewrite ?E, ?zlen_cons, ?L. unfold kMIN_NONCE_SIZE in *.
  pose proof (zlen_nonneg pre). pose proof (zlen_nonneg rest).
  pose proof (zlen_nonneg (xfers_canonical vs)). unfold_sizes.
  repeat split; lia.
Qed.

Lemma read_xfer_size : Buf.getNextUint64 false b = (Ok xs, b).
Proof.
  pose proof read_bounds. unfold t2_body in *. rewrite <- !app_assoc in *.
  rewrite getNextUint64_run; [done | unfold in_u64; lia | done].
Qed.

Lemma read_nonce_size : Buf.getSecondUint64 false b = (Ok ns, b).
Proof.
  pose proof read_bounds. unfold t2_body, Buf.getSecondUint64 in *. mstep.
  rewrite u64_id by (unfold in_u64; lia). rewrite <- !app_assoc in *.
  set (w := Uint64ToBin xs []) in *. replace (zlen pre + 8) with (zlen (pre ++ w))
    by (subst w; autorewrite with devv_rw; lia).
  rewrite (app_assoc pre w). rewrite BinToUint64_window; [done | unfold in_u64; lia |].
  subst w. autorewrite with devv_rw. lia.
Qed.

Lemma read_oper : vec_at (pre ++ canon ++ rest) (u64 (16 + zlen pre)) = Ok oper.
Proof.
  pose proof read_bounds. rewrite u64_id by (unfold in_u64; lia).
  unfold t2_body. rewrite <- !app_assoc.
  replace (pre ++ Uint64ToBin (zlen (xfers_canonical vs)) [] ++ Uint64ToBin (zlen nonce) [] ++
    [oper] ++ xfers_canonical vs ++ nonce ++ s_canonical sig ++ rest)
    with ((pre ++ Uint64ToBin (zlen (xfers_canonical vs)) [] ++ Uint64ToBin (zlen nonce) []) ++
    oper :: (xfers_canonical vs ++ nonce ++ s_canonical sig ++ rest))
    by (rewrite <- !app_assoc; done).
  apply vec_at_mid. autorewrite with devv_rw. lia.
Qed.

Lemma read_sig_type :
  vec_at (pre ++ canon ++ rest) (u64 (u64 (17 + xs + ns) + zlen pre))
    = Ok (zlen (s_canonical sig) - 1).
Proof.
  pose proof read_bounds. rewrite (u64_id (17 + xs + ns)) by (unfold in_u64; lia).
  rewrite u64_id by (unfold in_u64; lia).
  pose proof Hsig as (t & raw & E & L & Ht)%sig_wf_parts. rewrite E, zlen_cons, L.
  replace (pre ++ (t2_body oper vs nonce ++ t :: raw) ++ rest)
    with ((pre ++ t2_body oper vs nonce) ++ t :: (raw ++ rest)) by (by rewrite <- !app_assoc).
  rewrite vec_at_mid; [f_equal; lia|]. rewrite zlen_app, t2_body_length. lia.
Qed.

Lemma canon_last : exists front last, canon = front ++ [last] /\
  zlen front = 17 + xs + ns + (zlen (s_canonical sig) - 1).
Proof.
  pose proof read_bounds as (_ & _ & _ & _ & Hc & Hs & _).
  destruct (exists_last (l := canon)) as (front & x & E).
  { intros E. rewrite E, zlen_nil in Hc. 
    pose proof (zlen_nonneg (xfers_canonical vs)). pose proof (zlen_nonneg nonce). lia. }
  exists front, x. split; [done|]. rewrite E, zlen_app, zlen_cons, zlen_nil in Hc. lia.
Qed.

(** [Fill] without the soundness check and [QuickFill] drop the last byte. *)
Lemma t2_QuickCreate_run :
  t2_QuickCreate b =
    (Ok (mkT2 (take (Z.to_nat (zlen canon - 1)) canon) false xs ns),
     mkIB (pre ++ canon ++ rest) (zlen pre + zlen canon - 1)).
Proof.
  pose proof read_bounds. pose proof canon_last as (front & x & E & Lf).
  unfold t2_QuickCreate, t2_QuickFill. mstep. 
  rewrite (proj2 (Z.ltb_ge _ _))
    by (unfold_sizes; rewrite u64_id by (unfold in_u64; lia); lia).
  mrun read_xfer_size. mrun read_nonce_size.
  rewrite (proj2 (Z.ltb_ge _ _)) by (unfold_sizes; lia).
  mstep.  unfold_sizes. rewrite read_oper.
  rewrite (proj2 (Z.leb_gt _ _)) by lia.
  mstep.  rewrite read_sig_type.
  rewrite (u64_id (zlen (s_canonical sig) - 1 + 17 + xs + ns)) by (unfold in_u64; lia).
  rewrite (proj2 (Z.ltb_ge _ _))
    by (rewrite u64_id by (unfold in_u64; lia); lia).
  rewrite E in *. rewrite <- !app_assoc in *.
  mrun (copy_run true pre front ([x] ++ rest) (zlen (s_canonical sig) - 1 + 17 + xs + ns)
          ltac:(lia) Hl).
  unfold mret, M_ret. cbn [t2_default t2_canonical t2_is_sound app].
  rewrite zlen_app, zlen_cons, zlen_nil.
  replace (zlen front + (1 + 0) - 1) with (zlen front) by lia.
  replace (zlen pre + (zlen front + (1 + 0)) - 1) with (zlen pre + zlen front) by lia.
  rewrite zlen_to_nat, take_app_length. done.
Qed.

(** [getNextTransaction] takes the whole of it. *)
Lemma getNextTransaction_run :
  Buf.getNextTransaction b = (Ok canon, mkIB (pre ++ canon ++ rest) (zlen pre + zlen canon)).
Proof.
  pose proof read_bounds.
  unfold Buf.getNextTransaction. mstep. 
  rewrite (proj2 (Z.ltb_ge _ _))
    by (unfold_sizes; rewrite u64_id by (unfold in_u64; lia); lia).
  mrun read_xfer_size. mrun read_nonce_size.
  rewrite (proj2 (Z.ltb_ge _ _)) by (unfold_sizes; lia).
  mstep.  unfold_sizes. rewrite read_oper.
  rewrite (proj2 (Z.leb_gt _ _)) by lia.
  mstep.  rewrite read_sig_type.
  rewrite (u64_id (zlen (s_canonical sig) - 1 + 17 + xs + ns + 1)) by (unfold in_u64; lia).
  rewrite (proj2 (Z.ltb_ge _ _))
    by (rewrite u64_id by (unfold in_u64; lia); lia).
  by rewrite copy_run by (try done; lia).
Qed.
End t2_reading.

(** ** Layout of a tier 1 transaction *)
Section t1_layout.
Context `{Crypto}.

Definition t1_bytes (s : Summary) (addr : Address) (sig : Signature) : bytes :=
  Uint64ToBin (SummaryOps.getByteSize s) [] ++ SummaryOps.getCanonical s
    ++ a_canonical addr ++ s_canonical sig.

Definition t1_built (s : Summary) (addr : Address) (sig : Signature) (flag : bool)
    : Tier1Transaction :=
  mkT1 (t1_bytes s addr sig) flag (SummaryOps.getByteSize s).

Context (s : Summary) (addr : Address) (sig : Signature).
Context (Ha : node_addr addr) (Hs : node_sig sig).

Lemma t1_bytes_length : zlen (t1_bytes s addr sig) = SummaryOps.getByteSize s + 164.
Proof.
  unfold t1_bytes. autorewrite with devv_rw.
  pose proof (node_addr_size _ Ha). pose proof (node_sig_size _ Hs).
  unfold AddressOps.size, SignatureOps.size, SummaryOps.getByteSize in *. unfold_sizes. lia.
Qed.

Lemma t1_getMessageDigest_built flag :
  t1_getMessageDigest (t1_built s addr sig flag) = Ok (SummaryOps.getCanonical s).
Proof.
  unfold t1_getMessageDigest, t1_built, t1_bytes. cbn [t1_canonical t1_sum_size].
  apply vec_range_mid; autorewrite with devv_rw; unfold SummaryOps.getByteSize, kUINT64_SIZE; lia.
Qed.

Lemma t1_getNodeAddress_built flag : t1_getNodeAddress (t1_built s addr sig flag) = Ok addr.
Proof.
  unfold t1_getNodeAddress, t1_built, t1_bytes. cbn [t1_canonical t1_sum_size].
  rewrite app_assoc. pose proof (node_addr_size _ Ha). unfold AddressOps.size in *.
  rewrite vec_range_mid
    by (autorewrite with devv_rw; unfold SummaryOps.getByteSize, kUINT64_SIZE; lia).
  cbn [mbind res_bind]. rewrite addr_ctor_canonical by auto with devv. done.
Qed.

Lemma t1_getSignature_built flag : t1_getSignature (t1_built s addr sig flag) = Ok sig.
Proof.
  unfold t1_getSignature, t1_built, t1_bytes. cbn [t1_canonical t1_sum_size].
  rewrite !app_assoc. pose proof (node_addr_size _ Ha). pose proof (node_sig_size _ Hs).
  unfold AddressOps.size, SignatureOps.size in *.
  rewrite <- (app_nil_r (_ ++ s_canonical sig)), <- app_assoc.
  rewrite vec_range_mid
    by (autorewrite with devv_rw; unfold SummaryOps.getByteSize, kUINT64_SIZE; lia).
  cbn [mbind res_bind]. apply sig_ctor_canonical. auto with devv.
Qed.

Lemma t1_isSound_built keys :
  t1_isSound (t1_built s addr sig false) keys =
    (eckey ← getKey keys addr;
     VerifyByteSig eckey (DevcashHash (SummaryOps.getCanonical s)) sig).
Proof.
  unfold t1_isSound. rewrite t1_getNodeAddress_built, t1_getMessageDigest_built,
    t1_getSignature_built. cbn [t1_built t1_is_sound mbind res_bind].
  destruct (getKey keys addr); try done. cbn [mbind res_bind].
  by destruct (VerifyByteSig _ _ _) as [[]| | |].
Qed.

Context (Hl : zlen (t1_bytes s addr sig) < 2 ^ 63).

Lemma t1_sum_bounds : 0 <= SummaryOps.getByteSize s < 2 ^ 63 - 164.
Proof.
  pose proof t1_bytes_length. pose proof (zlen_nonneg (SummaryOps.getCanonical s)).
  unfold SummaryOps.getByteSize in *. lia.
Qed.

Lemma t1_size_built : t1_size (SummaryOps.getByteSize s) = zlen (t1_bytes s addr sig).
Proof.
  pose proof t1_sum_bounds. rewrite t1_bytes_length. unfold t1_size. unfold_sizes.
  rewrite u64_id by (unfold in_u64; lia). lia.
Qed.

Lemma t1_read_size pre rest :
  zlen (pre ++ t1_bytes s addr sig ++ rest) < 2 ^ 63 ->
  Buf.getNextUint64 false (mkIB (pre ++ t1_bytes s addr sig ++ rest) (zlen pre)) =
    (Ok (SummaryOps.getByteSize s), mkIB (pre ++ t1_bytes s addr sig ++ rest) (zlen pre)).
Proof.
  pose proof t1_sum_bounds. intros Hz. unfold t1_bytes in *. rewrite <- !app_assoc in *.
  apply (getNextUint64_run false); [unfold in_u64; lia | done].
Qed.

Lemma t1_getTransfers_built flag :
  summary_ok s -> zlen (summary_ s) < 2 ^ 32 ->
  t1_getTransfers (t1_built s addr sig flag) = Ok (SummaryOps.getTransfers s).
Proof.
  intros Ho Hn. unfold t1_getTransfers, t1_built. cbn [t1_canonical].
  unfold t1_bytes in *.
  change kUINT64_SIZE with (zlen (Uint64ToBin (SummaryOps.getByteSize s) [])).
  by rewrite (parses_summary s Ho Hn _ _ Hl).
Qed.

(** [Fill], the buffer constructor and [getNextT1Transaction] read it back. *)
Lemma parses_t1_Create keys :
  parses (t1_Create keys false) (t1_bytes s addr sig) (t1_built s addr sig false).
Proof.
  intros pre rest Hz. unfold t1_Create, t1_Fill.
  mrun (t1_read_size pre rest Hz). mstep. rewrite t1_size_built.
  destruct (window_bounds _ _ _ Hz). pose proof (zlen_nonneg rest).
  rewrite (proj2 (Z.ltb_ge _ _)) by (rewrite u64_id, !zlen_app by done; lia).
  by mrun (copy_run true pre (t1_bytes s addr sig) rest _ eq_refl Hz).
Qed.

Lemma parses_t1_ctor keys :
  parses (t1_ctor_buffer keys false) (t1_bytes s addr sig) (t1_built s addr sig false).
Proof.
  intros pre rest Hz. unfold t1_ctor_buffer.
  mrun (t1_read_size pre rest Hz). rewrite t1_size_built.
  mrun (copy_run true pre (t1_bytes s addr sig) rest _ eq_refl Hz). mstep. by case_match.
Qed.

Lemma parses_getNextT1Transaction :
  parses Buf.getNextT1Transaction (t1_bytes s addr sig) (t1_bytes s addr sig).
Proof.
  intros pre rest Hz. unfold Buf.getNextT1Transaction.
  mrun (t1_read_size pre rest Hz). mstep. fold (t1_size (SummaryOps.getByteSize s)).
  rewrite t1_size_built. destruct (window_bounds _ _ _ Hz). pose proof (zlen_nonneg rest).
  rewrite (proj2 (Z.ltb_ge _ _)) by (rewrite u64_id, !zlen_app by done; lia).
  by apply copy_run.
Qed.
End t1_layout.

(** ** Validation keeps the representation invariants on every outcome *)
Definition ctx_ok (c : VCtx) : Prop := cs_ok (v_state c) /\ summary_ok (v_summary c).

(** A computation that keeps a property of the state, whether it returns,
    throws or is cut off. *)
Definition keeps {S A} (I : S -> Prop) (m : M S A) : Prop := forall s, I s -> I (snd (m s)).

Section keeps_rules.
Context {S : Type} (I : S -> Prop).

Lemma keeps_ret {A} (a : A) : keeps I (mret a).
Proof. by intros s. Qed.

Lemma keeps_lift {A} (r : res A) : keeps I (lift r).
Proof. by intros s. Qed.

Lemma keeps_bind {A B} (m : M S A) (f : A -> M S B) :
  keeps I m -> (forall a s s', m s = (Ok a, s') -> keeps I (f a)) -> keeps I (m ≫= f).
Proof.
  intros Hm Hf s Hs. specialize (Hm s Hs). unfold mbind, M_bind.
  destruct (m s) as [[a|e| |] s'] eqn:E; simpl in *; try done.
  by apply (Hf a s s').
Qed.

Lemma keeps_try {A} (m : M S A) h : keeps I m -> (forall e, keeps I (h e)) -> keeps I (try_catch m h).
Proof.
  intros Hm Hh s Hs. specialize (Hm s Hs). unfold try_catch.
  destruct (m s) as [[a|e| |] s'] eqn:E; simpl in *; try done.
  case_match; [by apply Hh | done].
Qed.
End keeps_rules.

#[export] Hint Resolve keeps_ret keeps_lift : devv.

Section keeps_validation.
Context `{Crypto}.

Lemma apply_flow_keeps addr coin amount t :
  addr_wf addr -> in_u64 coin -> in_i64 amount -> keeps ctx_ok (apply_flow addr coin amount t).
Proof.
  intros Ha Hc Hm c [C S]. unfold apply_flow. mstep.
  destruct (ChainStateOps.addCoin _ _) as [[b st]| | |] eqn:E; try done. mstep.
  assert (cs_ok st) as C' by (eapply (addCoin_ok (v_state c)); [done | | exact E]; done).
  destruct (TransferOps.getDelay t) as [d| | |] eqn:Ed; try done.
  mstep. unfold put. cbn [snd v_state v_summary v_aggregate]. split; [done|].
  cbn [v_summary]. apply addItem_ok; [done | done |].
  apply delayed_ctor_ok; [done | by eapply getDelay_range].
Qed.

Lemma commit_keeps prior addr coin amount : keeps ctx_ok (commit_aggregate prior addr coin amount).
Proof.
  intros c C. unfold commit_aggregate. mstep. case_match; [|done].
  destruct (ChainStateOps.getAmount _ _ _); try done. mstep.
  destruct (add_i64 a _); try done. mstep. destruct (add_i64 a0 _); try done.
  case_match; [done|]. mstep. by destruct (add_i64 amount _).
Qed.

Lemma funds_keeps (b : bool) coin addr amount :
  keeps ctx_ok (if b then
    c ← get; have ← lift (ChainStateOps.getAmount (v_state c) coin addr); mret (have <? amount)
    else mret false).
Proof.
  destruct b; [|apply keeps_ret]. intros c C. mstep.
  by destruct (ChainStateOps.getAmount _ _ _).
Qed.

(** The readings in front of a transfer's effect. *)
Ltac keeps_getters :=
  repeat (apply keeps_bind; [apply keeps_lift |
    let a := fresh "a" in let E := fresh "E" in intros a ? ? E; unfold lift in E; simplify_eq]).

Lemma t1_valid_loop_keeps xfers : keeps ctx_ok (t1_valid_loop xfers).
Proof.
  induction xfers as [|t xfers IH]; cbn [t1_valid_loop]; [apply keeps_ret|]. keeps_getters.
  apply keeps_bind; [|done].
  apply apply_flow_keeps; eauto using getAddress_wf, getCoin_range, getAmount_range.
Qed.

Lemma t2_valid_loop_keeps oper xfers : keeps ctx_ok (t2_valid_loop oper xfers).
Proof.
  induction xfers as [|t xfers IH]; cbn [t2_valid_loop]; [apply keeps_ret|]. keeps_getters.
  apply keeps_bind; [apply funds_keeps|]. intros r _ _ _. destruct r; [apply keeps_ret|].
  apply keeps_bind; [|done].
  apply apply_flow_keeps; eauto using getAddress_wf, getCoin_range, getAmount_range.
Qed.

Lemma t1_aggregate_loop_keeps prior xfers : forall ne, keeps ctx_ok (t1_aggregate_loop prior ne xfers).
Proof.
  induction xfers as [|t xfers IH]; intros ne; cbn [t1_aggregate_loop]; [apply keeps_ret|].
  keeps_getters.
  apply keeps_bind; [case_match; [apply commit_keeps | apply keeps_ret]|].
  intros [r|] _ _ _; [|apply keeps_ret]. apply keeps_bind; [|done].
  apply apply_flow_keeps; eauto using getAddress_wf, getCoin_range, getAmount_range.
Qed.

Lemma t2_aggregate_loop_keeps oper prior xfers :
  forall ne, keeps ctx_ok (t2_aggregate_loop oper prior ne xfers).
Proof.
  induction xfers as [|t xfers IH]; intros ne; cbn [t2_aggregate_loop]; [apply keeps_ret|].
  keeps_getters.
  apply keeps_bind.
  { case_match; [|apply keeps_ret]. apply keeps_bind; [apply funds_keeps|].
    intros r _ _ _. destruct r; [apply keeps_ret | apply commit_keeps]. }
  intros [r|] _ _ _; [|apply keeps_ret]. apply keeps_bind; [|done].
  apply apply_flow_keeps; eauto using getAddress_wf, getCoin_range, getAmount_range.
Qed.

Lemma tx_isValid_keeps t keys : keeps ctx_ok (tx_isValid t keys).
Proof.
  destruct t; apply keeps_try; auto with devv; keeps_getters;
    (case_match; [apply keeps_ret|]); keeps_getters;
    auto using t1_valid_loop_keeps, t2_valid_loop_keeps.
Qed.

Lemma tx_isValidInAggregate_keeps t keys prior : keeps ctx_ok (tx_isValidInAggregate t keys prior).
Proof.
  destruct t; apply keeps_try; auto with devv; keeps_getters;
    (case_match; [apply keeps_ret|]); keeps_getters;
    auto using t1_aggregate_loop_keeps, t2_aggregate_loop_keeps.
Qed.
End keeps_validation.
