(* ===== verification/Blocks.v ===== *)
(** * primitives/ProposedBlock.{h,cpp}, primitives/FinalBlock.{h,cpp},
    primitives/block_tools.{h,cpp}

    A proposed block collects transactions, their summary and validations; a
    final block adds a time and a Merkle root.  Both are a fixed header, the
    transactions, the summary and the validations on the wire. *)

From Stdlib Require Import ZArith Lia.
From stdpp Require Import base list numbers.
From S2P Require Import Prelude OrdMap Converters Keys Buffers Transfer ChainState Summary.
From S2P Require Import Validation KeyRing Context Transactions.

(** [static_cast] of the version byte: [version_ & 0xFF]. *)
Definition version_byte (v : Z) : Z := Z.land v 255.

Section blocks.
Context `{Crypto}.

(** ** ProposedBlock *)
Record ProposedBlock := mkPB {
  pb_version : Z;
  pb_num_bytes : Z;
  pb_prev_hash : bytes;
  pb_tx_size : Z;
  pb_sum_size : Z;
  pb_val_count : Z;
  pb_transactions : list Transaction;
  pb_summary : Summary;
  pb_vals : Validation;
  pb_block_state : ChainState
}.

Definition zero_hash : bytes := replicate 32 0.

Definition pb_Create (prior : ChainState) : ProposedBlock :=
  mkPB 0 0 zero_hash 0 0 0 [] SummaryOps.Create ValidationOps.Create prior.

Definition pb_MinSize : Z := 61.
Definition pb_MinValidationSize : Z := kHASH_LENGTH + ValidationOps.pairSize * 2.

(** [MinSize() + tx_size_ + sum_size_ + val_count_ * pairSize()] *)
Definition pb_bytes (tx_size sum_size val_count : Z) : Z :=
  u64 (pb_MinSize + tx_size + sum_size + val_count * ValidationOps.pairSize).

Definition pb_ctor (prev_hash : bytes) (txs : list Transaction) (summary : Summary)
    (validations : Validation) (prior_state : ChainState) : ProposedBlock :=
  let sum_size := SummaryOps.getByteSize summary in
  let val_count := ValidationOps.getValidationCount validations in
  let tx_size := foldl (fun n t => u64 (n + tx_getByteSize t)) 0 txs in
  mkPB 0 (pb_bytes tx_size sum_size val_count) prev_hash tx_size sum_size val_count txs
       (SummaryOps.Copy summary) validations prior_state.

(** The copy constructor takes its argument by a reference that is not constant
    and moves the transactions out of it: the copy, and what is left. *)
Definition pb_copy (other : ProposedBlock) : ProposedBlock * ProposedBlock :=
  (mkPB (pb_version other) (pb_num_bytes other) (pb_prev_hash other) (pb_tx_size other) (pb_sum_size other)
        (pb_val_count other) (pb_transactions other) (SummaryOps.Copy (pb_summary other)) (pb_vals other)
        (pb_block_state other),
   mkPB (pb_version other) (pb_num_bytes other) (pb_prev_hash other) (pb_tx_size other) (pb_sum_size other)
        (pb_val_count other) [] (pb_summary other) (pb_vals other) (pb_block_state other)).

Definition isNullProposal (vec : bytes) : bool := bool_decide (vec = replicate (length vec) 0).

Definition pb_isNull (b : ProposedBlock) : bool := pb_num_bytes b <? pb_MinSize.

Definition pb_set_num_bytes (b : ProposedBlock) (n : Z) : ProposedBlock :=
  mkPB (pb_version b) n (pb_prev_hash b) (pb_tx_size b) (pb_sum_size b) (pb_val_count b)
       (pb_transactions b) (pb_summary b) (pb_vals b) (pb_block_state b).

Definition pb_setNull (b : ProposedBlock) : ProposedBlock := pb_set_num_bytes b 0.

Definition pb_setPrevHash (b : ProposedBlock) (h : bytes) : ProposedBlock :=
  mkPB (pb_version b) (pb_num_bytes b) h (pb_tx_size b) (pb_sum_size b) (pb_val_count b)
       (pb_transactions b) (pb_summary b) (pb_vals b) (pb_block_state b).

(** The validations, their count and the size that follows from it. *)
Definition pb_set_vals (b : ProposedBlock) (vals : Validation) (val_count : Z) : ProposedBlock :=
  mkPB (pb_version b) (pb_bytes (pb_tx_size b) (pb_sum_size b) val_count) (pb_prev_hash b)
       (pb_tx_size b) (pb_sum_size b) val_count (pb_transactions b) (pb_summary b) vals
       (pb_block_state b).

(** The loop over the validations of [validate]. *)
Fixpoint validate_loop (keys : KeyRing) (md : bytes) (sigs : list (Address * Signature)) : res bool :=
  match sigs with
  | [] => Ok true
  | sig :: rest =>
      k ← getKey keys sig.1;
      ok ← VerifyByteSig k (DevcashHash md) sig.2;
      if negb ok then Ok false else validate_loop keys md rest
  end.

Definition pb_validate (b : ProposedBlock) (keys : KeyRing) : res bool :=
  if zlen (pb_transactions b) <? 1 then Ok false
  else if negb (SummaryOps.isSane (pb_summary b)) then Ok false
  else
    let md := SummaryOps.getCanonical (pb_summary b) in
    validate_loop keys md (ValidationOps.getValidationMap (pb_vals b)).

(** The count goes up by one whether or not the node's entry was new. *)
Definition pb_signBlock (b : ProposedBlock) (keys : KeyRing) (context : DevcashContext)
    : res (bool * ProposedBlock) :=
  let md := SummaryOps.getCanonical (pb_summary b) in
  let node_num := ContextOps.get_current_node context mod ContextOps.get_peer_count context in
  node_addr ← getNodeAddr keys node_num;
  k ← getNodeKey keys node_num;
  node_sig ← SignBinary k (DevcashHash md);
  v ← ValidationOps.addValidation (pb_vals b) node_addr node_sig;
  Ok (true, pb_set_vals b v.2 (u32 (pb_val_count b + 1))).

(** The block is only changed once the validations have been read. *)
Definition pb_checkValidationData (b : ProposedBlock) (context : DevcashContext)
    : P (bool * ProposedBlock) :=
  sz ← Buf.size;
  if sz <? pb_MinValidationSize then mret (false, b)
  else
    incoming_hash ← Buf.copy kHASH_LENGTH true;
    if bool_decide (incoming_hash = pb_prev_hash b) then
      val_temp ← ValidationOps.from_buffer;
      let vals := (ValidationOps.addValidation_all (pb_vals b) val_temp).2 in
      let b' := pb_set_vals b vals (ValidationOps.getValidationCount vals) in
      mret (ContextOps.get_peer_count context / 2 <? pb_val_count b', b')
    else mret (false, b).

Definition pb_getCanonical (b : ProposedBlock) : bytes :=
  let txs := concat (tx_getCanonical <$> pb_transactions b) in
  let sum_canon := SummaryOps.getCanonical (pb_summary b) in
  let val_canon := ValidationOps.getCanonical (pb_vals b) in
  let serial := [version_byte (pb_version b)] in
  let serial := Uint64ToBin (pb_num_bytes b) serial in
  let serial := serial ++ pb_prev_hash b in
  let serial := Uint64ToBin (pb_tx_size b) serial in
  let serial := Uint64ToBin (pb_sum_size b) serial in
  let serial := Uint32ToBin (pb_val_count b) serial in
  serial ++ txs ++ sum_canon ++ val_canon.

Definition pb_getRawTransactions (b : ProposedBlock) : list bytes :=
  tx_getCanonical <$> pb_transactions b.

Definition pb_getValidationData (b : ProposedBlock) : bytes :=
  pb_prev_hash b ++ ValidationOps.getCanonical (pb_vals b).

(** [this->shallowCopy(other)]: the new value of [this]; [other] keeps its
    other fields and loses its transactions and summary. *)
Definition pb_shallowCopy (this other : ProposedBlock) : ProposedBlock * ProposedBlock :=
  (mkPB (pb_version other) (pb_num_bytes other) (pb_prev_hash other) (pb_tx_size other)
        (pb_sum_size other) (pb_val_count other) (pb_transactions other) (pb_summary other)
        (pb_vals other) (pb_block_state other),
   mkPB (pb_version other) (pb_num_bytes other) (pb_prev_hash other) (pb_tx_size other)
        (pb_sum_size other) (pb_val_count other) [] SummaryOps.Create
        (pb_vals other) (pb_block_state other)).

(** [Create(buffer, prior, keys, tcm)]; [mode] is the manager's. *)
Definition pb_from_buffer (prior : ChainState) (keys : KeyRing) (mode : eAppMode)
    : P ProposedBlock :=
  sz ← Buf.size;
  if sz <? pb_MinSize then throw RuntimeError
  else
    b ← Buf.getNextByte true;
    let version := Z.lor 0 b in
    if negb (version =? 0) then throw RuntimeError
    else
      num_bytes ← Buf.getNextUint64 true;
      if negb (sz =? num_bytes) then throw RuntimeError
      else
        prev_hash ← Buf.copy kHASH_LENGTH true;
        tx_size ← Buf.getNextUint64 true;
        sum_size ← Buf.getNextUint64 true;
        val_count ← Buf.getNextUint32 true;
        p ← CreateTransactions keys mode pb_MinSize tx_size;
        summary ← SummaryOps.from_buffer;
        vals ← ValidationOps.from_buffer;
        mret (mkPB version num_bytes prev_hash tx_size sum_size val_count p.2 summary vals prior).

(** ** FinalBlock *)
Record FinalBlock := mkFB {
  fb_version : Z;
  fb_num_bytes : Z;
  fb_block_time : Z;
  fb_prev_hash : bytes;
  fb_merkle_root : bytes;
  fb_tx_size : Z;
  fb_sum_size : Z;
  fb_val_count : Z;
  fb_transactions : list Transaction;
  fb_raw_transactions : list bytes;
  fb_summary : Summary;
  fb_vals : Validation;
  fb_block_state : ChainState
}.

Definition fb_empty (prior : ChainState) : FinalBlock :=
  mkFB 0 0 0 zero_hash zero_hash 0 0 0 [] [] SummaryOps.Create ValidationOps.Create prior.

Definition fb_MinSize : Z := 101.

Definition fb_getBlockDigest (b : FinalBlock) : bytes :=
  let txs := concat (fb_raw_transactions b) in
  let sum_canon := SummaryOps.getCanonical (fb_summary b) in
  let val_canon := ValidationOps.getCanonical (fb_vals b) in
  let serial := [version_byte (fb_version b)] in
  let serial := Uint64ToBin (fb_num_bytes b) serial in
  let serial := Uint64ToBin (fb_block_time b) serial in
  let serial := serial ++ fb_prev_hash b in
  let serial := Uint64ToBin (fb_tx_size b) serial in
  let serial := Uint64ToBin (fb_sum_size b) serial in
  let serial := Uint32ToBin (fb_val_count b) serial in
  serial ++ txs ++ sum_canon ++ val_canon.

Definition fb_getCanonical (b : FinalBlock) : bytes :=
  let txs := concat (fb_raw_transactions b) in
  let sum_canon := SummaryOps.getCanonical (fb_summary b) in
  let val_canon := ValidationOps.getCanonical (fb_vals b) in
  let serial := [version_byte (fb_version b)] in
  let serial := Uint64ToBin (fb_num_bytes b) serial in
  let serial := Uint64ToBin (fb_block_time b) serial in
  let serial := serial ++ fb_prev_hash b in
  let serial := serial ++ fb_merkle_root b in
  let serial := Uint64ToBin (fb_tx_size b) serial in
  let serial := Uint64ToBin (fb_sum_size b) serial in
  let serial := Uint32ToBin (fb_val_count b) serial in
  serial ++ txs ++ sum_canon ++ val_canon.

Definition fb_set_merkle_root (b : FinalBlock) (h : bytes) : FinalBlock :=
  mkFB (fb_version b) (fb_num_bytes b) (fb_block_time b) (fb_prev_hash b) h
       (fb_tx_size b) (fb_sum_size b) (fb_val_count b) (fb_transactions b)
       (fb_raw_transactions b) (fb_summary b) (fb_vals b) (fb_block_state b).

(** [FinalBlock(proposed)] at the time [now]. *)
Definition fb_of_proposed (now : Z) (proposed : ProposedBlock) : FinalBlock :=
  let b := mkFB 0 (u64 (pb_num_bytes proposed + 40)) now (pb_prev_hash proposed) zero_hash
             (pb_tx_size proposed) (pb_sum_size proposed) (pb_val_count proposed)
             (tx_clone <$> pb_transactions proposed) (pb_getRawTransactions proposed)
             (SummaryOps.Copy (pb_summary proposed)) (pb_vals proposed)
             (pb_block_state proposed) in
  fb_set_merkle_root b (DevcashHash (fb_getBlockDigest b)).

Definition fb_copy (o : FinalBlock) : FinalBlock :=
  mkFB (fb_version o) (fb_num_bytes o) (fb_block_time o) (fb_prev_hash o) (fb_merkle_root o)
       (fb_tx_size o) (fb_sum_size o) (fb_val_count o) (tx_clone <$> fb_transactions o)
       (fb_raw_transactions o) (SummaryOps.Copy (fb_summary o)) (fb_vals o) (fb_block_state o).

(** The fields that every reader takes from the buffer in the same order, after
    the version and the size. *)
Record FBFields := mkFields {
  fh_block_time : Z;
  fh_prev_hash : bytes;
  fh_merkle_root : bytes;
  fh_tx_size : Z;
  fh_sum_size : Z;
  fh_val_count : Z
}.

Definition fb_read_fields : P FBFields :=
  block_time ← Buf.getNextUint64 true;
  prev_hash ← Buf.copy kHASH_LENGTH true;
  merkle_root ← Buf.copy kHASH_LENGTH true;
  tx_size ← Buf.getNextUint64 true;
  sum_size ← Buf.getNextUint64 true;
  val_count ← Buf.getNextUint32 true;
  mret (mkFields block_time prev_hash merkle_root tx_size sum_size val_count).

Definition fb_of_fields (version num_bytes : Z) (h : FBFields) (txs : list Transaction)
    (raws : list bytes) (summary : Summary) (vals : Validation) (prior : ChainState)
    : FinalBlock :=
  mkFB version num_bytes (fh_block_time h) (fh_prev_hash h) (fh_merkle_root h) (fh_tx_size h)
       (fh_sum_size h) (fh_val_count h) txs raws summary vals prior.

(** [size_t tx_start = buffer.getOffset();
    while (buffer.getOffset() < tx_start + tx_size) ...] *)
Definition fb_read_txs {A} (step : A -> P A) (tx_size : Z) (acc : A) : P A :=
  tx_start ← Buf.getOffset;
  offset_fold step (u64 (tx_start + tx_size)) acc.

(** [FinalBlock(buffer, prior, keys, tcm)]: a bad header leaves the fields
    read so far and returns. *)
Definition fb_from_remote (prior : ChainState) (keys : KeyRing) (mode : eAppMode)
    : P FinalBlock :=
  let e := fb_empty prior in
  sz ← Buf.size;
  if sz <? fb_MinSize then mret e
  else
    b ← Buf.getNextByte true;
    let version := Z.lor 0 b in
    if negb (version =? 0)
    then mret (mkFB version 0 0 zero_hash zero_hash 0 0 0 [] [] SummaryOps.Create
                 ValidationOps.Create prior)
    else
      num_bytes ← Buf.getNextUint64 true;
      if negb (sz =? num_bytes)
      then mret (mkFB version num_bytes 0 zero_hash zero_hash 0 0 0 [] [] SummaryOps.Create
                   ValidationOps.Create prior)
      else
        h ← fb_read_fields;
        p ← CreateTransactions keys mode fb_MinSize (fh_tx_size h);
        summary ← SummaryOps.from_buffer;
        vals ← ValidationOps.from_buffer;
        mret (fb_of_fields version num_bytes h p.2 p.1 summary vals prior).

(** [FinalBlock(buffer, prior, keys, mode)]: transactions are checked as they
    are read. *)
Definition fb_mode_step (keys : KeyRing) (mode : eAppMode)
    (acc : list bytes * list Transaction) : P (list bytes * list Transaction) :=
  match mode with
  | T1 => one_tx ← t1_ctor_buffer keys true;
          mret (acc.1 ++ [t1_canonical one_tx], acc.2 ++ [Tier1 one_tx])
  | T2 => one_tx ← t2_CreateUniquePtr keys true;
          mret (acc.1 ++ [t2_canonical one_tx], acc.2 ++ [Tier2 one_tx])
  | scan => throw RuntimeError
  end.

Definition fb_from_buffer_mode (prior : ChainState) (keys : KeyRing) (mode : eAppMode)
    : P FinalBlock :=
  sz ← Buf.size;
  if sz <? fb_MinSize then throw RuntimeError
  else
    b ← Buf.getNextByte true;
    let version := Z.lor 0 b in
    if negb (version =? 0) then throw RuntimeError
    else
      num_bytes ← Buf.getNextUint64 true;
      if sz <? num_bytes then throw RuntimeError
      else
        h ← fb_read_fields;
        p ← fb_read_txs (fb_mode_step keys mode) (fh_tx_size h) ([], []);
        summary ← SummaryOps.from_buffer;
        vals ← ValidationOps.from_buffer;
        mret (fb_of_fields version num_bytes h p.2 p.1 summary vals prior).

(** [FinalBlock::Create]: the transactions stay raw. *)
Definition raw_step (acc : list bytes) : P (list bytes) :=
  t ← Buf.getNextTransaction;
  mret (acc ++ [t]).

Definition fb_Create (prior : ChainState) : P FinalBlock :=
  sz ← Buf.size;
  if sz <? fb_MinSize then throw DeserializationError
  else
    b ← Buf.getNextByte true;
    let version := Z.lor 0 b in
    if negb (version =? 0) then throw DeserializationError
    else
      num_bytes ← Buf.getNextUint64 true;
      if sz <? num_bytes then throw DeserializationError
      else
        h ← fb_read_fields;
        raws ← fb_read_txs raw_step (fh_tx_size h) [];
        summary ← SummaryOps.from_buffer;
        vals ← ValidationOps.from_buffer_count (fh_val_count h);
        mret (fb_of_fields version num_bytes h [] raws summary vals prior).

Definition fb_getNumTransactions (b : FinalBlock) : Z := zlen (fb_raw_transactions b).

Definition fb_CopyTransactions (b : FinalBlock) : list Transaction := tx_clone <$> fb_transactions b.

Definition fb_getNumTransfers (b : FinalBlock) : res Z :=
  fold_res (fun n t => xs ← tx_getTransfers t; Ok (u64 (n + zlen xs))) 0 (fb_transactions b).

(** [llabs]: the absolute value of the least [long long] is undefined. *)
Definition llabs (z : Z) : res Z := if z =? - 2 ^ 63 then UB else Ok (Z.abs z).

Definition fb_getVolume (b : FinalBlock) : res Z :=
  fold_res (fun n t =>
    xs ← tx_getTransfers t;
    fold_res (fun n x => a ← TransferOps.getAmount x; m ← llabs a; Ok (u64 (n + m))) n xs)
    0 (fb_transactions b).

Definition fb_getValue (b : FinalBlock) : res Z :=
  fold_res (fun n t =>
    xs ← tx_getTransfers t;
    fold_res (fun n x => a ← TransferOps.getAmount x; add_i64 n a) n xs)
    0 (fb_transactions b).

(** ** block_tools.cpp *)
Definition IsBlockData (now : Z) (raw : bytes) : res bool :=
  if zlen raw <? fb_MinSize then Ok false
  else
    v ← vec_idx raw 0;
    if negb (v =? 0) then Ok false
    else
      block_time ← BinToUint64 raw 9;
      if block_time <? 1514764800 then Ok false
      else if now <? block_time then Ok false
      else Ok true.

Definition IsTxData (raw : bytes) : res bool :=
  if zlen raw <? kTX_MIN_SIZE then Ok false
  else
    xfer_size ← BinToUint64 raw 0;
    let tx_size := u64 (kTX_MIN_SIZE + xfer_size) in
    if zlen raw <? tx_size then Ok false
    else
      oper ← vec_idx raw 16;
      if 4 <=? oper then Ok false else Ok true.

(** Two iterators advance together; the sizes were compared first. *)
Fixpoint compare_coins (x y : omap Z Z) : bool :=
  match x, y with
  | [], _ => true
  | (k1, v1) :: x', (k2, v2) :: y' =>
      if negb (k1 =? k2) then false
      else if negb (v1 =? v2) then false
      else compare_coins x' y'
  | _ :: _, [] => false
  end.

Fixpoint compare_addrs (i j : omap Address (omap Z Z)) : bool :=
  match i, j with
  | [], _ => true
  | (a1, c1) :: i', (a2, c2) :: j' =>
      if bool_decide (a1 <> a2) then false
      else if negb (zlen c1 =? zlen c2) then false
      else if negb (compare_coins c1 c2) then false
      else compare_addrs i' j'
  | _ :: _, [] => false
  end.

Definition CompareChainStateMaps (first second : omap Address (omap Z Z)) : bool :=
  if negb (zlen first =? zlen second) then false else compare_addrs first second.

Definition CreateTier1Transaction (block : FinalBlock) (keys : KeyRing) : res Tier1Transaction :=
  let sum := fb_summary block in
  pair ← ValidationOps.getFirstValidation (fb_vals block);
  t1_ctor_summary sum pair.2 pair.1 keys.

Definition SignSummary (summary : Summary) (keys : KeyRing) : res Signature :=
  k ← getNodeKey keys 0;
  SignBinary k (DevcashHash (SummaryOps.getCanonical summary)).
End blocks.

(** ** Layout and round trips *)
Lemma parses_hash h : zlen h = 32 -> parses (Buf.copy kHASH_LENGTH true) h h.
Proof. intros L. apply parses_copy. by rewrite L. Qed.

Lemma version_byte_0 : version_byte 0 = 0.
Proof. done. Qed.

Section final_blocks.
Context `{Crypto}.

Definition fields_bytes (h : FBFields) : bytes :=
  Uint64ToBin (fh_block_time h) [] ++ fh_prev_hash h ++ fh_merkle_root h ++
  Uint64ToBin (fh_tx_size h) [] ++ Uint64ToBin (fh_sum_size h) [] ++ Uint32ToBin (fh_val_count h) [].

Definition fields_ok (h : FBFields) : Prop :=
  in_u64 (fh_block_time h) /\ zlen (fh_prev_hash h) = 32 /\ zlen (fh_merkle_root h) = 32 /\
  in_u64 (fh_tx_size h) /\ in_u64 (fh_sum_size h) /\ in_u32 (fh_val_count h).

Lemma parses_fields h : fields_ok h -> parses fb_read_fields (fields_bytes h) h.
Proof.
  intros (Ht & Hp & Hm & Hx & Hs & Hc). unfold fb_read_fields, fields_bytes.
  eapply parses_bind; [by apply parses_uint64|].
  eapply parses_bind; [by apply parses_hash|].
  eapply parses_bind; [by apply parses_hash|].
  eapply parses_bind; [by apply parses_uint64|].
  eapply parses_bind; [by apply parses_uint64|].
  destruct h. apply (parses_fmap _ (mkFields _ _ _ _ _)). by apply parses_uint32.
Qed.

Definition fb_fields (b : FinalBlock) : FBFields :=
  mkFields (fb_block_time b) (fb_prev_hash b) (fb_merkle_root b) (fb_tx_size b)
           (fb_sum_size b) (fb_val_count b).

Lemma fb_getCanonical_eq b :
  fb_getCanonical b =
    [version_byte (fb_version b)] ++ Uint64ToBin (fb_num_bytes b) [] ++ fields_bytes (fb_fields b)
    ++ concat (fb_raw_transactions b) ++ SummaryOps.getCanonical (fb_summary b)
    ++ ValidationOps.getCanonical (fb_vals b).
Proof.
  unfold fb_getCanonical, fields_bytes, fb_fields.
  cbn [fh_block_time fh_prev_hash fh_merkle_root fh_tx_size fh_sum_size fh_val_count].
  rewrite (Uint32ToBin_app (fb_val_count b)), (Uint64ToBin_app (fb_sum_size b)),
    (Uint64ToBin_app (fb_tx_size b)), (Uint64ToBin_app (fb_block_time b)),
    (Uint64ToBin_app (fb_num_bytes b)).
  by rewrite <- !app_assoc.
Qed.

(** A transaction whose bytes [getNextTransaction] takes whole. *)
Definition raw_ok (r : bytes) : Prop := parses Buf.getNextTransaction r r /\ 0 < zlen r.

(** A block whose counters agree with its contents. *)
Definition fb_wf (b : FinalBlock) : Prop :=
  fb_version b = 0 /\ in_u64 (fb_num_bytes b) /\ fields_ok (fb_fields b) /\
  fb_num_bytes b = zlen (fb_getCanonical b) /\
  fb_tx_size b = zlen (concat (fb_raw_transactions b)) /\
  fb_val_count b = zlen (sigs_ (fb_vals b)) /\
  summary_ok (fb_summary b) /\ zlen (summary_ (fb_summary b)) < 2 ^ 32 /\ val_ok (fb_vals b).

(** Reading a run of transactions wherever it starts. *)
Lemma parses_txs {A B} (step : A -> P A) (e : B -> bytes) (f : A -> B -> A) l acc n :
  Forall (fun x => forall acc, parses (step acc) (e x) (f acc x)) l ->
  Forall (fun x => 0 < zlen (e x)) l -> n = zlen (concat (e <$> l)) ->
  parses (fb_read_txs step n acc) (concat (e <$> l)) (foldl f acc l).
Proof.
  intros Hs Hp -> pre rest Hl. unfold fb_read_txs. mstep.
  destruct (window_bounds _ _ _ Hl). rewrite u64_id by done.
  by apply offset_fold_run.
Qed.

Lemma foldl_snoc {A} (l acc : list A) : foldl (fun a x => a ++ [x]) acc l = acc ++ l.
Proof.
  revert acc; induction l as [|x l IH]; intros acc; [by rewrite app_nil_r|].
  cbn [foldl]. by rewrite IH, <- app_assoc.
Qed.

Lemma parses_raws raws :
  Forall raw_ok raws -> parses (fb_read_txs raw_step (zlen (concat raws)) []) (concat raws) raws.
Proof.
  intros F. rewrite <- (app_nil_l raws) at 3. rewrite <- (foldl_snoc raws []).
  rewrite <- (list_fmap_id raws) at 1 2. apply parses_txs; [| |done].
  - eapply Forall_impl; [|exact F]. intros r [Hr _] acc. unfold raw_step.
    by apply (parses_fmap _ (fun t => acc ++ [t])).
  - eapply Forall_impl; [|exact F]. by intros r [_ Hr].
Qed.

(** What [FinalBlock::Create] keeps: the raw transactions and not the parsed
    ones, with the state it was given. *)
Definition fb_raw (b : FinalBlock) (prior : ChainState) : FinalBlock :=
  fb_of_fields (fb_version b) (fb_num_bytes b) (fb_fields b) [] (fb_raw_transactions b)
    (fb_summary b) (fb_vals b) prior.

Lemma fields_bytes_length h : fields_ok h -> zlen (fields_bytes h) = 92.
Proof.
  intros (_ & Hp & Hm & _). unfold fields_bytes. autorewrite with devv_rw. lia.
Qed.

Lemma fb_canonical_length b :
  fields_ok (fb_fields b) -> val_ok (fb_vals b) ->
  zlen (fb_getCanonical b) =
    101 + zlen (concat (fb_raw_transactions b)) + SummaryOps.getByteSize (fb_summary b)
    + ValidationOps.pairSize * zlen (sigs_ (fb_vals b)).
Proof.
  intros Hf Hv. rewrite fb_getCanonical_eq, !zlen_app, fields_bytes_length by done.
  rewrite val_canonical_length by apply Hv. autorewrite with devv_rw.
  unfold SummaryOps.getByteSize. lia.
Qed.

Lemma parses_fb_Create b prior :
  fb_wf b -> Forall raw_ok (fb_raw_transactions b) ->
  parses (fb_Create prior) (fb_getCanonical b) (fb_raw b prior).
Proof.
  intros (Hv & Hn & Hf & Hsz & Htx & Hvc & Hs & Hsn & Hval) Hr pre rest Hl.
  unfold fb_Create. mstep.
  assert (fb_num_bytes b <= zlen (pre ++ fb_getCanonical b ++ rest)) as Hle.
  { rewrite !zlen_app, Hsz. pose proof (zlen_nonneg pre). pose proof (zlen_nonneg rest). lia. }
  assert (101 <= fb_num_bytes b) as Hmin.
  { rewrite Hsz, fb_canonical_length by done.
    pose proof (zlen_nonneg (concat (fb_raw_transactions b))).
    pose proof (zlen_nonneg (SummaryOps.getCanonical (fb_summary b))).
    pose proof (zlen_nonneg (sigs_ (fb_vals b))).
    unfold SummaryOps.getByteSize, ValidationOps.pairSize. unfold_sizes. lia. }
  rewrite (proj2 (Z.ltb_ge _ _)) by (unfold fb_MinSize; lia).
  revert pre rest Hl Hle. intros pre rest. generalize (zlen (pre ++ fb_getCanonical b ++ rest)) at 2 3.
  intros sz Hl Hle. revert pre rest Hl.
  match goal with |- forall pre rest, _ -> ?p _ = _ => change (parses p (fb_getCanonical b) (fb_raw b prior)) end.
  rewrite fb_getCanonical_eq, Hv.
  eapply parses_bind; [apply parses_byte|].
  change (negb (Z.lor 0 (version_byte 0) =? 0)) with false. cbn iota.
  change (Z.lor 0 (version_byte 0)) with 0.
  eapply parses_bind; [by apply parses_uint64|].
  rewrite (proj2 (Z.ltb_ge _ _)) by lia.
  eapply parses_bind; [by apply parses_fields|].
  eapply parses_bind.
  { cbn [fb_fields fh_tx_size]. rewrite Htx. by apply parses_raws. }
  eapply parses_bind; [by apply parses_summary|].
  cbn [fb_fields fh_val_count]. rewrite Hvc. unfold fb_raw. rewrite Hv.
  apply (parses_fmap _ (fun v => fb_of_fields 0 (fb_num_bytes b) (fb_fields b) []
    (fb_raw_transactions b) (fb_summary b) v prior)). by apply parses_validation_count.
Qed.
End final_blocks.

(** ** Proposed blocks of a tier 1 shard *)
Section proposed_blocks.
Context `{Crypto}.

(** The summary, node and signature of a tier 1 transaction. *)
Record t1_content := mkContent { tc_summary : Summary; tc_addr : Address; tc_sig : Signature }.

Definition tc_bytes (c : t1_content) : bytes := t1_bytes (tc_summary c) (tc_addr c) (tc_sig c).
Definition tc_tx (flag : bool) (c : t1_content) : Transaction :=
  Tier1 (t1_built (tc_summary c) (tc_addr c) (tc_sig c) flag).

(** A node signed the summary. *)
Definition tc_ok (keys : KeyRing) (c : t1_content) : Prop :=
  node_addr (tc_addr c) /\ node_sig (tc_sig c) /\ zlen (tc_bytes c) < 2 ^ 63 /\
  (eckey ← getKey keys (tc_addr c);
   VerifyByteSig eckey (DevcashHash (SummaryOps.getCanonical (tc_summary c))) (tc_sig c)) = Ok true.

Lemma tc_bytes_pos keys c : tc_ok keys c -> 0 < zlen (tc_bytes c).
Proof.
  intros (Ha & Hs & _). unfold tc_bytes. rewrite t1_bytes_length by done.
  pose proof (zlen_nonneg (SummaryOps.getCanonical (tc_summary c))).
  unfold SummaryOps.getByteSize. lia.
Qed.

Lemma run_job_t1 keys c : tc_ok keys c -> run_job keys (tc_tx false c) = Ok (tc_tx true c).
Proof.
  intros (Ha & Hs & _ & Hv). unfold run_job, tc_tx, tx_setIsSound, t1_setIsSound.
  mstep. by rewrite t1_isSound_built, Hv.
Qed.

Lemma jobs_t1 keys l :
  Forall (tc_ok keys) l -> map_res (run_job keys) (tc_tx false <$> l) = Ok (tc_tx true <$> l).
Proof.
  induction 1 as [|c l Hc _ IH]; [done|]. rewrite !fmap_cons. cbn [map_res].
  rewrite run_job_t1 by done. cbn [mbind res_bind]. by rewrite IH.
Qed.

Lemma create_fold l acc :
  foldl (fun acc c => (acc.1 ++ [tc_bytes c], acc.2 ++ [tc_tx false c])) acc l
    = (acc.1 ++ (tc_bytes <$> l), acc.2 ++ (tc_tx false <$> l)).
Proof.
  revert acc; induction l as [|c l IH]; intros [a1 a2]; cbn [foldl fst snd].
  - by rewrite !app_nil_r.
  - rewrite IH, !fmap_cons. cbn [fst snd]. by rewrite <- !app_assoc.
Qed.

Lemma create_step_t1 keys c acc :
  tc_ok keys c ->
  parses (create_step keys T1 acc) (tc_bytes c)
    (acc.1 ++ [tc_bytes c], acc.2 ++ [tc_tx false c]).
Proof.
  intros (Ha & Hs & Hz & _). unfold create_step, CreateTransaction.
  intros pre rest Hl. rewrite bind_assoc.
  refine (parses_fmap (t1_ctor_buffer keys false)
    (fun tx => (acc.1 ++ [tx_getCanonical (Tier1 tx)], acc.2 ++ [Tier1 tx]))
    (tc_bytes c) (t1_built (tc_summary c) (tc_addr c) (tc_sig c) false) _ pre rest Hl).
  unfold tc_bytes in *. apply parses_t1_ctor; assumption.
Qed.

Lemma CreateTransactions_t1 keys l start n pre rest :
  Forall (tc_ok keys) l -> zlen pre = start -> n = zlen (concat (tc_bytes <$> l)) ->
  zlen (pre ++ concat (tc_bytes <$> l) ++ rest) < 2 ^ 63 ->
  CreateTransactions keys T1 start n (mkIB (pre ++ concat (tc_bytes <$> l) ++ rest) (zlen pre)) =
    (Ok (tc_bytes <$> l, tc_tx true <$> l),
     mkIB (pre ++ concat (tc_bytes <$> l) ++ rest) (zlen pre + n)).
Proof.
  intros F <- -> Hl. unfold CreateTransactions. destruct (window_bounds _ _ _ Hl).
  rewrite u64_id by done.
  pose proof (offset_fold_run (create_step keys T1) tc_bytes
    (fun acc c => (acc.1 ++ [tc_bytes c], acc.2 ++ [tc_tx false c])) l
    (zlen pre + zlen (concat (tc_bytes <$> l))) ([], []) pre rest) as R.
  rewrite create_fold in R. cbn [fst snd app] in R. mrun (R ltac:(
    eapply Forall_impl; [|exact F]; intros c Hc acc; by eapply create_step_t1) ltac:(
    eapply Forall_impl; [|exact F]; intros c Hc; by eapply tc_bytes_pos) Hl eq_refl).
  cbn [fst snd]. mstep. rewrite jobs_t1 by done. done.
Qed.

Lemma pb_getCanonical_eq b :
  pb_getCanonical b =
    [version_byte (pb_version b)] ++ Uint64ToBin (pb_num_bytes b) [] ++ pb_prev_hash b ++
    Uint64ToBin (pb_tx_size b) [] ++ Uint64ToBin (pb_sum_size b) [] ++
    Uint32ToBin (pb_val_count b) [] ++ concat (tx_getCanonical <$> pb_transactions b) ++
    SummaryOps.getCanonical (pb_summary b) ++ ValidationOps.getCanonical (pb_vals b).
Proof.
  unfold pb_getCanonical.
  rewrite (Uint32ToBin_app (pb_val_count b)), (Uint64ToBin_app (pb_sum_size b)),
    (Uint64ToBin_app (pb_tx_size b)), (Uint64ToBin_app (pb_num_bytes b)).
  by rewrite <- !app_assoc.
Qed.

(** The counters of a proposal agree with its contents. *)
Definition pb_wf (b : ProposedBlock) : Prop :=
  pb_version b = 0 /\ zlen (pb_prev_hash b) = 32 /\
  pb_tx_size b = zlen (concat (tx_getCanonical <$> pb_transactions b)) /\
  pb_sum_size b = SummaryOps.getByteSize (pb_summary b) /\
  pb_val_count b = zlen (sigs_ (pb_vals b)) /\
  pb_num_bytes b = zlen (pb_getCanonical b) /\
  summary_ok (pb_summary b) /\ zlen (summary_ (pb_summary b)) < 2 ^ 32 /\
  val_ok (pb_vals b) /\ zlen (pb_getCanonical b) < 2 ^ 32.

Lemma pb_canonical_length b :
  zlen (pb_prev_hash b) = 32 -> val_ok (pb_vals b) ->
  zlen (pb_getCanonical b) =
    61 + zlen (concat (tx_getCanonical <$> pb_transactions b))
    + SummaryOps.getByteSize (pb_summary b) + ValidationOps.pairSize * zlen (sigs_ (pb_vals b)).
Proof.
  intros Hp Hv. rewrite pb_getCanonical_eq, !zlen_app, Hp.
  rewrite val_canonical_length by apply Hv. autorewrite with devv_rw.
  unfold SummaryOps.getByteSize. lia.
Qed.

(** A copy is as good as the original was; the original, when it had a
    transaction, still counts its bytes and no longer writes them. *)
Lemma pb_copy_takes b : pb_wf b -> 0 < pb_tx_size b ->
  (pb_copy b).1 = b /\ ~ pb_wf (pb_copy b).2 /\
  zlen (pb_getCanonical (pb_copy b).2) = pb_num_bytes (pb_copy b).2 - pb_tx_size (pb_copy b).2.
Proof.
  intros (_ & Hp & Ht & _ & _ & Hn & _ & _ & Hv & _) Hs.
  assert (zlen (pb_getCanonical (pb_copy b).2) = pb_num_bytes b - pb_tx_size b) as L.
  { pose proof (pb_canonical_length (pb_copy b).2 Hp Hv) as E.
    change (zlen (concat _)) with 0 in E. change (pb_summary (pb_copy b).2) with (pb_summary b) in E.
    change (pb_vals (pb_copy b).2) with (pb_vals b) in E.
    rewrite E, Hn, (pb_canonical_length b Hp Hv), Ht. lia. }
  split; [by destruct b as [? ? ? ? ? ? ? [] ? ?]|]. split; [|exact L].
  intros (_ & _ & Ht' & _). cbn in Ht'. rewrite Ht' in Hs. done.
Qed.

(** A proposal of tier 1 transactions is rebuilt from its bytes, over the
    receiver's state. *)
Lemma pb_read_back b l flag keys prior :
  pb_wf b -> pb_transactions b = tc_tx flag <$> l -> Forall (tc_ok keys) l ->
  parses_at 0 (pb_from_buffer prior keys T1) (pb_getCanonical b)
    (mkPB (pb_version b) (pb_num_bytes b) (pb_prev_hash b) (pb_tx_size b) (pb_sum_size b)
          (pb_val_count b) (tc_tx true <$> l) (pb_summary b) (pb_vals b) prior).
Proof.
  intros (Hv & Hp & Htx & Hs & Hvc & Hn & Hso & Hsl & Hval & Hl) Ht F pre Hpre Hz.
  pose proof (pb_canonical_length b Hp Hval) as Hlen.
  pose proof (zlen_nonneg (concat (tx_getCanonical <$> pb_transactions b))).
  pose proof (zlen_nonneg (SummaryOps.getCanonical (pb_summary b))).
  pose proof (zlen_nonneg (sigs_ (pb_vals b))).
  change (zlen (SummaryOps.getCanonical (pb_summary b)))
    with (SummaryOps.getByteSize (pb_summary b)) in *.
  unfold ValidationOps.pairSize in Hlen. unfold_sizes.
  destruct pre; [|rewrite zlen_cons in Hpre; pose proof (zlen_nonneg pre); lia].
  cbn [app]. unfold pb_from_buffer. mstep.
  rewrite (proj2 (Z.ltb_ge _ _)) by (unfold pb_MinSize; lia).
  match goal with |- ?p (mkIB _ _) = (Ok ?x, _) =>
    enough (parses_at 0 p (pb_getCanonical b) x) as R by exact (R [] eq_refl Hz) end.
  rewrite <- Hn. rewrite pb_getCanonical_eq, Hv, Ht.
  assert (tx_getCanonical <$> (tc_tx flag <$> l) = tc_bytes <$> l) as Etx
    by (rewrite <- list_fmap_compose; done).
  rewrite Ht, Etx in *.
  eapply parses_at_bind; [apply parses_byte|].
  change (negb (Z.lor 0 (version_byte 0) =? 0)) with false. cbn iota.
  change (Z.lor 0 (version_byte 0)) with 0.
  eapply parses_at_bind; [apply parses_uint64; unfold in_u64; lia|].
  rewrite Z.eqb_refl. cbn [negb].
  eapply parses_at_bind; [by apply parses_hash|].
  eapply parses_at_bind; [apply parses_uint64; unfold in_u64; lia|].
  eapply parses_at_bind; [apply parses_uint64; unfold in_u64; lia|].
  eapply parses_at_bind; [apply parses_uint32; unfold in_u32; lia|].
  eapply parses_at_bind_at.
  { intros pre rest Hs1 Hs2. rewrite Htx. apply CreateTransactions_t1; try done.
    rewrite Hs1. autorewrite with devv_rw. rewrite Hp. done. }
  eapply parses_at_bind; [by apply parses_summary|].
  apply parses_end_at. cbn [fst snd].
  apply (parses_end_fmap _ (fun v => mkPB 0 (pb_num_bytes b) (pb_prev_hash b) (pb_tx_size b)
    (pb_sum_size b) (pb_val_count b) (tc_tx true <$> l) (pb_summary b) v prior)).
  by apply parses_validation_end.
Qed.
End proposed_blocks.

(** ** The counters follow the contents *)
Section counters.
Context `{Crypto}.

Lemma tx_size_fold (txs : list Transaction) n :
  in_u64 n -> n + zlen (concat (tx_getCanonical <$> txs)) < 2 ^ 64 ->
  foldl (fun n t => u64 (n + tx_getByteSize t)) n txs
    = n + zlen (concat (tx_getCanonical <$> txs)).
Proof.
  revert n; induction txs as [|t txs IH]; intros n I L.
  - cbn. rewrite zlen_nil. lia.
  - rewrite fmap_cons in *. cbn [foldl concat] in *. rewrite zlen_app in *. unfold tx_getByteSize.
    pose proof (zlen_nonneg (tx_getCanonical t)).
    pose proof (zlen_nonneg (concat (tx_getCanonical <$> txs))).
    rewrite u64_id by (unfold in_u64 in *; lia). rewrite IH; unfold in_u64 in *; lia.
Qed.

(** The size on the wire that the contents of a block imply. *)
Definition pb_content_size (txs : list Transaction) (s : Summary) (v : Validation) : Z :=
  61 + zlen (concat (tx_getCanonical <$> txs)) + SummaryOps.getByteSize s
  + ValidationOps.pairSize * zlen (sigs_ v).

Lemma content_bounds txs s v :
  pb_content_size txs s v < 2 ^ 32 ->
  0 <= zlen (concat (tx_getCanonical <$> txs)) < 2 ^ 32 /\ 0 <= SummaryOps.getByteSize s < 2 ^ 32 /\
  0 <= zlen (sigs_ v) < 2 ^ 32 /\ 61 <= pb_content_size txs s v.
Proof.
  unfold pb_content_size, SummaryOps.getByteSize, ValidationOps.pairSize. unfold_sizes.
  pose proof (zlen_nonneg (concat (tx_getCanonical <$> txs))).
  pose proof (zlen_nonneg (SummaryOps.getCanonical s)). pose proof (zlen_nonneg (sigs_ v)). lia.
Qed.

Lemma pb_bytes_content txs s v :
  pb_content_size txs s v < 2 ^ 32 ->
  pb_bytes (zlen (concat (tx_getCanonical <$> txs))) (SummaryOps.getByteSize s) (zlen (sigs_ v))
    = pb_content_size txs s v.
Proof.
  intros L. pose proof (content_bounds _ _ _ L). unfold pb_bytes, pb_MinSize.
  rewrite u64_id; unfold pb_content_size in *; [lia | unfold in_u64; lia].
Qed.

Lemma pb_ctor_wf prev txs s v st :
  zlen prev = 32 -> summary_ok s -> val_ok v -> zlen (summary_ s) < 2 ^ 32 ->
  pb_content_size txs s v < 2 ^ 32 -> pb_wf (pb_ctor prev txs s v st).
Proof.
  intros Hp Hs Hv Hn L. pose proof (content_bounds _ _ _ L) as (B1 & B2 & B3 & B4).
  assert (zlen (pb_getCanonical (pb_ctor prev txs s v st)) = pb_content_size txs s v) as Hlen.
  { rewrite pb_canonical_length by done. done. }
  unfold pb_wf. rewrite Hlen. unfold pb_ctor, SummaryOps.Copy, ValidationOps.getValidationCount.
  cbn [pb_version pb_num_bytes pb_prev_hash pb_tx_size pb_sum_size pb_val_count pb_transactions
       pb_summary pb_vals summary_].
  rewrite tx_size_fold by (unfold in_u64; lia). rewrite Z.add_0_l, u32_id by (unfold in_u32; lia).
  rewrite pb_bytes_content by done. destruct s. repeat split; try done; try apply Hs; apply Hv.
Qed.

(** Replacing the validations keeps the counters right. *)
Lemma pb_set_vals_wf b v :
  pb_wf b -> val_ok v -> pb_content_size (pb_transactions b) (pb_summary b) v < 2 ^ 32 ->
  pb_wf (pb_set_vals b v (zlen (sigs_ v))).
Proof.
  intros (Hv & Hp & Htx & Hs & _ & _ & Hso & Hsl & _ & _) Hval L.
  assert (zlen (pb_getCanonical (pb_set_vals b v (zlen (sigs_ v))))
            = pb_content_size (pb_transactions b) (pb_summary b) v) as Hlen.
  { rewrite pb_canonical_length by done. done. }
  unfold pb_wf. rewrite Hlen. unfold pb_set_vals.
  cbn [pb_version pb_num_bytes pb_prev_hash pb_tx_size pb_sum_size pb_val_count pb_transactions
       pb_summary pb_vals].
  rewrite Htx, Hs, pb_bytes_content by done. repeat split; try done; try apply Hso; apply Hval.
Qed.

(** Finalising: 40 bytes more for the time and the Merkle root. *)
Lemma fb_of_proposed_wf now b :
  pb_wf b -> in_u64 now -> (forall m, zlen (SHA256 m) = kHASH_LENGTH) ->
  fb_wf (fb_of_proposed now b).
Proof.
  intros (Hv & Hp & Htx & Hs & Hvc & Hn & Hso & Hsl & Hval & Hl) Ht Hash.
  pose proof (pb_canonical_length b Hp Hval) as Hlen.
  fold (pb_content_size (pb_transactions b) (pb_summary b) (pb_vals b)) in Hlen.
  pose proof (content_bounds (pb_transactions b) (pb_summary b) (pb_vals b) ltac:(lia))
    as (B1 & B2 & B3 & B4).
  assert (fields_ok (fb_fields (fb_of_proposed now b))) as Hf.
  { unfold fields_ok, fb_fields, fb_of_proposed, fb_set_merkle_root, DevcashHash. cbn.
    rewrite Hash, Hp, Htx, Hs, Hvc. unfold in_u64, in_u32 in *. repeat split; lia. }
  assert (zlen (fb_getCanonical (fb_of_proposed now b)) = zlen (pb_getCanonical b) + 40) as Hc.
  { rewrite fb_canonical_length by done. rewrite Hlen. unfold pb_content_size.
    unfold fb_of_proposed, fb_set_merkle_root, pb_getRawTransactions. cbn [fb_raw_transactions
      fb_summary fb_vals]. rewrite Copy_id. lia. }
  assert (fb_num_bytes (fb_of_proposed now b) = zlen (pb_getCanonical b) + 40) as Hnb.
  { unfold fb_of_proposed, fb_set_merkle_root. cbn [fb_num_bytes].
    rewrite Hn. apply u64_id. unfold in_u64. lia. }
  unfold fb_wf. rewrite Hc, Hnb. split; [done|]. split; [unfold in_u64; lia|].
  split; [exact Hf|]. unfold fb_of_proposed, fb_set_merkle_root, pb_getRawTransactions.
  cbn [fb_tx_size fb_val_count fb_raw_transactions fb_summary fb_vals]. rewrite Copy_id. done.
Qed.
End counters.

(** ** Validations *)
Section validations.
Context `{Crypto}.

Lemma validate_loop_spec keys md sigs :
  validate_loop keys md sigs = Ok true <->
  Forall (fun sig => exists k, getKey keys sig.1 = Ok k /\
                     VerifyByteSig k (DevcashHash md) sig.2 = Ok true) sigs.
Proof.
  induction sigs as [|sig sigs IH]; cbn [validate_loop]; [by split|]. split.
  - intros E. minv. destruct a0; [|done]. constructor; [eauto | by apply IH].
  - intros F. inversion F as [|? ? (k & Hk & Hv) F']; subst. rewrite Hk. cbn [mbind res_bind].
    rewrite Hv. by apply IH.
Qed.

Lemma pb_validate_spec b keys :
  pb_validate b keys = Ok true <->
  pb_transactions b <> [] /\ SummaryOps.isSane (pb_summary b) = true /\
  Forall (fun sig => exists k, getKey keys sig.1 = Ok k /\
            VerifyByteSig k (DevcashHash (SummaryOps.getCanonical (pb_summary b))) sig.2 = Ok true)
    (sigs_ (pb_vals b)).
Proof.
  unfold pb_validate. destruct (pb_transactions b) as [|t txs].
  - rewrite zlen_nil. cbn. split; [done | tauto].
  - rewrite zlen_cons, (proj2 (Z.ltb_ge _ _)) by (pose proof (zlen_nonneg txs); lia).
    destruct (SummaryOps.isSane (pb_summary b)); cbn [negb];
      [|split; [done | by intros (_ & ? & _)]].
    rewrite validate_loop_spec. split; [done | by intros (_ & _ & ?)].
Qed.

(** What a call that answers true has established, for any message. *)
Lemma pb_check_true b context buf b' buf' :
  pb_checkValidationData b context buf = (Ok (true, b'), buf') ->
  exists other, pb_vals b' = (ValidationOps.addValidation_all (pb_vals b) other).2 /\
    pb_val_count b' = u32 (zlen (sigs_ (pb_vals b'))) /\
    ContextOps.get_peer_count context / 2 < pb_val_count b' /\
    take 32 (drop (Z.to_nat (offset_ buf)) (buffer_ buf)) = pb_prev_hash b.
Proof.
  unfold pb_checkValidationData. rewrite bind_size. intros E. case_match; [done|].
  apply bind_inv_ok in E as (h & s1 & Hh & E).
  destruct (bool_decide (h = pb_prev_hash b)) eqn:Eh; [|done].
  apply bind_inv_ok in E as (other & s2 & _ & E). unfold mret, M_ret in E. simplify_eq.
  bool_to_prop. exists other. split; [done|]. split; [done|]. split; [done|]. subst h.
  unfold Buf.copy in Hh. rewrite bind_get in Hh. minv.
  apply vec_range_inv in H2 as (_ & _ & _ & ->). f_equal. unfold kHASH_LENGTH. lia.
Qed.

(** The whole behaviour on the message a peer sends: the hash and the
    validations of the same proposal. *)
Lemma pb_check_run b context v :
  zlen (pb_prev_hash b) = 32 -> val_ok v -> 2 <= zlen (sigs_ v) ->
  zlen (pb_prev_hash b ++ ValidationOps.getCanonical v) < 2 ^ 63 ->
  let vals := (ValidationOps.addValidation_all (pb_vals b) v).2 in
  parses_at 0 (pb_checkValidationData b context) (pb_prev_hash b ++ ValidationOps.getCanonical v)
    (1 <? u32 (zlen (sigs_ vals)), pb_set_vals b vals (u32 (zlen (sigs_ vals)))).
Proof.
  intros Hp Hv H2 Hl vals pre Hpre Hz.
  destruct pre; [|rewrite zlen_cons in Hpre; pose proof (zlen_nonneg pre); lia]. cbn [app] in *.
  unfold pb_checkValidationData. mstep.
  rewrite (proj2 (Z.ltb_ge _ _)).
  2: { rewrite zlen_app, Hp, val_canonical_length by apply Hv.
       unfold pb_MinValidationSize, ValidationOps.pairSize. unfold_sizes. lia. }
  match goal with |- ?p (mkIB _ _) = (Ok ?x, _) =>
    enough (parses_at 0 p (pb_prev_hash b ++ ValidationOps.getCanonical v) x) as R
      by exact (R [] eq_refl Hz) end.
  eapply parses_at_bind; [by apply parses_hash|]. rewrite bool_decide_true by done.
  apply parses_end_at.
  apply (parses_end_fmap _ (fun o => let vs := (ValidationOps.addValidation_all (pb_vals b) o).2 in
    let b' := pb_set_vals b vs (ValidationOps.getValidationCount vs) in
    (ContextOps.get_peer_count context / 2 <? pb_val_count b', b'))).
  by apply parses_validation_end.
Qed.

(** Signing adds the node's own entry. *)
Lemma pb_sign_inv b keys context r b' :
  pb_signBlock b keys context = Ok (r, b') ->
  exists a k sig v,
    let node := ContextOps.get_current_node context mod 3 in
    r = true /\ getNodeAddr keys node = Ok a /\ getNodeKey keys node = Ok k /\
    SignBinary k (DevcashHash (SummaryOps.getCanonical (pb_summary b))) = Ok sig /\
    ValidationOps.addValidation (pb_vals b) a sig = Ok (true, v) /\
    b' = pb_set_vals b v (u32 (pb_val_count b + 1)).
Proof.
  unfold pb_signBlock. intros E. minv. simplify_eq.
  exists a, a0, a1, a2.2. repeat split; try done.
  rewrite H3. destruct a2 as [f v]. f_equal. f_equal.
  unfold ValidationOps.addValidation in H3. repeat case_match; by simplify_eq.
Qed.
End validations.

(** ** Files of blocks *)
Lemma fb_canonical_min `{Crypto} b : fb_wf b -> 101 <= zlen (fb_getCanonical b).
Proof.
  intros W. rewrite fb_canonical_length by (apply W).
  pose proof (zlen_nonneg (concat (fb_raw_transactions b))).
  unfold SummaryOps.getByteSize. pose proof (zlen_nonneg (SummaryOps.getCanonical (fb_summary b))).
  pose proof (zlen_nonneg (sigs_ (fb_vals b))). unfold ValidationOps.pairSize. unfold_sizes. lia.
Qed.

Lemma block_file_start `{Crypto} b rest : fb_wf b -> exists tail, fb_getCanonical b ++ rest =
  ([0] ++ Uint64ToBin (fb_num_bytes b) []) ++ Uint64ToBin (fb_block_time b) [] ++ tail.
Proof.
  intros (V & _). rewrite fb_getCanonical_eq, V. change (version_byte 0) with 0.
  unfold fields_bytes. rewrite <- !app_assoc. by eexists.
Qed.

Lemma block_file_recognised `{Crypto} b rest now : fb_wf b -> zlen (fb_getCanonical b ++ rest) < 2 ^ 63 ->
  1514764800 <= fb_block_time b <= now -> IsBlockData now (fb_getCanonical b ++ rest) = Ok true.
Proof.
  intros W Hl Ht. pose proof (fb_canonical_min b W). pose proof (zlen_nonneg rest).
  assert (101 <= zlen (fb_getCanonical b ++ rest)) as Hm by (rewrite zlen_app; lia).
  destruct (block_file_start b rest W) as (tail & E). pose proof W as (_ & _ & (Tb & _) & _).
  cbn [fb_fields fh_block_time] in Tb.
  unfold IsBlockData. rewrite (proj2 (Z.ltb_ge _ _)) by (unfold fb_MinSize; lia). rewrite E in *.
  assert (vec_idx (([0] ++ Uint64ToBin (fb_num_bytes b) []) ++ Uint64ToBin (fb_block_time b) [] ++ tail) 0
    = Ok 0) as -> by (unfold vec_idx; rewrite (proj2 (Z.ltb_lt 0 _)) by lia; done).
  cbn [mbind res_bind]. change (negb (0 =? 0)) with false. cbn iota.
  change 9 with (zlen ([0] ++ Uint64ToBin (fb_num_bytes b) [])).
  rewrite BinToUint64_window by done.
  cbn [mbind res_bind]. by rewrite (proj2 (Z.ltb_ge _ _)), (proj2 (Z.ltb_ge _ _)) by lia.
Qed.
