(* ===== verification/Message.v ===== *)
(** * types/DevcashMessage.h

    The messages nodes exchange and their wire format: a header byte, the
    index and the type as host-order 32-bit words, then the uri and the data
    with a 32-bit length each.  Positions are [unsigned int].  The host is
    little-endian, as on every platform the program is built for. *)

From Stdlib Require Import ZArith Lia String.
From stdpp Require Import base list numbers.
From S2P Require Import Prelude Converters.

Definition kMSG_HEADER : Z := 52.

Module eMessageType.
Definition FINAL_BLOCK : Z := 0.
Definition PROPOSAL_BLOCK : Z := 1.
Definition TRANSACTION_ANNOUNCEMENT : Z := 2.
Definition VALID : Z := 3.
Definition REQUEST_BLOCK : Z := 4.
Definition GET_BLOCKS_SINCE : Z := 5.
Definition BLOCKS_SINCE : Z := 6.
Definition NUM_TYPES : Z := 7.
End eMessageType.

Record DevcashMessage := mkMessage {
  m_uri : bytes;
  m_type : Z;
  m_data : bytes;
  m_index : Z
}.

#[global] Instance DevcashMessage_eq_dec : EqDecision DevcashMessage.
Proof. solve_decision. Defined.

(** [DevcashMessage(message_index)] *)
Definition message_ctor (message_index : Z) : DevcashMessage :=
  mkMessage [] eMessageType.VALID [] message_index.

(** [append(buf, obj)] for an object of which [obj] are the bytes: the position
    is an [unsigned int], and [resize] cuts the buffer there. *)
Definition append (buf obj : bytes) : bytes :=
  let pos := u32 (zlen buf) in take (Z.to_nat pos) buf ++ obj.

(** The object representation of an [unsigned int]. *)
Definition uint_bytes (x : Z) : bytes := push_int x [].

(** The specialisations for strings and byte vectors. *)
Definition append_vec (buf obj : bytes) : bytes :=
  append buf (uint_bytes (u32 (zlen obj))) ++ obj.

Definition serialize (msg : DevcashMessage) : bytes :=
  let bs := [] in
  let bs := append bs [kMSG_HEADER] in
  let bs := append bs (uint_bytes (m_index msg)) in
  let bs := append bs (uint_bytes (m_type msg)) in
  let bs := append_vec bs (m_uri msg) in
  let bs := append_vec bs (m_data msg) in
  bs.

(** [extract] of an object of [n] bytes: the sum in the assertion is a
    [size_t], the returned index an [unsigned int]. *)
Definition extract (n : Z) (buffer : bytes) (index : Z) : res (bytes * Z) :=
  if negb (index + n <=? zlen buffer) then Err AssertionFailure
  else v ← vec_range buffer index (index + n); Ok (v, u32 (index + n)).

Definition extract_uint (buffer : bytes) (index : Z) : res (Z * Z) :=
  p ← extract 4 buffer index;
  x ← BinToUint32 p.1 0;
  Ok (x, p.2).

(** The specialisation for strings: [new_index + size] is an [unsigned int], in
    the assertion too; [&buffer[new_index]] must exist. *)
Definition extract_string (buffer : bytes) (index : Z) : res (bytes * Z) :=
  p ← extract_uint buffer index;
  let size := p.1 in
  let new_index := p.2 in
  if negb (u32 (new_index + size) <=? zlen buffer) then Err AssertionFailure
  else
    _ ← vec_idx buffer new_index;
    v ← vec_range buffer new_index (new_index + size);
    Ok (v, u32 (new_index + size)).

(** The specialisation for byte vectors. *)
Definition extract_vec (buffer : bytes) (index : Z) : res (bytes * Z) :=
  p ← extract_uint buffer index;
  let size := p.1 in
  let new_index := p.2 in
  if negb (u32 (new_index + size) <=? zlen buffer) then Err AssertionFailure
  else
    v ← vec_range buffer new_index (new_index + size);
    Ok (v, u32 (new_index + size)).

Definition deserialize (buffer : bytes) : res DevcashMessage :=
  h ← extract 1 buffer 0;
  header_version ← vec_idx h.1 0;
  if negb (header_version =? kMSG_HEADER) then Err AssertionFailure
  else
    i ← extract_uint buffer h.2;
    t ← extract_uint buffer i.2;
    u ← extract_string buffer t.2;
    d ← extract_vec buffer u.2;
    Ok (mkMessage u.1 t.1 d.1 i.1).

Definition message_ok (m : DevcashMessage) : Prop :=
  in_u32 (m_index m) /\ in_u32 (m_type m) /\ 17 + zlen (m_uri m) + zlen (m_data m) < 2 ^ 32.

(** ** Layout and round trip *)
Lemma append_small buf obj : zlen buf < 2 ^ 32 -> append buf obj = buf ++ obj.
Proof.
  intros L. unfold append. rewrite u32_id by (unfold in_u32; pose proof (zlen_nonneg buf); lia).
  by rewrite zlen_to_nat, firstn_all.
Qed.

Lemma uint_bytes_length x : zlen (uint_bytes x) = 4.
Proof. done. Qed.
#[export] Hint Rewrite uint_bytes_length : devv_rw.

Lemma serialize_eq m :
  message_ok m ->
  serialize m = [kMSG_HEADER] ++ uint_bytes (m_index m) ++ uint_bytes (m_type m) ++
    uint_bytes (zlen (m_uri m)) ++ m_uri m ++ uint_bytes (zlen (m_data m)) ++ m_data m.
Proof.
  intros (Hi & Ht & L). pose proof (zlen_nonneg (m_uri m)). pose proof (zlen_nonneg (m_data m)).
  unfold serialize, append_vec. rewrite !u32_id by (unfold in_u32; lia).
  rewrite (append_small [] _) by (rewrite zlen_nil; lia). cbn [app].
  rewrite (append_small [_] _) by (autorewrite with devv_rw; lia).
  rewrite (append_small ([_] ++ _) _) by (autorewrite with devv_rw; lia).
  rewrite (append_small (([_] ++ _) ++ _) _) by (autorewrite with devv_rw; lia).
  rewrite append_small by (autorewrite with devv_rw; lia).
  by rewrite <- !app_assoc.
Qed.

Section extracting.
Context (pre rest : bytes).
Implicit Types (obj : bytes) (x : Z).

Lemma extract_run obj n :
  n = zlen obj -> zlen (pre ++ obj ++ rest) < 2 ^ 32 ->
  extract n (pre ++ obj ++ rest) (zlen pre) = Ok (obj, zlen pre + zlen obj).
Proof.
  intros -> L. unfold extract. rewrite !zlen_app in L. pose proof (zlen_nonneg rest).
  pose proof (zlen_nonneg pre). pose proof (zlen_nonneg obj).
  rewrite (proj2 (Z.leb_le _ _)) by (rewrite !zlen_app; lia). cbn [negb].
  rewrite vec_range_mid by done. cbn [mbind res_bind]. by rewrite u32_id by (unfold in_u32; lia).
Qed.

Lemma extract_uint_run x :
  in_u32 x -> zlen (pre ++ uint_bytes x ++ rest) < 2 ^ 32 ->
  extract_uint (pre ++ uint_bytes x ++ rest) (zlen pre) = Ok (x, zlen pre + 4).
Proof.
  intros Hx L. unfold extract_uint. rewrite extract_run by done. cbn [mbind res_bind fst snd].
  unfold uint_bytes. rewrite <- (app_nil_l (push_int x [])), <- (app_nil_r (push_int x [])) at 1.
  change 0 with (zlen (@nil Z)) at 1. rewrite BinToUint32_push; [done | done |].
  autorewrite with devv_rw. done.
Qed.
End extracting.

Section framed.
Context (pre v rest : bytes).
#[local] Abbreviation L := (uint_bytes (zlen v)).
Context (Hl : zlen (pre ++ L ++ v ++ rest) < 2 ^ 32).

Lemma framed_bounds :
  0 <= zlen pre /\ 0 <= zlen v /\ 0 <= zlen rest /\
  zlen (pre ++ L ++ v ++ rest) = zlen pre + 4 + zlen v + zlen rest.
Proof.
  pose proof (zlen_nonneg pre). pose proof (zlen_nonneg v). pose proof (zlen_nonneg rest).
  autorewrite with devv_rw. lia.
Qed.

Lemma framed_range :
  vec_range (pre ++ L ++ v ++ rest) (zlen pre + 4) (zlen pre + 4 + zlen v) = Ok v.
Proof.
  rewrite (app_assoc pre L). apply vec_range_mid; rewrite zlen_app;
    autorewrite with devv_rw; lia.
Qed.

Lemma extract_vec_run : extract_vec (pre ++ L ++ v ++ rest) (zlen pre) = Ok (v, zlen pre + 4 + zlen v).
Proof.
  pose proof framed_bounds. unfold extract_vec.
  rewrite extract_uint_run by (try done; unfold in_u32; lia). cbn [mbind res_bind fst snd].
  rewrite u32_id by (unfold in_u32; lia). rewrite (proj2 (Z.leb_le _ _)) by lia. cbn [negb].
  pose proof framed_range as ->. done.
Qed.

Lemma extract_string_run :
  rest <> [] -> extract_string (pre ++ L ++ v ++ rest) (zlen pre) = Ok (v, zlen pre + 4 + zlen v).
Proof.
  intros Hr. pose proof framed_bounds. unfold extract_string.
  assert (0 < zlen rest).
  { destruct rest as [|y l]; [done|]. rewrite zlen_cons. pose proof (zlen_nonneg l). lia. }
  rewrite extract_uint_run by (try done; unfold in_u32; lia). cbn [mbind res_bind fst snd].
  rewrite u32_id by (unfold in_u32; lia). rewrite (proj2 (Z.leb_le _ _)) by lia. cbn [negb].
  assert (exists y, vec_idx (pre ++ L ++ v ++ rest) (zlen pre + 4) = Ok y) as (y & ->).
  { unfold vec_idx. rewrite (proj2 (Z.leb_le _ _)), (proj2 (Z.ltb_lt _ _)) by lia. cbn [andb].
    destruct (lookup_lt_is_Some_2 (pre ++ L ++ v ++ rest) (Z.to_nat (zlen pre + 4))) as (y & ->);
      [unfold zlen in *; lia | eauto]. }
  cbn [mbind res_bind]. by rewrite framed_range.
Qed.
End framed.

Lemma deserialize_serialize m : message_ok m -> deserialize (serialize m) = Ok m.
Proof.
  intros W. rewrite serialize_eq by done. destruct W as (Hi & Ht & L).
  pose proof (zlen_nonneg (m_uri m)). pose proof (zlen_nonneg (m_data m)).
  set (i := uint_bytes (m_index m)). set (t := uint_bytes (m_type m)).
  set (lu := uint_bytes (zlen (m_uri m))). set (ld := uint_bytes (zlen (m_data m))).
  assert (zlen i = 4 /\ zlen t = 4 /\ zlen lu = 4 /\ zlen ld = 4) as (Li & Lt & Llu & Lld) by done.
  set (buf := [kMSG_HEADER] ++ i ++ t ++ lu ++ m_uri m ++ ld ++ m_data m).
  assert (zlen buf < 2 ^ 32) as Lb.
  { subst buf. rewrite !zlen_app, zlen_cons, zlen_nil. lia. }
  unfold deserialize.
  assert (extract 1 buf 0 = Ok ([kMSG_HEADER], 1)) as -> by (by apply (extract_run [] _ [kMSG_HEADER])).
  cbn [mbind res_bind fst snd]. change (vec_idx [kMSG_HEADER] 0) with (Ok kMSG_HEADER).
  cbn [mbind res_bind]. rewrite Z.eqb_refl. cbn [negb].
  assert (extract_uint buf 1 = Ok (m_index m, 5)) as ->.
  { by apply (extract_uint_run [kMSG_HEADER] (t ++ lu ++ m_uri m ++ ld ++ m_data m)). }
  cbn [mbind res_bind fst snd].
  assert (extract_uint buf 5 = Ok (m_type m, 9)) as ->.
  { by apply (extract_uint_run ([kMSG_HEADER] ++ i) (lu ++ m_uri m ++ ld ++ m_data m)). }
  cbn [mbind res_bind fst snd].
  assert (extract_string buf 9 = Ok (m_uri m, 13 + zlen (m_uri m))) as ->.
  { apply (extract_string_run ([kMSG_HEADER] ++ i ++ t) (m_uri m) (ld ++ m_data m)); done. }
  cbn [mbind res_bind fst snd].
  assert (extract_vec buf (13 + zlen (m_uri m)) = Ok (m_data m, 17 + zlen (m_uri m) + zlen (m_data m))) as ->.
  { pose proof (extract_vec_run ([kMSG_HEADER] ++ i ++ t ++ lu ++ m_uri m) (m_data m) []) as R.
    rewrite app_nil_r in R. rewrite <- !app_assoc in R. rewrite !zlen_app in R.
    replace (13 + zlen (m_uri m)) with (zlen [kMSG_HEADER] + (zlen i + (zlen t + (zlen lu + zlen (m_uri m)))))
      by (rewrite zlen_cons, zlen_nil; lia).
    unfold buf. fold ld in R. rewrite R by (rewrite ?zlen_cons, ?zlen_nil; lia).
    f_equal. f_equal. rewrite zlen_cons, zlen_nil. lia. }
  by destruct m.
Qed.

(** ** The summary for the log *)
Definition num_debug_chars : Z := 8.

Definition GetMessageType (message : DevcashMessage) : bytes :=
  let t := m_type message in
  if t =? eMessageType.FINAL_BLOCK then text "FINAL_BLOCK"
  else if t =? eMessageType.PROPOSAL_BLOCK then text "PROPOSAL_BLOCK"
  else if t =? eMessageType.TRANSACTION_ANNOUNCEMENT then text "TRANSACTION_ANNOUNCEMENT"
  else if t =? eMessageType.VALID then text "VALID"
  else if t =? eMessageType.REQUEST_BLOCK then text "REQUEST_BLOCK"
  else if t =? eMessageType.GET_BLOCKS_SINCE then text "GET_BLOCKS_SINCE"
  else if t =? eMessageType.BLOCKS_SINCE then text "BLOCKS_SINCE"
  else text "ERROR_DEFAULT".

(** The data, or its ends when it is long. *)
Definition message_summary (message : DevcashMessage) (summary_bytes : Z) : res bytes :=
  let data := m_data message in
  if (summary_bytes <? 0) || (zlen data <? u64 (summary_bytes * 2)) then Ok (ToHex data (2 ^ 32 - 1))
  else
    front ← vec_range data 0 summary_bytes;
    back ← vec_range data (zlen data - summary_bytes) (zlen data);
    Ok (ToHex front (2 ^ 32 - 1) ++ text ".." ++ ToHex back (2 ^ 32 - 1)).

(** The ends are inside the data. *)
Lemma message_summary_defined message summary_bytes : -2 ^ 31 <= summary_bytes < 2 ^ 31 ->
  exists s, message_summary message summary_bytes = Ok s.
Proof.
  intros R. unfold message_summary. destruct (summary_bytes <? 0) eqn:N; [by eexists|]. cbn [orb].
  apply Z.ltb_ge in N. rewrite u64_id by (unfold in_u64; lia).
  destruct (_ <? _) eqn:L; [by eexists|]. apply Z.ltb_ge in L. unfold vec_range.
  rewrite !(proj2 (Z.leb_le _ _)) by lia. cbn [andb mbind res_bind]. by eexists.
Qed.
