(* ===== verification/Blockchain.v ===== *)
(** * consensus/blockchain.h

    The list of final blocks with two [int] counters. *)

From Stdlib Require Import ZArith Lia.
From stdpp Require Import base list numbers.
From S2P Require Import Prelude OrdMap Converters Keys Buffers Transfer ChainState Summary.
From S2P Require Import Validation KeyRing Context Transactions Blocks.

Section blockchain.
Context `{Crypto}.

Record Blockchain := mkChain {
  chain_ : list FinalBlock;
  chain_size_ : Z;
  num_transactions_ : Z
}.

Definition bc_empty : Blockchain := mkChain [] 0 0.

(** The counters are [std::atomic<int>], whose arithmetic wraps. *)
Definition bc_push_back (c : Blockchain) (block : FinalBlock) : Blockchain :=
  mkChain (chain_ c ++ [block]) (i32 (chain_size_ c + 1))
          (i32 (num_transactions_ c + fb_getNumTransactions block)).

(** An [int] returned as a [size_t]. *)
Definition bc_getNumTransactions (c : Blockchain) : Z := u64 (num_transactions_ c).
Definition bc_size (c : Blockchain) : Z := u64 (chain_size_ c).

Definition bc_back (c : Blockchain) : res FinalBlock :=
  match list.last (chain_ c) with Some b => Ok b | None => UB end.

(** An empty chain returns an array that was never initialised. *)
Definition bc_getHighestMerkleRoot (c : Blockchain) : res bytes :=
  if chain_size_ c <? 1 then Ok (uninit 32)
  else b ← bc_back c; Ok (fb_merkle_root b).

Definition bc_getHighestChainState (c : Blockchain) : res ChainState :=
  if chain_size_ c <? 1 then Ok ChainStateOps.empty
  else b ← bc_back c; Ok (fb_block_state b).

Definition bc_BinaryDump (c : Blockchain) : bytes := concat (fb_getCanonical <$> chain_ c).

(** [for (i = start; i < size()-1; i++) ... chain_.at(i) ...] for the [n]
    values of [i] that are left. *)
Fixpoint dump_loop (c : Blockchain) (i : Z) (n : nat) : res bytes :=
  match n with
  | O => Ok []
  | S n' =>
      b ← vec_at (chain_ c) i;
      rest ← dump_loop c (i + 1) n';
      Ok (fb_getCanonical b ++ rest)
  end.

Definition bc_PartialBinaryDump (c : Blockchain) (start : Z) : res bytes :=
  if 0 <? bc_size c
  then dump_loop c start (Z.to_nat (u64 (bc_size c - 1) - start))
  else Ok [].

(** ** Invariant *)
Definition bc_ok (c : Blockchain) : Prop :=
  chain_size_ c = zlen (chain_ c) /\ zlen (chain_ c) < 2 ^ 31 /\
  num_transactions_ c = i32 (foldr (fun b n => fb_getNumTransactions b + n) 0 (chain_ c)).

Lemma i32_add_l a b : i32 (i32 a + b) = i32 (a + b).
Proof.
  unfold i32, u32_mod. f_equal.
  replace ((a + 2 ^ 31) mod 2 ^ 32 - 2 ^ 31 + b + 2 ^ 31) with ((a + 2 ^ 31) mod 2 ^ 32 + b) by lia.
  rewrite Z.add_mod_idemp_l by lia. f_equal. lia.
Qed.

Lemma i32_id z : in_i32 z -> i32 z = z.
Proof. unfold i32, in_i32, u32_mod. intros. rewrite Z.mod_small; lia. Qed.

Lemma foldr_num_app (l : list FinalBlock) b :
  foldr (fun b n => fb_getNumTransactions b + n) 0 (l ++ [b]) =
    foldr (fun b n => fb_getNumTransactions b + n) 0 l + fb_getNumTransactions b.
Proof. induction l as [|x l IH]; simpl; lia. Qed.

Lemma bc_push_ok c b :
  bc_ok c -> zlen (chain_ c) + 1 < 2 ^ 31 -> bc_ok (bc_push_back c b).
Proof.
  intros (Hs & Hl & Hn) L. unfold bc_ok, bc_push_back. cbn [chain_ chain_size_ num_transactions_].
  rewrite Hs, Hn, foldr_num_app, i32_add_l, zlen_app, zlen_cons, zlen_nil.
  pose proof (zlen_nonneg (chain_ c)).
  rewrite i32_id by (unfold in_i32; lia). repeat split; lia.
Qed.

Lemma bc_empty_ok : bc_ok bc_empty.
Proof. repeat split. Qed.

Lemma bc_size_ok c : bc_ok c -> bc_size c = zlen (chain_ c).
Proof.
  intros (Hs & Hl & _). unfold bc_size. rewrite Hs. apply u64_id. unfold in_u64.
  pose proof (zlen_nonneg (chain_ c)). lia.
Qed.

(** After a push the accessors see the new block. *)
Lemma bc_push_top c b :
  bc_ok c -> zlen (chain_ c) + 1 < 2 ^ 31 ->
  bc_back (bc_push_back c b) = Ok b /\
  bc_getHighestChainState (bc_push_back c b) = Ok (fb_block_state b) /\
  bc_getHighestMerkleRoot (bc_push_back c b) = Ok (fb_merkle_root b).
Proof.
  intros C L. pose proof (bc_push_ok c b C L) as (Hs & _ & _).
  assert (bc_back (bc_push_back c b) = Ok b) as Hb.
  { unfold bc_back, bc_push_back. cbn [chain_]. by rewrite last_snoc. }
  unfold bc_getHighestChainState, bc_getHighestMerkleRoot. rewrite Hs, Hb.
  assert (1 <= zlen (chain_ (bc_push_back c b))).
  { unfold bc_push_back. cbn [chain_]. rewrite zlen_app, zlen_cons, zlen_nil.
    pose proof (zlen_nonneg (chain_ c)). lia. }
  rewrite (proj2 (Z.ltb_ge _ _)) by lia. done.
Qed.

(** A partial dump is the concatenation of the blocks from the height it was
    asked for up to, but not including, the top block. *)
Lemma dump_loop_spec c n i :
  0 <= i -> i + Z.of_nat n <= zlen (chain_ c) ->
  dump_loop c i n = Ok (concat (fb_getCanonical <$> take n (drop (Z.to_nat i) (chain_ c)))).
Proof.
  revert i; induction n as [|n IH]; intros i Hi Hl; [done|]. cbn [dump_loop].
  unfold vec_at. rewrite (proj2 (Z.leb_le _ _)), (proj2 (Z.ltb_lt _ _)) by lia. cbn [andb].
  destruct (lookup_lt_is_Some_2 (chain_ c) (Z.to_nat i)) as (b & Hb); [unfold zlen in *; lia|].
  rewrite Hb. cbn [mbind res_bind]. rewrite IH by lia. cbn [mbind res_bind].
  rewrite (drop_S _ _ _ Hb). cbn [take fmap list_fmap concat].
  by replace (Z.to_nat (i + 1)) with (S (Z.to_nat i)) by lia.
Qed.

Lemma partial_dump_spec c start :
  bc_ok c -> 0 <= start ->
  bc_PartialBinaryDump c start =
    Ok (concat (fb_getCanonical <$>
          take (length (chain_ c) - 1 - Z.to_nat start) (drop (Z.to_nat start) (chain_ c)))).
Proof.
  intros C Hs. unfold bc_PartialBinaryDump. rewrite bc_size_ok by done.
  destruct C as (_ & Hl & _). pose proof (zlen_nonneg (chain_ c)). case_match; bool_to_prop.
  - rewrite u64_id by (unfold in_u64; lia).
    replace (Z.to_nat (zlen (chain_ c) - 1 - start)) with (length (chain_ c) - 1 - Z.to_nat start)%nat
      by (unfold zlen; lia).
    destruct (decide (start < zlen (chain_ c))).
    + rewrite dump_loop_spec; [done | lia | unfold zlen in *; lia].
    + replace (length (chain_ c) - 1 - Z.to_nat start)%nat with 0%nat by (unfold zlen in *; lia).
      done.
  - destruct (chain_ c) as [|b l]; [by rewrite drop_nil|].
    rewrite zlen_cons in *. pose proof (zlen_nonneg l). lia.
Qed.

(** Blocks read back from a dump, one after the other. *)
Definition read_blocks (prior : ChainState) (acc : list FinalBlock) : P (list FinalBlock) :=
  b ← fb_Create prior;
  mret (acc ++ [b]).

Lemma dump_read_back blocks prior :
  Forall (fun b => fb_wf b /\ Forall raw_ok (fb_raw_transactions b)) blocks ->
  zlen (concat (fb_getCanonical <$> blocks)) < 2 ^ 63 ->
  offset_fold (read_blocks prior) (zlen (concat (fb_getCanonical <$> blocks))) []
    (mkIB (concat (fb_getCanonical <$> blocks)) 0) =
  (Ok ((fun b => fb_raw b prior) <$> blocks),
   mkIB (concat (fb_getCanonical <$> blocks)) (zlen (concat (fb_getCanonical <$> blocks)))).
Proof.
  intros F Hl.
  pose proof (offset_fold_run (read_blocks prior) fb_getCanonical
    (fun acc b => acc ++ [fb_raw b prior]) blocks
    (zlen (concat (fb_getCanonical <$> blocks))) [] [] []) as R.
  rewrite app_nil_r in R. cbn [app] in R. change (zlen (@nil Z)) with 0 in R.
  assert (forall acc, foldl (fun acc b => acc ++ [fb_raw b prior]) acc blocks
            = acc ++ ((fun b => fb_raw b prior) <$> blocks)) as E.
  { clear. induction blocks as [|b l IH]; intros acc; [by rewrite app_nil_r|].
    cbn [foldl]. rewrite IH, fmap_cons. by rewrite <- app_assoc. }
  rewrite E in R. apply R; [| |done|done].
  - eapply Forall_impl; [|exact F]. intros b [W Hr] acc. unfold read_blocks.
    apply (parses_fmap _ (fun x => acc ++ [x])). by apply parses_fb_Create.
  - eapply Forall_impl; [|exact F]. intros b [(_ & _ & Hf & _ & _ & _ & _ & _ & Hv) _].
    rewrite fb_canonical_length by done.
    pose proof (zlen_nonneg (concat (fb_raw_transactions b))).
    pose proof (zlen_nonneg (SummaryOps.getCanonical (fb_summary b))).
    pose proof (zlen_nonneg (sigs_ (fb_vals b))).
    unfold SummaryOps.getByteSize, ValidationOps.pairSize. unfold_sizes. lia.
Qed.
End blockchain.
