(* ===== verification/Oracles.v ===== *)
(** * oracles/

    An oracle checks a proposal beyond the rules for transactions, and turns
    it into transactions of its shard.  The abstract class [oracleInterface] is
    a record of methods over the two members of an oracle, and each of the
    eight oracles is a value of it.  The JSON printers are in
    [JsonPrint].  A [std::string] is the list of its character codes. *)

From Stdlib Require Import ZArith Lia Ascii String.
From stdpp Require Import base list numbers.
From S2P Require Import Prelude OrdMap Converters Keys Buffers Transfer ChainState Summary.
From S2P Require Import Validation KeyRing Context Transactions Blocks Blockchain.

#[local] Open Scope Z_scope.

(** ** oracleInterface.h *)
Record Oracle := mkOracle { raw_data_ : bytes; error_msg_ : bytes }.

Definition oracle_ctor (data : bytes) : Oracle := mkOracle data [].

Definition oracle_getCanonical (o : Oracle) : bytes := Str2Bin (raw_data_ o).

(** [error_msg_ = msg; return false;] *)
Definition refuse (msg : string) : M Oracle bool :=
  o ← get; put (mkOracle (raw_data_ o) (text msg));; mret false.

Section oracles.
Context `{Crypto}.

Abbreviation TransactionMap := (omap Z (list Tier2Transaction)) (only parsing).

Record oracleInterface := mkInterface {
  getOracleName : bytes;
  getShardIndex : Z;
  getCoinIndex : Z;
  isSound : M Oracle bool;
  isValid : Blockchain -> M Oracle bool;
  getErrorMessage : Oracle -> bytes;
  getTransactions : Blockchain -> M Oracle TransactionMap;
  getDecompositionMap : Blockchain -> Oracle -> omap bytes bytes;
  Sign : bytes -> bytes -> bytes -> M Oracle bytes
}.

(** The map from the oracle's name to its data, the same in every oracle. *)
Definition decomposition (name : bytes) (_ : Blockchain) (o : Oracle) : omap bytes bytes :=
  [(name, Str2Bin (raw_data_ o))].

(** ** The oracles that are stubs *)
Definition stub_isSound : M Oracle bool := mret false.
Definition stub_isValid (_ : Blockchain) : M Oracle bool := mret false.
Definition stub_getTransactions (_ : Blockchain) : M Oracle TransactionMap := mret [].
Definition stub_Sign (_ _ _ : bytes) : M Oracle bytes := o ← get; mret (raw_data_ o).
Definition stub_warning (_ : Oracle) : bytes := text "WARNING: This oracle is a stub.".

Definition api : oracleInterface :=
  mkInterface (text "io.devv.api") 5 5 stub_isSound (fun _ => stub_isSound) stub_warning
    stub_getTransactions (decomposition (text "io.devv.api")) stub_Sign.

Definition dneroavailable : oracleInterface :=
  mkInterface (text "io.devv.dneroavailable") 1 1 stub_isSound stub_isValid error_msg_
    stub_getTransactions (decomposition (text "io.devv.dneroavailable")) stub_Sign.

Definition dnerowallet : oracleInterface :=
  mkInterface (text "io.devv.dnerowallet") 2 2 stub_isSound stub_isValid error_msg_
    stub_getTransactions (decomposition (text "io.devv.dnerowallet")) stub_Sign.

Definition id : oracleInterface :=
  mkInterface (text "io.devv.id") 3 3 stub_isSound (fun _ => stub_isSound) stub_warning
    stub_getTransactions (decomposition (text "io.devv.id")) stub_Sign.

Definition vote : oracleInterface :=
  mkInterface (text "io.devv.vote") 4 4 stub_isSound (fun _ => stub_isSound) stub_warning
    stub_getTransactions (decomposition (text "io.devv.vote")) stub_Sign.

(** ** dcash.h and dnero.h

    The proposal is a serialised tier 2 transaction, read with
    [Tier2Transaction::QuickCreate] by every method. *)
Definition read_tx (o : Oracle) : res Tier2Transaction :=
  fst (t2_QuickCreate (mkIB (Str2Bin (raw_data_ o)) 0)).

(** The loop of [isSound]: whether a transfer with a bad delay comes up. *)
Fixpoint bad_delay (bad : Z -> bool) (xfers : list Transfer) : res bool :=
  match xfers with
  | [] => Ok false
  | t :: xfers' =>
      d ← TransferOps.getDelay t;
      if bad d then Ok true else bad_delay bad xfers'
  end.

(** The loop of [isValid] ends at the first transfer that takes coins; [check]
    is what it does with its address, [true] meaning refused. *)
Fixpoint check_sender (check : Address -> res bool) (xfers : list Transfer) : res bool :=
  match xfers with
  | [] => Ok false
  | t :: xfers' =>
      amount ← TransferOps.getAmount t;
      if amount <? 0 then a ← TransferOps.getAddress t; check a
      else check_sender check xfers'
  end.

Definition dcash_isSound : M Oracle bool :=
  o ← get;
  tx ← lift (read_tx o);
  xfers ← lift (t2_getTransfers tx);
  bad ← lift (bad_delay (fun d => negb (d =? 0)) xfers);
  if (bad : bool) then refuse "Dcash transactions may not have a delay." else mret true.

Definition dcash_refuses (last_state : ChainState) (addr : Address) : res bool :=
  w ← ChainStateOps.getAmount last_state (getCoinIndex dnerowallet) addr;
  Ok (0 <? w).

Definition dcash_isValid (context : Blockchain) : M Oracle bool :=
  sound ← dcash_isSound;
  if negb sound then mret false
  else
    o ← get;
    tx ← lift (read_tx o);
    last_state ← lift (bc_getHighestChainState context);
    xfers ← lift (t2_getTransfers tx);
    no ← lift (check_sender (dcash_refuses last_state) xfers);
    if (no : bool) then refuse "Error: Dnerowallets may not send dcash." else mret true.

Definition dnero_isSound : M Oracle bool :=
  o ← get;
  tx ← lift (read_tx o);
  xfers ← lift (t2_getTransfers tx);
  bad ← lift (bad_delay (fun d => d <? 1) xfers);
  if (bad : bool) then refuse "Dnero transactions must have a delay." else mret true.

(** The second balance is read only when the first is below 1. *)
Definition dnero_refuses (last_state : ChainState) (addr : Address) : res bool :=
  w ← ChainStateOps.getAmount last_state (getCoinIndex dnerowallet) addr;
  if w <? 1 then
    v ← ChainStateOps.getAmount last_state (getCoinIndex dneroavailable) addr;
    Ok (v <? 1)
  else Ok false.

Definition dnero_isValid (context : Blockchain) : M Oracle bool :=
  sound ← dnero_isSound;
  if negb sound then mret false
  else
    o ← get;
    tx ← lift (read_tx o);
    last_state ← lift (bc_getHighestChainState context);
    xfers ← lift (t2_getTransfers tx);
    no ← lift (check_sender (dnero_refuses last_state) xfers);
    if (no : bool) then refuse "Error: Dnerowallets or dneroavailable required." else mret true.

(** [getTransactions] of both: the transaction itself, for the shard. *)
Definition tx_getTransactions (shard : Z) (valid : Blockchain -> M Oracle bool)
    (context : Blockchain) : M Oracle TransactionMap :=
  ok ← valid context;
  if negb ok then mret []
  else
    o ← get;
    tx ← lift (read_tx o);
    mret [(shard, [tx])].

(** [Sign] of both: the same content under a new signature. *)
Definition tx_Sign (address key aes_password : bytes) : M Oracle bytes :=
  o ← get;
  unsigned_tx ← lift (read_tx o);
  key_ptr ← lift (LoadEcKey address key aes_password);
  old ← lift (t2_getTransfers unsigned_tx);
  xfers ← lift (map_res (fun t => fst (TransferOps.from_buffer (mkIB (TransferOps.getCanonical t) 0))) old);
  oper ← lift (t2_getOperation unsigned_tx);
  nonce ← lift (t2_getNonce unsigned_tx);
  the_tx ← lift (t2_ctor_sign oper xfers nonce key_ptr);
  mret (Bin2Str (t2_canonical the_tx)).

Definition dcash : oracleInterface :=
  mkInterface (text "io.devv.dcash") 0 0 dcash_isSound dcash_isValid error_msg_
    (tx_getTransactions 0 dcash_isValid) (decomposition (text "io.devv.dcash")) tx_Sign.

Definition dnero : oracleInterface :=
  mkInterface (text "io.devv.dnero") 0 0 dnero_isSound dnero_isValid error_msg_
    (tx_getTransactions 0 dnero_isValid) (decomposition (text "io.devv.dnero")) tx_Sign.

(** ** data.h

    The proposal is an address, a signature and the data to store. *)
Definition kBYTES_PER_COIN : Z := 10240.

Definition getDataSinkAddress : Address :=
  AddressOps.ctor (replicate (Z.to_nat kNODE_ADDR_SIZE) 0).

(** [ceil(data_size/kBYTES_PER_COIN)]: the quotient is one of unsigned integers,
    and below 2^53, so that [ceil] returns it exactly. *)
Definition coins_for (data_size : Z) : Z := data_size / kBYTES_PER_COIN.

(** The sizes of the address, of the signature and of the rest. *)
Definition data_sizes (raw : bytes) : res (Z * Z * Z) :=
  t ← vec_at raw 0;
  let addr_size := AddressOps.getSizeByType t in
  s ← vec_at raw (addr_size + 1);
  let sig_size := SignatureOps.getSizeByType s in
  Ok (addr_size, sig_size, u64 (zlen raw - addr_size - sig_size - 2)).

Definition data_isSound : M Oracle bool :=
  o ← get;
  t ← lift (vec_at (raw_data_ o) 0);
  let addr_size := AddressOps.getSizeByType t in
  if addr_size <? 1 then refuse "Bad address size."
  else
    s ← lift (vec_at (raw_data_ o) (addr_size + 1));
    let sig_size := SignatureOps.getSizeByType s in
    if sig_size <? 1 then refuse "Bad signature size."
    else
      let data_size := u64 (zlen (raw_data_ o) - addr_size - sig_size - 2) in
      if data_size <=? 0 then refuse "Bad data size." else mret true.

Definition data_isValid (context : Blockchain) : M Oracle bool :=
  sound ← data_isSound;
  if negb sound then mret false
  else
    o ← get;
    '(addr_size, _, data_size) ← lift (data_sizes (raw_data_ o));
    client ← lift (substr (raw_data_ o) 0 (addr_size + 1));
    let coins_needed := coins_for data_size in
    last_state ← lift (bc_getHighestChainState context);
    available ← lift (ChainStateOps.getAmount last_state 6 (AddressOps.ctor (Str2Bin client)));
    if available <? coins_needed then refuse "Data too large for coins provided" else mret true.

(** The payment for the data. *)
Definition data_xfers (client : Address) (coins_needed : Z) : list Transfer :=
  [TransferOps.ctor client 6 (-1 * coins_needed) 0;
   TransferOps.ctor getDataSinkAddress 6 coins_needed 0].

(** [substr] without a length goes to the end of the string. *)
Definition data_getTransactions (context : Blockchain) : M Oracle TransactionMap :=
  ok ← data_isValid context;
  if negb ok then mret []
  else
    o ← get;
    '(addr_size, sig_size, data_size) ← lift (data_sizes (raw_data_ o));
    client ← lift (substr (raw_data_ o) 0 (addr_size + 1));
    sig_str ← lift (substr (raw_data_ o) (addr_size + 1) (sig_size + 1));
    sig ← lift (SignatureOps.ctor (Str2Bin sig_str));
    let coins_needed := coins_for data_size in
    nonce ← lift (substr (raw_data_ o) (u64 (zlen (raw_data_ o) - data_size)) (zlen (raw_data_ o)));
    the_tx ← lift (t2_ctor_sig eOpType.Exchange
                     (data_xfers (AddressOps.ctor (Str2Bin client)) coins_needed) (Str2Bin nonce) sig);
    mret [(6, [the_tx])].

Definition data_Sign (address key aes_password : bytes) : M Oracle bytes :=
  key_ptr ← lift (LoadEcKey address key aes_password);
  o ← get;
  let data_size := zlen (raw_data_ o) in
  let coins_needed := coins_for data_size in
  let client := AddressOps.ctor (Str2Bin address) in
  the_tx ← lift (t2_ctor_sign eOpType.Exchange (data_xfers client coins_needed)
                   (Str2Bin (raw_data_ o)) key_ptr);
  sig ← lift (t2_getSignature the_tx);
  let raw := AddressOps.getCanonical client ++ SignatureOps.getCanonical sig ++ raw_data_ o in
  put (mkOracle raw (error_msg_ o));;
  mret raw.

Definition data : oracleInterface :=
  mkInterface (text "io.devv.data") 6 6 data_isSound data_isValid error_msg_
    data_getTransactions (decomposition (text "io.devv.data")) data_Sign.

Definition oracles : list oracleInterface :=
  [api; data; dcash; dnero; dneroavailable; dnerowallet; id; vote].
End oracles.

(** ** The contract of the interface

    What the comments of [oracleInterface.h] promise to a caller: a valid
    proposal is sound, an invalid one has no transactions, and transactions are
    those of the oracle's shard.  A check that accepts leaves the oracle as it
    was, and one that refuses writes nothing but the message. *)
Section contract.
Context `{Crypto}.

Class OracleLaws (i : oracleInterface) : Prop := {
  sound_keeps o r o' : isSound i o = (r, o') -> raw_data_ o' = raw_data_ o;
  valid_is_sound c o o' : isValid i c o = (Ok true, o') -> isSound i o = (Ok true, o') /\ o' = o;
  refused_keeps c o o' : isValid i c o = (Ok false, o') ->
    raw_data_ o' = raw_data_ o /\ getTransactions i c o = (Ok [], o');
  transactions_valid c o m o' : getTransactions i c o = (Ok m, o') -> m <> [] ->
    isValid i c o = (Ok true, o') /\ exists tx, m = [(getShardIndex i, [tx])]
}.

(** The stubs refuse everything. *)
Lemma stub_laws name shard coin valid msg dec sign :
  (forall c, valid c = stub_isSound) ->
  OracleLaws (mkInterface name shard coin stub_isSound valid msg stub_getTransactions dec sign).
Proof.
  intros E. constructor; cbn [isSound isValid getTransactions getShardIndex];
    intros *; rewrite ?E; unfold stub_isSound, stub_getTransactions, mret, M_ret; intros; simplify_eq.
  - done.
  - by split.
Qed.

#[export] Instance api_laws : OracleLaws api.
Proof. by apply stub_laws. Qed.
#[export] Instance dneroavailable_laws : OracleLaws dneroavailable.
Proof. by apply stub_laws. Qed.
#[export] Instance dnerowallet_laws : OracleLaws dnerowallet.
Proof. by apply stub_laws. Qed.
#[export] Instance id_laws : OracleLaws id.
Proof. by apply stub_laws. Qed.
#[export] Instance vote_laws : OracleLaws vote.
Proof. by apply stub_laws. Qed.

(** A check writes only the message, and nothing when it accepts. *)
Definition checks (m : M Oracle bool) : Prop := forall o r o',
  m o = (r, o') -> raw_data_ o' = raw_data_ o /\ (r = Ok false \/ o' = o).

Lemma checks_ret b : checks (mret b).
Proof. intros o r o' E. unfold mret, M_ret in E. simplify_eq. auto. Qed.

Lemma checks_refuse msg : checks (refuse msg).
Proof.
  intros o r o' E. unfold refuse in E. rewrite bind_get, bind_put in E.
  unfold mret, M_ret in E. simplify_eq. auto.
Qed.

Lemma checks_get (f : Oracle -> M Oracle bool) : (forall o, checks (f o)) -> checks (get ≫= f).
Proof. intros F o r o' E. exact (F o o r o' E). Qed.

Lemma checks_lift {A} (m : res A) (f : A -> M Oracle bool) :
  (forall a, checks (f a)) -> checks (lift m ≫= f).
Proof.
  intros F o r o' E. rewrite bind_lift in E.
  destruct m; [by eapply F | simplify_eq; auto..].
Qed.

Lemma checks_and (m : M Oracle bool) (f : M Oracle bool) : checks m -> checks f ->
  checks (b ← m; if negb b then mret false else f).
Proof.
  intros Cm Cf o r o' E. destruct (m o) as [r1 o1] eqn:Em.
  pose proof (Cm _ _ _ Em) as [R1 D]. unfold mbind, M_bind in E. rewrite Em in E.
  destruct r1 as [[]|e| |].
  - destruct D as [? | ->]; [done | by apply Cf].
  - cbn [negb] in E. unfold mret, M_ret in E. simplify_eq. auto.
  - simplify_eq. destruct D; [done | auto].
  - simplify_eq. destruct D; [done | auto].
  - simplify_eq. destruct D; [done | auto].
Qed.

Ltac solve_checks :=
  repeat match goal with
  | |- checks (let _ := _ in _) => cbv zeta
  | |- checks (mret _) => apply checks_ret
  | |- checks (refuse _) => apply checks_refuse
  | |- checks (get ≫= _) => apply checks_get; intros ?
  | |- checks (lift _ ≫= _) => apply checks_lift; intros ?
  | |- checks (if ?b then _ else _) => destruct b
  | |- checks (match ?p with (_, _) => _ end) => destruct p
  end.

(** An oracle whose validity extends its soundness and whose transactions are
    guarded by its validity keeps the contract. *)
Lemma guarded_laws name shard coin sound valid msg txs dec sign
    (rest : Blockchain -> M Oracle bool)
    (produce : Blockchain -> M Oracle (omap Z (list Tier2Transaction))) :
  checks sound -> (forall c, checks (rest c)) ->
  (forall c, valid c = (b ← sound; if negb b then mret false else rest c)) ->
  (forall c, txs c = (b ← valid c; if negb b then mret [] else produce c)) ->
  (forall c o m o', produce c o = (Ok m, o') -> o' = o /\ exists tx, m = [(shard, [tx])]) ->
  OracleLaws (mkInterface name shard coin sound valid msg txs dec sign).
Proof.
  intros Cs Cr Ev Et Hp.
  assert (forall c, checks (valid c)) as Cv by (intros c; rewrite Ev; by apply checks_and).
  constructor; cbn [isSound isValid getTransactions getShardIndex].
  - intros o r o' E. by apply Cs in E as [? _].
  - intros c o o' E. pose proof (Cv c _ _ _ E) as [_ [? | ->]]; [done|]. split; [|done].
    rewrite Ev in E. apply bind_inv_ok in E as (b & o1 & Es & E). destruct b; [|done].
    pose proof (Cs _ _ _ Es) as [_ [? | ->]]; done.
  - intros c o o' E. split; [by apply Cv in E as [? _]|].
    rewrite Et. by rewrite (bind_ok _ _ _ _ _ E).
  - intros c o m o' E N. rewrite Et in E. apply bind_inv_ok in E as (b & o1 & Eb & E).
    destruct b; cbn [negb] in E; [|unfold mret, M_ret in E; by simplify_eq].
    apply Hp in E as (-> & tx & ->). eauto.
Qed.

Lemma tx_laws name shard coin sound rest msg dec sign :
  checks sound -> (forall c, checks (rest c)) ->
  let valid := fun c => b ← sound; if negb b then mret false else rest c in
  OracleLaws (mkInterface name shard coin sound valid msg (tx_getTransactions shard valid) dec sign).
Proof.
  intros Cs Cr valid. eapply guarded_laws; [done | exact Cr | done | intros c; reflexivity |].
  intros c o m o' E. cbn beta in E. minv. unfold get, lift, mret, M_ret in *. simplify_eq. eauto.
Qed.

#[export] Instance dcash_laws : OracleLaws dcash.
Proof. apply tx_laws; [unfold dcash_isSound | intros c]; solve_checks. Qed.

#[export] Instance dnero_laws : OracleLaws dnero.
Proof. apply tx_laws; [unfold dnero_isSound | intros c]; solve_checks. Qed.

#[export] Instance data_laws : OracleLaws data.
Proof.
  eapply guarded_laws; [| |intros c; reflexivity|intros c; reflexivity|].
  - unfold data_isSound. solve_checks.
  - intros c. cbv beta. solve_checks.
  - intros c o m o' E. cbn beta in E. minv. destruct a0 as [[as_ ss] ds].
    minv. cbv zeta in E. minv. unfold get, lift, mret, M_ret in *. simplify_eq. eauto.
Qed.

Lemma oracles_laws i : i ∈ oracles -> OracleLaws i.
Proof.
  unfold oracles. intros Hi.
  repeat (apply elem_of_cons in Hi as [-> | Hi]; [apply _|]). by apply elem_of_nil in Hi.
Qed.
End contract.

(** ** Proposals that are transactions

    What the dcash and dnero oracles do with the bytes of a tier 2
    transaction. *)
Section proposal.
Context `{Crypto}.

(** The address of the first transfer that takes coins. *)
Definition first_sender (vs : list tview) : option Address :=
  v_addr <$> List.find (fun v => v_amount v <? 0) vs.

Definition no_delay (vs : list tview) : bool := forallb (fun v => v_delay v =? 0) vs.
Definition all_delayed (vs : list tview) : bool := forallb (fun v => 1 <=? v_delay v) vs.

Lemma bad_delay_views bad vs : Forall view_ok vs ->
  bad_delay bad (xfer_of <$> vs) = Ok (existsb (fun v => bad (v_delay v)) vs).
Proof.
  induction 1 as [|v vs W _ IH]; [done|]. rewrite fmap_cons. cbn [bad_delay existsb].
  rewrite xfer_getDelay by done. cbn [mbind res_bind]. by destruct (bad (v_delay v)).
Qed.

Lemma check_sender_views check vs : Forall view_ok vs ->
  check_sender check (xfer_of <$> vs) =
    match first_sender vs with Some a => check a | None => Ok false end.
Proof.
  unfold first_sender. induction 1 as [|v vs W _ IH]; [done|]. rewrite fmap_cons.
  cbn [check_sender List.find]. rewrite xfer_getAmount by done. cbn [mbind res_bind].
  destruct (v_amount v <? 0); [|done]. by rewrite xfer_getAddress by done.
Qed.

Lemma existsb_negb {A} (f g : A -> bool) l :
  (forall x, g x = negb (f x)) -> existsb g l = negb (forallb f l).
Proof.
  intros E. induction l as [|x l IH]; [done|]. cbn [existsb forallb].
  by rewrite IH, E, negb_andb.
Qed.

Context (oper : Z) (vs : list tview) (nonce : bytes) (sig : Signature) (msg : bytes).
Context (Hv : Forall view_ok vs) (Hs : sig_wf sig) (Hn : kMIN_NONCE_SIZE <= zlen nonce).
Context (Ho : 0 <= oper < eOpType.NumOperations).
Context (Hl : zlen (t2_body oper vs nonce ++ s_canonical sig) < 2 ^ 63).

(** The proposal, and the signature without its last byte. *)
#[local] Abbreviation prop := (mkOracle (t2_body oper vs nonce ++ s_canonical sig) msg).
Definition cut (s : Signature) : Signature := mkSignature (removelast (s_canonical s)).
#[local] Abbreviation cut_tx := (t2_built oper vs nonce (cut sig) false).

Lemma cut_tx_eq : mkT2 (take (Z.to_nat (zlen (t2_body oper vs nonce ++ s_canonical sig) - 1))
    (t2_body oper vs nonce ++ s_canonical sig)) false (zlen (xfers_canonical vs)) (zlen nonce) = cut_tx.
Proof.
  unfold t2_built, cut. cbn [s_canonical]. f_equal.
  rewrite <- (removelast_app _ (l' := s_canonical sig)).
  - rewrite removelast_firstn_len. f_equal. unfold zlen. lia.
  - apply sig_wf_parts in Hs as (t & raw & -> & _). done.
Qed.

Lemma read_tx_run : read_tx prop = Ok cut_tx.
Proof.
  unfold read_tx, Str2Bin. cbn [raw_data_].
  pose proof (t2_QuickCreate_run oper vs nonce sig Hs Hn Ho [] []) as E.
  rewrite !app_nil_r in E. cbn [app] in E. rewrite zlen_nil in E. rewrite E by done.
  cbn [fst]. by rewrite cut_tx_eq.
Qed.

Lemma cut_bound : zlen (t2_body oper vs nonce ++ s_canonical (cut sig)) < 2 ^ 63.
Proof.
  revert Hl. rewrite !zlen_app. cbn [cut s_canonical]. rewrite removelast_firstn_len.
  unfold zlen. rewrite length_take. lia.
Qed.

Lemma dcash_isSound_run :
  dcash_isSound prop = (if no_delay vs then mret true
                        else refuse "Dcash transactions may not have a delay.") prop.
Proof.
  unfold dcash_isSound. rewrite bind_get, bind_lift, read_tx_run, bind_lift, built_getTransfers
    by (done || apply cut_bound).
  rewrite bind_lift, bad_delay_views by done. unfold no_delay.
  rewrite (existsb_negb (fun v => v_delay v =? 0)) by done. by destruct (forallb _ vs).
Qed.

Lemma dnero_isSound_run :
  dnero_isSound prop = (if all_delayed vs then mret true
                        else refuse "Dnero transactions must have a delay.") prop.
Proof.
  unfold dnero_isSound. rewrite bind_get, bind_lift, read_tx_run, bind_lift, built_getTransfers
    by (done || apply cut_bound).
  rewrite bind_lift, bad_delay_views by done. unfold all_delayed.
  rewrite (existsb_negb (fun v => 1 <=? v_delay v)) by (intros; lia). by destruct (forallb _ vs).
Qed.

(** The verdict on the first sender: an exception of [refuses] escapes. *)
Definition verdict (refuses : Address -> res bool) : res bool :=
  match first_sender vs with
  | Some a => no ← refuses a; Ok (negb no)
  | None => Ok true
  end.

(** What is left of [isValid] once the proposal is sound. *)
Lemma sender_check_run refuses error st c :
  bc_getHighestChainState c = Ok st ->
  fst ((o ← get;
        tx ← lift (read_tx o);
        last_state ← lift (bc_getHighestChainState c);
        xfers ← lift (t2_getTransfers tx);
        no ← lift (check_sender (refuses last_state) xfers);
        if (no : bool) then refuse error else mret true) prop)
    = verdict (refuses st).
Proof.
  intros Hst. rewrite bind_get, bind_lift, read_tx_run, bind_lift, Hst, bind_lift, built_getTransfers
    by (done || apply cut_bound).
  rewrite bind_lift, check_sender_views by done. unfold verdict.
  destruct (first_sender vs) as [a|]; [|done]. by destruct (refuses st a) as [[]|e| |].
Qed.

Lemma dcash_isValid_run c st : bc_getHighestChainState c = Ok st ->
  fst (dcash_isValid c prop) = if no_delay vs then verdict (dcash_refuses st) else Ok false.
Proof.
  intros Hst. unfold dcash_isValid, mbind at 1, M_bind at 1. rewrite dcash_isSound_run.
  destruct (no_delay vs); [by apply sender_check_run | done].
Qed.

Lemma dnero_isValid_run c st : bc_getHighestChainState c = Ok st ->
  fst (dnero_isValid c prop) = if all_delayed vs then verdict (dnero_refuses st) else Ok false.
Proof.
  intros Hst. unfold dnero_isValid, mbind at 1, M_bind at 1. rewrite dnero_isSound_run.
  destruct (all_delayed vs); [by apply sender_check_run | done].
Qed.

(** A valid proposal is its own transaction, less the last byte. *)
Lemma tx_getTransactions_run shard valid c :
  valid c prop = (Ok true, prop) ->
  tx_getTransactions shard valid c prop = (Ok [(shard, [cut_tx])], prop).
Proof.
  intros E. unfold tx_getTransactions. rewrite (bind_ok _ _ _ _ _ E). cbn [negb].
  by rewrite bind_get, bind_lift, read_tx_run.
Qed.

(** Reading the signature of what is left runs past the end. *)
Lemma cut_getSignature :
  SignatureOps.size sig =
    (if oper =? eOpType.Exchange then kWALLET_SIG_BUF_SIZE else kNODE_SIG_BUF_SIZE) ->
  t2_getSignature cut_tx = UB.
Proof.
  intros Hz. unfold t2_getSignature. rewrite built_getOperation by apply cut_bound.
  cbn [mbind res_bind t2_built t2_canonical t2_xfer_size t2_nonce_size].
  pose proof (built_bounds oper vs nonce sig Hl) as (? & ? & ? & ?).
  assert (zlen (t2_body oper vs nonce ++ s_canonical (cut sig)) =
          17 + zlen (xfers_canonical vs) + zlen nonce + (zlen (s_canonical sig) - 1)) as L.
  { rewrite zlen_app, t2_body_length. cbn [cut s_canonical]. rewrite removelast_firstn_len.
    apply sig_wf_parts in Hs as (t & raw & -> & _). unfold zlen. rewrite length_take.
    cbn [length]. lia. }
  unfold SignatureOps.size in Hz. unfold vec_range. rewrite L, Hz.
  rewrite u64_id by (unfold_sizes; unfold in_u64; lia).
  destruct (oper =? _); unfold_sizes; rewrite (proj2 (Z.leb_gt _ (_ + _ + _ + (_ - 1)))) by lia;
    by rewrite andb_false_r.
Qed.

Lemma cut_tx_isSound keys a k :
  sound_content oper vs a -> getKey keys a = Ok k ->
  SignatureOps.size sig =
    (if oper =? eOpType.Exchange then kWALLET_SIG_BUF_SIZE else kNODE_SIG_BUF_SIZE) ->
  t2_isSound cut_tx keys = UB.
Proof.
  intros (W & F & Hh & Ht & Hz & Hi) Hk Hsz. unfold t2_isSound.
  rewrite cut_getSignature, built_getOperation, built_getTransfers, built_getMessageDigest
    by (done || apply cut_bound).
  cbn [t2_built t2_is_sound mbind res_bind]. unfold scan_start.
  rewrite (scan_complete a) by done. cbn [mbind res_bind sn_total sn_sender].
  rewrite Hh, Hz, Hk. cbn [mbind res_bind]. unfold isINN.
  destruct (decide (oper = eOpType.Exchange)) as [->|N]; [done|].
  rewrite Hi by done. by rewrite !andb_false_r.
Qed.
End proposal.

(** ** Signing a proposal *)
Section proposal_sign.
Context `{CryptoLaws}.

Lemma copy_transfers vs : Forall view_ok vs ->
  map_res (fun t => fst (TransferOps.from_buffer (mkIB (TransferOps.getCanonical t) 0)))
    (xfer_of <$> vs) = Ok (xfer_of <$> vs).
Proof.
  induction 1 as [|v vs W _ IH]; [done|]. rewrite fmap_cons. cbn [map_res].
  pose proof (xfer_size_bounds v W) as [_ B]. unfold TransferOps.Size, TransferOps.MaxSize in B.
  pose proof (parses_transfer v W [] []) as E. rewrite app_nil_r in E. cbn [app] in E.
  rewrite zlen_nil in E. unfold TransferOps.getCanonical in *.
  rewrite E by (unfold_sizes; lia). cbn [fst mbind res_bind]. by rewrite IH.
Qed.

(** The unchecked constructor that signs. *)
Lemma t2_ctor_sign_run oper vs nonce k :
  zlen (t2_body oper vs nonce) < 2 ^ 62 ->
  exists sig,
    t2_ctor_sign oper (xfer_of <$> vs) nonce k = Ok (t2_built oper vs nonce sig false) /\
    VerifyByteSig k (DevcashHash (t2_body oper vs nonce)) sig = Ok true /\ sig_wf sig /\
    SignatureOps.size sig = (if is_node_key k then kNODE_SIG_BUF_SIZE else kWALLET_SIG_BUF_SIZE).
Proof.
  intros Hl. destruct (SignBinary_ok k (DevcashHash (t2_body oper vs nonce))) as (sig & Hs & R).
  exists sig. split; [|done]. pose proof (t2_body_length oper vs nonce).
  pose proof (zlen_nonneg nonce). pose proof (zlen_nonneg (xfers_canonical vs)).
  unfold t2_ctor_sign. rewrite t2_unsigned_eq by lia.
  pose proof (built_getMessageDigest oper vs nonce (mkSignature []) false) as Hd.
  unfold t2_built in Hd. cbn [s_canonical] in Hd. rewrite app_nil_r in Hd.
  rewrite Hd by lia. cbn [mbind res_bind]. rewrite Hs. done.
Qed.

Lemma tx_Sign_run oper vs nonce sig msg address key pass k :
  Forall view_ok vs -> sig_wf sig -> kMIN_NONCE_SIZE <= zlen nonce ->
  0 <= oper < eOpType.NumOperations -> zlen (t2_body oper vs nonce) < 2 ^ 62 ->
  LoadEcKey address key pass = Ok k ->
  exists sig',
    tx_Sign address key pass (mkOracle (t2_body oper vs nonce ++ s_canonical sig) msg) =
      (Ok (t2_body oper vs nonce ++ s_canonical sig'),
       mkOracle (t2_body oper vs nonce ++ s_canonical sig) msg) /\
    VerifyByteSig k (DevcashHash (t2_body oper vs nonce)) sig' = Ok true /\ sig_wf sig'.
Proof.
  intros Hv Hs Hn Ho Hl Hk.
  assert (zlen (t2_body oper vs nonce ++ s_canonical sig) < 2 ^ 63) as Hl'.
  { rewrite zlen_app. apply sig_wf_parts in Hs as (t & raw & -> & L & Ht).
    rewrite zlen_cons, L. unfold_sizes. lia. }
  pose proof (cut_bound oper vs nonce sig Hl').
  destruct (t2_ctor_sign_run oper vs nonce k Hl) as (sig' & E & V & W & _).
  exists sig'. split; [|done]. unfold tx_Sign.
  rewrite bind_get, bind_lift, read_tx_run, bind_lift, Hk, bind_lift, built_getTransfers by done.
  rewrite bind_lift, copy_transfers, bind_lift, built_getOperation, bind_lift, built_getNonce by done.
  by rewrite bind_lift, E.
Qed.
End proposal_sign.

Lemma substr_tail pre tail p n :
  p = zlen pre -> substr (pre ++ tail) p n = Ok (take (Z.to_nat n) tail).
Proof.
  intros ->. unfold substr. rewrite zlen_app. pose proof (zlen_nonneg tail).
  rewrite (proj2 (Z.ltb_ge _ _)) by lia. by rewrite zlen_to_nat, drop_app_length.
Qed.

Lemma substr_mid pre mid rest p n :
  p = zlen pre -> n = zlen mid -> substr (pre ++ mid ++ rest) p n = Ok mid.
Proof. intros Hp ->. by rewrite substr_tail, zlen_to_nat, take_app_length. Qed.

Lemma substr_head mid rest n : n = zlen mid -> substr (mid ++ rest) 0 n = Ok mid.
Proof. intros ->. by apply (substr_mid []). Qed.

(** ** Proposals that store data *)
Section data_proposal.
Context `{Crypto}.
Context (client : Address) (sig : Signature) (d msg : bytes).
Context (Hc : addr_wf client) (Hs : sig_wf sig) (Hd : d <> []).

#[local] Abbreviation raw := (a_canonical client ++ s_canonical sig ++ d).
Context (Hl : zlen raw < 2 ^ 62).
#[local] Abbreviation prop := (mkOracle raw msg).
#[local] Abbreviation price := (coins_for (zlen d)).

(** What the client pays the sink. *)
Definition payment : list tview :=
  [mkView client 6 (- price) 0; mkView getDataSinkAddress 6 price 0].

Lemma data_positive : 0 < zlen d.
Proof. clear -Hd. destruct d; [done|]. rewrite zlen_cons. pose proof (zlen_nonneg l). lia. Qed.

Lemma data_sizes_run : exists as_ ss,
  data_sizes raw = Ok (as_, ss, zlen d) /\
  vec_at raw 0 = Ok as_ /\ vec_at raw (as_ + 1) = Ok ss /\
  AddressOps.getSizeByType as_ = as_ /\ SignatureOps.getSizeByType ss = ss /\
  0 < as_ /\ 0 < ss /\ zlen (a_canonical client) = as_ + 1 /\ zlen (s_canonical sig) = ss + 1.
Proof.
  pose proof data_positive. apply addr_wf_parts in Hc as (as_ & ra & Ea & La & Ha).
  apply sig_wf_parts in Hs as (ss & rs & Es & Ls & Hss). exists as_, ss.
  assert (vec_at raw 0 = Ok as_) as E0 by (rewrite Ea; cbn [app]; apply vec_at_0).
  assert (vec_at raw (as_ + 1) = Ok ss) as E1.
  { rewrite Es. cbn [app]. apply vec_at_mid. rewrite Ea, zlen_cons. lia. }
  assert (AddressOps.getSizeByType as_ = as_) as G0 by (by destruct Ha as [-> | ->]).
  assert (SignatureOps.getSizeByType ss = ss) as G1 by (by destruct Hss as [-> | ->]).
  assert (zlen (a_canonical client) = as_ + 1 /\ zlen (s_canonical sig) = ss + 1) as [L0 L1]
    by (rewrite Ea, Es, !zlen_cons; lia).
  split; [|unfold_sizes; repeat split; done || lia].
  unfold data_sizes. rewrite E0. cbn [mbind res_bind]. rewrite G0, E1. cbn [mbind res_bind].
  rewrite G1. do 2 f_equal. revert Hl. rewrite !zlen_app, L0, L1. intros Hl'.
  rewrite u64_id; [lia|]. unfold_sizes. unfold in_u64. lia.
Qed.

Lemma data_isSound_run : data_isSound prop = (Ok true, prop).
Proof.
  pose proof data_positive as P.
  destruct data_sizes_run as (as_ & ss & _ & E0 & E1 & G0 & G1 & ? & ? & L0 & L1).
  unfold data_isSound. rewrite bind_get. cbn [raw_data_]. rewrite bind_lift, E0.
  cbv zeta. rewrite G0, (proj2 (Z.ltb_ge _ _)) by lia. rewrite bind_lift, E1, G1.
  rewrite (proj2 (Z.ltb_ge _ _)) by lia. revert Hl. rewrite !zlen_app, L0, L1. intros Hl'.
  rewrite u64_id by (unfold in_u64; lia). rewrite (proj2 (Z.leb_gt _ _)) by lia. done.
Qed.

(** The client's balance of the data coin decides. *)
Lemma data_isValid_run c st n :
  bc_getHighestChainState c = Ok st -> ChainStateOps.getAmount st 6 client = Ok n ->
  data_isValid c prop =
    (if n <? price then refuse "Data too large for coins provided" else mret true) prop.
Proof.
  intros Hst Hn. destruct data_sizes_run as (as_ & ss & E & _ & _ & _ & _ & ? & _ & L0 & _).
  unfold data_isValid. rewrite (bind_ok _ _ _ _ _ data_isSound_run). cbn [negb].
  rewrite bind_get. cbn [raw_data_]. rewrite bind_lift, E, bind_lift.
  rewrite substr_head by done.
  rewrite bind_lift, Hst, bind_lift. unfold Str2Bin. by rewrite addr_ctor_canonical, Hn by done.
Qed.

Lemma payment_ok : in_i64 price -> Forall view_ok payment.
Proof.
  intros P. assert (0 <= price) by (apply Z.div_pos; [apply zlen_nonneg | done]).
  unfold in_i64 in P. repeat constructor; cbn [v_addr v_coin v_amount v_delay]; try done;
    unfold in_u64, in_i64; try lia; by apply addr_wfb_spec.
Qed.

Lemma price_bound : 0 <= price <= zlen d.
Proof.
  pose proof (zlen_nonneg d). unfold coins_for, kBYTES_PER_COIN.
  split; [by apply Z.div_pos | by apply Z.div_le_upper_bound; lia].
Qed.

(** A valid proposal becomes one payment that carries the data as its nonce. *)
Lemma data_getTransactions_run c :
  data_isValid c prop = (Ok true, prop) ->
  data_getTransactions c prop =
    (Ok [(6, [t2_built eOpType.Exchange payment d sig false])], prop).
Proof.
  intros Hv. pose proof price_bound. pose proof data_positive.
  destruct data_sizes_run as (as_ & ss & E & _ & _ & _ & _ & ? & ? & L0 & L1).
  unfold data_getTransactions. rewrite (bind_ok _ _ _ _ _ Hv). cbn [negb].
  rewrite bind_get. cbn [raw_data_]. rewrite bind_lift, E. revert Hl. intros Hl'.
  pose proof Hl' as Hz. rewrite !zlen_app in Hz.
  rewrite bind_lift, substr_head by done.
  rewrite bind_lift, (substr_mid (a_canonical client) (s_canonical sig)) by done.
  unfold Str2Bin. rewrite bind_lift, sig_ctor_canonical by done. cbv zeta. rewrite bind_lift.
  rewrite (app_assoc (a_canonical client)), substr_tail
    by (rewrite !zlen_app, u64_id by (unfold in_u64; lia); lia).
  rewrite take_ge by (rewrite !zlen_app; unfold zlen; lia).
  rewrite addr_ctor_canonical, bind_lift by done.
  change (data_xfers client price) with (xfer_of <$> payment).
  pose proof (payment_ok ltac:(unfold in_i64; lia)) as Hp.
  pose proof (xfers_canonical_bound payment Hp) as Hx. change (zlen payment) with 2 in Hx.
  pose proof (zlen_nonneg (xfers_canonical payment)).
  unfold t2_ctor_sig. rewrite t2_unsigned_eq by lia.
  pose proof (built_getMessageDigest eOpType.Exchange payment d (mkSignature []) false) as Hm.
  unfold t2_built in Hm. cbn [s_canonical] in Hm. rewrite app_nil_r in Hm.
  rewrite Hm by (rewrite t2_body_length; lia). done.
Qed.
End data_proposal.

(** Data below one coin's worth is free, and then nobody is its sender. *)
Lemma small_payment_unsound `{Crypto} client sig d keys :
  addr_wf client -> 0 < zlen d < kBYTES_PER_COIN -> sig_wf sig ->
  om_find AddressOps.default (key_map_ keys) = None ->
  t2_isSound (t2_built eOpType.Exchange (payment client d) d sig false) keys = Err RuntimeError.
Proof.
  intros Hc Hd Hs Hk. assert (coins_for (zlen d) = 0) as E by (apply Z.div_small; lia).
  assert (Forall view_ok (payment client d)) as Hp
    by (apply payment_ok; [done | rewrite E; unfold in_i64; lia]).
  pose proof (xfers_canonical_bound _ Hp) as Hx. change (zlen (payment client d)) with 2 in Hx.
  pose proof (t2_body_length eOpType.Exchange (payment client d) d).
  assert (zlen (t2_body eOpType.Exchange (payment client d) d ++ s_canonical sig) < 2 ^ 63).
  { rewrite zlen_app. apply sig_wf_parts in Hs as (t & raw & -> & L & Ht). rewrite zlen_cons, L.
    unfold kBYTES_PER_COIN in Hd. unfold_sizes. lia. }
  unfold t2_isSound. rewrite built_getOperation, built_getTransfers by done.
  cbn [t2_built t2_is_sound mbind res_bind]. unfold scan_start.
  assert (has_sender (payment client d) = false /\ zsum (v_amount <$> payment client d) = 0 /\
          sums_ok 0 (payment client d) = true) as (Hh & Hz & Ho)
    by (unfold payment; rewrite E; done).
  rewrite (scan_complete client); try done.
  - rewrite Hh, Hz. cbn [mbind res_bind sn_total sn_sender]. unfold getKey. by rewrite Hk.
  - unfold payment. rewrite E. repeat constructor; cbn [v_amount]; lia.
Qed.

Lemma small_data_bound client sig d :
  addr_wf client -> sig_wf sig -> zlen d < kBYTES_PER_COIN ->
  zlen (a_canonical client ++ s_canonical sig ++ d) < 2 ^ 62.
Proof.
  intros (? & ? & -> & L1 & ?)%addr_wf_parts (? & ? & -> & L2 & ?)%sig_wf_parts Hd.
  rewrite !zlen_app, !zlen_cons, L1, L2. unfold kBYTES_PER_COIN in Hd. unfold_sizes. lia.
Qed.

(** A key is loaded for the text of an address, twice the size of a raw key,
    which the constructor of [Address] does not recognise. *)
Lemma LoadEcKey_size `{Crypto} address key pass k :
  LoadEcKey address key pass = Ok k ->
  zlen address = 2 * kWALLET_ADDR_SIZE \/ zlen address = 2 * kNODE_ADDR_SIZE.
Proof. unfold LoadEcKey. intros E. repeat case_match; bool_to_prop; try done; unfold_sizes; lia. Qed.

Lemma addr_ctor_other v :
  zlen v = 2 * kWALLET_ADDR_SIZE \/ zlen v = 2 * kNODE_ADDR_SIZE -> AddressOps.ctor v = mkAddress v.
Proof. intros [L|L]; unfold AddressOps.ctor; size_cases L; done. Qed.
