(* ===== verification/Pbuf.v ===== *)
(** * pbuf/devv_pbuf.h

    Transactions and proposals in protobuf messages.  The classes of the
    messages are generated from [pbuf/devv.proto]; a message is the record
    of its fields.  Parsing a message from its wire format is generated code and
    a function of the class [ProtoParser]: [ParseFromString] leaves a message
    behind whether it succeeds or not, and the callers ignore its result. *)

From Stdlib Require Import ZArith Lia String.
From stdpp Require Import base list numbers.
From S2P Require Import Prelude OrdMap Converters Keys Buffers Transfer ChainState Summary.
From S2P Require Import Validation KeyRing Context Transactions Blocks Blockchain Oracles.

#[local] Open Scope Z_scope.

(** ** The messages *)
Module Proto.
Record Transfer := mkTransfer { address : bytes; coin : Z; amount : Z; delay : Z }.
Record Transaction := mkTransaction {
  operation : Z; xfers : list Transfer; nonce : bytes; sig : bytes }.
Record Proposal := mkProposal { oraclename : bytes; data_size : Z; data : bytes }.
Record Envelope := mkEnvelope { txs : list Transaction; proposals : list Proposal }.
Record FinalBlock := mkFinalBlock {
  version : Z; num_bytes : Z; block_time : Z; prev_hash : bytes; merkle_root : bytes;
  tx_size : Z; sum_size : Z; val_count : Z; block_txs : list Transaction;
  summary : bytes; vals : bytes }.
Record PendingTransaction := mkPending { signature : bytes; expect_block : Z; shard_index : Z }.
Record AnnouncerResponse := mkAnnouncer {
  return_code : Z; message : bytes; pending : list PendingTransaction }.
Record RepeaterRequest := mkRequest { timestamp : Z; req_operation : Z; uri : bytes }.
Record RepeaterResponse := mkResponse {
  request_timestamp : Z; resp_operation : Z; resp_return_code : Z; resp_message : bytes;
  raw_response : bytes }.
End Proto.

Class ProtoParser := {
  ParseEnvelope : bytes -> Proto.Envelope;
  ParseTransaction : bytes -> Proto.Transaction;
  ParseRepeaterRequest : bytes -> Proto.RepeaterRequest
}.

(** ** The structs of the same file *)
Record PendingTransaction := mkPendingTransaction {
  pending_sig : Signature; pending_expect_block : Z; pending_shard_index : Z }.
Record AnnouncerResponse := mkAnnouncerResponse {
  ar_return_code : Z; ar_message : bytes; ar_pending : list PendingTransaction }.
Record RepeaterRequest := mkRepeaterRequest {
  rr_timestamp : Z; rr_operation : Z; rr_uri : bytes }.
Record RepeaterResponse := mkRepeaterResponse {
  rs_request_timestamp : Z; rs_operation : Z; rs_return_code : Z; rs_message : bytes;
  rs_raw_response : bytes }.

Module Pbuf.
Section pbuf.
Context `{Crypto}.

(** ** Transactions *)

(** The transfers built so far, and the key of the one that takes coins. *)
Definition gather_step (keys : KeyRing) (g : list Transfer * option EC_KEY) (x : Proto.Transfer)
    : res (list Transfer * option EC_KEY) :=
  let address := AddressOps.ctor (Proto.address x) in
  let transfers := g.1 ++ [TransferOps.ctor address (Proto.coin x) (Proto.amount x) (Proto.delay x)] in
  if Proto.amount x <? 0 then
    match g.2 with
    | Some _ => Err RuntimeError
    | None => key ← getKey keys address; Ok (transfers, Some key)
    end
  else Ok (transfers, g.2).

(** The operation is passed as a [byte]. *)
Definition CreateTransaction (transaction : Proto.Transaction) (keys : KeyRing) (do_sign : bool)
    : res Transaction :=
  g ← fold_res (gather_step keys) ([], None) (Proto.xfers transaction);
  match g.2 with
  | None => Err RuntimeError
  | Some key =>
      if do_sign then
        t2tx ← t2_ctor_sign_checked (u8 (Proto.operation transaction)) g.1
                 (Proto.nonce transaction) key keys;
        Ok (tx_clone (Tier2 t2tx))
      else
        signature ← SignatureOps.ctor (Proto.sig transaction);
        t2tx ← t2_ctor_sig_checked (u8 (Proto.operation transaction)) g.1
                 (Proto.nonce transaction) key keys signature;
        Ok (tx_clone (Tier2 t2tx))
  end.

(** The overload for a private key: the public key is that of the sender. *)
Definition gather_pk_step (pk pk_pass : bytes) (g : list Transfer * bytes * option EC_KEY)
    (x : Proto.Transfer) : res (list Transfer * bytes * option EC_KEY) :=
  let '(xs, pub_key, key) := g in
  let address := AddressOps.ctor (Proto.address x) in
  let transfers := xs ++ [TransferOps.ctor address (Proto.coin x) (Proto.amount x) (Proto.delay x)] in
  if Proto.amount x <? 0 then
    match pub_key with
    | _ :: _ => Err RuntimeError
    | [] =>
        pub_key ← AddressOps.getHexString address;
        key ← LoadEcKey pub_key pk pk_pass;
        Ok (transfers, pub_key, Some key)
    end
  else Ok (transfers, pub_key, key).

Definition CreateTransaction_pk (transaction : Proto.Transaction) (pk pk_pass : bytes)
    : res Tier2Transaction :=
  g ← fold_res (gather_pk_step pk pk_pass) ([], [], None) (Proto.xfers transaction);
  match g.2 with
  | None => Err RuntimeError
  | Some key => t2_ctor_sign (u8 (Proto.operation transaction)) g.1.1 (Proto.nonce transaction) key
  end.

(** ** Proposals *)
Definition validateOracle (oracle : oracleInterface) (chain : Blockchain)
    : M Oracle (list Transaction) :=
  ok ← isValid oracle chain;
  if (ok : bool) then
    oracle_actions ← getTransactions oracle chain;
    mret (flat_map (fun it => (fun tx => tx_clone (Tier2 tx)) <$> it.2) oracle_actions)
  else mret [].

(** The chain of comparisons of the name with that of each oracle. *)
Definition find_oracle (oracle_name : bytes) : option oracleInterface :=
  List.find (fun i => bool_decide (oracle_name = getOracleName i)) oracles.

Definition SignProposal (proposal : Proto.Proposal) (addr pk pk_pass : bytes) : res bytes :=
  match find_oracle (Proto.oraclename proposal) with
  | Some oracle => fst (Sign oracle addr pk pk_pass (oracle_ctor (Proto.data proposal)))
  | None => Ok []
  end.

Definition DecomposeProposal (proposal : Proto.Proposal) (chain : Blockchain)
    : res (list Transaction) :=
  match find_oracle (Proto.oraclename proposal) with
  | Some oracle => fst (validateOracle oracle chain (oracle_ctor (Proto.data proposal)))
  | None => Ok []
  end.

Context `{ProtoParser}.

(** The proposals are judged over a chain that is created empty. *)
Definition DeserializeEnvelopeProtobufString (pb_envelope : bytes) (keys : KeyRing)
    : res (list Transaction) :=
  let envelope := ParseEnvelope pb_envelope in
  ptrs ← map_res (fun tx => CreateTransaction tx keys false) (Proto.txs envelope);
  actions ← map_res (fun p => DecomposeProposal p bc_empty) (Proto.proposals envelope);
  Ok (ptrs ++ concat actions).

Definition DeserializeTxProtobufString (pb_tx : bytes) (keys : KeyRing) (do_sign : bool)
    : res Transaction :=
  CreateTransaction (ParseTransaction pb_tx) keys do_sign.

Definition DeserializeRepeaterRequest (pb_request : bytes) : RepeaterRequest :=
  let r := ParseRepeaterRequest pb_request in
  mkRepeaterRequest (Proto.timestamp r) (Proto.req_operation r) (Proto.uri r).

(** ** Responses *)
Definition SerializeAnnouncerResponse (response : AnnouncerResponse) : Proto.AnnouncerResponse :=
  Proto.mkAnnouncer (ar_return_code response) (ar_message response)
    ((fun p => Proto.mkPending (SignatureOps.getCanonical (pending_sig p))
                 (pending_expect_block p) (pending_shard_index p)) <$> ar_pending response).

Definition SerializeRepeaterResponse (response : RepeaterResponse) : Proto.RepeaterResponse :=
  Proto.mkResponse (rs_request_timestamp response) (rs_operation response)
    (rs_return_code response) (rs_message response) (rs_raw_response response).

(** ** Blocks and transactions *)

(** [std::string s(std::begin(u), std::end(v))] where [u] and [v] are different
    vectors: here two temporaries, one per call of [getAddress]. *)
Definition string_between (u v : bytes) : res bytes := UB.

Definition SerializeTransfer (xfer : Transfer) : res Proto.Transfer :=
  a ← TransferOps.getAddress xfer;
  b ← TransferOps.getAddress xfer;
  addr ← string_between (AddressOps.getCanonical a) (AddressOps.getCanonical b);
  coin ← TransferOps.getCoin xfer;
  amount ← TransferOps.getAmount xfer;
  delay ← TransferOps.getDelay xfer;
  Ok (Proto.mkTransfer addr coin amount delay).

Definition SerializeTransaction (one_tx : Tier2Transaction) : res Proto.Transaction :=
  operation ← t2_getOperation one_tx;
  nonce ← t2_getNonce one_tx;
  old ← t2_getTransfers one_tx;
  xfers ← map_res SerializeTransfer old;
  sig ← t2_getSignature one_tx;
  Ok (Proto.mkTransaction operation xfers nonce (SignatureOps.getCanonical sig)).

Definition serialize_raw (one_tx : bytes) : res Proto.Transaction :=
  tx ← fst (t2_QuickCreate (mkIB one_tx 0));
  SerializeTransaction tx.

Definition SerializeFinalBlock (block : FinalBlock) : res Proto.FinalBlock :=
  txs ← map_res serialize_raw (fb_raw_transactions block);
  Ok (Proto.mkFinalBlock (fb_version block) (fb_num_bytes block) (fb_block_time block)
        (fb_prev_hash block) (fb_merkle_root block) (fb_tx_size block) (fb_sum_size block)
        (fb_val_count block) txs (SummaryOps.getCanonical (fb_summary block))
        (ValidationOps.getCanonical (fb_vals block))).

Definition SerializeEnvelopeFromBinaryTransactions (txs : list bytes) : res Proto.Envelope :=
  pbuf_txs ← map_res serialize_raw txs;
  Ok (Proto.mkEnvelope pbuf_txs []).
End pbuf.
End Pbuf.

(** ** Properties of the conversions *)
Section pbuf_lemmas.
Context `{Crypto}.

(** The message of a transfer and of a transaction. *)
Definition proto_xfer (v : tview) : Proto.Transfer :=
  Proto.mkTransfer (a_canonical (v_addr v)) (v_coin v) (v_amount v) (v_delay v).

Definition proto_tx (oper : Z) (vs : list tview) (nonce : bytes) (sig : bytes) : Proto.Transaction :=
  Proto.mkTransaction oper (proto_xfer <$> vs) nonce sig.

(** How many transfers take coins. *)
Definition senders (xs : list Proto.Transfer) : nat :=
  length (List.filter (fun x => Proto.amount x <? 0) xs).

Definition seen {A} (o : option A) : nat := match o with Some _ => 1 | None => 0 end.

(** Gathering succeeds only while at most one transfer takes coins. *)
Lemma gather_senders keys xs : forall g g',
  fold_res (Pbuf.gather_step keys) g xs = Ok g' ->
  (senders xs + seen g.2 = seen g'.2 /\ senders xs + seen g.2 <= 1)%nat.
Proof.
  unfold senders. induction xs as [|x xs IH]; intros [l k] g' E; cbn [fold_res snd] in *.
  - simplify_eq. cbn. destruct k; cbn; lia.
  - minv. apply IH in E. unfold Pbuf.gather_step in H0. cbn [fst snd List.filter] in *.
    destruct (Proto.amount x <? 0); [|simplify_eq; done].
    destruct k; [done|]. minv. simplify_eq. cbn [length seen snd] in *. lia.
Qed.

Lemma gather_step_view keys l k v : view_ok v ->
  Pbuf.gather_step keys (l, k) (proto_xfer v) =
    if v_amount v <? 0 then
      match k with
      | Some _ => Err RuntimeError
      | None => key ← getKey keys (v_addr v); Ok (l ++ [xfer_of v], Some key)
      end
    else Ok (l ++ [xfer_of v], k).
Proof.
  intros (W & _). unfold Pbuf.gather_step, proto_xfer, xfer_of.
  cbn [Proto.address Proto.coin Proto.amount Proto.delay fst snd].
  by rewrite addr_ctor_canonical by done.
Qed.

(** With one sender the transfers come out in order with the sender's key. *)
Lemma gather_views keys a key vs : Forall view_ok vs ->
  Forall (fun v => v_amount v < 0 -> v_addr v = a) vs -> getKey keys a = Ok key ->
  forall l k, (senders (proto_xfer <$> vs) + seen k <= 1)%nat ->
  fold_res (Pbuf.gather_step keys) (l, k) (proto_xfer <$> vs) =
    Ok (l ++ (xfer_of <$> vs), if has_sender vs then Some key else k).
Proof.
  intros W F Hk. revert F. induction W as [|v vs Wv W IH]; intros F l k N.
  - cbn. by rewrite app_nil_r.
  - inversion_clear F as [|? ? Fv F']. rewrite fmap_cons. cbn [fold_res].
    rewrite gather_step_view by done. unfold senders in *. rewrite fmap_cons in N.
    cbn [List.filter has_sender existsb] in *. change (Proto.amount (proto_xfer v)) with (v_amount v) in N.
    destruct (v_amount v <? 0) eqn:E; bool_to_prop.
    + destruct k; [cbn [length seen] in N; lia|]. rewrite Fv, Hk by done. cbn [mbind res_bind].
      rewrite IH by (try done; cbn [length seen] in *; lia). rewrite <- app_assoc. cbn [app orb].
      rewrite fmap_cons. by destruct (has_sender vs).
    + cbn [mbind res_bind]. rewrite IH by done. rewrite <- app_assoc. cbn [app orb].
      by rewrite fmap_cons.
Qed.

(** A transfer cannot be serialised. *)
Lemma SerializeTransfer_undefined v : view_ok v -> Pbuf.SerializeTransfer (xfer_of v) = UB.
Proof. intros W. unfold Pbuf.SerializeTransfer. by rewrite xfer_getAddress. Qed.

Lemma SerializeTransaction_undefined oper v vs nonce sig flag :
  Forall view_ok (v :: vs) ->
  zlen (t2_body oper (v :: vs) nonce ++ s_canonical sig) < 2 ^ 63 ->
  Pbuf.SerializeTransaction (t2_built oper (v :: vs) nonce sig flag) = UB.
Proof.
  intros W Hl. unfold Pbuf.SerializeTransaction.
  rewrite built_getOperation, built_getNonce, built_getTransfers by done. cbn [mbind res_bind].
  rewrite fmap_cons. cbn [map_res]. inversion_clear W. by rewrite SerializeTransfer_undefined.
Qed.

(** ** Oracles behind the interface *)

(** Whatever the oracle, as long as it keeps the contract: a transaction comes
    out only of a proposal that the oracle accepts. *)
Lemma validateOracle_inv (i : oracleInterface) `{!OracleLaws i} c o txs o' :
  Pbuf.validateOracle i c o = (Ok txs, o') -> txs <> [] ->
  isSound i o = (Ok true, o) /\ isValid i c o = (Ok true, o) /\
  exists tx, getTransactions i c o = (Ok [(getShardIndex i, [tx])], o) /\ txs = [Tier2 tx].
Proof.
  unfold Pbuf.validateOracle. intros E N. apply bind_inv_ok in E as (b & o1 & Eb & E).
  destruct b; [|unfold mret, M_ret in E; by simplify_eq].
  pose proof (valid_is_sound _ _ _ Eb) as [Hs ->].
  apply bind_inv_ok in E as (m & o2 & Em & E). unfold mret, M_ret in E. simplify_eq.
  pose proof (transactions_valid _ _ _ _ Em) as Hm. destruct m as [|p m]; [done|].
  destruct (Hm ltac:(done)) as (Ev & tx & Et). rewrite Eb in Ev. simplify_eq.
  do 2 (split; [done|]). exists tx. split; [done|]. by destruct tx.
Qed.

Lemma find_oracle_In name i : Pbuf.find_oracle name = Some i ->
  i ∈ oracles /\ getOracleName i = name.
Proof.
  intros E. apply List.find_some in E as [Hi Hn]. bool_to_prop.
  split; [by apply list_elem_of_In | done].
Qed.

(** A data proposal, decomposed. *)
Lemma decompose_data client sig d chain st n size :
  addr_wf client -> sig_wf sig -> d <> [] ->
  zlen (a_canonical client ++ s_canonical sig ++ d) < 2 ^ 62 ->
  bc_getHighestChainState chain = Ok st -> ChainStateOps.getAmount st 6 client = Ok n ->
  Pbuf.DecomposeProposal
    (Proto.mkProposal (text "io.devv.data") size (a_canonical client ++ s_canonical sig ++ d)) chain =
  Ok (if n <? zlen d / kBYTES_PER_COIN then []
      else [Tier2 (t2_built eOpType.Exchange (payment client d) d sig false)]).
Proof.
  intros Hc Hs Hd Hl Hst Hn. unfold Pbuf.DecomposeProposal. cbn [Proto.oraclename Proto.data].
  change (Pbuf.find_oracle _) with (Some data). cbv iota beta.
  pose proof (data_isValid_run client sig d [] Hc Hs Hd Hl chain st n Hst Hn) as Hv.
  unfold Pbuf.validateOracle, oracle_ctor. cbn [data isValid getTransactions].
  unfold mbind at 1, M_bind at 1. rewrite Hv. unfold coins_for in *.
  destruct (n <? zlen d / kBYTES_PER_COIN); [done|]. cbn [refuse mret M_ret] in *.
  unfold mret, M_ret in *. unfold mbind, M_bind.
  by rewrite (data_getTransactions_run client sig d [] Hc Hs Hd Hl chain Hv).
Qed.
End pbuf_lemmas.
