(* ===== verification/Pool.v ===== *)
(** * consensus/UnrecordedTransactionPool.h

    Transactions waiting for a block, keyed by signature with a reference
    count, and the proposal under construction.  The two mutexes are part of
    the state: a method locks on entry and unlocks on every exit, and locking a
    mutex that the same thread holds is undefined.  Logging, timing and the
    sleep of a slow proposer are not modelled. *)

From Stdlib Require Import ZArith Lia.
From stdpp Require Import base list numbers.
From S2P Require Import Prelude OrdMap Converters Keys Buffers Transfer ChainState Summary.
From S2P Require Import Validation KeyRing Context Transactions Blocks.

Section pool.
Context `{Crypto}.

(** [SharedTransaction] is a reference count and a transaction. *)
Abbreviation TxMap := (omap Signature (Z * Transaction)) (only parsing).

Record Pool := mkPool {
  txs_ : TxMap;
  txs_locked : bool;
  pending_proposal_ : ProposedBlock;
  proposal_locked : bool;
  num_cum_txs_ : Z;
  max_tx_per_block_ : Z;
  mode_ : eAppMode
}.

Definition pool_ctor (prior : ChainState) (mode : eAppMode) (max_tx_per_block : Z) : Pool :=
  mkPool [] false (pb_Create prior) false 0 max_tx_per_block mode.

Definition set_txs (p : Pool) (txs : TxMap) (cum : Z) : Pool :=
  mkPool txs (txs_locked p) (pending_proposal_ p) (proposal_locked p) cum
         (max_tx_per_block_ p) (mode_ p).
Definition set_txs_lock (p : Pool) (b : bool) : Pool :=
  mkPool (txs_ p) b (pending_proposal_ p) (proposal_locked p) (num_cum_txs_ p)
         (max_tx_per_block_ p) (mode_ p).
Definition set_proposal (p : Pool) (b : ProposedBlock) : Pool :=
  mkPool (txs_ p) (txs_locked p) b (proposal_locked p) (num_cum_txs_ p)
         (max_tx_per_block_ p) (mode_ p).
Definition set_proposal_lock (p : Pool) (b : bool) : Pool :=
  mkPool (txs_ p) (txs_locked p) (pending_proposal_ p) b (num_cum_txs_ p)
         (max_tx_per_block_ p) (mode_ p).

(** [std::lock_guard<std::mutex> guard(txs_mutex_)] around a body. *)
Definition with_txs_lock {A} (body : M Pool A) : M Pool A := fun p =>
  if txs_locked p then (UB, p)
  else let '(r, p') := body (set_txs_lock p true) in (r, set_txs_lock p' false).

Definition with_proposal_lock {A} (body : M Pool A) : M Pool A := fun p =>
  if proposal_locked p then (UB, p)
  else let '(r, p') := body (set_proposal_lock p true) in (r, set_proposal_lock p' false).

(** The body of the loop of [AddTransactions]: whether the transaction is in
    the pool. *)
Definition add_one (keys : KeyRing) (item : Transaction) : M Pool bool :=
  sig ← lift (tx_getSignature item);
  p ← get;
  match om_find sig (txs_ p) with
  | Some (count, tx) =>
      put (set_txs p (om_put sig (u8 (count + 1), tx) (txs_ p)) (num_cum_txs_ p));;
      mret true
  | None =>
      ok ← lift (tx_isSound item keys);
      if (ok : bool) then
        put (set_txs p (fst (om_insert sig (1, item) (txs_ p))) (u64 (num_cum_txs_ p + 1)));;
        mret true
      else mret false
  end.

Fixpoint add_loop (keys : KeyRing) (txs : list Transaction) (all_good : bool) : M Pool bool :=
  match txs with
  | [] => mret all_good
  | item :: rest =>
      ok ← add_one keys item;
      add_loop keys rest (if (ok : bool) then all_good else false)
  end.

Definition AddTransactions (keys : KeyRing) (txs : list Transaction) : M Pool bool :=
  with_txs_lock (try_catch (add_loop keys txs true) (fun _ => mret false)).

(** The overload for serialised transactions, which are checked as they are
    read. *)
Definition read_tx_step (keys : KeyRing) (mode : eAppMode) (acc : list Transaction)
    : P (list Transaction) :=
  tx ← CreateTransaction keys mode true;
  mret (acc ++ [tx]).

Definition AddTransactions_serial (keys : KeyRing) (serial : bytes) : M Pool bool :=
  p ← get;
  temp ← lift (fst (offset_fold (read_tx_step keys (mode_ p)) (zlen serial) [] (mkIB serial 0)));
  AddTransactions keys temp.

(** [it->second] is read before [it] is compared with [end()]. *)
Definition verify_one (keys : KeyRing) (item : Transaction) : M (Pool * VCtx) bool :=
  sig ← lift (tx_getSignature item);
  s ← get;
  match om_find sig (txs_ s.1) with
  | None => undef
  | Some (count, tx) =>
      let '(r, c) := tx_isValid tx keys s.2 in
      put (s.1, c);;
      valid ← lift r;
      if negb valid then mret false
      else
        put (set_txs s.1 (om_put sig (u8 (count + 1), tx) (txs_ s.1)) (num_cum_txs_ s.1), c);;
        mret true
  end.

Fixpoint verify_loop (keys : KeyRing) (txs : list Transaction) : M (Pool * VCtx) bool :=
  match txs with
  | [] => mret true
  | item :: rest =>
      ok ← verify_one keys item;
      if (ok : bool) then verify_loop keys rest else mret false
  end.

Definition AddAndVerifyTransactions (keys : KeyRing) (txs : list Transaction)
    : M (Pool * VCtx) bool := fun s =>
  if txs_locked s.1 then (UB, s)
  else let '(r, s') := verify_loop keys txs (set_txs_lock s.1 true, s.2) in
       (r, (set_txs_lock s'.1 false, s'.2)).

Definition pool_getCanonical : M Pool bytes :=
  with_txs_lock (p ← get; mret (concat ((fun e => tx_getCanonical e.2.2) <$> txs_ p))).

Definition HasPendingTransactions : M Pool bool :=
  with_txs_lock (p ← get; mret (match txs_ p with [] => false | _ => true end)).

Definition NumPendingTransactions : M Pool Z :=
  with_txs_lock (p ← get; mret (zlen (txs_ p))).

(** The loop of [CollectValidTransactions]: the valid transactions, and the
    pool's entries with their new counts.  The state and the summary keep what
    a refused transaction wrote before it was refused. *)
Fixpoint collect_loop (keys : KeyRing) (prior : ChainState) (max_txs num_txs : Z) (entries : TxMap)
    : M VCtx (list Transaction * TxMap) :=
  match entries with
  | [] => mret ([], [])
  | (sig, (count, tx)) :: rest =>
      ok ← tx_isValidInAggregate tx keys prior;
      if (ok : bool) then
        let num_txs := u32 (num_txs + 1) in
        if max_txs <=? num_txs
        then mret ([tx_clone tx], (sig, (u8 (count + 1), tx)) :: rest)
        else
          r ← collect_loop keys prior max_txs num_txs rest;
          mret (tx_clone tx :: r.1, (sig, (u8 (count + 1), tx)) :: r.2)
      else
        r ← collect_loop keys prior max_txs num_txs rest;
        mret (r.1, (sig, (count, tx)) :: r.2)
  end.

(** The valid transactions with the state and the summary they lead to. *)
Definition CollectValidTransactions (keys : KeyRing) (state : ChainState) (summary : Summary)
    : M Pool (list Transaction * ChainState * Summary) :=
  with_txs_lock (
    p ← get;
    let '(r, c) := collect_loop keys state (max_tx_per_block_ p) 0 (txs_ p)
                     (mkVCtx state summary []) in
    vs ← lift r;
    put (set_txs p vs.2 (num_cum_txs_ p));;
    mret (vs.1, v_state c, v_summary c)).

Definition ProposeBlock (prev_hash : bytes) (prior_state : ChainState) (keys : KeyRing)
    (context : DevcashContext) : M Pool bool :=
  validated ← CollectValidTransactions keys prior_state SummaryOps.Create;
  let new_proposal := pb_ctor prev_hash validated.1.1 validated.2 ValidationOps.Create
                        validated.1.2 in
  signed ← lift (pb_signBlock new_proposal keys context);
  with_proposal_lock (
    p ← get;
    put (set_proposal p (pb_shallowCopy (pending_proposal_ p) signed.2).1));;
  mret true.

Definition HasProposal : M Pool bool :=
  with_proposal_lock (p ← get; mret (negb (pb_isNull (pending_proposal_ p)))).

Definition getProposal : M Pool bytes :=
  with_proposal_lock (p ← get; mret (pb_getCanonical (pending_proposal_ p))).

(** The loop of [ReverifyTransactions]. *)
Fixpoint reverify_loop (keys : KeyRing) (prior : ChainState) (txs : list Transaction)
    : M VCtx bool :=
  match txs with
  | [] => mret true
  | tx :: rest =>
      ok ← tx_isValidInAggregate tx keys prior;
      if negb ok then mret false else reverify_loop keys prior rest
  end.

Definition ReverifyTransactions (prior : ChainState) (keys : KeyRing) : M Pool bool :=
  with_txs_lock (
    p ← get;
    lift (fst (reverify_loop keys prior (pb_transactions (pending_proposal_ p))
                 (mkVCtx prior SummaryOps.Create [])))).

Definition ReverifyProposal (prev_hash : bytes) (prior : ChainState) (keys : KeyRing)
    (context : DevcashContext) : M Pool bool :=
  with_proposal_lock (
    p ← get;
    if pb_isNull (pending_proposal_ p) then mret false
    else
      ok ← ReverifyTransactions prior keys;
      if (ok : bool) then
        p ← get;
        put (set_proposal p (pb_setPrevHash (pending_proposal_ p) prev_hash));;
        mret true
      else
        ProposeBlock prev_hash prior keys context;;
        mret false).

Definition CheckValidation (context : DevcashContext) (buffer : InputBuffer) : M Pool bool :=
  with_proposal_lock (
    p ← get;
    if pb_isNull (pending_proposal_ p) then mret false
    else
      r ← lift (fst (pb_checkValidationData (pending_proposal_ p) context buffer));
      put (set_proposal p r.2);;
      mret r.1).

(** The signatures of the block's transactions are erased one by one. *)
Fixpoint remove_loop (txs : list Transaction) : M Pool bool :=
  match txs with
  | [] => mret true
  | item :: rest =>
      sig ← lift (tx_getSignature item);
      p ← get;
      put (set_txs p (om_del sig (txs_ p)) (num_cum_txs_ p));;
      remove_loop rest
  end.

Definition RemoveTransactions (proposed : ProposedBlock) : M Pool bool :=
  with_txs_lock (remove_loop (pb_transactions proposed)).

Definition FinalizeBlock (now : Z) (proposal : ProposedBlock) : M Pool FinalBlock :=
  RemoveTransactions proposal;;
  mret (fb_of_proposed now proposal).

Definition FinalizeLocalBlock (now : Z) : M Pool FinalBlock :=
  with_proposal_lock (
    p ← get;
    final_block ← FinalizeBlock now (pending_proposal_ p);
    p ← get;
    put (set_proposal p (pb_setNull (pending_proposal_ p)));;
    mret final_block).

(** Neither the transactions nor the proposal of the pool are touched. *)
Definition FinalizeRemoteBlock (prior : ChainState) (keys : KeyRing) (buffer : InputBuffer)
    : M Pool FinalBlock :=
  p ← get;
  lift (fst (fb_from_remote prior keys (mode_ p) buffer)).

Definition GarbageCollect : M Pool Z := mret 0.
End pool.

(** ** Locks *)
Section locks.
Context `{Crypto}.

Definition locks (a b : bool) (p : Pool) : Prop := txs_locked p = a /\ proposal_locked p = b.

(** A method leaves both mutexes as it found them. *)
Definition lock_neutral {A} (m : M Pool A) : Prop := forall a b, keeps (locks a b) m.

Lemma neutral_ret {A} (x : A) : lock_neutral (mret x).
Proof. intros a b. apply keeps_ret. Qed.

Lemma neutral_lift {A} (r : res A) : lock_neutral (lift r).
Proof. intros a b. apply keeps_lift. Qed.

Lemma neutral_bind {A B} (m : M Pool A) (f : A -> M Pool B) :
  lock_neutral m -> (forall x, lock_neutral (f x)) -> lock_neutral (m ≫= f).
Proof. intros Hm Hf a b. apply keeps_bind; [apply Hm | intros; apply Hf]. Qed.

Lemma neutral_try {A} (m : M Pool A) h :
  lock_neutral m -> (forall e, lock_neutral (h e)) -> lock_neutral (try_catch m h).
Proof. intros Hm Hh a b. apply keeps_try; [apply Hm | intros; apply Hh]. Qed.

(** A read followed by writes of the fields that are not mutexes. *)
Lemma neutral_get {A} (f : Pool -> M Pool A) :
  (forall p a b, locks a b p -> locks a b (snd (f p p))) -> lock_neutral (get ≫= f).
Proof. intros Hf a b p L. rewrite bind_get. by apply Hf. Qed.

Lemma neutral_txs_lock {A} (m : M Pool A) : lock_neutral m -> lock_neutral (with_txs_lock m).
Proof.
  intros Hm a b p [Ha Hb]. unfold with_txs_lock. destruct (txs_locked p) eqn:E; [subst; by split|].
  subst. specialize (Hm true _ (set_txs_lock p true) (conj eq_refl eq_refl)).
  destruct (m _) as [r p']. destruct Hm. by split.
Qed.

Lemma neutral_proposal_lock {A} (m : M Pool A) :
  lock_neutral m -> lock_neutral (with_proposal_lock m).
Proof.
  intros Hm a b p [Ha Hb]. unfold with_proposal_lock. destruct (proposal_locked p) eqn:E; [subst; by split|].
  subst. specialize (Hm _ true (set_proposal_lock p true) (conj eq_refl eq_refl)).
  destruct (m _) as [r p']. destruct Hm. by split.
Qed.

Lemma add_one_neutral keys item : lock_neutral (add_one keys item).
Proof.
  apply neutral_bind; [apply neutral_lift | intros sig]. apply neutral_get. intros p a b L.
  destruct (om_find sig (txs_ p)) as [[n tx]|]; [done|].
  mstep. by destruct (tx_isSound item keys) as [[]| | |].
Qed.

Lemma AddTransactions_neutral keys txs : lock_neutral (AddTransactions keys txs).
Proof.
  apply neutral_txs_lock, neutral_try; [|intros; apply neutral_ret]. generalize true.
  induction txs as [|t txs IH]; intros g; cbn [add_loop]; [apply neutral_ret|].
  apply neutral_bind; [apply add_one_neutral | intros; apply IH].
Qed.

Lemma Collect_neutral keys st s : lock_neutral (CollectValidTransactions keys st s).
Proof.
  apply neutral_txs_lock, neutral_get. intros p a b L.
  destruct (collect_loop _ _ _ _ _ _) as [[r| | |] c]; done.
Qed.

Lemma ProposeBlock_neutral h st keys ctx : lock_neutral (ProposeBlock h st keys ctx).
Proof.
  apply neutral_bind; [apply Collect_neutral | intros v].
  apply neutral_bind; [apply neutral_lift | intros b].
  apply neutral_bind; [|intros; apply neutral_ret].
  apply neutral_proposal_lock, neutral_get. done.
Qed.

Lemma Reverify_neutral st keys : lock_neutral (ReverifyTransactions st keys).
Proof. apply neutral_txs_lock, neutral_get. done. Qed.

Lemma ReverifyProposal_neutral h st keys ctx : lock_neutral (ReverifyProposal h st keys ctx).
Proof.
  apply neutral_proposal_lock. intros a b p L. rewrite bind_get. case_match; [done|].
  revert p L H0. intros p L _. revert a b p L.
  apply neutral_bind; [apply Reverify_neutral|]. intros [].
  - by apply neutral_get.
  - apply neutral_bind; [apply ProposeBlock_neutral | intros; apply neutral_ret].
Qed.

Lemma CheckValidation_neutral ctx buf : lock_neutral (CheckValidation ctx buf).
Proof.
  apply neutral_proposal_lock, neutral_get. intros p a b L. case_match; [done|].
  mstep. by destruct (fst _).
Qed.

Lemma Remove_neutral pb : lock_neutral (RemoveTransactions pb).
Proof.
  apply neutral_txs_lock. induction (pb_transactions pb) as [|t l IH]; cbn [remove_loop];
    [apply neutral_ret|].
  apply neutral_bind; [apply neutral_lift | intros sig]. intros a b p L. rewrite bind_get, bind_put.
  by apply IH.
Qed.

Lemma FinalizeLocal_neutral now : lock_neutral (FinalizeLocalBlock now).
Proof.
  apply neutral_proposal_lock. intros a b p L. rewrite bind_get. revert a b L.
  assert (forall pb, lock_neutral (f ← FinalizeBlock now pb; p ← get;
    put (set_proposal p (pb_setNull (pending_proposal_ p)));; mret f)) as N.
  { intros pb. apply neutral_bind; [apply neutral_bind;
      [apply Remove_neutral | intros; apply neutral_ret] | intros; by apply neutral_get]. }
  intros a b L. by apply N.
Qed.

(** The nested lock: [ReverifyProposal] holds the proposal's mutex when
    [ProposeBlock] locks it. *)
Lemma ReverifyProposal_relocks h prior keys ctx p p1 v p2 signed :
  proposal_locked p = false -> pb_isNull (pending_proposal_ p) = false ->
  ReverifyTransactions prior keys (set_proposal_lock p true) = (Ok false, p1) ->
  CollectValidTransactions keys prior SummaryOps.Create p1 = (Ok v, p2) ->
  pb_signBlock (pb_ctor h v.1.1 v.2 ValidationOps.Create v.1.2) keys ctx = Ok signed ->
  fst (ReverifyProposal h prior keys ctx p) = UB.
Proof.
  intros L N R C S. unfold ReverifyProposal, with_proposal_lock at 1. rewrite L, bind_get.
  change (pb_isNull (pending_proposal_ (set_proposal_lock p true))) with
    (pb_isNull (pending_proposal_ p)). rewrite N. mrun R.
  assert (proposal_locked p2 = true) as L2.
  { pose proof (Reverify_neutral prior keys (txs_locked p) true (set_proposal_lock p true)
      (conj eq_refl eq_refl)) as [T1 P1]. rewrite R in T1, P1. cbn [snd] in *.
    pose proof (Collect_neutral keys prior SummaryOps.Create (txs_locked p) true p1
      (conj T1 P1)) as [_ P2]. by rewrite C in P2. }
  unfold ProposeBlock. rewrite bind_assoc. mrun C. rewrite bind_assoc. mstep. rewrite S.
  rewrite bind_assoc. unfold with_proposal_lock. unfold mbind at 1, M_bind at 1. by rewrite L2.
Qed.
End locks.

(** ** Contents *)
Section contents.
Context `{Crypto}.
Context (keys : KeyRing).

(** Entries in order, each under its own signature and sound. *)
Definition entry_ok (e : Signature * (Z * Transaction)) : Prop :=
  tx_getSignature e.2.2 = Ok e.1 /\ tx_isSound e.2.2 keys = Ok true.

Definition pool_ok (p : Pool) : Prop := om_sorted (txs_ p) /\ Forall entry_ok (txs_ p).

Lemma add_one_keeps item : keeps pool_ok (add_one keys item).
Proof.
  intros p [S F]. unfold add_one. mstep. destruct (tx_getSignature item) as [sig| | |] eqn:Es; try done.
  mstep. destruct (om_find sig (txs_ p)) as [[n tx]|] eqn:E.
  - mstep. cbn. split; [by apply om_put_sorted|]. apply om_put_Forall; [done|].
    apply (om_find_Forall _ _ _ _ F E).
  - mstep. destruct (tx_isSound item keys) as [[]| | |] eqn:Eo; try done. mstep. cbn.
    split; [by apply om_insert_sorted|]. rewrite om_insert_None by done.
    by apply om_put_Forall.
Qed.

Lemma add_loop_keeps txs g : keeps pool_ok (add_loop keys txs g).
Proof.
  revert g; induction txs as [|t txs IH]; intros g; cbn [add_loop]; [apply keeps_ret|].
  apply keeps_bind; [apply add_one_keeps | intros; apply IH].
Qed.

Lemma AddTransactions_keeps txs : keeps pool_ok (AddTransactions keys txs).
Proof.
  intros p C. unfold AddTransactions, with_txs_lock. case_match; [done|].
  pose proof (keeps_try pool_ok (add_loop keys txs true) (fun _ => mret false)
    (add_loop_keeps txs true) (fun _ => keeps_ret _ _) (set_txs_lock p true) C) as K.
  by destruct (try_catch _ _ _).
Qed.

Definition in_pool (p : Pool) (sig : Signature) : Prop := is_Some (om_find sig (txs_ p)).

Lemma add_one_in item p p' :
  add_one keys item p = (Ok true, p') ->
  exists sig, tx_getSignature item = Ok sig /\ in_pool p' sig /\
    (forall s, in_pool p s -> in_pool p' s).
Proof.
  unfold add_one. intros E. mstep. autorewrite with mrun in E.
  destruct (tx_getSignature item) as [sig| | |]; try done.
  autorewrite with mrun in E. exists sig. split; [done|].
  assert (forall v s, in_pool p s -> is_Some (om_find s (om_put sig v (txs_ p)))) as K.
  { intros v s [x Hx]. destruct (decide (s = sig)) as [->|N].
    - rewrite om_find_put_eq. eauto.
    - rewrite om_find_put_ne by done. eauto. }
  destruct (om_find sig (txs_ p)) as [[n tx]|] eqn:Ef; autorewrite with mrun in E.
  - unfold mret, M_ret in E. simplify_eq. unfold in_pool. cbn. rewrite om_find_put_eq. eauto.
  - destruct (tx_isSound item keys) as [[]| | |]; try done. autorewrite with mrun in E.
    unfold mret, M_ret in E. simplify_eq. unfold in_pool. cbn. rewrite om_insert_None by done.
    cbn [fst]. rewrite om_find_put_eq. eauto.
Qed.

(** A true answer: everything that was offered is in the pool. *)
Lemma add_loop_false txs p p' r : add_loop keys txs false p = (Ok r, p') -> r = false.
Proof.
  revert p; induction txs as [|t txs IH]; intros p E; cbn [add_loop] in E; minv; [done|].
  destruct a; eauto.
Qed.

Lemma add_loop_in txs : forall p p',
  add_loop keys txs true p = (Ok true, p') ->
  Forall (fun t => exists sig, tx_getSignature t = Ok sig /\ in_pool p' sig) txs /\
  (forall s, in_pool p s -> in_pool p' s).
Proof.
  induction txs as [|t txs IH]; intros p p' E; cbn [add_loop] in E; minv; [by split|].
  destruct a; [|by apply add_loop_false in E].
  destruct (IH _ _ E) as [F K]. apply add_one_in in H0 as (sig & Hs & Hi & Hk).
  split; [constructor; eauto | eauto].
Qed.

Lemma AddTransactions_in txs p p' :
  AddTransactions keys txs p = (Ok true, p') ->
  Forall (fun t => exists sig, tx_getSignature t = Ok sig /\ in_pool p' sig) txs /\
  (forall s, in_pool p s -> in_pool p' s).
Proof.
  unfold AddTransactions, with_txs_lock. case_match; [done|]. intros E.
  destruct (try_catch _ _ _) as [r p1] eqn:Et. simplify_eq. apply try_false_inv in Et.
  by apply add_loop_in in Et.
Qed.

(** The converse: sound transactions are all accepted. *)
Lemma add_loop_sound txs : forall p,
  Forall (fun t => exists sig, tx_getSignature t = Ok sig /\ tx_isSound t keys = Ok true) txs ->
  exists p', add_loop keys txs true p = (Ok true, p').
Proof.
  induction txs as [|t txs IH]; intros p F; cbn [add_loop]; [by eexists|].
  inversion F as [|? ? (sig & Hs & Hv) F']; subst.
  assert (exists p1, add_one keys t p = (Ok true, p1)) as (p1 & E).
  { unfold add_one. mstep. rewrite Hs. mstep.
    destruct (om_find sig (txs_ p)) as [[n tx]|]; mstep; [by eexists|]. rewrite Hv. by eexists. }
  mrun E. by apply IH.
Qed.

(** A tier 2 transaction that is not sound makes [isSound] throw: the loop
    ends there and what follows it is not added. *)
Lemma AddTransactions_aborts bad rest p sig e :
  txs_locked p = false -> tx_getSignature bad = Ok sig -> om_find sig (txs_ p) = None ->
  tx_isSound bad keys = Err e -> is_std_exception e = true ->
  AddTransactions keys (bad :: rest) p = (Ok false, p).
Proof.
  intros L Hs Hf Hb He. unfold AddTransactions, with_txs_lock. rewrite L.
  unfold try_catch. cbn [add_loop].
  assert (add_one keys bad (set_txs_lock p true) = (Err e, set_txs_lock p true)) as E.
  { unfold add_one. mstep. rewrite Hs. mstep. cbn [set_txs_lock txs_]. rewrite Hf. mstep.
    by rewrite Hb. }
  rewrite (bind_err _ _ _ _ _ E), He. cbn. unfold set_txs_lock. cbn. destruct p. by f_equal; cbn in L; subst.
Qed.

(** ** Finalising *)
Lemma remove_loop_spec txs : forall p r p',
  om_sorted (txs_ p) -> remove_loop txs p = (Ok r, p') ->
  r = true /\ om_sorted (txs_ p') /\ pending_proposal_ p' = pending_proposal_ p /\
  num_cum_txs_ p' = num_cum_txs_ p /\
  exists sigs, map_res tx_getSignature txs = Ok sigs /\
    (forall s, s ∈ sigs -> om_find s (txs_ p') = None) /\
    (forall s, ~ (s ∈ sigs) -> om_find s (txs_ p') = om_find s (txs_ p)).
Proof.
  induction txs as [|t txs IH]; intros p r p' S E; cbn [remove_loop] in E.
  - minv. repeat split; try done. exists []. split; [done|]. split; [intros s Hs; by apply elem_of_nil in Hs | done].
  - apply bind_inv_ok in E as (sig & s1 & Hs & E). unfold lift in Hs.
    injection Hs as Hsig <-. rewrite bind_get, bind_put in E.
    apply IH in E as (-> & S' & Hp & Hn & sigs & Hm & H1 & H2); [|by apply om_del_sorted].
    cbn [set_txs txs_ pending_proposal_ num_cum_txs_] in *.
    repeat split; try done. exists (sig :: sigs). cbn [map_res]. rewrite Hsig. cbn [mbind res_bind]. rewrite Hm. split; [done|].
    split.
    + intros s Hin. destruct (decide (s ∈ sigs)) as [Hi|Hi]; [by apply H1|].
      rewrite H2 by done. apply elem_of_cons in Hin as [->|]; [by apply om_find_del_eq | done].
    + intros s Hin. rewrite not_elem_of_cons in Hin. destruct Hin as [N1 N2].
      rewrite H2 by done. by apply om_find_del_ne.
Qed.

Lemma FinalizeLocalBlock_spec now p fb p' :
  om_sorted (txs_ p) -> FinalizeLocalBlock now p = (Ok fb, p') ->
  fb = fb_of_proposed now (pending_proposal_ p) /\
  pending_proposal_ p' = pb_setNull (pending_proposal_ p) /\
  exists sigs, map_res tx_getSignature (pb_transactions (pending_proposal_ p)) = Ok sigs /\
    (forall s, s ∈ sigs -> om_find s (txs_ p') = None) /\
    (forall s, ~ (s ∈ sigs) -> om_find s (txs_ p') = om_find s (txs_ p)).
Proof.
  intros S E. unfold FinalizeLocalBlock, with_proposal_lock in E. case_match; [done|].
  destruct ((get ≫= _) _) as [r p1] eqn:Eb in E. simplify_eq.
  rewrite bind_get in Eb. apply bind_inv_ok in Eb as (f & p2 & Hf & Eb).
  rewrite bind_get, bind_put in Eb. unfold mret, M_ret in Eb. simplify_eq.
  unfold FinalizeBlock in Hf. apply bind_inv_ok in Hf as (u & p3 & Hr & Hf).
  unfold mret, M_ret in Hf. simplify_eq. unfold RemoveTransactions, with_txs_lock in Hr.
  case_match; [done|]. destruct (remove_loop _ _) as [r p4] eqn:El. simplify_eq.
  apply remove_loop_spec in El as (-> & S' & Hp & _ & sigs & Hm & H2 & H3); [|done].
  cbn in *. rewrite Hp. split; [done|]. split; [done|]. eauto.
Qed.

Lemma tx_clone_id t : tx_clone t = t.
Proof. by destruct t as [[]|[]]. Qed.

(** What the greedy selection returns. *)
Lemma collect_loop_spec prior max_txs entries : forall num c valid entries' c',
  collect_loop keys prior max_txs num entries c = (Ok (valid, entries'), c') ->
  (ctx_ok c -> ctx_ok c') /\
  Forall (fun t => tx_isSound t keys = Ok true /\ exists e, e ∈ entries /\ t = e.2.2) valid /\
  map fst entries' = map fst entries /\
  (0 <= num < max_txs -> max_txs < 2 ^ 32 -> num + zlen valid <= max_txs).
Proof.
  induction entries as [|[sig [n tx]] rest IH]; intros num c valid entries' c' E;
    cbn [collect_loop] in E.
  - minv. split; [done|]. split; [constructor|]. split; [done|]. unfold zlen. simpl. lia.
  - apply bind_inv_ok in E as (ok & c1 & Hok & E).
    assert (ctx_ok c -> ctx_ok c1) as K1.
    { intros C. pose proof (tx_isValidInAggregate_keeps tx keys prior c C) as K.
      by rewrite Hok in K. }
    destruct ok.
    + pose proof (tx_isValidInAggregate_refines tx keys prior c c1 Hok) as [Hsnd _].
      destruct (max_txs <=? u32 (num + 1)) eqn:Em; bool_to_prop.
      * minv. rewrite tx_clone_id. split; [done|]. split.
        { constructor; [|done]. split; [done|]. eexists. split; [apply elem_of_cons; by left|]. done. }
        split; [done|]. intros. rewrite zlen_cons, zlen_nil. lia.
      * apply bind_inv_ok in E as ([valid1 e1] & c2 & Hr & E). unfold mret, M_ret in E. simplify_eq.
        apply IH in Hr as (K2 & F & Hm & Hn). split; [auto|]. split.
        { rewrite tx_clone_id. constructor.
          - split; [done|]. eexists. split; [apply elem_of_cons; by left | done].
          - eapply Forall_impl; [|exact F]. intros t (Hs & e & Hin & ->). split; [done|].
            exists e. split; [apply elem_of_cons; by right | done]. }
        split; [cbn [fst snd map]; by rewrite Hm|]. intros Hnum Hmax.
        rewrite u32_id in * by (unfold in_u32; lia). cbn [fst]. rewrite zlen_cons.
        specialize (Hn ltac:(lia) Hmax). lia.
    + apply bind_inv_ok in E as ([valid1 e1] & c2 & Hr & E). unfold mret, M_ret in E. simplify_eq.
      apply IH in Hr as (K2 & F & Hm & Hn). split; [auto|]. split.
      { eapply Forall_impl; [|exact F]. intros t (Hs & e & Hin & ->). split; [done|].
        exists e. split; [apply elem_of_cons; by right | done]. }
      split; [cbn [fst snd map]; by rewrite Hm | done].
Qed.

Lemma collect_loop_entries prior max_txs entries : forall num c valid entries' c',
  collect_loop keys prior max_txs num entries c = (Ok (valid, entries'), c') ->
  Forall entry_ok entries -> Forall entry_ok entries'.
Proof.
  induction entries as [|[sig [n tx]] rest IH]; intros num c valid entries' c' E F;
    cbn [collect_loop] in E; [by minv|].
  inversion F; subst. apply bind_inv_ok in E as (ok & c1 & _ & E). destruct ok; [case_match|].
  - minv. by constructor.
  - apply bind_inv_ok in E as ([v1 e1] & c2 & Hr & E). minv. constructor; [done | by eapply IH].
  - apply bind_inv_ok in E as ([v1 e1] & c2 & Hr & E). minv. constructor; [done | by eapply IH].
Qed.

Lemma shallowCopy_id this other : (pb_shallowCopy this other).1 = other.
Proof. by destruct other. Qed.

(** The proposal: sound transactions of the pool, no more than the limit, over
    a well-formed state and summary, with the node's own validation. *)
Lemma ProposeBlock_spec h prior ctx p r p' :
  cs_ok prior -> ProposeBlock h prior keys ctx p = (Ok r, p') ->
  exists txs st s a sig v, r = true /\
    pending_proposal_ p' = pb_set_vals (pb_ctor h txs s ValidationOps.Create st) v 1 /\
    cs_ok st /\ summary_ok s /\
    Forall (fun t => tx_isSound t keys = Ok true /\ exists e, e ∈ txs_ p /\ t = e.2.2) txs /\
    (0 < max_tx_per_block_ p < 2 ^ 32 -> zlen txs <= max_tx_per_block_ p) /\
    getNodeAddr keys (ContextOps.get_current_node ctx mod 3) = Ok a /\
    sigs_ v = [(a, sig)] /\
    (exists k, getNodeKey keys (ContextOps.get_current_node ctx mod 3) = Ok k /\
       SignBinary k (DevcashHash (SummaryOps.getCanonical s)) = Ok sig).
Proof.
  intros C E. unfold ProposeBlock in E.
  apply bind_inv_ok in E as (v0 & p1 & Hc & E). apply bind_inv_ok in E as (sb & p2 & Hs & E).
  unfold lift in Hs. injection Hs as Hs <-. apply bind_inv_ok in E as (u & p3 & Hp & E).
  unfold mret, M_ret in E. simplify_eq.
  unfold CollectValidTransactions, with_txs_lock in Hc. case_match; [done|].
  rewrite bind_get in Hc. cbn [set_txs_lock max_tx_per_block_ txs_ num_cum_txs_] in Hc.
  destruct (collect_loop _ _ _ _ _ _) as [rc c'] eqn:El.
  destruct rc as [[valid entries']| | |]; autorewrite with mrun in Hc; try done.
  unfold mret, M_ret in Hc. simplify_eq.
  apply collect_loop_spec in El as (K & F & _ & Hn). destruct sb as [f b'].
  destruct (K (conj C Create_ok)) as [C1 C2].
  apply pb_sign_inv in Hs as (a & k & sig & v & -> & Ha & Hk & Hsig & Hv & ->).
  unfold with_proposal_lock in Hp. case_match; [done|]. autorewrite with mrun in Hp.
  unfold put in Hp. simplify_eq. rewrite shallowCopy_id. cbn [fst snd] in *.
  exists valid, (v_state c'), (v_summary c'), a, sig, v.
  split; [done|]. split.
  { cbn. unfold pb_set_vals. cbn. done. }
  split; [done|]. split; [done|]. split; [done|]. split.
  { intros. specialize (Hn ltac:(lia) ltac:(lia)). lia. }
  split; [done|]. split; [|exists k; split; [done|]].
  - unfold ValidationOps.addValidation in Hv. repeat case_match; simplify_eq. done.
  - rewrite <- Hsig. unfold pb_ctor. cbn [pb_summary]. by rewrite Copy_id.
Qed.
End contents.
