(* ===== verification/JsonTree.v ===== *)
(** * JSON texts

    The reference the JSON printers are compared with: trees, the text of a
    tree ([render]), and a recursive-descent reader of texts without blanks
    and escapes ([parse]), with the theorem that the reader undoes [render].
    A text that no tree renders to is not JSON. *)

From Stdlib Require Import ZArith Lia.
From stdpp Require Import base list numbers.
From S2P Require Import Prelude Converters Keys Context.

#[local] Open Scope Z_scope.

(** The punctuation. *)
Definition quote : Z := 34.
Definition comma : Z := 44.
Definition colon : Z := 58.
Definition lbracket : Z := 91.
Definition rbracket : Z := 93.
Definition lbrace : Z := 123.
Definition rbrace : Z := 125.

Inductive json :=
| JNum (n : Z)
| JStr (s : bytes)
| JArr (l : list json)
| JObj (l : list (bytes * json)).

(** Induction with the hypothesis for every element of an array or object. *)
Section json_induction.
Context (Pj : json -> Prop).
Context (Hnum : forall n, Pj (JNum n)) (Hstr : forall s, Pj (JStr s)).
Context (Harr : forall l, Forall Pj l -> Pj (JArr l)).
Context (Hobj : forall l, Forall (fun m => Pj m.2) l -> Pj (JObj l)).

Fixpoint json_rect' (j : json) : Pj j :=
  match j with
  | JNum n => Hnum n
  | JStr s => Hstr s
  | JArr l =>
      Harr l ((fix go (l : list json) : Forall Pj l :=
        match l with
        | [] => Forall_nil_2 _
        | x :: l' => Forall_cons_2 _ _ _ (json_rect' x) (go l')
        end) l)
  | JObj l =>
      Hobj l ((fix go (l : list (bytes * json)) : Forall (fun m => Pj m.2) l :=
        match l with
        | [] => Forall_nil_2 _
        | (k, x) :: l' => Forall_cons_2 (fun m => Pj m.2) (k, x) l' (json_rect' x) (go l')
        end) l)
  end.
End json_induction.

(** ** The text of a tree *)
Definition quoted (s : bytes) : bytes := quote :: s ++ [quote].

(** Texts with a comma between neighbours. *)
Fixpoint joined (l : list bytes) : bytes :=
  match l with
  | [] => []
  | [x] => x
  | x :: l' => x ++ comma :: joined l'
  end.

Definition arr_text (l : list bytes) : bytes := lbracket :: joined l ++ [rbracket].
Definition obj_text (l : list bytes) : bytes := lbrace :: joined l ++ [rbrace].
Definition member_text (k v : bytes) : bytes := quoted k ++ colon :: v.

Fixpoint render (j : json) : bytes :=
  match j with
  | JNum n => to_string n
  | JStr s => quoted s
  | JArr l => arr_text (map render l)
  | JObj l => obj_text (map (fun m => member_text m.1 (render m.2)) l)
  end.

(** A 64-bit number; a string that needs no escape. *)
Definition plain_char (c : Z) : bool := (32 <=? c) && negb (c =? quote) && negb (c =? 92).

Fixpoint json_okb (j : json) : bool :=
  match j with
  | JNum n => (- 2 ^ 63 <=? n) && (n <? 2 ^ 64)
  | JStr s => forallb plain_char s
  | JArr l => forallb json_okb l
  | JObj l => forallb (fun m => forallb plain_char m.1 && json_okb m.2) l
  end.

Definition json_ok (j : json) : Prop := json_okb j = true.

(** ** The reader *)
Definition digit_char (c : Z) : bool := (48 <=? c) && (c <=? 57).

Fixpoint span (f : Z -> bool) (s : bytes) : bytes * bytes :=
  match s with
  | c :: s' => if f c then let '(a, b) := span f s' in (c :: a, b) else ([], s)
  | [] => ([], [])
  end.

(** After an opening quote. *)
Definition parse_string (s : bytes) : option (bytes * bytes) :=
  match span plain_char s with
  | (str, c :: rest) => if c =? quote then Some (str, rest) else None
  | _ => None
  end.

Definition parse_number (s : bytes) : option (json * bytes) :=
  match s with
  | c :: s' =>
      if c =? 45 then
        match span digit_char s' with
        | ([], _) => None
        | (ds, rest) => Some (JNum (- of_digits ds), rest)
        end
      else
        match span digit_char s with
        | ([], _) => None
        | (ds, rest) => Some (JNum (of_digits ds), rest)
        end
  | [] => None
  end.

(** ["key":] *)
Definition parse_key (s : bytes) : option (bytes * bytes) :=
  match s with
  | c :: s' =>
      if c =? quote then
        '(k, r) ← parse_string s';
        match r with
        | d :: r' => if d =? colon then Some (k, r') else None
        | [] => None
        end
      else None
  | [] => None
  end.

(** Values, the items of an array after its bracket or a comma, and the
    members of an object likewise. *)
Fixpoint parse_value (fuel : nat) (s : bytes) : option (json * bytes) :=
  match fuel, s with
  | S f, c :: s' =>
      if c =? quote then '(str, r) ← parse_string s'; Some (JStr str, r)
      else if c =? lbracket then
        match s' with
        | d :: r => if d =? rbracket then Some (JArr [], r)
                    else '(l, r') ← parse_items f s'; Some (JArr l, r')
        | [] => None
        end
      else if c =? lbrace then
        match s' with
        | d :: r => if d =? rbrace then Some (JObj [], r)
                    else '(l, r') ← parse_members f s'; Some (JObj l, r')
        | [] => None
        end
      else parse_number s
  | _, _ => None
  end
with parse_items (fuel : nat) (s : bytes) : option (list json * bytes) :=
  match fuel with
  | O => None
  | S f =>
      '(j, r) ← parse_value f s;
      match r with
      | c :: r' =>
          if c =? comma then '(l, r2) ← parse_items f r'; Some (j :: l, r2)
          else if c =? rbracket then Some ([j], r') else None
      | [] => None
      end
  end
with parse_members (fuel : nat) (s : bytes) : option (list (bytes * json) * bytes) :=
  match fuel with
  | O => None
  | S f =>
      '(k, r0) ← parse_key s;
      '(j, r) ← parse_value f r0;
      match r with
      | c :: r' =>
          if c =? comma then '(l, r2) ← parse_members f r'; Some ((k, j) :: l, r2)
          else if c =? rbrace then Some ([(k, j)], r') else None
      | [] => None
      end
  end.

(** The whole text is one value.  Every call but the one between a list and
    its items consumes a character. *)
Definition parse (s : bytes) : option json :=
  match parse_value (S (2 * length s)) s with
  | Some (j, []) => Some j
  | _ => None
  end.

(** ** The reader undoes the text *)
Lemma span_app f a b :
  forallb f a = true -> match b with c :: _ => f c = false | [] => True end ->
  span f (a ++ b) = (a, b).
Proof.
  intros Ha Hb. induction a as [|c a IH]; cbn [app forallb span] in *.
  - destruct b as [|c b]; [done|]. cbn [span]. by rewrite Hb.
  - apply andb_prop in Ha as [-> Ha]. by rewrite IH.
Qed.

Lemma parse_string_quoted s rest :
  forallb plain_char s = true -> parse_string (s ++ quote :: rest) = Some (s, rest).
Proof. intros Hs. unfold parse_string. by rewrite span_app. Qed.

Lemma to_string_shape n : in_i64 n \/ in_u64 n ->
  exists ds, forallb digit_char ds = true /\ ds <> [] /\
    ((n = - of_digits ds /\ to_string n = 45 :: ds) \/ (n = of_digits ds /\ to_string n = ds)).
Proof.
  intros R. unfold to_string. case_match; bool_to_prop.
  - destruct (digits_acc 20 (- n) []) as (ds & -> & O & F & N); [|lia|].
    { change (10 ^ Z.of_nat 20) with 100000000000000000000. unfold_ranges. lia. }
    exists ds. rewrite app_nil_r. repeat split; [|done|left; split; [lia|done]].
    apply forallb_forall. intros c Hc. rewrite List.Forall_forall in F.
    apply F in Hc. unfold digit_char. lia.
  - destruct (digits_acc 20 n []) as (ds & -> & O & F & N); [|lia|].
    { change (10 ^ Z.of_nat 20) with 100000000000000000000. unfold_ranges. lia. }
    exists ds. rewrite app_nil_r. repeat split; [|done|right; split; [lia|done]].
    apply forallb_forall. intros c Hc. rewrite List.Forall_forall in F.
    apply F in Hc. unfold digit_char. lia.
Qed.

(** What follows a number does not continue it. *)
Definition stops (rest : bytes) : Prop :=
  match rest with c :: _ => digit_char c = false | [] => True end.

Lemma parse_number_text n rest : in_i64 n \/ in_u64 n -> stops rest ->
  parse_number (to_string n ++ rest) = Some (JNum n, rest).
Proof.
  intros R Hr. destruct (to_string_shape n R) as (ds & F & N & [[E ->] | [E ->]]).
  - cbn [app parse_number]. change (45 =? 45) with true. cbn iota.
    rewrite span_app by done. destruct ds; [done|]. by rewrite E.
  - destruct ds as [|c ds]; [done|]. cbn [app parse_number]. pose proof F as F'.
    cbn [forallb] in F'. apply andb_prop in F' as [Hc _]. unfold digit_char in Hc. bool_to_prop.
    rewrite (proj2 (Z.eqb_neq c 45)) by lia.
    change (c :: ds ++ rest) with ((c :: ds) ++ rest). rewrite span_app by done. by rewrite E.
Qed.

(** How a text of each kind begins. *)
Definition value_head (c : Z) : Prop :=
  c = quote \/ c = lbracket \/ c = lbrace \/ c = 45 \/ digit_char c = true.

Lemma render_head j : json_ok j -> exists c s, render j = c :: s /\ value_head c.
Proof.
  unfold json_ok, value_head. destruct j as [n|s|l|l]; cbn [json_okb render]; intros Hj.
  - bool_to_prop. destruct (to_string_shape n) as (ds & F & N & [[E ->] | [E ->]]);
      [unfold_ranges; lia | eauto 10 |].
    destruct ds as [|c ds]; [done|]. cbn [forallb] in F. apply andb_prop in F as [F _]. eauto 10.
  - unfold quoted. eauto 10.
  - unfold arr_text. eauto 10.
  - unfold obj_text. eauto 10.
Qed.

Lemma value_head_not c d : value_head c -> d = rbracket \/ d = rbrace -> (c =? d) = false.
Proof.
  unfold value_head, digit_char, quote, lbracket, lbrace, rbracket, rbrace.
  intros [-> | [-> | [-> | [-> | X]]]] [-> | ->]; try done; bool_to_prop; lia.
Qed.

Definition reads (j : json) : Prop := forall fuel rest,
  (2 * length (render j) <= fuel)%nat -> stops rest ->
  parse_value fuel (render j ++ rest) = Some (j, rest).

Lemma reads_str s : json_ok (JStr s) -> reads (JStr s).
Proof.
  intros Hs fuel rest Hf _. unfold json_ok in Hs. cbn [json_okb] in Hs.
  cbn [render] in *. unfold quoted in *. cbn [length app] in *.
  destruct fuel as [|f]; [lia|]. cbn [parse_value]. change (quote =? quote) with true.
  cbn iota. rewrite <- app_assoc. cbn [app]. by rewrite parse_string_quoted.
Qed.

(** A number, by the value reader with any positive fuel. *)
Lemma parse_value_number f n rest : in_i64 n \/ in_u64 n -> stops rest ->
  parse_value (S f) (to_string n ++ rest) = Some (JNum n, rest).
Proof.
  intros R Hr. pose proof (parse_number_text n rest R Hr) as P.
  destruct (to_string_shape n R) as (ds & F & N & [[E1 E2] | [E1 E2]]); rewrite E2 in *.
  - cbn [app parse_value] in *. by change (45 =? quote) with false.
  - destruct ds as [|d ds]; [done|]. cbn [app parse_value forallb] in *.
    apply andb_prop in F as [Hc _]. unfold digit_char in Hc. bool_to_prop.
    unfold quote, lbracket, lbrace.
    by rewrite (proj2 (Z.eqb_neq d 34)), (proj2 (Z.eqb_neq d 91)), (proj2 (Z.eqb_neq d 123)) by lia.
Qed.

Lemma reads_num n : json_ok (JNum n) -> reads (JNum n).
Proof.
  intros Hn fuel rest Hf Hr. pose proof (render_head _ Hn) as (c & s & E & _).
  unfold json_ok in Hn. cbn [json_okb render] in *. bool_to_prop. rewrite E in Hf. cbn [length] in Hf.
  destruct fuel as [|f]; [lia|]. apply parse_value_number; [unfold_ranges; lia | done].
Qed.

(** The items of an array and the members of an object, by induction on the
    list; each element is followed by a comma or the closing bracket. *)
Lemma joined_cons x y l : joined (x :: y :: l) = x ++ comma :: joined (y :: l).
Proof. done. Qed.

Lemma parse_items_reads l : Forall reads l -> l <> [] -> forall fuel rest,
  (2 * length (joined (map render l)) < fuel)%nat ->
  parse_items fuel (joined (map render l) ++ rbracket :: rest) = Some (l, rest).
Proof.
  induction 1 as [|j l Hj Hl IH]; intros N fuel rest Hf; [done|].
  destruct fuel as [|f]; [lia|]. cbn [parse_items]. destruct l as [|k l].
  - cbn [map joined] in *. rewrite Hj by (done || lia). done.
  - cbn [map] in *. rewrite joined_cons in *. rewrite <- app_assoc. cbn [app].
    rewrite length_app in Hf. cbn [length] in Hf. rewrite Hj by (done || lia).
    cbn [mbind option_bind]. change (comma =? comma) with true. cbn iota.
    rewrite IH by (done || lia). done.
Qed.

Lemma parse_key_text k rest : forallb plain_char k = true ->
  parse_key (quoted k ++ colon :: rest) = Some (k, rest).
Proof.
  intros Hk. unfold quoted. cbn [app parse_key]. change (quote =? quote) with true. cbn iota.
  rewrite <- app_assoc. cbn [app]. by rewrite parse_string_quoted.
Qed.

Definition mtext (m : bytes * json) : bytes := member_text m.1 (render m.2).

Lemma parse_members_reads l :
  Forall (fun m => forallb plain_char m.1 = true /\ reads m.2) l -> l <> [] -> forall fuel rest,
  (2 * length (joined (map mtext l)) < fuel)%nat ->
  parse_members fuel (joined (map mtext l) ++ rbrace :: rest) = Some (l, rest).
Proof.
  induction 1 as [|[k j] l [Hk Hj] Hl IH]; intros N fuel rest Hf; [done|].
  destruct fuel as [|f]; [lia|]. cbn [parse_members fst snd] in *.
  assert (length (mtext (k, j)) = S (S (S (length k + length (render j))))) as Lm.
  { unfold mtext, member_text, quoted. cbn [fst snd length app].
    rewrite !length_app. cbn [length]. lia. }
  destruct l as [|m l].
  - cbn [map joined] in *. unfold mtext at 1, member_text. cbn [fst snd].
    rewrite <- app_assoc. cbn [app]. rewrite parse_key_text by done. cbn [mbind option_bind].
    rewrite Hj by (done || lia). done.
  - cbn [map] in *. rewrite joined_cons in *. rewrite <- app_assoc. cbn [app].
    rewrite length_app in Hf. cbn [length] in Hf. unfold mtext at 1, member_text. cbn [fst snd].
    rewrite <- app_assoc. cbn [app]. rewrite parse_key_text by done. cbn [mbind option_bind].
    rewrite Hj by (done || lia). cbn [mbind option_bind]. change (comma =? comma) with true. cbn iota.
    rewrite IH by (done || lia). done.
Qed.

Lemma reads_arr l : Forall json_ok l -> Forall reads l -> reads (JArr l).
Proof.
  intros Ho Hl fuel rest Hf _. cbn [render] in *. unfold arr_text in *. cbn [length app] in *.
  rewrite length_app in Hf. cbn [length] in Hf. destruct fuel as [|f]; [lia|].
  cbn [parse_value]. change (lbracket =? quote) with false.
  change (lbracket =? lbracket) with true. cbn iota. rewrite <- app_assoc. cbn [app].
  destruct l as [|j l]; [done|].
  assert (exists c s, joined (map render (j :: l)) = c :: s /\ value_head c) as (c & s & E & Hc).
  { inversion Ho; subst. destruct (render_head j) as (c & s & E & Hc); [done|].
    exists c. cbn [map]. destruct l; [exists s; by cbn|].
    cbn [map]. rewrite joined_cons, E. by eexists. }
  pose proof (parse_items_reads (j :: l) Hl ltac:(done) f rest ltac:(lia)) as R.
  rewrite E in *. cbn [app] in *. rewrite value_head_not by auto. by rewrite R.
Qed.

Lemma reads_obj l :
  Forall (fun m => forallb plain_char m.1 = true /\ reads m.2) l -> reads (JObj l).
Proof.
  intros Hl fuel rest Hf _. cbn [render] in *. unfold obj_text in *. fold mtext in *.
  change (map (fun m => member_text m.1 (render m.2)) l) with (map mtext l) in *.
  cbn [length app] in *. rewrite length_app in Hf. cbn [length] in Hf.
  destruct fuel as [|f]; [lia|]. cbn [parse_value]. change (lbrace =? quote) with false.
  change (lbrace =? lbracket) with false. change (lbrace =? lbrace) with true. cbn iota.
  rewrite <- app_assoc. cbn [app]. destruct l as [|[k j] l]; [done|].
  assert (exists s, joined (map mtext ((k, j) :: l)) = quote :: s) as (s & E).
  { cbn [map]. destruct l; [by eexists|]. cbn [map]. rewrite joined_cons. by eexists. }
  pose proof (parse_members_reads ((k, j) :: l) Hl ltac:(done) f rest ltac:(lia)) as R.
  rewrite E in *. cbn [app] in *. change (quote =? rbrace) with false. by rewrite R.
Qed.

Lemma forallb_Forall' {A} (f : A -> bool) l : forallb f l = true -> Forall (fun x => f x = true) l.
Proof. rewrite forallb_forall, List.Forall_forall. auto. Qed.

Lemma Forall_mp {A} (P Q : A -> Prop) l :
  Forall P l -> Forall (fun x => P x -> Q x) l -> Forall Q l.
Proof. rewrite !List.Forall_forall. auto. Qed.

Lemma render_reads j : json_ok j -> reads j.
Proof.
  induction j as [n|s|l IH|l IH] using json_rect'; intros Hj;
    [by apply reads_num | by apply reads_str | |]; unfold json_ok in Hj; cbn [json_okb] in Hj;
    apply forallb_Forall' in Hj.
  - apply reads_arr; [done|]. by apply (Forall_mp _ _ _ Hj).
  - apply reads_obj. apply (Forall_mp _ _ _ Hj). eapply List.Forall_impl; [|apply IH].
    cbn beta. intros x Hx H1. apply andb_prop in H1 as [H0 H1]. split; [done|]. by apply Hx.
Qed.

(** The text of a tree reads back as the tree. *)
Lemma parse_render j : json_ok j -> parse (render j) = Some j.
Proof.
  intros Hj. unfold parse. rewrite <- (app_nil_r (render j)) at 2.
  by rewrite (render_reads j Hj) by (done || lia).
Qed.

Lemma not_json t j : parse t = None -> json_ok j -> render j <> t.
Proof. intros N Hj <-. by rewrite parse_render in N. Qed.
