(* ===== verification/JsonPrint.v ===== *)
(** * The JSON printers

    [primitives/json_interface.h], the [getJSON] methods of transfers,
    transactions, the pool and the oracles, and [WriteChainStateMap] of
    [primitives/block_tools.cpp].  The code builds each text by appending
    pieces; the second half gives the tree of each object and proves that the
    text is the tree's.  The text of a Tier-1 transaction is not JSON. *)

From Stdlib Require Import ZArith Lia String.
From stdpp Require Import base list numbers.
From S2P Require Import Prelude OrdMap Converters Keys Buffers Transfer ChainState Summary.
From S2P Require Import Validation KeyRing Context Transactions Blocks Blockchain Oracles Pool.
From S2P Require Import JsonTree.

#[local] Open Scope Z_scope.

(** ** Tags *)
Definition kVERSION_TAG : bytes := text "v".
Definition kPREV_HASH_TAG : bytes := text "prev".
Definition kMERKLE_TAG : bytes := text "merkle".
Definition kBYTES_TAG : bytes := text "bytes".
Definition kTIME_TAG : bytes := text "time".
Definition kTX_SIZE_TAG : bytes := text "txlen".
Definition kVAL_COUNT_TAG : bytes := text "vcount".
Definition kTXS_TAG : bytes := text "txs".
Definition kSUM_TAG : bytes := text "sum".
Definition kVAL_TAG : bytes := text "vals".
Definition kXFER_SIZE_TAG : bytes := text "xfer_size".
Definition kSUMMARY_TAG : bytes := text "summary".
Definition kSUM_SIZE_TAG : bytes := text "sum_size".
Definition kOPER_TAG : bytes := text "oper".
Definition kXFER_TAG : bytes := text "xfer".
Definition kNONCE_TAG : bytes := text "nonce".
Definition kNONCE_SIZE_TAG : bytes := text "nonce_size".
Definition kSIG_TAG : bytes := text "sig".
Definition kVALIDATOR_DEX_TAG : bytes := text "val_dex".
Definition kTYPE_TAG : bytes := text "type".
Definition kDELAY_TAG : bytes := text "dlay".
Definition kADDR_TAG : bytes := text "addr".
Definition kAMOUNT_TAG : bytes := text "amount".
Definition kADDR_SIZE_TAG : bytes := text "addr_size".
Definition kDELAY_SIZE_TAG : bytes := text "delay_size".
Definition kCOIN_SIZE_TAG : bytes := text "coin_size".
Definition kDELAYED : bytes := text "delayed".
Definition kCOIN_MAP : bytes := text "coin_map".

(** The pieces of text: ["tag":] and [ToHex] with its default argument. *)
Definition tag (t : bytes) : bytes := [quote] ++ t ++ [quote; colon].
Definition hex (v : bytes) : bytes := ToHex v (2 ^ 32 - 1).

(** [bool isFirst = true; for (item : l) { if (isFirst) isFirst = false; else
    out += ","; out += f(item); }] *)
Fixpoint sep_loop {A} (f : A -> bytes) (is_first : bool) (out : bytes) (l : list A) : bytes :=
  match l with
  | [] => out
  | x :: l' =>
      let out := if is_first then out else out ++ [comma] in
      sep_loop f false (out ++ f x) l'
  end.

(** The same with items whose printer can throw. *)
Fixpoint sep_loop_res {A} (f : A -> res bytes) (is_first : bool) (out : bytes) (l : list A)
    : res bytes :=
  match l with
  | [] => Ok out
  | x :: l' =>
      let out := if is_first then out else out ++ [comma] in
      s ← f x;
      sep_loop_res f false (out ++ s) l'
  end.

(** ** json_interface.h *)
Module JsonOps.
Definition delayed_item (delayed_item : Z * DelayedItem) : bytes :=
  [lbrace]
  ++ tag kTYPE_TAG ++ to_string delayed_item.1 ++ [comma]
  ++ tag kDELAY_TAG ++ to_string (di_delay delayed_item.2) ++ [comma]
  ++ tag kAMOUNT_TAG ++ to_string (di_delta delayed_item.2)
  ++ [rbrace].

Definition coin_item (coin : Z * Z) : bytes :=
  [lbrace]
  ++ tag kTYPE_TAG ++ to_string coin.1 ++ [comma]
  ++ tag kAMOUNT_TAG ++ to_string coin.2
  ++ [rbrace].

Definition summary_item (summary : Address * (omap Z DelayedItem * omap Z Z)) : bytes :=
  let json := [lbrace] in
  let json := json ++ tag kADDR_TAG ++ [quote] ++ AddressOps.getJSON summary.1 ++ [quote] ++ [comma] in
  let delayed := summary.2.1 in
  let coin_map := summary.2.2 in
  let json := json ++ tag kDELAY_SIZE_TAG ++ to_string (zlen delayed) ++ [comma] in
  let json := json ++ tag kCOIN_SIZE_TAG ++ to_string (zlen coin_map) ++ [comma] in
  let json := json ++ tag kDELAYED ++ [lbracket] in
  let json := sep_loop delayed_item true json delayed in
  let json := json ++ [rbracket; comma] ++ tag kCOIN_MAP ++ [lbracket] in
  let json := sep_loop coin_item true json coin_map in
  json ++ [rbracket; rbrace].

Definition Summary_GetJSON (input_summary : Summary) : bytes :=
  let json := [lbrace] ++ tag kADDR_SIZE_TAG in
  let summary_map := summary_ input_summary in
  let json := json ++ to_string (zlen summary_map) ++ [comma] ++ tag kSUMMARY_TAG ++ [lbracket] in
  let json := sep_loop summary_item true json summary_map in
  json ++ [rbracket; rbrace].

Definition Validation_item (item : Address * Signature) : bytes :=
  [lbrace]
  ++ [quote] ++ AddressOps.getJSON item.1 ++ [quote; colon]
  ++ [quote] ++ SignatureOps.getJSON item.2 ++ [quote]
  ++ [rbrace].

Definition Validation_GetJSON (validation : Validation) : bytes :=
  sep_loop Validation_item true [lbracket] (ValidationOps.getValidationMap validation) ++ [rbracket].
End JsonOps.

(** ** Transfer.h *)
Definition xfer_getJSON (t : Transfer) : res bytes :=
  let json := [lbrace] ++ tag kADDR_TAG ++ [quote] in
  addr ← TransferOps.getAddress t;
  let json := json ++ AddressOps.getJSON addr in
  coin ← TransferOps.getCoin t;
  let json := json ++ [quote; comma] ++ tag kTYPE_TAG ++ to_string coin in
  amount ← TransferOps.getAmount t;
  let json := json ++ [comma] ++ tag kAMOUNT_TAG ++ to_string amount in
  delay ← TransferOps.getDelay t;
  let json := json ++ [comma] ++ tag kDELAY_TAG ++ to_string delay in
  Ok (json ++ [rbrace]).

Section printers.
Context `{Crypto}.

(** ** Tier2Transaction.h *)
Definition t2_getJSON (tx : Tier2Transaction) : res bytes :=
  let json := [lbrace] ++ tag kXFER_SIZE_TAG in
  let json := json ++ to_string (t2_xfer_size tx) ++ [comma] in
  let json := json ++ tag kNONCE_SIZE_TAG ++ to_string (t2_nonce_size tx) ++ [comma] in
  oper ← t2_getOperation tx;
  let json := json ++ tag kOPER_TAG ++ to_string oper ++ [comma] in
  let json := json ++ tag kXFER_TAG ++ [lbracket] in
  xfers ← t2_getTransfers tx;
  json ← sep_loop_res xfer_getJSON true json xfers;
  nonce ← t2_getNonce tx;
  let json := json ++ [rbracket; comma] ++ tag kNONCE_TAG ++ [quote] ++ hex nonce ++ [quote; comma] in
  sig ← t2_getSignature tx;
  Ok (json ++ tag kSIG_TAG ++ [quote] ++ SignatureOps.getJSON sig ++ [quote; rbrace]).

(** ** Tier1Transaction.h *)
Definition t1_delayed_item (delayed_item : Z * DelayedItem) : bytes :=
  tag kTYPE_TAG ++ to_string delayed_item.1 ++ [comma]
  ++ tag kDELAY_TAG ++ to_string (di_delay delayed_item.2) ++ [comma]
  ++ tag kAMOUNT_TAG ++ to_string (di_delta delayed_item.2).

Definition t1_coin_item (coin : Z * Z) : bytes :=
  tag kTYPE_TAG ++ to_string coin.1 ++ [comma]
  ++ tag kAMOUNT_TAG ++ to_string coin.2.

(** [json] is the text so far; there is no comma between addresses. *)
Definition t1_summary_item (json : bytes)
    (summary : Address * (omap Z DelayedItem * omap Z Z)) : bytes :=
  let json := json ++ [quote] ++ AddressOps.getJSON summary.1 ++ [quote; colon; lbracket] in
  let delayed := summary.2.1 in
  let coin_map := summary.2.2 in
  let json := json ++ tag kDELAY_SIZE_TAG ++ to_string (zlen delayed) ++ [comma] in
  let json := json ++ tag kCOIN_SIZE_TAG ++ to_string (zlen coin_map) ++ [comma] in
  let json := json ++ tag kDELAYED ++ [lbracket] in
  let json := sep_loop t1_delayed_item true json delayed in
  let json := json ++ [rbracket; comma] ++ tag kCOIN_MAP ++ [lbracket] in
  let json := sep_loop t1_coin_item true json coin_map in
  json ++ [rbracket].

Definition t1_getJSON (tx : Tier1Transaction) : res bytes :=
  summary ← fst (SummaryOps.from_buffer (mkIB (t1_canonical tx) kUINT64_SIZE));
  let json := [lbrace] ++ tag kSUM_SIZE_TAG in
  let json := json ++ to_string (t1_sum_size tx) ++ [comma] in
  let json := json ++ tag kSUMMARY_TAG ++ [lbracket] in
  let json := json ++ [lbrace] ++ tag kADDR_SIZE_TAG in
  let summary_map := summary_ summary in
  let json := json ++ to_string (zlen summary_map) ++ [comma] ++ tag kSUMMARY_TAG ++ [lbracket] in
  let json := foldl t1_summary_item json summary_map in
  let json := json ++ [rbracket; rbrace] in
  node ← t1_getNodeAddress tx;
  let json := json ++ [rbracket; comma] ++ tag kVALIDATOR_DEX_TAG
                ++ AddressOps.getJSON node ++ [comma] in
  sig ← t1_getSignature tx;
  Ok (json ++ tag kSIG_TAG ++ [quote] ++ SignatureOps.getJSON sig ++ [quote; rbrace]).

Definition tx_getJSON (t : Transaction) : res bytes :=
  match t with Tier1 x => t1_getJSON x | Tier2 x => t2_getJSON x end.

(** ** Blocks and chains *)
Definition pb_GetJSON (block : ProposedBlock) : res bytes :=
  let json := [lbrace] ++ tag kVERSION_TAG in
  let json := json ++ to_string (pb_version block) ++ [comma] in
  let json := json ++ tag kBYTES_TAG ++ to_string (pb_num_bytes block) ++ [comma] in
  let json := json ++ tag kPREV_HASH_TAG ++ [quote] ++ hex (pb_prev_hash block) ++ [quote; comma] in
  let json := json ++ tag kTX_SIZE_TAG ++ to_string (pb_tx_size block) ++ [comma] in
  let json := json ++ tag kSUM_SIZE_TAG ++ to_string (pb_sum_size block) ++ [comma] in
  let json := json ++ tag kVAL_COUNT_TAG ++ to_string (pb_val_count block) ++ [comma] in
  let json := json ++ tag kTXS_TAG ++ [lbracket] in
  json ← sep_loop_res tx_getJSON true json (pb_transactions block);
  let json := json ++ [rbracket; comma] ++ tag kSUM_TAG
                ++ JsonOps.Summary_GetJSON (pb_summary block) ++ [comma] in
  Ok (json ++ tag kVAL_TAG ++ JsonOps.Validation_GetJSON (pb_vals block) ++ [rbrace]).

Definition fb_GetJSON (block : FinalBlock) : res bytes :=
  let json := [lbrace] ++ tag kVERSION_TAG in
  let json := json ++ to_string (fb_version block) ++ [comma] in
  let json := json ++ tag kBYTES_TAG ++ to_string (fb_num_bytes block) ++ [comma] in
  let json := json ++ tag kTIME_TAG ++ to_string (fb_block_time block) ++ [comma] in
  let json := json ++ tag kPREV_HASH_TAG ++ [quote] ++ hex (fb_prev_hash block) ++ [quote; comma] in
  let json := json ++ tag kMERKLE_TAG ++ [quote] ++ hex (fb_merkle_root block) ++ [quote; comma] in
  let json := json ++ tag kTX_SIZE_TAG ++ to_string (fb_tx_size block) ++ [comma] in
  let json := json ++ tag kSUM_SIZE_TAG ++ to_string (fb_sum_size block) ++ [comma] in
  let json := json ++ tag kVAL_COUNT_TAG ++ to_string (fb_val_count block) ++ [comma] in
  let json := json ++ tag kTXS_TAG ++ [lbracket] in
  json ← sep_loop_res tx_getJSON true json (fb_transactions block);
  let json := json ++ [rbracket; comma] ++ tag kSUM_TAG
                ++ JsonOps.Summary_GetJSON (fb_summary block) ++ [comma] in
  Ok (json ++ tag kVAL_TAG ++ JsonOps.Validation_GetJSON (fb_vals block) ++ [rbrace]).

Definition bc_GetJSON (blockchain : Blockchain) : res bytes :=
  out ← sep_loop_res fb_GetJSON true [lbracket] (chain_ blockchain);
  Ok (out ++ [rbracket]).

(** ** UnrecordedTransactionPool.h *)
Definition pool_getJSON : M Pool bytes :=
  with_txs_lock (
    p ← get;
    out ← lift (sep_loop_res (fun item : Signature * (Z * Transaction) => tx_getJSON item.2.2)
                  true [lbracket] (txs_ p));
    mret (out ++ [rbracket])).

(** ** oracles/ *)

(** [api], [id] and [vote] *)
Definition key_getJSON (o : Oracle) : res bytes :=
  Ok ([lbrace] ++ tag (text "key") ++ [quote] ++ hex (raw_data_ o) ++ [quote; rbrace]).

(** [dneroavailable] and [dnerowallet] *)
Definition empty_getJSON (o : Oracle) : res bytes := Ok [].

(** [dcash] and [dnero] *)
Definition tx_oracle_getJSON (o : Oracle) : res bytes :=
  tx ← fst (t2_QuickCreate (mkIB (Str2Bin (raw_data_ o)) 0));
  t2_getJSON tx.

Definition data_getJSON (o : Oracle) : res bytes :=
  t ← vec_at (raw_data_ o) 0;
  let addr_size := AddressOps.getSizeByType t in
  if addr_size <? 1
  then Ok ([lbrace] ++ tag (text "data") ++ [quote] ++ text "ADDR_ERROR" ++ [quote; rbrace])
  else
    client_bin ← substr (raw_data_ o) 0 (addr_size + 1);
    let client := AddressOps.ctor (Str2Bin client_bin) in
    s ← vec_at (raw_data_ o) (addr_size + 1);
    let sig_size := SignatureOps.getSizeByType s in
    if sig_size <? 1
    then Ok ([lbrace] ++ tag (text "data") ++ [quote] ++ text "SIG_ERROR" ++ [quote; rbrace])
    else
      sig_bin ← substr (raw_data_ o) (addr_size + 1) (sig_size + 1);
      sig ← SignatureOps.ctor (Str2Bin sig_bin);
      let data_size := u64 (zlen (raw_data_ o) - addr_size - sig_size - 2) in
      addr_hex ← AddressOps.getHexString client;
      let json := [lbrace] ++ tag kADDR_TAG ++ [quote] ++ addr_hex ++ [quote; comma] in
      let json := json ++ tag kSIG_TAG ++ [quote] ++ SignatureOps.getJSON sig ++ [quote; comma] in
      d ← substr (raw_data_ o) (u64 (zlen (raw_data_ o) - data_size)) (zlen (raw_data_ o));
      Ok (json ++ tag (text "data") ++ [quote] ++ hex d ++ [quote; rbrace]).

Definition getDecompositionMapJSON (name : bytes) (getJSON : Oracle -> res bytes)
    (o : Oracle) : res (omap bytes bytes) :=
  json ← getJSON o;
  Ok [(name, json)].
End printers.

(** ** block_tools.cpp *)
Definition state_item (f : Z * Z) : bytes := to_string f.1 ++ [colon] ++ to_string f.2.

Definition state_entry (e : Address * omap Z Z) : bytes :=
  sep_loop state_item true ([quote] ++ AddressOps.getJSON e.1 ++ [quote; colon; lbracket]) e.2
  ++ [rbracket].

Definition WriteChainStateMap (map : omap Address (omap Z Z)) : bytes :=
  sep_loop state_entry true [lbrace] map ++ [rbrace].

(** ** The trees of the objects *)
Definition delayed_tree (kv : Z * DelayedItem) : json :=
  JObj [(kTYPE_TAG, JNum kv.1); (kDELAY_TAG, JNum (di_delay kv.2)); (kAMOUNT_TAG, JNum (di_delta kv.2))].

Definition coin_tree (kv : Z * Z) : json := JObj [(kTYPE_TAG, JNum kv.1); (kAMOUNT_TAG, JNum kv.2)].

Definition pair_tree (kv : Address * (omap Z DelayedItem * omap Z Z)) : json :=
  JObj [(kADDR_TAG, JStr (AddressOps.getJSON kv.1));
        (kDELAY_SIZE_TAG, JNum (zlen kv.2.1)); (kCOIN_SIZE_TAG, JNum (zlen kv.2.2));
        (kDELAYED, JArr (delayed_tree <$> kv.2.1)); (kCOIN_MAP, JArr (coin_tree <$> kv.2.2))].

Definition summary_tree (s : Summary) : json :=
  JObj [(kADDR_SIZE_TAG, JNum (zlen (summary_ s))); (kSUMMARY_TAG, JArr (pair_tree <$> summary_ s))].

Definition val_tree (kv : Address * Signature) : json :=
  JObj [(AddressOps.getJSON kv.1, JStr (SignatureOps.getJSON kv.2))].

Definition validation_tree (v : Validation) : json := JArr (val_tree <$> sigs_ v).

Definition xfer_tree (v : tview) : json :=
  JObj [(kADDR_TAG, JStr (AddressOps.getJSON (v_addr v))); (kTYPE_TAG, JNum (v_coin v));
        (kAMOUNT_TAG, JNum (v_amount v)); (kDELAY_TAG, JNum (v_delay v))].

Definition t2_tree (c : t2_content) : json :=
  JObj [(kXFER_SIZE_TAG, JNum (zlen (xfers_canonical (c_xfers c))));
        (kNONCE_SIZE_TAG, JNum (zlen (c_nonce c))); (kOPER_TAG, JNum (c_oper c));
        (kXFER_TAG, JArr (xfer_tree <$> c_xfers c)); (kNONCE_TAG, JStr (hex (c_nonce c)));
        (kSIG_TAG, JStr (SignatureOps.getJSON (c_sig c)))].

Section block_trees.
Context `{Crypto}.

Definition pb_tree (b : ProposedBlock) (txs : list json) : json :=
  JObj [(kVERSION_TAG, JNum (pb_version b)); (kBYTES_TAG, JNum (pb_num_bytes b));
        (kPREV_HASH_TAG, JStr (hex (pb_prev_hash b))); (kTX_SIZE_TAG, JNum (pb_tx_size b));
        (kSUM_SIZE_TAG, JNum (pb_sum_size b)); (kVAL_COUNT_TAG, JNum (pb_val_count b));
        (kTXS_TAG, JArr txs); (kSUM_TAG, summary_tree (pb_summary b));
        (kVAL_TAG, validation_tree (pb_vals b))].

Definition fb_tree (b : FinalBlock) (txs : list json) : json :=
  JObj [(kVERSION_TAG, JNum (fb_version b)); (kBYTES_TAG, JNum (fb_num_bytes b));
        (kTIME_TAG, JNum (fb_block_time b)); (kPREV_HASH_TAG, JStr (hex (fb_prev_hash b)));
        (kMERKLE_TAG, JStr (hex (fb_merkle_root b))); (kTX_SIZE_TAG, JNum (fb_tx_size b));
        (kSUM_SIZE_TAG, JNum (fb_sum_size b)); (kVAL_COUNT_TAG, JNum (fb_val_count b));
        (kTXS_TAG, JArr txs); (kSUM_TAG, summary_tree (fb_summary b));
        (kVAL_TAG, validation_tree (fb_vals b))].
End block_trees.

(** ** The texts are those of the trees *)
Lemma joined_concat x l : joined (x :: l) = x ++ concat (map (cons comma) l).
Proof.
  revert x. induction l as [|y l IH]; intros x; [cbn; by rewrite app_nil_r|].
  rewrite joined_cons, IH. done.
Qed.

Lemma sep_loop_rest {A} (f : A -> bytes) out l :
  sep_loop f false out l = out ++ concat (map (cons comma) (map f l)).
Proof.
  revert out. induction l as [|x l IH]; intros out; cbn [sep_loop map concat]; [by rewrite app_nil_r|].
  rewrite IH, <- !app_assoc. done.
Qed.

Lemma sep_loop_joined {A} (f : A -> bytes) out l :
  sep_loop f true out l = out ++ joined (map f l).
Proof.
  destruct l as [|x l]; cbn [sep_loop map]; [cbn; by rewrite app_nil_r|].
  by rewrite sep_loop_rest, joined_concat, <- app_assoc.
Qed.

Lemma sep_loop_res_ok {A} (f : A -> res bytes) (g : A -> bytes) b out l :
  Forall (fun x => f x = Ok (g x)) l -> sep_loop_res f b out l = Ok (sep_loop g b out l).
Proof.
  intros Hl. revert b out. induction Hl as [|x l Hx _ IH]; intros b out; [done|].
  cbn [sep_loop_res sep_loop]. rewrite Hx. cbn [mbind res_bind]. apply IH.
Qed.

(** A loop over objects that print as their trees appends the joined texts. *)
Lemma sep_loop_trees {A} (f : A -> res bytes) (out : bytes) (l : list A) (js : list json) :
  Forall2 (fun x j => f x = Ok (render j)) l js ->
  sep_loop_res f true out l = Ok (out ++ joined (map render js)).
Proof.
  intros Hl.
  enough (forall b, sep_loop_res f b out l =
    Ok (out ++ if b then joined (map render js) else concat (map (cons comma) (map render js)))) as E
    by apply (E true).
  revert out. induction Hl as [|x j l js Hx _ IH]; intros out b; cbn [sep_loop_res map concat].
  - by destruct b; cbn [joined]; rewrite app_nil_r.
  - rewrite Hx. cbn [mbind res_bind]. rewrite IH. f_equal. destruct b;
      [rewrite joined_concat | cbn [map concat]]; by rewrite <- ?app_assoc.
Qed.

(** Both sides as one chain of pieces. *)
Ltac pieces :=
  repeat progress (unfold obj_text, arr_text, member_text, quoted, tag;
                   cbn [map joined fst snd app render]);
  repeat first [rewrite <- app_assoc | progress cbn [app]];
  reflexivity.

Lemma delayed_item_tree kv : JsonOps.delayed_item kv = render (delayed_tree kv).
Proof. unfold JsonOps.delayed_item, delayed_tree. cbn [render]. pieces. Qed.

Lemma coin_item_tree kv : JsonOps.coin_item kv = render (coin_tree kv).
Proof. unfold JsonOps.coin_item, coin_tree. cbn [render]. pieces. Qed.

Lemma map_render {A} (f : A -> bytes) (t : A -> json) l :
  (forall x, f x = render (t x)) -> map f l = map render (t <$> l).
Proof. intros E. induction l as [|x l IH]; [done|]. cbn. f_equal; [apply E | apply IH]. Qed.

Lemma pair_item_tree kv : JsonOps.summary_item kv = render (pair_tree kv).
Proof.
  unfold JsonOps.summary_item, pair_tree. cbv zeta. rewrite !sep_loop_joined.
  rewrite (map_render _ _ _ delayed_item_tree), (map_render _ _ _ coin_item_tree).
  cbn [render]. pieces.
Qed.

Lemma summary_text s : JsonOps.Summary_GetJSON s = render (summary_tree s).
Proof.
  unfold JsonOps.Summary_GetJSON, summary_tree. cbv zeta.
  rewrite sep_loop_joined, (map_render _ _ _ pair_item_tree). cbn [render]. pieces.
Qed.

Lemma val_item_tree kv : JsonOps.Validation_item kv = render (val_tree kv).
Proof. unfold JsonOps.Validation_item, val_tree. cbn [render]. pieces. Qed.

Lemma validation_text v : JsonOps.Validation_GetJSON v = render (validation_tree v).
Proof.
  unfold JsonOps.Validation_GetJSON, validation_tree, ValidationOps.getValidationMap.
  rewrite sep_loop_joined, (map_render _ _ _ val_item_tree). cbn [render]. pieces.
Qed.

Lemma xfer_text v : view_ok v -> xfer_getJSON (xfer_of v) = Ok (render (xfer_tree v)).
Proof.
  intros Hv. unfold xfer_getJSON. rewrite xfer_getAddress, xfer_getCoin, xfer_getAmount,
    xfer_getDelay by done. cbn [mbind res_bind]. f_equal. unfold xfer_tree. cbn [render]. pieces.
Qed.

Section texts.
Context `{Crypto}.

(** A transaction with well-formed transfers, a signature of the size that its
    operation implies, and a size that fits. *)
Definition t2c_ok (c : t2_content) : Prop :=
  Forall view_ok (c_xfers c) /\ in_u8 (c_oper c) /\ sig_wf (c_sig c) /\
  SignatureOps.size (c_sig c) =
    (if c_oper c =? eOpType.Exchange then kWALLET_SIG_BUF_SIZE else kNODE_SIG_BUF_SIZE) /\
  zlen (t2_body (c_oper c) (c_xfers c) (c_nonce c) ++ s_canonical (c_sig c)) < 2 ^ 63.

Definition t2_of (c : t2_content) (sound : bool) : Tier2Transaction :=
  t2_built (c_oper c) (c_xfers c) (c_nonce c) (c_sig c) sound.

Lemma t2_text c sound : t2c_ok c -> t2_getJSON (t2_of c sound) = Ok (render (t2_tree c)).
Proof.
  intros (Hv & _ & Hs & Hz & Hl). unfold t2_getJSON, t2_of. cbv zeta.
  rewrite built_getOperation, built_getTransfers, built_getNonce, built_getSignature by done.
  cbn [mbind res_bind].
  rewrite (sep_loop_trees _ _ _ (xfer_tree <$> c_xfers c)).
  - cbn [mbind res_bind t2_xfer_size t2_nonce_size t2_built]. f_equal.
    unfold t2_tree. cbn [render]. pieces.
  - clear -Hv. induction Hv; constructor; [by apply xfer_text | done].
Qed.

(** What a transaction of a block prints. *)
Definition prints (t : Transaction) (j : json) : Prop := tx_getJSON t = Ok (render j) /\ json_ok j.

Lemma pb_text b js : Forall2 (fun t j => tx_getJSON t = Ok (render j)) (pb_transactions b) js ->
  pb_GetJSON b = Ok (render (pb_tree b js)).
Proof.
  intros Hj. unfold pb_GetJSON. cbv zeta. rewrite (sep_loop_trees _ _ _ js) by done.
  cbn [mbind res_bind]. f_equal. rewrite summary_text, validation_text. unfold pb_tree.
  remember (summary_tree (pb_summary b)) as st. remember (validation_tree (pb_vals b)) as vt.
  cbn [render]. pieces.
Qed.

Lemma fb_text b js : Forall2 (fun t j => tx_getJSON t = Ok (render j)) (fb_transactions b) js ->
  fb_GetJSON b = Ok (render (fb_tree b js)).
Proof.
  intros Hj. unfold fb_GetJSON. cbv zeta. rewrite (sep_loop_trees _ _ _ js) by done.
  cbn [mbind res_bind]. f_equal. rewrite summary_text, validation_text. unfold fb_tree.
  remember (summary_tree (fb_summary b)) as st. remember (validation_tree (fb_vals b)) as vt.
  cbn [render]. pieces.
Qed.

Lemma bc_text c js : Forall2 (fun b j => fb_GetJSON b = Ok (render j)) (chain_ c) js ->
  bc_GetJSON c = Ok (render (JArr js)).
Proof.
  intros Hj. unfold bc_GetJSON. rewrite (sep_loop_trees _ _ _ js) by done. cbn [mbind res_bind render].
  done.
Qed.
End texts.

(** ** The trees are well formed *)
Lemma hex_plain v : forallb plain_char (concat (hex_byte <$> v)) = true.
Proof.
  induction v as [|c v IH]; [done|]. rewrite fmap_cons. cbn [concat].
  rewrite forallb_app, IH, andb_true_r. unfold hex_byte. cbn [forallb].
  assert (forall z, plain_char (alpha (Z.land z 15)) = true) as L.
  { intros z. change 15 with (Z.ones 4). rewrite Z.land_ones by lia.
    pose proof (Z.mod_pos_bound z (2 ^ 4)). unfold plain_char, alpha, quote. case_match; bool_to_prop; lia. }
  by rewrite !L.
Qed.

Lemma addr_json_plain a : forallb plain_char (AddressOps.getJSON a) = true.
Proof. unfold AddressOps.getJSON. case_match; [done | apply hex_plain]. Qed.

Lemma sig_json_plain s : forallb plain_char (SignatureOps.getJSON s) = true.
Proof. unfold SignatureOps.getJSON. case_match; [done | apply hex_plain]. Qed.

Lemma hex_json_plain v : forallb plain_char (hex v) = true.
Proof. apply hex_plain. Qed.

Lemma num_ok n : in_i64 n \/ in_u64 n -> json_okb (JNum n) = true.
Proof. intros R. cbn [json_okb]. unfold_ranges. lia. Qed.

Lemma arr_ok {A} (f : A -> json) l :
  Forall (fun x => json_okb (f x) = true) l -> json_okb (JArr (f <$> l)) = true.
Proof. cbn [json_okb]. induction 1 as [|x l Hx _ IH]; [done|]. rewrite fmap_cons. cbn [forallb]. by rewrite Hx, IH. Qed.

(** An object with literal tags. *)
Ltac obj_ok :=
  cbn [json_okb forallb fst snd];
  rewrite ?addr_json_plain, ?sig_json_plain, ?hex_json_plain;
  repeat match goal with |- context [forallb plain_char ?t] =>
    let b := eval vm_compute in (forallb plain_char t) in change (forallb plain_char t) with b end;
  cbn [andb].

Lemma len_ok {A} (l : list A) n : zlen l <= n -> n < 2 ^ 64 -> json_okb (JNum (zlen l)) = true.
Proof. intros. apply num_ok. right. pose proof (zlen_nonneg l). unfold in_u64. lia. Qed.

Lemma delayed_tree_ok kv : delayed_ok kv -> json_okb (delayed_tree kv) = true.
Proof. intros (R1 & R2 & R3). unfold delayed_tree. obj_ok. unfold_ranges. lia. Qed.

Lemma coin_tree_ok kv : coin_ok kv -> json_okb (coin_tree kv) = true.
Proof. intros (R1 & R2). unfold coin_tree. obj_ok. unfold_ranges. lia. Qed.

Lemma concat_length_le {A B} (f : A -> list B) l : (forall x, x ∈ l -> 1 <= zlen (f x)) ->
  zlen l <= zlen (concat (f <$> l)).
Proof.
  induction l as [|x l IH]; intros F; [done|]. rewrite fmap_cons. cbn [concat].
  rewrite zlen_cons, zlen_app. pose proof (F x ltac:(left)). specialize (IH ltac:(intros; apply F; by right)). lia.
Qed.

Lemma concat_elem_le {A B} (f : A -> list B) l x : x ∈ l -> zlen (f x) <= zlen (concat (f <$> l)).
Proof.
  induction 1 as [x l | x y l _ IH]; rewrite fmap_cons; cbn [concat]; rewrite zlen_app.
  - pose proof (zlen_nonneg (concat (f <$> l))). lia.
  - pose proof (zlen_nonneg (f y)). lia.
Qed.

(** The entries of a summary are fewer than its bytes. *)
Lemma pair_sizes kv :
  zlen kv.2.1 <= zlen (SummaryOps.addr_canonical kv) /\ zlen kv.2.2 <= zlen (SummaryOps.addr_canonical kv).
Proof.
  destruct kv as [a [d c]]. unfold SummaryOps.addr_canonical. cbn [fst snd].
  pose proof (concat_length_le SummaryOps.delayed_canonical d ltac:(done)) as L1.
  pose proof (concat_length_le SummaryOps.coin_canonical c ltac:(done)) as L2.
  rewrite (zlen_app (Uint64ToBin _ _)), (zlen_app (concat _)).
  pose proof (zlen_nonneg (Uint64ToBin (zlen c) (Uint64ToBin (zlen d) (AddressOps.getCanonical a)))).
  pose proof (zlen_nonneg d). pose proof (zlen_nonneg c). lia.
Qed.

Lemma pair_size_pos kv : 1 <= zlen (SummaryOps.addr_canonical kv).
Proof.
  destruct kv as [a [d c]]. unfold SummaryOps.addr_canonical. cbn [fst snd].
  rewrite (zlen_app (Uint64ToBin _ _)), (Uint64ToBin_app (zlen c)), (zlen_app _ (Uint64ToBin _ [])).
  rewrite (Uint64ToBin_length (zlen c)).
  pose proof (zlen_nonneg (Uint64ToBin (zlen d) (AddressOps.getCanonical a))).
  pose proof (zlen_nonneg (concat (SummaryOps.delayed_canonical <$> d) ++ concat (SummaryOps.coin_canonical <$> c))).
  lia.
Qed.

Lemma pair_tree_ok kv : pair_ok kv -> zlen (SummaryOps.addr_canonical kv) < 2 ^ 64 ->
  json_okb (pair_tree kv) = true.
Proof.
  intros (_ & _ & Hd & _ & Hc) Hs. pose proof (pair_sizes kv) as [S1 S2].
  pose proof (len_ok kv.2.1 _ S1 Hs) as N1. pose proof (len_ok kv.2.2 _ S2 Hs) as N2.
  assert (json_okb (JArr (delayed_tree <$> kv.2.1)) = true) as A1
    by (apply arr_ok; eapply List.Forall_impl; [apply delayed_tree_ok | done]).
  assert (json_okb (JArr (coin_tree <$> kv.2.2)) = true) as A2
    by (apply arr_ok; eapply List.Forall_impl; [apply coin_tree_ok | done]).
  unfold pair_tree. cbn [json_okb] in N1, N2, A1, A2. obj_ok. by rewrite N1, N2, A1, A2.
Qed.

Lemma summary_tree_ok s : summary_ok s -> zlen (SummaryOps.getCanonical s) < 2 ^ 64 ->
  json_okb (summary_tree s) = true.
Proof.
  intros [_ Hp] Hs. unfold SummaryOps.getCanonical in Hs. rewrite zlen_app in Hs.
  pose proof (zlen_nonneg (Uint32ToBin (u32 (zlen (summary_ s))) [])).
  assert (json_okb (JNum (zlen (summary_ s))) = true) as N1.
  { eapply (len_ok _ (zlen (concat (SummaryOps.addr_canonical <$> summary_ s)))); [|lia].
    apply concat_length_le. intros kv _. pose proof (pair_size_pos kv). lia. }
  assert (json_okb (JArr (pair_tree <$> summary_ s)) = true) as A1.
  { apply arr_ok. apply List.Forall_forall. intros kv Hin. rewrite List.Forall_forall in Hp.
    apply pair_tree_ok; [by apply Hp|].
    pose proof (concat_elem_le SummaryOps.addr_canonical (summary_ s) kv (proj2 (list_elem_of_In _ _) Hin)). lia. }
  unfold summary_tree. cbn [json_okb] in N1, A1. obj_ok. by rewrite N1, A1.
Qed.

Lemma validation_tree_ok v : json_okb (validation_tree v) = true.
Proof.
  apply arr_ok. apply List.Forall_forall. intros kv _. unfold val_tree. by obj_ok.
Qed.

Lemma xfer_tree_ok v : view_ok v -> json_okb (xfer_tree v) = true.
Proof. intros (_ & R1 & R2 & R3). unfold xfer_tree. obj_ok. unfold_ranges. lia. Qed.

Section trees_ok.
Context `{Crypto}.

Lemma t2_tree_ok c : t2c_ok c -> json_okb (t2_tree c) = true.
Proof.
  intros (Hv & Ho & _ & _ & Hl).
  pose proof (built_bounds (c_oper c) (c_xfers c) (c_nonce c) (c_sig c) Hl) as (N1 & N2 & N3 & N4).
  assert (json_okb (JArr (xfer_tree <$> c_xfers c)) = true) as A1
    by (apply arr_ok; eapply List.Forall_impl; [apply xfer_tree_ok | done]).
  unfold t2_tree. cbn [json_okb] in A1. obj_ok. rewrite A1. unfold_ranges. lia.
Qed.

Lemma fb_summary_bytes b : zlen (SummaryOps.getCanonical (fb_summary b)) <= zlen (fb_getCanonical b).
Proof.
  unfold fb_getCanonical. cbv zeta.
  rewrite !(zlen_app (Uint32ToBin _ _)), !(zlen_app (concat _)), !(zlen_app (SummaryOps.getCanonical _)).
  pose proof (zlen_nonneg (concat (fb_raw_transactions b))).
  pose proof (zlen_nonneg (ValidationOps.getCanonical (fb_vals b))).
  match goal with |- _ <= zlen ?h + _ => pose proof (zlen_nonneg h) end. lia.
Qed.

Lemma fb_tree_ok b js : fb_wf b -> Forall json_ok js -> json_ok (fb_tree b js).
Proof.
  intros (V & Nb & (Ft & _ & _ & Fx & Fs & Fc) & Ec & _ & _ & So & _ & _) Hj.
  cbn [fb_fields fh_block_time fh_tx_size fh_sum_size fh_val_count] in *.
  assert (json_okb (summary_tree (fb_summary b)) = true) as A1.
  { apply summary_tree_ok; [done|]. pose proof (fb_summary_bytes b). unfold in_u64 in Nb. lia. }
  pose proof (validation_tree_ok (fb_vals b)) as A2.
  assert (forallb json_okb js = true) as A3
    by (apply forallb_forall; by rewrite List.Forall_forall in Hj).
  unfold json_ok, fb_tree. rewrite V. obj_ok.
  rewrite A1, A2, A3. unfold_ranges. lia.
Qed.
End trees_ok.

(** ** The text of a Tier-1 transaction

    An address and a colon inside an array: whatever follows, the text is not
    JSON.  Each lemma holds for every fuel. *)
Definition rejects {A} (p : nat -> bytes -> option A) (s : bytes) : Prop := forall f, p f s = None.

Lemma items_reject_colon a rest : forallb plain_char a = true ->
  rejects parse_items (quote :: a ++ quote :: colon :: rest).
Proof.
  intros Ha [|[|f]]; [done | done|]. cbn [parse_items parse_value].
  change (quote =? quote) with true. cbn iota. by rewrite parse_string_quoted.
Qed.

Lemma array_rejects c rest : (c =? rbracket) = false ->
  rejects parse_items (c :: rest) -> rejects parse_value (lbracket :: c :: rest).
Proof.
  intros Hc R [|f]; [done|]. cbn [parse_value]. change (lbracket =? quote) with false.
  change (lbracket =? lbracket) with true. cbn iota. by rewrite Hc, R.
Qed.

Lemma object_rejects rest : rejects parse_members (quote :: rest) ->
  rejects parse_value (lbrace :: quote :: rest).
Proof.
  intros R [|f]; [done|]. cbn [parse_value]. change (lbrace =? quote) with false.
  change (lbrace =? lbracket) with false. change (lbrace =? lbrace) with true. cbn iota.
  change (quote =? rbrace) with false. cbn iota. by rewrite R.
Qed.

Lemma items_reject_first s : rejects parse_value s -> rejects parse_items s.
Proof. intros R [|f]; [done|]. cbn [parse_items]. by rewrite R. Qed.

Lemma members_reject_value k s : forallb plain_char k = true -> rejects parse_value s ->
  rejects parse_members (tag k ++ s).
Proof.
  intros Hk R [|f]; [done|]. cbn [parse_members].
  replace (tag k ++ s) with (quoted k ++ colon :: s)
    by (unfold tag, quoted; cbn [app]; by rewrite <- !app_assoc).
  rewrite parse_key_text by done. cbn [mbind option_bind]. by rewrite R.
Qed.

Lemma members_reject_rest k n s : forallb plain_char k = true -> in_i64 n \/ in_u64 n ->
  rejects parse_members s -> rejects parse_members (tag k ++ to_string n ++ comma :: s).
Proof.
  intros Hk Hn R [|f]; [done|]. cbn [parse_members].
  replace (tag k ++ to_string n ++ comma :: s) with (quoted k ++ colon :: to_string n ++ comma :: s)
    by (unfold tag, quoted; cbn [app]; by rewrite <- !app_assoc).
  rewrite parse_key_text by done. cbn [mbind option_bind].
  destruct f as [|f]; [done|]. rewrite parse_value_number by done. cbn [mbind option_bind].
  change (comma =? comma) with true. cbn iota. by rewrite R.
Qed.

Lemma t1_summary_extends json m : exists tl, foldl t1_summary_item json m = json ++ tl.
Proof.
  revert json. induction m as [|kv m IH]; intros json; [exists []; cbn; by rewrite app_nil_r|].
  cbn [foldl]. destruct (IH (t1_summary_item json kv)) as (tl & ->). unfold t1_summary_item. cbv zeta.
  rewrite !sep_loop_joined, <- !app_assoc. by eexists.
Qed.

Lemma rejects_parse s : rejects parse_value s -> parse s = None.
Proof. intros R. unfold parse. by rewrite R. Qed.

(** The text up to the first address. *)
Lemma t1_text_rejected n m a rest :
  in_i64 n \/ in_u64 n -> in_i64 m \/ in_u64 m -> forallb plain_char a = true ->
  parse ([lbrace] ++ tag kSUM_SIZE_TAG ++ to_string n ++ [comma] ++ tag kSUMMARY_TAG
         ++ [lbracket] ++ [lbrace] ++ tag kADDR_SIZE_TAG ++ to_string m ++ [comma]
         ++ tag kSUMMARY_TAG ++ [lbracket] ++ [quote] ++ a ++ [quote; colon] ++ rest) = None.
Proof.
  intros Hn Hm Ha. apply rejects_parse, object_rejects.
  refine (members_reject_rest kSUM_SIZE_TAG n _ eq_refl Hn _).
  apply members_reject_value; [done|]. apply array_rejects; [done|].
  apply items_reject_first, object_rejects.
  refine (members_reject_rest kADDR_SIZE_TAG m _ eq_refl Hm _).
  apply members_reject_value; [done|]. apply array_rejects; [done|]. by apply items_reject_colon.
Qed.

Lemma t1_json_rejected `{Crypto} s addr sig flag :
  node_addr addr -> node_sig sig -> summary_ok s -> zlen (summary_ s) < 2 ^ 32 ->
  summary_ s <> [] -> zlen (t1_bytes s addr sig) < 2 ^ 63 ->
  exists t, t1_getJSON (t1_built s addr sig flag) = Ok t /\ parse t = None.
Proof.
  intros Ha Hs Ho Hn Ne Hl.
  assert (fst (SummaryOps.from_buffer
    (mkIB (t1_canonical (t1_built s addr sig flag)) kUINT64_SIZE)) = Ok s) as Es.
  { cbn [t1_canonical t1_built]. unfold t1_bytes in *.
    change kUINT64_SIZE with (zlen (Uint64ToBin (SummaryOps.getByteSize s) [])).
    by rewrite (parses_summary s Ho Hn _ _ Hl). }
  unfold t1_getJSON. cbv zeta. rewrite Es, t1_getNodeAddress_built, t1_getSignature_built by done.
  cbn [mbind res_bind].
  destruct (summary_ s) as [|kv m] eqn:E; [done|]. cbn [foldl].
  destruct (t1_summary_extends (t1_summary_item
    (((((([lbrace] ++ tag kSUM_SIZE_TAG) ++ to_string (t1_sum_size (t1_built s addr sig flag)) ++ [comma])
      ++ tag kSUMMARY_TAG ++ [lbracket]) ++ [lbrace] ++ tag kADDR_SIZE_TAG)
      ++ to_string (zlen (kv :: m)) ++ [comma] ++ tag kSUMMARY_TAG ++ [lbracket])) kv) m) as (tl & ->).
  eexists. split; [done|]. unfold t1_summary_item. cbv zeta. rewrite !sep_loop_joined.
  rewrite <- !app_assoc. apply t1_text_rejected; [| |apply addr_json_plain].
  - pose proof (t1_sum_bounds s addr sig Ha Hs Hl). right. cbn. unfold in_u64. lia.
  - pose proof (zlen_nonneg (kv :: m)). right. unfold in_u64. lia.
Qed.

(** A number and a colon inside the array of an address of [WriteChainStateMap]. *)
Lemma items_reject_number n rest : in_i64 n \/ in_u64 n ->
  rejects parse_items (to_string n ++ colon :: rest).
Proof.
  intros Hn [|[|f]]; [done | done|]. cbn [parse_items]. by rewrite parse_value_number.
Qed.

Lemma state_text_rejected a coin amount coins rest :
  in_u64 coin -> parse (WriteChainStateMap ((a, (coin, amount) :: coins) :: rest)) = None.
Proof.
  intros Hc. unfold WriteChainStateMap. cbn [sep_loop]. rewrite sep_loop_rest.
  unfold state_entry at 1. cbn [fst snd sep_loop]. rewrite sep_loop_rest. unfold state_item at 1.
  cbn [fst snd app]. rewrite <- !app_assoc. cbn [app].
  apply rejects_parse, object_rejects.
  match goal with |- rejects _ (quote :: ?j ++ quote :: colon :: ?v) =>
    replace (quote :: j ++ quote :: colon :: v) with (tag j ++ v)
      by (unfold tag; cbn [app]; by rewrite <- app_assoc) end.
  apply members_reject_value; [apply addr_json_plain|].
  destruct (to_string_shape coin) as (ds & F & N & [[E1 E2] | [E1 E2]]); [by right|..].
  - assert (45 :: ds <> []) by done. pose proof (items_reject_number coin) as R. rewrite E2 in *.
    cbn [app] in *. apply array_rejects; [done|]. apply R. by right.
  - pose proof (items_reject_number coin) as R. rewrite E2 in *. destruct ds as [|d ds]; [done|].
    cbn [app] in *. apply array_rejects; [|apply R; by right]. cbn [forallb] in F.
    apply andb_prop in F as [Hd _]. unfold digit_char in Hd. unfold rbracket. bool_to_prop. lia.
Qed.
