(* ===== verification/KeyFiles.v ===== *)
(** * Key generation and key files of common/ossladapter.h

    [GenerateEcKey] and [GenerateAndWriteKeyfile], with [ValidateKey] and the
    start-up test [BlockchainModule::performSanityChecks].  What OpenSSL does
    for them is the interface [KeyMaker]; the reading of its memory BIO through
    a stack buffer, the records and the file are definitions.  The file is read
    back by [KeyRing.LoadWallets]. *)

From Stdlib Require Import ZArith Lia Ascii String.
From stdpp Require Import base list numbers.
From S2P Require Import Prelude OrdMap Converters Keys Buffers KeyRing Oracles Files.

#[local] Open Scope Z_scope.

(** The OpenSSL calls of the key generator. *)
Class KeyMaker `{Crypto} := {
  (* the key that the n-th EC_KEY_generate_key makes *)
  EC_generate : nat -> EC_KEY;
  (* EC_GROUP_check of a key's group returns 1 *)
  EC_group_ok : EC_KEY -> bool;
  (* EC_POINT_point2hex of its public point, compressed *)
  EC_point_hex : EC_KEY -> bytes;
  (* what PEM_write_bio_PKCS8PrivateKey leaves in the BIO *)
  PEM_write : EC_KEY -> bytes -> bytes;
  (* what the successive BIO_read calls of up to 1024 bytes return *)
  BIO_reads : bytes -> list bytes;
  (* the bytes of the stack array of the n-th call before it is written *)
  stack_buffer : nat -> bytes
}.

Definition kBUFFER_SIZE : Z := 1024.

Class KeyMakerLaws `{KeyMaker} : Prop := {
  group_generated n : EC_group_ok (EC_generate n) = true;
  (* a compressed point of secp256k1 has 33 bytes *)
  point_generated n : exists raw, bytes_ok raw /\ zlen raw = kWALLET_ADDR_SIZE /\
    EC_point_hex (EC_generate n) = ToHex raw kWALLET_ADDR_SIZE;
  (* an armoured key is text that ends its last line *)
  pem_text n pw : ~ (0 ∈ PEM_write (EC_generate n) pw);
  pem_newline n pw : List.last (PEM_write (EC_generate n) pw) 0 = newline;
  (* a BIO that holds no more than the buffer is read at once *)
  reads_once s : s <> [] -> zlen s <= kBUFFER_SIZE -> BIO_reads s = [s];
  stack_size n : zlen (stack_buffer n) = kBUFFER_SIZE;
  (* the key is read back from its armour with the same password *)
  load_generated n pw : pw <> [] ->
    EC_key_pair false (EC_point_hex (EC_generate n)) (PEM_write (EC_generate n) pw) pw =
      Some (EC_generate n)
}.

(** ** GenerateEcKey *)

(** The string that a [char*] to an array denotes; without a zero byte the
    read leaves the array. *)
Fixpoint c_string (array : bytes) : res bytes :=
  match array with
  | [] => UB
  | c :: array' => if c =? 0 then Ok [] else s ← c_string array'; Ok (c :: s)
  end.

(** [while (BIO_read(fOut, buffer, 1024) > 0) { pk += buffer; }] *)
Fixpoint read_bio (chunks : list bytes) (buffer pk : bytes) : res bytes :=
  match chunks with
  | [] => Ok pk
  | c :: chunks' =>
      let buffer' := c ++ drop (length c) buffer in
      s ← c_string buffer';
      read_bio chunks' buffer' (pk ++ s)
  end.

Section generation.
Context `{KeyMaker}.

(** The state is the two strings taken by reference.  What [CASH_THROW] throws
    is a literal, which the handler of [std::exception] does not catch. *)
Definition GenerateEcKey (n : nat) (aes_password : bytes) : M (bytes * bytes) (option EC_KEY) :=
  try_catch
    (let eckey := EC_generate n in
     if negb (EC_group_ok eckey) then throw ThrownString
     else
       out ← get;
       pk ← lift (read_bio (BIO_reads (PEM_write eckey aes_password)) (stack_buffer n) out.2);
       put (EC_point_hex eckey, pk);;
       mret (Some eckey))
    (fun _ => mret None).

(** One iteration of the loop of [GenerateAndWriteKeyfile]. *)
Definition key_record (aes_password : bytes) (n : nat) : res bytes :=
  match GenerateEcKey n aes_password ([], []) with
  | (Ok _, (addr, key)) => Ok (addr ++ key)
  | (Err e, _) => Err e
  | (UB, _) => UB
  | (NoFuel, _) => NoFuel
  end.

Definition GenerateAndWriteKeyfile `{FileSystem} (s : fs_state) (path : bytes) (num_keys : nat)
    (aes_password : bytes) : res (bool * fs_state) :=
  output ← fold_res (fun output i => r ← key_record aes_password i; Ok (output ++ r)) []
             (seq 0 num_keys);
  match fs_write s path output with
  | Some s' => Ok (true, s')
  | None => Ok (false, s)
  end.
End generation.

(** ** ValidateKey *)

(** [group_ok] and [ret] are the results of [EC_GROUP_check] and
    [EC_KEY_check_key], [err] the code of [ERR_get_error]; a bad group is only
    logged. *)
Definition ValidateKey (group_ok : bool) (ret ossl_ver err : Z) : res bool :=
  if negb (ret =? 1) then
    if (ossl_ver =? 268443775) && (err =? 269160571) ||
       (ossl_ver =? 269484159) && (err =? 269492347)
    then Ok false
    else Err RuntimeError
  else Ok true.

(** ** BlockchainModule::performSanityChecks *)
Section sanity.
Context `{Crypto}.

Definition sanity_password : bytes := text "password"%string.

(** [ctx_made]: a digest context was created.  The module's addresses and keys
    are constants of the context. *)
Definition performSanityChecks (ctx_made : bool) (kADDRs kADDR_KEYs : list bytes) : res unit :=
  if negb ctx_made then Err RuntimeError
  else
    let test_hash := DevcashHash hello in
    addr ← vec_idx kADDRs 1;
    key ← vec_idx kADDR_KEYs 1;
    loadkey ← LoadEcKey addr key sanity_password;
    sig ← SignBinary loadkey test_hash;
    ok ← VerifyByteSig loadkey test_hash sig;
    if negb ok then Err RuntimeError else Ok tt.
End sanity.

(** ** Reading the buffer *)
Lemma c_string_app (s rest : bytes) : ~ (0 ∈ s) ->
  c_string (s ++ rest) = (r ← c_string rest; Ok (s ++ r)).
Proof.
  induction s as [|c s IH]; intros N; [cbn [app]; by destruct (c_string rest)|].
  apply not_elem_of_cons in N as [N1 N2]. cbn [app c_string].
  rewrite (proj2 (Z.eqb_neq c 0)) by congruence. rewrite IH by done. by destruct (c_string rest).
Qed.

Lemma c_string_zero (l : bytes) n : l !! n = Some 0 -> exists g, c_string l = Ok g /\ zlen g <= Z.of_nat n.
Proof.
  revert n; induction l as [|c l IH]; intros n E; [done|]. cbn [c_string].
  destruct (Z.eqb_spec c 0) as [->|N]; [exists []; split; [done | rewrite zlen_nil; lia]|].
  destruct n as [|n]; [by injection E|]. destruct (IH n E) as (g & -> & L).
  exists (c :: g). split; [done|]. rewrite zlen_cons. lia.
Qed.

(** ** What a generated file holds *)
Section records.
Context `{KeyMakerLaws}.

Definition wallet_hex (n : nat) : bytes := EC_point_hex (EC_generate n).

(** The bytes the stack array holds after the place of the armoured key. *)
Definition leftover (pw : bytes) (n : nat) : bytes :=
  drop (length (PEM_write (EC_generate n) pw)) (stack_buffer n).

(** The first [num] records, each with what it picked up from the stack. *)
Definition records (pw : bytes) (garbage : nat -> bytes) (num : nat) : bytes :=
  concat ((fun i => wallet_hex i ++ PEM_write (EC_generate i) pw ++ garbage i) <$> seq 0 num).

Lemma pem_nonempty n pw : PEM_write (EC_generate n) pw <> [].
Proof. intros E. pose proof (pem_newline n pw) as L. by rewrite E in L. Qed.

Lemma hex_size n : zlen (wallet_hex n) = kWALLET_ADDR_SIZE * 2.
Proof.
  destruct (point_generated n) as (raw & _ & L & E). unfold wallet_hex.
  rewrite E, ToHex_all, concat_hex_length by lia. lia.
Qed.

Lemma key_record_ok pw n g : zlen (PEM_write (EC_generate n) pw) <= kBUFFER_SIZE ->
  c_string (leftover pw n) = Ok g ->
  key_record pw n = Ok (wallet_hex n ++ PEM_write (EC_generate n) pw ++ g).
Proof.
  intros L G. unfold key_record, GenerateEcKey, try_catch. rewrite group_generated.
  rewrite reads_once by (try apply pem_nonempty; done).
  cbn [negb mbind M_bind get lift snd read_bio].
  fold (leftover pw n). rewrite c_string_app by apply pem_text. rewrite G. done.
Qed.

Lemma GenerateAndWriteKeyfile_ok `{FileSystem} s path num pw garbage :
  (forall i, (i < num)%nat -> zlen (PEM_write (EC_generate i) pw) <= kBUFFER_SIZE) ->
  (forall i, (i < num)%nat -> c_string (leftover pw i) = Ok (garbage i)) ->
  GenerateAndWriteKeyfile s path num pw =
    match fs_write s path (records pw garbage num) with
    | Some s' => Ok (true, s')
    | None => Ok (false, s)
    end.
Proof.
  intros L G. unfold GenerateAndWriteKeyfile, records.
  enough (forall l out, Forall (fun i => zlen (PEM_write (EC_generate i) pw) <= kBUFFER_SIZE /\
                                         c_string (leftover pw i) = Ok (garbage i)) l ->
    fold_res (fun output i => r ← key_record pw i; Ok (output ++ r)) out l =
    Ok (out ++ concat ((fun i => wallet_hex i ++ PEM_write (EC_generate i) pw ++ garbage i) <$> l)))
    as F.
  { rewrite F; [done|]. apply list.Forall_forall. intros i Hi. apply elem_of_seq in Hi.
    split; [apply L | apply G]; lia. }
  induction l as [|i l IH]; intros out Fl; [by rewrite app_nil_r|].
  apply list.Forall_cons in Fl as [[El E] Fl]. cbn [fold_res]. rewrite (key_record_ok pw i _ El E).
  cbn [mbind res_bind]. rewrite IH by done. rewrite fmap_cons. cbn [concat].
  by rewrite <- !app_assoc.
Qed.
End records.

(** ** Loading a file of records *)
Ltac unfold_record_sizes := unfold kFILE_KEY_SIZE in *; unfold_sizes.

Section loading.
Context `{Crypto}.

(** One record after the other, a throwing one skipped. *)
Fixpoint add_all (add : bytes -> bytes -> M KeyRing unit) (rs : list (bytes * bytes)) : M KeyRing unit :=
  match rs with
  | [] => mret tt
  | r :: rs' => try_catch (add r.1 r.2) (fun _ => mret tt);; add_all add rs'
  end.

Definition of_record (r : bytes * bytes) : bytes := r.1 ++ r.2.

(** The loop over a file of whole records adds each in turn. *)
Lemma key_loop_records add al kl rs : forall pre fuel kr,
  0 < al -> 0 < kl -> Forall (fun r => zlen r.1 = al /\ zlen r.2 = kl) rs ->
  (length rs < fuel)%nat ->
  key_loop add (pre ++ concat (of_record <$> rs)) al kl fuel (zlen pre) kr = add_all add rs kr.
Proof.
  induction rs as [|[a k] rs IH]; intros pre fuel kr Ha Hk F L.
  - cbn [concat fmap list_fmap]. rewrite app_nil_r. destruct fuel; [lia|]. cbn [key_loop].
    by rewrite (proj2 (Z.leb_le _ _)) by lia.
  - apply list.Forall_cons in F as [[La Lk] F]. cbn [fst snd] in La, Lk.
    destruct fuel as [|fuel]; [cbn in L; lia|]. cbn [length] in L.
    rewrite fmap_cons. cbn [concat]. unfold of_record at 1. cbn [fst snd].
    set (rest := concat (of_record <$> rs)). cbn [key_loop].
    pose proof (zlen_nonneg rest). rewrite (proj2 (Z.leb_gt _ _)) by (rewrite !zlen_app; lia).
    rewrite <- !app_assoc, (substr_mid pre a (k ++ rest) (zlen pre) al) by lia.
    assert (substr (pre ++ a ++ k ++ rest) (zlen pre + al) kl = Ok k) as ->
      by (rewrite app_assoc; apply substr_mid; rewrite ?zlen_app; lia).
    cbn [add_all fst snd]. unfold lift, mbind, M_bind.
    destruct (try_catch (add a k) _ kr) as [[[]|e| |] kr']; try done.
    rewrite <- (IH (pre ++ a ++ k) fuel kr') by (done || lia).
    rewrite <- !app_assoc. by rewrite !zlen_app, La, Lk, Z.add_assoc.
Qed.

Lemma records_length al kl rs : Forall (fun r => zlen r.1 = al /\ zlen r.2 = kl) rs ->
  zlen (concat (of_record <$> rs)) = zlen rs * (al + kl).
Proof.
  induction 1 as [|[a k] rs [La Lk] _ IH]; [done|]. cbn [fst snd] in La, Lk.
  rewrite fmap_cons. cbn [concat]. unfold of_record at 1. cbn [fst snd].
  rewrite !zlen_app, IH, zlen_cons. lia.
Qed.

Lemma LoadWallets_records rs pw kr : rs <> [] ->
  Forall (fun r => zlen r.1 = kWALLET_ADDR_SIZE * 2 /\ zlen r.2 = kFILE_KEY_SIZE) rs ->
  LoadWallets (concat (of_record <$> rs)) pw kr =
    (add_all (fun a k => addWalletKeyPair a k pw) rs;; mret true) kr.
Proof.
  intros N F. pose proof (records_length _ _ _ F) as L.
  assert (zlen rs <> 0) as Nz by (destruct rs; [done | rewrite zlen_cons; pose proof (zlen_nonneg rs); lia]).
  pose proof (zlen_nonneg rs) as Pz.
  assert ((length rs < S (length (concat (of_record <$> rs))))%nat) as Fu
    by (apply Nat2Z.inj_lt; fold (zlen rs); rewrite Nat2Z.inj_succ; fold (zlen (concat (of_record <$> rs)));
        rewrite L; unfold_record_sizes; lia).
  unfold LoadWallets. destruct (concat (of_record <$> rs)) as [|c w] eqn:E.
  { rewrite zlen_nil in L. unfold_record_sizes. lia. }
  rewrite <- E in *. rewrite L, (Z.add_comm (kWALLET_ADDR_SIZE * 2)), Z.mod_mul by (unfold_record_sizes; lia).
  assert (forall add, load_keys add (concat (of_record <$> rs)) (kWALLET_ADDR_SIZE * 2) kFILE_KEY_SIZE kr =
    add_all add rs kr) as K by (intros add; by apply (key_loop_records add _ _ rs [])).
  change (0 =? 0) with true. unfold mbind, M_bind. cbv beta iota. by rewrite K.
Qed.

(** A file whose size is no multiple of a record's is refused. *)
Lemma LoadWallets_refuses content pw kr :
  zlen content mod (kFILE_KEY_SIZE + kWALLET_ADDR_SIZE * 2) <> 0 ->
  LoadWallets content pw kr = (Ok false, kr).
Proof.
  intros Hm. unfold LoadWallets. destruct content as [|c w]; [done|].
  by rewrite (proj2 (Z.eqb_neq _ _)) by done.
Qed.
End loading.

(** ** The keys that are read back *)
Section round_trip.
Context `{CL : CryptoLaws}.
Context {KM : KeyMaker} {KL : KeyMakerLaws}.

Definition generated_address (n : nat) : Address :=
  match Hex2Bin (wallet_hex n) with Ok raw => AddressOps.ctor raw | _ => AddressOps.default end.

Lemma generated_hex n : exists raw,
  Hex2Bin (wallet_hex n) = Ok raw /\ zlen raw = kWALLET_ADDR_SIZE.
Proof.
  destruct (point_generated n) as (raw & B & L & E). exists raw. split; [|done].
  unfold wallet_hex. rewrite E. apply Hex2Bin_ToHex; [done | lia | rewrite L; vm_compute; congruence].
Qed.

Lemma generated_address_wf n : addr_wf (generated_address n).
Proof.
  destruct (generated_hex n) as (raw & E & L). unfold generated_address. rewrite E.
  rewrite (addr_ctor_raw kWALLET_ADDR_SIZE) by auto. by apply shape_wallet.
Qed.

Lemma add_generated n pw kr : pw <> [] ->
  addWalletKeyPair (wallet_hex n) (PEM_write (EC_generate n) pw) pw kr =
    (Ok tt, mkKeyRing (fst (om_insert (generated_address n) (EC_generate n) (key_map_ kr)))
              (node_list_ kr) (wallet_list_ kr ++ [generated_address n]) (inn_addr_ kr)).
Proof.
  intros P. unfold addWalletKeyPair, check_key_pair, LoadEcKey.
  assert ((zlen pw <? 1) = false) as -> by (destruct pw; [done|]; rewrite zlen_cons;
    pose proof (zlen_nonneg pw); apply Z.ltb_ge; lia).
  rewrite hex_size, Z.eqb_refl. cbn [mbind res_bind].
  pose proof (load_generated n pw P) as G. fold (wallet_hex n) in G. rewrite G. cbn [mbind res_bind].
  destruct (SignBinary_ok (EC_generate n) (DevcashHash hello)) as (sig & -> & V & _).
  cbn [mbind res_bind]. rewrite V. unfold mbind, M_bind, lift. cbn [res_bind snd fst negb].
  unfold InsertAddress, generated_address. destruct (generated_hex n) as (raw & -> & L). done.
Qed.

Definition generated_record (pw : bytes) (n : nat) : bytes * bytes :=
  (wallet_hex n, PEM_write (EC_generate n) pw).

(** The ring after the first [num] generated keys. *)
Fixpoint generated_ring (l : list nat) (kr : KeyRing) : KeyRing :=
  match l with
  | [] => kr
  | n :: l' => generated_ring l'
      (mkKeyRing (fst (om_insert (generated_address n) (EC_generate n) (key_map_ kr)))
         (node_list_ kr) (wallet_list_ kr ++ [generated_address n]) (inn_addr_ kr))
  end.

Lemma add_all_generated pw l : forall kr, pw <> [] ->
  add_all (fun a k => addWalletKeyPair a k pw) (generated_record pw <$> l) kr =
    (Ok tt, generated_ring l kr).
Proof.
  induction l as [|n l IH]; intros kr P; [done|]. rewrite fmap_cons. cbn [add_all generated_ring].
  change (generated_record pw n).1 with (wallet_hex n).
  change (generated_record pw n).2 with (PEM_write (EC_generate n) pw).
  unfold try_catch, mbind, M_bind. rewrite add_generated by done. by apply IH.
Qed.

Lemma generated_ring_wallets l : forall kr,
  wallet_list_ (generated_ring l kr) = wallet_list_ kr ++ (generated_address <$> l).
Proof.
  induction l as [|n l IH]; intros kr; [by rewrite app_nil_r|]. cbn [generated_ring].
  rewrite IH. cbn [wallet_list_]. by rewrite <- app_assoc.
Qed.

Lemma generated_ring_other l a : forall kr, ~ (a ∈ generated_address <$> l) ->
  om_find a (key_map_ (generated_ring l kr)) = om_find a (key_map_ kr).
Proof.
  induction l as [|n l IH]; intros kr N; [done|]. rewrite fmap_cons in N.
  apply not_elem_of_cons in N as [N1 N2]. cbn [generated_ring]. rewrite IH by done.
  cbn [key_map_]. by apply om_find_insert_ne.
Qed.

Lemma generated_ring_key l n : forall kr, NoDup (generated_address <$> l) -> n ∈ l ->
  om_find (generated_address n) (key_map_ kr) = None ->
  om_find (generated_address n) (key_map_ (generated_ring l kr)) = Some (EC_generate n).
Proof.
  induction l as [|m l IH]; intros kr D E F; [by apply elem_of_nil in E|]. rewrite fmap_cons in D.
  apply list.NoDup_cons in D as [D1 D2]. cbn [generated_ring].
  destruct (decide (generated_address n = generated_address m)) as [Q|Q].
  - assert (n = m) as -> by (apply elem_of_cons in E as [->|E]; [done|]; exfalso; apply D1;
      rewrite <- Q; by apply list_elem_of_fmap_2).
    rewrite generated_ring_other by done. cbn [key_map_]. by rewrite om_find_insert_eq, F.
  - apply IH; [done | | cbn [key_map_]; by rewrite om_find_insert_ne].
    apply elem_of_cons in E as [->|E]; [done|done].
Qed.

(** A file of clean records of the expected size loads every key. *)
Lemma load_generated_file num pw kr : (0 < num)%nat -> pw <> [] ->
  (forall i, (i < num)%nat -> zlen (PEM_write (EC_generate i) pw) = kFILE_KEY_SIZE) ->
  LoadWallets (records pw (fun _ => []) num) pw kr = (Ok true, generated_ring (seq 0 num) kr).
Proof.
  intros N P Hk.
  assert (records pw (fun _ => []) num = concat (of_record <$> (generated_record pw <$> seq 0 num))) as ->.
  { unfold records. rewrite <- list_fmap_compose. f_equal. apply list_fmap_ext. intros i x _. cbn.
    by rewrite app_nil_r. }
  rewrite LoadWallets_records.
  - unfold mbind, M_bind. by rewrite add_all_generated.
  - destruct num; [lia|]. done.
  - apply list.Forall_forall. intros r [i [-> Hi]]%list_elem_of_fmap.
    apply elem_of_seq in Hi. split; [apply hex_size | apply Hk; lia].
Qed.

(** A file ends with the newline of its last key. *)
Lemma records_last pw num : (0 < num)%nat -> List.last (records pw (fun _ => []) num) 0 = newline.
Proof.
  intros N. destruct num as [|num]; [lia|]. unfold records.
  rewrite seq_S, fmap_app, concat_app. cbn [fmap list_fmap concat Nat.add]. rewrite !app_nil_r.
  rewrite app_assoc, <- (pem_newline num pw).
  pose proof (pem_nonempty num pw) as Ne. destruct (exists_last Ne) as (l & x & ->).
  by rewrite app_assoc, !last_last.
Qed.
End round_trip.
