(* ===== verification/Repeater.v ===== *)
(** * repeater.cpp

    A repeater listens to the final blocks of a shard, saves each in a file named
    by its height, and answers requests for blocks and transactions from the
    files.  The response under construction is the state of the computation, since
    the handler of an exception goes on from what has been filled in.  The wire
    format of protobuf messages and the texts of exceptions are not part of the
    sources: [ProtoWriter] is their interface. *)

From Stdlib Require Import ZArith Lia String.
From stdpp Require Import base list numbers.
From S2P Require Import Prelude OrdMap Converters Keys Buffers Transfer ChainState Summary.
From S2P Require Import Validation KeyRing Context DevvUri Transactions Blocks Message Blockchain.
From S2P Require Import Oracles Pbuf Files.

#[local] Open Scope Z_scope.

(** [SerializeToOstream] of the messages, and [what()]. *)
Class ProtoWriter := {
  WriteFinalBlock : Proto.FinalBlock -> bytes;
  WriteTransaction : Proto.Transaction -> bytes;
  WriteEnvelope : Proto.Envelope -> bytes;
  exn_what : exn -> bytes
}.

Section repeater.
Context `{Crypto} `{FileSystem} `{ProtoWriter}.

(** ** Listening *)
Record Listener := mkListener { l_files : fs_state; l_height : Z }.

(** [std::to_string(height) + ".blk"] *)
Definition block_name (height : Z) : bytes := to_string height ++ text ".blk".

(** The callback of the client: [&p->data[0]] needs a byte to point to. *)
Definition on_message (context : DevcashContext) (working_dir : bytes) (p : DevcashMessage)
    : M Listener unit :=
  l ← get;
  if negb (m_type p =? eMessageType.FINAL_BLOCK) then mret tt
  else
    let shard_dir := in_dir working_dir (ContextOps.get_shard_uri context) in
    files ← (if is_directory (l_files l) shard_dir then
               let out_file := in_dir shard_dir (block_name (l_height l)) in
               match fs_write (l_files l) out_file (m_data p) with
               | None => mret (l_files l)
               | Some files => lift (vec_idx (m_data p) 0);; mret files
               end
             else mret (l_files l));
    put (mkListener files (u32 (l_height l + 1))).

(** The callback runs in the thread of the client, at the same time as the loop
    over the requests.  This is where it has got while it is still writing: the
    file is open, which emptied it, and [k] bytes have reached it. *)
Definition on_message_part (context : DevcashContext) (working_dir : bytes) (p : DevcashMessage)
    (k : nat) : M Listener unit :=
  l ← get;
  if negb (m_type p =? eMessageType.FINAL_BLOCK) then mret tt
  else
    let shard_dir := in_dir working_dir (ContextOps.get_shard_uri context) in
    if is_directory (l_files l) shard_dir then
      let out_file := in_dir shard_dir (block_name (l_height l)) in
      match fs_write (l_files l) out_file (take k (m_data p)) with
      | None => mret tt
      | Some files => put (mkListener files (l_height l))
      end
    else mret tt.

Fixpoint listen (context : DevcashContext) (working_dir : bytes) (ms : list DevcashMessage)
    : M Listener unit :=
  match ms with
  | [] => mret tt
  | m :: ms' => on_message context working_dir m;; listen context working_dir ms'
  end.

(** ** Looking into the files *)
Definition hasShard (s : fs_state) (shard working_dir : bytes) : bool :=
  is_directory s (in_dir working_dir shard).

Definition block_path (shard : bytes) (block : Z) (working_dir : bytes) : bytes :=
  in_dir (in_dir working_dir shard) (block_name block).

Definition hasBlock (s : fs_state) (shard : bytes) (block : Z) (working_dir : bytes) : bool :=
  fs_exists s (block_path shard block working_dir).

(** A [directory_iterator] of what is not a directory throws. *)
Definition higher (highest : Z) (name : bytes) : res Z :=
  n ← stoul (fs_stem name);
  let some_block := u32 n in
  Ok (if highest <? some_block then some_block else highest).

Definition getHighestBlock (s : fs_state) (shard working_dir : bytes) : res Z :=
  let shard_dir := in_dir working_dir shard in
  if is_directory s shard_dir then fold_res higher 0 (fs_entries s shard_dir)
  else Err RuntimeError.

Definition ReadBlock (s : fs_state) (shard : bytes) (block : Z) (working_dir : bytes) : res bytes :=
  ReadBinaryFile s (block_path shard block working_dir).

(** [for (uint32_t i = start; i <= highest; ++i) body(i)].  The counter wraps at
    the end of its range; a pass over [start..highest] and one over all heights up
    to [highest] either end the loop or show that it goes on for ever. *)
Fixpoint height_loop {S} (body : Z -> M S unit) (fuel : nat) (i highest : Z) : M S unit :=
  if i <=? highest then
    match fuel with
    | O => lift NoFuel
    | S fuel' => body i;; height_loop body fuel' (u32 (i + 1)) highest
    end
  else mret tt.

Definition loop_fuel (start highest : Z) : nat :=
  Z.to_nat (highest - start + 1) + Z.to_nat (highest + 1).

Definition for_heights {S} (body : Z -> M S unit) (start highest : Z) : M S unit :=
  height_loop body (loop_fuel start highest) start highest.

(** [ChainState state; FinalBlock one_block(FinalBlock::Create(buffer, state));] *)
Definition load_block (s : fs_state) (shard : bytes) (block : Z) (working_dir : bytes)
    : res FinalBlock :=
  v ← ReadBlock s shard block working_dir;
  fst (fb_Create ChainStateOps.empty (mkIB v 0)).

(** The first height at which the transaction is found. *)
Definition has_transaction (tx_id : Signature) (b : FinalBlock) : res bool :=
  fold_res (fun (found : bool) tx =>
    if found then Ok true else s ← tx_getSignature tx; Ok (bool_decide (s = tx_id)))
    false (fb_transactions b).

(** The same loop with a [return i] in its body. *)
Fixpoint find_height (body : Z -> res bool) (fuel : nat) (i highest : Z) : res (option Z) :=
  if i <=? highest then
    match fuel with
    | O => NoFuel
    | S fuel' =>
        hit ← body i;
        if (hit : bool) then Ok (Some i) else find_height body fuel' (u32 (i + 1)) highest
    end
  else Ok None.

Definition SearchForTransaction (s : fs_state) (shard : bytes) (start_block : Z) (tx_id : Signature)
    (working_dir : bytes) : res Z :=
  highest ← getHighestBlock s shard working_dir;
  if highest <? start_block then Ok UINT32_MAX
  else
    SignatureOps.getRawSignature tx_id;;
    found ← find_height (fun i =>
        b ← load_block s shard i working_dir;
        has_transaction tx_id b) (loop_fuel start_block highest) start_block highest;
    Ok (default UINT32_MAX found).

(** A transaction is listed once for every transfer of the address. *)
Definition address_hits (addr : Address) (tx : bytes) : res (list bytes) :=
  t2tx ← fst (t2_QuickCreate (mkIB tx 0));
  xfers ← t2_getTransfers t2tx;
  addrs ← map_res TransferOps.getAddress xfers;
  Ok (replicate (length (filter (fun a => a = addr) addrs)) tx).

Definition SearchForAddress (s : fs_state) (shard : bytes) (start_block : Z) (addr : Address)
    (working_dir : bytes) : res (list bytes) :=
  highest ← getHighestBlock s shard working_dir;
  if highest <? start_block then Ok []
  else
    AddressOps.getAddressRaw addr;;
    let '(r, txs) :=
      for_heights (fun i =>
        b ← lift (load_block s shard i working_dir);
        hits ← lift (map_res (address_hits addr) (fb_raw_transactions b));
        txs ← get;
        put (txs ++ concat hits)) start_block highest [] in
    r;; Ok txs.

(** ** Answering *)
Definition set_code (code : Z) (message : bytes) : M RepeaterResponse unit :=
  r ← get;
  put (mkRepeaterResponse (rs_request_timestamp r) (rs_operation r) code message (rs_raw_response r)).

Definition set_raw (raw : bytes) : M RepeaterResponse unit :=
  r ← get;
  put (mkRepeaterResponse (rs_request_timestamp r) (rs_operation r) (rs_return_code r)
         (rs_message r) raw).

Definition append_raw (raw : bytes) : M RepeaterResponse unit :=
  r ← get; set_raw (rs_raw_response r ++ raw).

Definition no_height : M RepeaterResponse unit :=
  set_code 1051 (text "Block height is missing from the URI.").

Definition pbuf_block (b : FinalBlock) : res bytes :=
  proto_block ← Pbuf.SerializeFinalBlock b;
  Ok (WriteFinalBlock proto_block).

(** [for (tx : one_block.getTransactions()) if (tx->getSignature() == sig) { ...;
    break; }] *)
Fixpoint first_match (sig : Signature) (found : Transaction -> M RepeaterResponse unit)
    (txs : list Transaction) : M RepeaterResponse unit :=
  match txs with
  | [] => mret tt
  | tx :: txs' =>
      s ← lift (tx_getSignature tx);
      if bool_decide (s = sig) then found tx else first_match sig found txs'
  end.

Definition pbuf_transaction (tx : Transaction) : M RepeaterResponse unit :=
  t2tx ← lift (fst (t2_QuickCreate (mkIB (tx_getCanonical tx) 0)));
  pbuf_tx ← lift (Pbuf.SerializeTransaction t2tx);
  set_raw (WriteTransaction pbuf_tx).

Definition run_operation (s : fs_state) (working_dir : bytes) (operation : Z) (id : DevvUri)
    : M RepeaterResponse unit :=
  let blocks (emit : Z -> M RepeaterResponse unit) (start : Z) :=
    highest_block ← lift (getHighestBlock s (shard id) working_dir);
    if start <=? highest_block then for_heights emit start highest_block else mret tt in
  let emit_raw i := one_block ← lift (ReadBlock s (shard id) i working_dir); append_raw one_block in
  let emit_pbuf i :=
    one_block ← lift (load_block s (shard id) i working_dir);
    v ← lift (pbuf_block one_block);
    append_raw v in
  let find_transaction found :=
    if block_height id =? UINT32_MAX then no_height
    else if SignatureOps.isNull (uri_sig id)
    then set_code 1051 (text "Transaction signature is missing from the URI.")
    else
      height ← lift (SearchForTransaction s (shard id) (block_height id) (uri_sig id) working_dir);
      one_block ← lift (load_block s (shard id) height working_dir);
      first_match (uri_sig id) found (fb_transactions one_block) in
  match operation with
  | 1 =>
      if block_height id =? UINT32_MAX then no_height
      else v ← lift (ReadBlock s (shard id) (block_height id) working_dir); set_raw v
  | 2 => blocks emit_raw (block_height id)
  | 3 => blocks emit_raw 0
  | 4 => find_transaction (fun tx => set_raw (tx_getCanonical tx))
  | 5 =>
      one_block ← lift (load_block s (shard id) (block_height id) working_dir);
      v ← lift (pbuf_block one_block);
      set_raw v
  | 6 => blocks emit_pbuf (block_height id)
  | 7 => blocks emit_pbuf 0
  | 8 => find_transaction pbuf_transaction
  | 9 =>
      if block_height id =? UINT32_MAX then no_height
      else if SignatureOps.isNull (uri_sig id)
      then set_code 1051 (text "Transaction signature is missing from the URI.")
      else
        height ← lift (SearchForTransaction s (shard id) (block_height id) (uri_sig id) working_dir);
        if negb (height =? UINT32_MAX) then
          r ← get; set_raw (Uint32ToBin height (rs_raw_response r))
        else set_code 3020 (text "Transaction not found since block "
                              ++ to_string (block_height id) ++ text ".")
  | 10 =>
      if block_height id =? UINT32_MAX then no_height
      else if AddressOps.isNull (uri_addr id)
      then set_code 1051 (text "Transaction address is missing from the URI.")
      else
        txs ← lift (SearchForAddress s (shard id) (block_height id) (uri_addr id) working_dir);
        envelope ← lift (Pbuf.SerializeEnvelopeFromBinaryTransactions txs);
        set_raw (WriteEnvelope envelope)
  | _ => set_code 1020 (text "Unknown operation: " ++ to_string operation)
  end.

Definition answer (s : fs_state) (request : RepeaterRequest) (working_dir : bytes)
    : M RepeaterResponse unit :=
  id ← lift (ParseDevvUri (rr_uri request));
  if negb (valid id) then set_code 1052 (text "URI is not valid.")
  else if negb (hasShard s (shard id) working_dir)
  then set_code 1050 (text "Shard " ++ shard id ++ text " is not available.")
  else if negb (block_height id =? UINT32_MAX)
          && negb (hasBlock s (shard id) (block_height id) working_dir)
  then set_code 1050 (text "Block " ++ to_string (block_height id) ++ text " is not available.")
  else run_operation s working_dir (rr_operation request) id.

(** The response, whatever the path. *)
Definition HandleRepeaterRequest (s : fs_state) (request : RepeaterRequest) (working_dir : bytes)
    : res RepeaterResponse :=
  let start := mkRepeaterResponse (rr_timestamp request) (rr_operation request) 0 [] [] in
  let '(r, response) :=
    try_catch (answer s request working_dir)
      (fun e => set_code 1010 (text "Repeater Error: " ++ exn_what e)) start in
  r;; Ok response.

(** One turn of the loop of [main]: reading a request never throws. *)
Definition serve `{ProtoParser} (s : fs_state) (working_dir msg_string : bytes)
    : res Proto.RepeaterResponse :=
  response ← HandleRepeaterRequest s (Pbuf.DeserializeRepeaterRequest msg_string) working_dir;
  Ok (Pbuf.SerializeRepeaterResponse response).

Definition GenerateBadSyntaxResponse (message : bytes) : RepeaterResponse :=
  mkRepeaterResponse 0 0 1010 message [].
End repeater.

(** ** Names of blocks *)
Section names.
Context `{FileSystemLaws}.

Lemma block_name_inj i j : in_u32 i -> in_u32 j -> block_name i = block_name j -> i = j.
Proof.
  unfold block_name. intros Hi Hj E. apply app_inv_tail in E.
  rewrite <- (to_string_of i), <- (to_string_of j), E; [done | right; unfold_ranges; lia..].
Qed.

Lemma stem_block_name i : in_u32 i -> fs_stem (block_name i) = to_string i.
Proof.
  intros Hi. unfold block_name. destruct (to_string_digits _ Hi) as (ds & -> & _ & Nd & _).
  change (text ".blk") with ([46] ++ [98; 108; 107]). apply stem_ext; [done|].
  intros X. repeat (apply elem_of_cons in X as [X|X]; [done|]). by apply elem_of_nil in X.
Qed.

Lemma block_name_plain i : in_u32 i -> ~ (slash ∈ block_name i).
Proof.
  intros Hi. unfold block_name. destruct (to_string_digits _ Hi) as (ds & -> & Fd & _).
  intros [X | X]%elem_of_app.
  - rewrite List.Forall_forall in Fd. apply list_elem_of_In, Fd in X. unfold slash in X. lia.
  - repeat (apply elem_of_cons in X as [X|X]; [done|]). by apply elem_of_nil in X.
Qed.

Lemma higher_block_name h i : in_u32 i -> higher h (block_name i) = Ok (Z.max h i).
Proof.
  intros Hi. unfold higher. rewrite stem_block_name, stoul_to_string by done. cbn [mbind res_bind].
  cbv zeta. rewrite u32_id by done. f_equal. case_match; bool_to_prop; lia.
Qed.

(** The highest of the names of a directory. *)
Lemma fold_higher l : Forall (fun m => exists i, in_u32 i /\ m = block_name i) l -> forall h,
  exists r, fold_res higher h l = Ok r /\ h <= r /\
    (forall i, in_u32 i -> block_name i ∈ l -> i <= r) /\
    (r = h \/ in_u32 r /\ block_name r ∈ l).
Proof.
  induction 1 as [|m l (i & Hi & ->) _ IH]; intros h; cbn [fold_res].
  - exists h. split; [done|]. split; [lia|]. split; [|by left].
    intros i _ X. by apply elem_of_nil in X.
  - rewrite higher_block_name by done. cbn [mbind res_bind].
    destruct (IH (Z.max h i)) as (r & -> & Hr & Hall & Hin). exists r. split; [done|].
    split; [lia|]. split.
    + intros k Hk [E | X]%elem_of_cons; [|by apply Hall].
      apply block_name_inj in E; [lia | done..].
    + destruct Hin as [-> | [R X]]; [|by right; split; [done | right]].
      destruct (Z.max_spec h i) as [[_ ->] | [_ ->]]; [right; split; [done | left] | by left].
Qed.
End names.

(** ** The files of a shard

    [stored s dir bs]: the directory holds exactly the blocks [bs], each under
    its height. *)
Section stored.
Context `{FileSystemLaws}.

Definition stored (s : fs_state) (dir : bytes) (bs : list bytes) : Prop :=
  is_directory s dir = true /\
  (forall m, m ∈ fs_entries s dir <-> exists i, 0 <= i < zlen bs /\ m = block_name i) /\
  (forall (i : nat) b, bs !! i = Some b -> fs_content s (in_dir dir (block_name (Z.of_nat i))) = Some b).

Lemma stored_write s dir bs b s' :
  stored s dir bs -> zlen bs < 2 ^ 32 ->
  fs_write s (in_dir dir (block_name (zlen bs))) b = Some s' -> stored s' dir (bs ++ [b]).
Proof.
  intros (D & E & C) Hl W. pose proof (zlen_nonneg bs). split; [by rewrite (directory_written _ _ _ _ _ W)|].
  split.
  - intros m. assert (zlen (bs ++ [b]) = zlen bs + 1) as -> by (rewrite zlen_app; done).
    etransitivity; [by apply (entries_written s dir (block_name (zlen bs)) b s' m D); [apply block_name_plain; unfold in_u32; lia | apply W]|].
    rewrite E. split.
    + intros [-> | (i & Hi & ->)]; [exists (zlen bs) | exists i]; split; (done || lia).
    + intros (i & Hi & ->). destruct (decide (i = zlen bs)) as [-> | N]; [by left|].
      right. exists i. split; [lia | done].
  - intros i b' L. apply lookup_app_Some in L as [L | [Hi L]].
    + rewrite (content_others _ _ _ _ _ _ W); [by apply C|].
      apply lookup_lt_Some in L. intros X. apply block_name_inj in X; unfold in_u32, zlen in *; lia.
    + destruct (i - length bs)%nat eqn:X; [|done]. cbn in L. simplify_eq.
      replace (Z.of_nat i) with (zlen bs) by (unfold zlen; lia).
      by apply (content_written _ _ _ _ _ W).
Qed.

(** Writing the last block again. *)
Lemma stored_overwrite s dir bs b b' s' :
  stored s dir (bs ++ [b]) -> zlen bs < 2 ^ 32 ->
  fs_write s (in_dir dir (block_name (zlen bs))) b' = Some s' -> stored s' dir (bs ++ [b']).
Proof.
  intros (D & E & C) Hl W. pose proof (zlen_nonneg bs). split; [by rewrite (directory_written _ _ _ _ _ W)|].
  assert (zlen (bs ++ [b]) = zlen bs + 1 /\ zlen (bs ++ [b']) = zlen bs + 1) as [Z Z'] by (by rewrite !zlen_app).
  split.
  - intros m. rewrite Z'. rewrite Z in E.
    etransitivity; [by apply (entries_written s dir (block_name (zlen bs)) b' s' m D); [apply block_name_plain; unfold in_u32; lia | apply W]|].
    rewrite E. split; [|by right]. intros [-> | X]; [|done]. exists (zlen bs). split; [lia | done].
  - intros i x L. apply lookup_app_Some in L as [L | [Hi L]].
    + rewrite (content_others _ _ _ _ _ _ W); [apply C; by apply lookup_app_l_Some|].
      apply lookup_lt_Some in L. intros X. apply block_name_inj in X; unfold in_u32, zlen in *; lia.
    + destruct (i - length bs)%nat eqn:Ei; [|done]. injection L as <-.
      replace (Z.of_nat i) with (zlen bs) by (unfold zlen; lia). by eapply content_written.
Qed.

Lemma stored_highest s wd sh bs : stored s (in_dir wd sh) bs -> bs <> [] -> zlen bs < 2 ^ 32 ->
  getHighestBlock s sh wd = Ok (zlen bs - 1).
Proof.
  intros (D & E & _) N Hl. unfold getHighestBlock. rewrite D.
  assert (0 < zlen bs) by (destruct bs; [done | rewrite zlen_cons; pose proof (zlen_nonneg bs); lia]).
  destruct (fold_higher (fs_entries s (in_dir wd sh))) with (h := 0) as (r & -> & Hpos & Hall & Hin).
  { apply List.Forall_forall. intros m Hm%list_elem_of_In. apply E in Hm as (i & Hi & ->). exists i. split; [unfold in_u32; lia | done]. }
  f_equal. pose proof (Hall (zlen bs - 1)) as X. ospecialize (X _ _); [unfold in_u32; lia | |].
  { apply E. exists (zlen bs - 1). split; [lia | done]. }
  destruct Hin as [-> | [R Y]]; [lia|]. apply E in Y as (i & Hi & Y).
  apply block_name_inj in Y; [lia | done | unfold in_u32; lia].
Qed.

Lemma stored_read s wd sh bs (i : nat) b : stored s (in_dir wd sh) bs -> bs !! i = Some b ->
  ReadBlock s sh (Z.of_nat i) wd = Ok b /\ hasBlock s sh (Z.of_nat i) wd = true.
Proof.
  intros (D & E & C) L. pose proof (C i b L) as X.
  unfold ReadBlock, ReadBinaryFile, hasBlock, block_path. rewrite X.
  split; [done|]. by apply (exists_content _ _ b).
Qed.
End stored.

(** ** Listening fills the directory *)
Section listening.
Context `{FileSystemLaws}.
Context (context : DevcashContext) (wd : bytes).

Let dir := in_dir wd (ContextOps.get_shard_uri context).

(** Files of the directory can be opened for writing. *)
Definition writable : Prop :=
  forall s n v, is_directory s dir = true -> exists s', fs_write s (in_dir dir n) v = Some s'.

Definition is_final (m : DevcashMessage) : Prop := m_type m = eMessageType.FINAL_BLOCK.

(** The blocks among the messages. *)
Definition final_data (ms : list DevcashMessage) : list bytes := m_data <$> filter is_final ms.

Definition holds (l : Listener) (bs : list bytes) : Prop :=
  stored (l_files l) dir bs /\ l_height l = zlen bs.

Lemma on_message_holds m l bs : writable -> holds l bs -> m_data m <> [] -> zlen bs < 2 ^ 32 - 1 ->
  exists l', on_message context wd m l = (Ok tt, l') /\ holds l' (bs ++ final_data [m]).
Proof.
  intros Hw [S E] N Hl. unfold on_message. rewrite bind_get. unfold final_data.
  pose proof (zlen_nonneg bs). destruct (decide (is_final m)) as [F | F].
  - rewrite filter_cons_True, filter_nil by done. unfold is_final in F. rewrite F. cbn [negb].
    change (eMessageType.FINAL_BLOCK =? eMessageType.FINAL_BLOCK) with true. cbn [negb]. cbv zeta.
    fold dir. pose proof S as (D & _). rewrite D, E.
    destruct (Hw (l_files l) (block_name (zlen bs)) (m_data m) D) as (s' & W). rewrite W.
    destruct (m_data m) as [|c d] eqn:Em; [done|].
    exists (mkListener s' (zlen bs + 1)). split.
    + unfold mbind at 1, M_bind at 1. rewrite bind_lift. unfold vec_idx.
      rewrite (proj2 (Z.ltb_lt 0 _)) by (rewrite zlen_cons; pose proof (zlen_nonneg d); lia).
      cbn. unfold put. by rewrite u32_id by (unfold in_u32; lia).
    + split; [|cbn; by rewrite zlen_app]. cbn [l_files fmap list_fmap]. cbn. rewrite Em.
      apply (stored_write (l_files l)); [done | lia | done].
  - rewrite filter_cons_False, filter_nil by done. unfold is_final in F.
    rewrite (proj2 (Z.eqb_neq _ _)) by done. cbn [negb]. exists l. split; [done|].
    cbn. by rewrite app_nil_r.
Qed.

(** A block on its way: its file holds a part of it, then all of it. *)
Lemma on_message_parts m l bs k : writable -> holds l bs -> is_final m -> m_data m <> [] -> zlen bs < 2 ^ 32 - 1 ->
  exists l1 l2, on_message_part context wd m k l = (Ok tt, l1) /\
    on_message context wd m l1 = (Ok tt, l2) /\
    stored (l_files l1) dir (bs ++ [take k (m_data m)]) /\ holds l2 (bs ++ [m_data m]).
Proof.
  intros Hw [S E] F N Hl. unfold on_message_part, on_message. rewrite bind_get, F.
  change (eMessageType.FINAL_BLOCK =? eMessageType.FINAL_BLOCK) with true. cbn [negb]. cbv zeta.
  fold dir. pose proof S as (D & _). rewrite D, E. pose proof (zlen_nonneg bs).
  destruct (Hw (l_files l) (block_name (zlen bs)) (take k (m_data m)) D) as (s1 & W1). rewrite W1.
  pose proof (stored_write _ _ _ _ _ S ltac:(lia) W1) as S1. pose proof S1 as (D1 & _).
  destruct (Hw s1 (block_name (zlen bs)) (m_data m) D1) as (s2 & W2).
  exists (mkListener s1 (zlen bs)), (mkListener s2 (zlen bs + 1)). split; [done|]. split.
  - rewrite bind_get. cbn [l_files l_height]. rewrite D1, W2. destruct (m_data m) as [|c d]; [done|].
    unfold mbind at 1, M_bind at 1. rewrite bind_lift. unfold vec_idx.
    rewrite (proj2 (Z.ltb_lt 0 _)) by (rewrite zlen_cons; pose proof (zlen_nonneg d); lia).
    cbn. unfold put. by rewrite u32_id by (unfold in_u32; lia).
  - split; [done|]. split; [|cbn; by rewrite zlen_app].
    apply (stored_overwrite _ _ _ _ _ _ S1 ltac:(lia) W2).
Qed.

Lemma listen_holds ms : writable -> Forall (fun m => m_data m <> []) ms -> forall l bs,
  holds l bs -> zlen bs + zlen ms < 2 ^ 32 ->
  exists l', listen context wd ms l = (Ok tt, l') /\ holds l' (bs ++ final_data ms).
Proof.
  intros Hw. induction 1 as [|m ms Hm _ IH]; intros l bs Hh Hl; cbn [listen].
  - exists l. split; [done|]. cbn. by rewrite app_nil_r.
  - rewrite zlen_cons in Hl. pose proof (zlen_nonneg ms).
    destruct (on_message_holds m l bs Hw Hh Hm ltac:(lia)) as (l1 & E1 & Hl1).
    rewrite (bind_ok _ _ _ _ _ E1).
    destruct (IH l1 (bs ++ final_data [m])) as (l2 & E2 & Hl2); [done| |].
    { rewrite zlen_app. unfold final_data. rewrite filter_cons, filter_nil. case_decide; cbn; unfold zlen in *; cbn; lia. }
    exists l2. split; [done|]. rewrite <- app_assoc in Hl2. unfold final_data in *.
    rewrite <- fmap_app, <- list.filter_app in Hl2. done.
Qed.
End listening.

(** ** The loops over heights *)
Section loops.
Context {S A : Type}.

(** A body that acts on the element at its index, over a suffix of a list. *)
Lemma height_loop_list (body : Z -> M S unit) (f : S -> A -> S) (bs : list A) :
  (forall (i : nat) x s, bs !! i = Some x -> body (Z.of_nat i) s = (Ok tt, f s x)) ->
  zlen bs < 2 ^ 32 ->
  forall suf pre s fuel, bs = pre ++ suf -> (length suf <= fuel)%nat ->
  height_loop body fuel (zlen pre) (zlen bs - 1) s = (Ok tt, foldl f s suf).
Proof.
  intros Hb Hl. induction suf as [|x suf IH]; intros pre s fuel E Hf.
  - rewrite app_nil_r in E. subst. destruct fuel; cbn [height_loop];
      by rewrite (proj2 (Z.leb_gt _ _)) by lia.
  - cbn [length] in Hf. destruct fuel as [|fuel]; [lia|]. cbn [height_loop].
    pose proof (zlen_nonneg suf). pose proof (zlen_nonneg pre).
    assert (zlen bs = zlen pre + 1 + zlen suf) as L by (rewrite E, zlen_app, zlen_cons; lia).
    rewrite (proj2 (Z.leb_le _ _)) by lia.
    rewrite (bind_ok _ _ _ tt (f s x)).
    + rewrite u32_id by (unfold in_u32; lia). cbn [foldl].
      replace (zlen pre + 1) with (zlen (pre ++ [x])) by (by rewrite zlen_app).
      apply IH; [by rewrite <- app_assoc | lia].
    + apply (Hb (length pre)). rewrite E. by rewrite lookup_app_r, Nat.sub_diag by lia.
Qed.

Lemma for_heights_list (body : Z -> M S unit) (f : S -> A -> S) (bs : list A) (start : nat) s :
  (forall (i : nat) x s, bs !! i = Some x -> body (Z.of_nat i) s = (Ok tt, f s x)) ->
  zlen bs < 2 ^ 32 -> (start < length bs)%nat ->
  for_heights body (Z.of_nat start) (zlen bs - 1) s = (Ok tt, foldl f s (drop start bs)).
Proof.
  intros Hb Hl Hs. unfold for_heights.
  replace (Z.of_nat start) with (zlen (take start bs)) by (unfold zlen; rewrite length_take; lia).
  apply (height_loop_list body f bs Hb Hl); [by rewrite take_drop|].
  unfold loop_fuel, zlen. rewrite length_drop, length_take. lia.
Qed.
End loops.

(** ** What requests get *)
Definition block_uri (sh : bytes) (height : Z) : DevvUri :=
  mkUri true sh height SignatureOps.default AddressOps.default.

Lemma shard_plain c : in_u32 (current_shard_ c) ->
  plain (ContextOps.get_shard_uri c) /\ ContextOps.get_shard_uri c <> [].
Proof.
  intros Hs. split; [|done]. unfold ContextOps.get_shard_uri.
  destruct (to_string_digits _ Hs) as (ds & -> & Fd & _). apply Forall_app. split.
  - repeat constructor; done.
  - by apply plain_digits.
Qed.

Lemma block_uri_ok sh height : plain sh -> sh <> [] -> in_u32 height -> uri_ok (block_uri sh height).
Proof. intros. unfold uri_ok, block_uri. cbn. intuition. Qed.

Section answers.
Context `{Crypto} `{FileSystemLaws} `{ProtoWriter}.
Context (s : fs_state) (wd sh : bytes) (bs : list bytes).
Context (Hst : stored s (in_dir wd sh) bs) (Hne : bs <> []) (Hl : zlen bs < 2 ^ 32 - 1).

(** A request whose uri names the shard, and a stored block if any, reaches
    its operation. *)
Lemma answer_run ts op u :
  uri_ok u -> shard u = sh ->
  (block_height u = UINT32_MAX \/ exists i : nat, (i < length bs)%nat /\ block_height u = Z.of_nat i) ->
  answer s (mkRepeaterRequest ts op (MakeDevvUri u)) wd = run_operation s wd op u.
Proof.
  intros Hu Es Hh. unfold answer. cbn [rr_uri rr_operation]. rewrite ParseDevvUri_Make by done.
  unfold mbind, M_bind, lift. pose proof Hu as (-> & _). cbn [negb].
  unfold hasShard. rewrite Es. destruct Hst as (-> & _). cbn [negb].
  destruct Hh as [-> | (i & Hi & Eh)].
  - by rewrite Z.eqb_refl.
  - apply lookup_lt_is_Some_2 in Hi as [b Hi]. rewrite Eh.
    destruct (stored_read s wd sh bs i b Hst Hi) as [_ ->]. cbn [negb]. by rewrite andb_false_r.
Qed.

Lemma emit_raw_list i b (r : RepeaterResponse) : bs !! i = Some b ->
  (one_block ← lift (ReadBlock s sh (Z.of_nat i) wd); append_raw one_block) r =
  (Ok tt, mkRepeaterResponse (rs_request_timestamp r) (rs_operation r) (rs_return_code r)
            (rs_message r) (rs_raw_response r ++ b)).
Proof. intros Hi. destruct (stored_read s wd sh bs i b Hst Hi) as [E _]. by rewrite bind_lift, E. Qed.

Lemma foldl_append l r :
  foldl (fun r b => mkRepeaterResponse (rs_request_timestamp r) (rs_operation r) (rs_return_code r)
            (rs_message r) (rs_raw_response r ++ b)) r l =
  mkRepeaterResponse (rs_request_timestamp r) (rs_operation r) (rs_return_code r)
            (rs_message r) (rs_raw_response r ++ concat l).
Proof.
  revert r. induction l as [|b l IH]; intros r; cbn [foldl concat].
  - rewrite app_nil_r. by destruct r.
  - rewrite IH. cbn. by rewrite <- app_assoc.
Qed.

Lemma raw_blocks (start : nat) ts op :
  (start < length bs)%nat ->
  for_heights (fun i => one_block ← lift (ReadBlock s sh i wd); append_raw one_block)
    (Z.of_nat start) (zlen bs - 1) (mkRepeaterResponse ts op 0 [] []) =
  (Ok tt, mkRepeaterResponse ts op 0 [] (concat (drop start bs))).
Proof.
  intros Hs. erewrite (for_heights_list (A := bytes)); [|intros i b r Hi; by apply emit_raw_list | lia | done].
  by rewrite foldl_append.
Qed.

Context (Hp : plain sh) (Hsn : sh <> []).

Lemma height_u32 (i : nat) : (i < length bs)%nat -> in_u32 (Z.of_nat i) /\ Z.of_nat i <> UINT32_MAX.
Proof. unfold zlen, in_u32, UINT32_MAX in *. lia. Qed.

(** Operation 1: one block. *)
Lemma get_block ts (i : nat) b : bs !! i = Some b ->
  HandleRepeaterRequest s (mkRepeaterRequest ts 1 (MakeDevvUri (block_uri sh (Z.of_nat i)))) wd =
  Ok (mkRepeaterResponse ts 1 0 [] b).
Proof.
  intros Hi. pose proof (lookup_lt_Some _ _ _ Hi) as Li. destruct (height_u32 i Li) as [U N].
  unfold HandleRepeaterRequest, try_catch. rewrite answer_run;
    [|by apply block_uri_ok | done | right; by exists i].
  unfold run_operation. cbn [block_height block_uri shard rr_timestamp rr_operation].
  rewrite (proj2 (Z.eqb_neq _ _)) by done.
  destruct (stored_read s wd sh bs i b Hst Hi) as [E _]. by rewrite bind_lift, E.
Qed.

(** Operation 2: the blocks from a height on. *)
Lemma get_blocks_since ts (i : nat) : (i < length bs)%nat ->
  HandleRepeaterRequest s (mkRepeaterRequest ts 2 (MakeDevvUri (block_uri sh (Z.of_nat i)))) wd =
  Ok (mkRepeaterResponse ts 2 0 [] (concat (drop i bs))).
Proof.
  intros Li. destruct (height_u32 i Li) as [U N].
  unfold HandleRepeaterRequest, try_catch. rewrite answer_run;
    [|by apply block_uri_ok | done | right; by exists i].
  unfold run_operation. cbn [block_height block_uri shard rr_timestamp rr_operation]. cbv zeta.
  rewrite (stored_highest s wd sh bs) by (done || lia). rewrite bind_lift.
  rewrite (proj2 (Z.leb_le _ _)) by (unfold zlen; lia). by rewrite raw_blocks.
Qed.

(** Operation 3: all blocks, whatever else the uri names. *)
Lemma get_chain ts :
  HandleRepeaterRequest s (mkRepeaterRequest ts 3 (MakeDevvUri (block_uri sh UINT32_MAX))) wd =
  Ok (mkRepeaterResponse ts 3 0 [] (concat bs)).
Proof.
  unfold HandleRepeaterRequest, try_catch. rewrite answer_run;
    [|apply block_uri_ok; try done; unfold in_u32, UINT32_MAX; lia | done | by left].
  unfold run_operation. cbn [block_height block_uri shard rr_timestamp rr_operation]. cbv zeta.
  rewrite (stored_highest s wd sh bs) by (done || lia). rewrite bind_lift.
  assert (0 < length bs)%nat by (destruct bs; [done | cbn; lia]).
  rewrite (proj2 (Z.leb_le _ _)) by (unfold zlen; lia).
  pose proof (raw_blocks 0 ts 3 ltac:(lia)) as E.
  change (Z.of_nat 0) with 0 in E. by rewrite E.
Qed.
End answers.

(** ** Looking for a transaction

    A block read from a file keeps its transactions as raw bytes only. *)
Section searching.
Context `{Crypto} `{FileSystem} `{ProtoWriter}.

Lemma fb_Create_no_transactions prior b fb b' :
  fb_Create prior b = (Ok fb, b') -> fb_transactions fb = [].
Proof.
  unfold fb_Create. intros E. repeat (minv; case_match; try done). minv. done.
Qed.

Lemma load_block_no_transactions s sh i wd b : load_block s sh i wd = Ok b -> fb_transactions b = [].
Proof.
  unfold load_block. intros E. minv. destruct (fb_Create _ _) as [r b'] eqn:X. cbn [fst] in E. subst r.
  by apply fb_Create_no_transactions in X.
Qed.

Lemma find_height_none body fuel : (forall i, body i <> Ok true) -> forall i highest o,
  find_height body fuel i highest = Ok o -> o = None.
Proof.
  intros Hb. induction fuel as [|fuel IH]; intros i highest o; cbn [find_height];
    (case_match; [|by intros [= <-]]); [done|]. intros (hit & Eb & E)%res_bind_inv_ok.
  destruct hit; [by apply Hb in Eb | by apply IH in E].
Qed.

Lemma search_finds_nothing s sh start sig wd h :
  SearchForTransaction s sh start sig wd = Ok h -> h = UINT32_MAX.
Proof.
  unfold SearchForTransaction. intros (highest & _ & E)%res_bind_inv_ok.
  destruct (highest <? start); [by simplify_eq|].
  apply res_bind_inv_ok in E as (raw & _ & E). apply res_bind_inv_ok in E as (o & Eo & E).
  apply find_height_none in Eo as ->; [by simplify_eq|].
  intros i (b & Eb & Et)%res_bind_inv_ok. apply load_block_no_transactions in Eb.
  unfold has_transaction in Et. by rewrite Eb in Et.
Qed.

(** The response while nothing has been found. *)
Definition unanswered (op : Z) (r : RepeaterResponse) : Prop :=
  rs_raw_response r = [] /\ (op = 9 -> rs_return_code r <> 0).

Lemma set_code_wp op code msg r :
  rs_raw_response r = [] -> code <> 0 ->
  wp (set_code code msg) r (fun _ => unanswered op) (fun r => rs_raw_response r = []).
Proof. intros Hr Hc. by split. Qed.

Lemma first_match_none sig found r : first_match sig found [] r = (Ok tt, r).
Proof. done. Qed.

Lemma transaction_operations s wd op id r : op = 4 \/ op = 8 \/ op = 9 -> rs_raw_response r = [] ->
  wp (run_operation s wd op id) r (fun _ => unanswered op) (fun r => rs_raw_response r = []).
Proof.
  intros Hop Hr. unfold run_operation. cbv zeta.
  assert (forall found, op <> 9 -> wp (
    if block_height id =? UINT32_MAX then no_height
    else if SignatureOps.isNull (uri_sig id)
    then set_code 1051 (text "Transaction signature is missing from the URI.")
    else
      height ← lift (SearchForTransaction s (shard id) (block_height id) (uri_sig id) wd);
      one_block ← lift (load_block s (shard id) height wd);
      first_match (uri_sig id) found (fb_transactions one_block)) r
    (fun _ => unanswered op) (fun r => rs_raw_response r = [])) as Hfind.
  { intros found N. case_match; [by apply set_code_wp|]. case_match; [by apply set_code_wp|].
    apply wp_bind, wp_lift; [|done]. intros h _. apply wp_bind, wp_lift; [|done].
    intros b Eb%load_block_no_transactions. rewrite Eb. split; [done | by intros ->]. }
  destruct Hop as [-> | [-> | ->]]; [by apply Hfind | by apply Hfind|].
  case_match; [by apply set_code_wp|]. case_match; [by apply set_code_wp|].
  apply wp_bind, wp_lift; [|done]. intros h Eh%search_finds_nothing. subst h.
  rewrite Z.eqb_refl. cbn [negb]. by apply set_code_wp.
Qed.

Lemma transaction_requests s wd req r :
  rr_operation req = 4 \/ rr_operation req = 8 \/ rr_operation req = 9 ->
  HandleRepeaterRequest s req wd = Ok r -> unanswered (rr_operation req) r.
Proof.
  intros Hop. unfold HandleRepeaterRequest.
  set (start := mkRepeaterResponse _ _ _ _ _). 
  assert (wp (try_catch (answer s req wd) (fun e => set_code 1010 (text "Repeater Error: " ++ exn_what e)))
    start (fun _ => unanswered (rr_operation req)) (fun _ => True)) as W.
  { apply wp_try.
    apply (wp_mono _ _ (fun _ => unanswered (rr_operation req)) _ (fun r => rs_raw_response r = []));
      [|done | by intros r' X e; split].
    unfold answer. apply wp_bind, wp_lift; [|done]. intros id _.
    case_match; [by apply set_code_wp|]. case_match; [by apply set_code_wp|].
    case_match; [by apply set_code_wp|]. by apply transaction_operations. }
  unfold wp in W. destruct (try_catch _ _ start) as [[[]| | |] r']; cbn; [|done..].
  by intros [= <-].
Qed.
End searching.

(** ** Looking for an address *)
Section addresses.
Context `{Crypto} `{FileSystemLaws}.

(** The transaction, once for each of its transfers of the address. *)
Definition listed (addr : Address) (c : t2_content) : list bytes :=
  replicate (length (filter (fun v => v_addr v = addr) (c_xfers c))) (t2c_bytes c).

Lemma getAddress_views vs : Forall view_ok vs ->
  map_res TransferOps.getAddress (xfer_of <$> vs) = Ok (v_addr <$> vs).
Proof.
  induction 1 as [|v vs Hv _ IH]; [done|]. rewrite !fmap_cons. cbn [map_res].
  rewrite xfer_getAddress, IH by done. done.
Qed.

Lemma filter_addr_length addr vs :
  length (filter (fun a => a = addr) (v_addr <$> vs)) = length (filter (fun v => v_addr v = addr) vs).
Proof.
  induction vs as [|v vs IH]; [done|]. rewrite fmap_cons, !filter_cons. by case_decide; cbn; rewrite IH.
Qed.

Lemma address_hits_run addr c : t2c_readable c -> address_hits addr (t2c_bytes c) = Ok (listed addr c).
Proof.
  intros (Hv & Hs & Hn & Ho & Hl). unfold address_hits.
  pose proof (read_tx_run (c_oper c) (c_xfers c) (c_nonce c) (c_sig c) [] Hs Hn Ho Hl) as E.
  unfold read_tx in E. cbn [raw_data_] in E. unfold Str2Bin in E. fold (t2c_bytes c) in E.
  rewrite E. cbn [mbind res_bind].
  rewrite built_getTransfers; [|done | by apply cut_bound]. cbn [mbind res_bind].
  rewrite getAddress_views by done. cbn [mbind res_bind]. by rewrite filter_addr_length.
Qed.

Lemma all_hits addr cs : Forall t2c_readable cs ->
  map_res (address_hits addr) (t2c_bytes <$> cs) = Ok (listed addr <$> cs).
Proof.
  induction 1 as [|c cs Hc _ IH]; [done|]. rewrite !fmap_cons. cbn [map_res].
  by rewrite address_hits_run, IH.
Qed.

(** A stored block and the contents of its transactions. *)
Definition file_of (v : bytes) (cs : list t2_content) : Prop :=
  exists b, v = fb_getCanonical b /\ fb_wf b /\ Forall raw_ok (fb_raw_transactions b) /\
    fb_raw_transactions b = t2c_bytes <$> cs /\ Forall t2c_readable cs /\ zlen v < 2 ^ 63.

Lemma load_block_run s wd sh bs (i : nat) v cs :
  stored s (in_dir wd sh) bs -> bs !! i = Some v -> file_of v cs ->
  exists b, load_block s sh (Z.of_nat i) wd = Ok b /\ fb_raw_transactions b = t2c_bytes <$> cs.
Proof.
  intros Hst Hi (b & -> & Hw & Hr & Eb & _ & Hl). exists (fb_raw b ChainStateOps.empty).
  split; [|done]. unfold load_block. destruct (stored_read s wd sh bs i _ Hst Hi) as [-> _].
  cbn [mbind res_bind].
  pose proof (parses_to_end _ _ _ (parses_fb_Create b ChainStateOps.empty Hw Hr) [] Hl) as E.
  cbn [app] in E. change (zlen []) with 0 in E. by rewrite E.
Qed.

Lemma search_address_run s wd sh bs css (start : nat) addr :
  stored s (in_dir wd sh) bs -> Forall2 file_of bs css -> zlen bs < 2 ^ 32 ->
  (start < length bs)%nat -> AddressOps.isNull addr = false ->
  SearchForAddress s sh (Z.of_nat start) addr wd =
    Ok (concat (listed addr <$> concat (drop start css))).
Proof.
  intros Hst F Hl Hs Hn. pose proof (list.Forall2_length _ _ _ F) as El.
  assert (zlen bs = zlen css) as Ez by (unfold zlen; lia).
  unfold SearchForAddress. rewrite (stored_highest s wd sh bs) by (try done; by destruct bs; cbn in Hs; [lia|]).
  cbn [mbind res_bind]. rewrite (proj2 (Z.ltb_ge _ _)) by (unfold zlen; lia).
  unfold AddressOps.getAddressRaw. rewrite Hn.
  assert (exists raw, vec_range (a_canonical addr) 1 (zlen (a_canonical addr)) = Ok raw) as (raw & ->).
  { unfold AddressOps.isNull in Hn. destruct (a_canonical addr) as [|c a]; [done|].
    exists a. pose proof (vec_range_mid [c] a [] 1 (zlen (c :: a)) eq_refl) as X.
    rewrite app_nil_r in X. apply X. by rewrite zlen_cons. }
  cbn [mbind res_bind]. rewrite Ez.
  rewrite (for_heights_list (A := list t2_content) _
    (fun txs cs => txs ++ concat (listed addr <$> cs))); [|intros i cs txs Hi | lia | lia].
  - cbn [mbind res_bind]. f_equal.
    enough (forall l txs, foldl (fun txs cs => txs ++ concat (listed addr <$> cs)) txs l =
      txs ++ concat (listed addr <$> concat l)) as X by apply X.
    induction l as [|cs l IH]; intros txs; cbn [foldl concat]; [by rewrite app_nil_r|].
    by rewrite IH, fmap_app, concat_app, <- app_assoc.
  - destruct (Forall2_lookup_r _ _ _ _ _ F Hi) as (v & Hv & Hf). pose proof Hf as (_ & _ & _ & _ & _ & Hc & _).
    destruct (load_block_run s wd sh bs i v cs Hst Hv Hf) as (b & -> & Eb).
    rewrite bind_lift, bind_lift, Eb, all_hits by done. done.
Qed.
End addresses.
