(* ===== verification/Auditors.v ===== *)
(** * verifier.cpp and scanner.cpp

    Two programs that read a directory of blocks and transactions.  The verifier
    replays them and compares the state that the transactions imply with the one
    that the blocks imply; the scanner counts and prints them as JSON.  Warnings
    are a list, since they are the result of a run.  The property trees of boost
    are not part of the sources: a tree is a [json], and [PropertyTree] reads a
    text. *)

From Stdlib Require Import ZArith Lia String.
From stdpp Require Import base list numbers.
From S2P Require Import Prelude OrdMap Converters Keys Buffers Transfer ChainState Summary.
From S2P Require Import Validation KeyRing Context DevvUri Transactions Blocks Blockchain Oracles Pool.
From S2P Require Import JsonTree JsonPrint Files.

#[local] Open Scope Z_scope.

(** [read_json]: the tree of a JSON text; other texts throw a [runtime_error]. *)
Class PropertyTree := {
  read_json : bytes -> res json;
  read_json_tree j : json_ok j -> read_json (render j) = Ok j
}.

Inductive warning :=
| UnknownData            (* contains unknown data *)
| InvalidTransaction
| InvalidSummary
| FileError.             (* skipping to next file *)

Section auditors.
Context `{Crypto} `{FileSystem} (keys : KeyRing).

(** ** What both programs do with a block: replay its transactions *)

(** A warning about a transaction prints it, which may throw. *)
Fixpoint replay (txs : list Transaction) : M (VCtx * list warning) unit :=
  match txs with
  | [] => mret tt
  | item :: txs' =>
      s ← get;
      let '(r, c) := tx_isValid item keys s.1 in
      put (c, s.2);;
      ok ← lift r;
      (if negb ok then
         put (c, s.2 ++ [InvalidTransaction]);;
         lift (tx_getJSON item);; mret tt
       else mret tt);;
      replay txs'
  end.

(** The chain state is updated by reference, the summary is a new one. *)
Definition replay_block (b : FinalBlock) : M (ChainState * list warning) unit := fun s =>
  let '(r, (c, ws)) := replay (fb_CopyTransactions b) (mkVCtx s.1 SummaryOps.Create [], s.2) in
  match r with
  | Ok _ =>
      if bool_decide (SummaryOps.getCanonical (v_summary c) = SummaryOps.getCanonical (fb_summary b))
      then (Ok tt, (v_state c, ws))
      else
        (map_res tx_getJSON (fb_CopyTransactions b);; Ok tt, (v_state c, ws ++ [InvalidSummary]))
  | Err e => (Err e, (v_state c, ws))
  | UB => (UB, (v_state c, ws))
  | NoFuel => (NoFuel, (v_state c, ws))
  end.

(** ** The verifier *)
Record Audit := mkAudit {
  au_priori : VCtx;              (* the state and summary of the transactions *)
  au_posteri : ChainState;       (* the state of the blocks *)
  au_warnings : list warning
}.

Definition audit_start : Audit :=
  mkAudit (mkVCtx ChainStateOps.empty SummaryOps.Create []) ChainStateOps.empty [].

Definition warn (a : Audit) (w : warning) : Audit :=
  mkAudit (au_priori a) (au_posteri a) (au_warnings a ++ [w]).

(** The body of the loop over a file. *)
Definition verify_block (mode : eAppMode) : M (Audit * InputBuffer) unit :=
  s ← get;
  let '(r, buffer) := fb_from_buffer_mode (au_posteri s.1) keys mode s.2 in
  put (s.1, buffer);;
  one_block ← lift r;
  let '(r, (st, ws)) := replay_block one_block (au_posteri s.1, au_warnings s.1) in
  put (mkAudit (au_priori s.1) st ws, buffer);;
  lift r.

Definition verify_transaction : M (Audit * InputBuffer) unit :=
  s ← get;
  let '(r, buffer) := t2_Create keys true s.2 in
  put (s.1, buffer);;
  tx ← lift r;
  let '(r, (c, ws)) := replay [Tier2 tx] (au_priori s.1, au_warnings s.1) in
  put (mkAudit c (au_posteri s.1) ws, buffer);;
  lift r.

Definition verify_item (mode : eAppMode) (is_block is_transaction : bool) : M (Audit * InputBuffer) unit :=
  if is_block then verify_block mode
  else if is_transaction then verify_transaction
  else mret tt.

(** [while (buffer.getOffset() < file_size) try { ... } catch { break; }] *)
Fixpoint file_loop {S} (item : M (S * InputBuffer) unit) (failed : S -> S) (size : Z) (fuel : nat)
    : M (S * InputBuffer) unit :=
  s ← get;
  if offset_ s.2 <? size then
    match fuel with
    | O => lift NoFuel
    | Datatypes.S fuel' => fun s =>
        match item s with
        | (Ok _, s') => file_loop item failed size fuel' s'
        | (Err e, s') => if is_std_exception e then (Ok tt, (failed s'.1, s'.2)) else (Err e, s')
        | r => r
        end
    end
  else mret tt.

(** One file; [fuel] bounds the number of its items, each of which should
    take a byte or more. *)
Definition verify_file (now : Z) (mode : eAppMode) (fuel : nat) (raw : bytes) : M Audit unit := fun a =>
  if zlen raw <=? 0 then (Err AssertionFailure, a)
  else
    match (is_block ← IsBlockData now raw; is_transaction ← IsTxData raw; Ok (is_block, is_transaction)) with
    | Ok (is_block, is_transaction) =>
        let a := if negb is_block && negb is_transaction then warn a UnknownData else a in
        let '(r, s) := file_loop (verify_item mode is_block is_transaction)
                         (fun a => warn a FileError) (zlen raw) fuel (a, mkIB raw 0) in
        (r, s.1)
    | Err e => (Err e, a)
    | UB => (UB, a)
    | NoFuel => (NoFuel, a)
    end.

Fixpoint verify_files (s : fs_state) (now : Z) (mode : eAppMode) (fuel : nat) (files : list bytes)
    : M Audit unit :=
  match files with
  | [] => mret tt
  | file_name :: files' =>
      raw ← lift (ReadBinaryFile s file_name);
      verify_file now mode fuel raw;;
      verify_files s now mode fuel files'
  end.

(** The verdict: whether the end states match, with the warnings; [None] is the
    error return for a bad directory. *)
Definition verifier_main (s : fs_state) (now : Z) (mode : eAppMode) (fuel : nat) (working_dir : bytes)
    : res (option (bool * list warning)) :=
  if negb (is_directory s working_dir) then Ok None
  else
    let files := in_dir working_dir <$> fs_entries s working_dir in
    let '(r, a) := verify_files s now mode fuel files audit_start in
    r;;
    Ok (Some (CompareChainStateMaps (state_map_ (v_state (au_priori a))) (state_map_ (au_posteri a)),
              au_warnings a)).

(** ** The scanner *)
Context `{PropertyTree}.

(** The counters of one file, and the array of the trees of all files. *)
Record Scan := mkScan {
  sc_blocks : Z; sc_txs : Z; sc_tfer : Z;
  sc_start_time : Z; sc_blocktime : Z; sc_volume : Z; sc_value : Z;
  sc_priori : ChainState; sc_posteri : ChainState;
  sc_tree : list json; sc_warnings : list warning
}.

Definition file_start (tree : list json) (ws : list warning) : Scan :=
  mkScan 0 0 0 0 0 0 0 ChainStateOps.empty ChainStateOps.empty tree ws.

(** [tree.push_back(std::make_pair("", pt2))] *)
Definition add_to_tree (input_string : bytes) (tree : list json) : res (list json) :=
  pt2 ← read_json input_string;
  Ok (tree ++ [pt2]).

Definition scan_transaction : M (Scan * InputBuffer) unit :=
  s ← get;
  let '(r, buffer) := t2_Create keys true s.2 in
  put (s.1, buffer);;
  tx ← lift r;
  let f := s.1 in
  let count tfer tree :=
    mkScan (sc_blocks f) (u64 (sc_txs f + 1)) tfer (sc_start_time f) (sc_blocktime f)
      (sc_volume f) (sc_value f) (sc_priori f) (sc_posteri f) tree (sc_warnings f) in
  put (count (sc_tfer f) (sc_tree f), buffer);;
  xfers ← lift (t2_getTransfers tx);
  let tfer := u64 (sc_tfer f + zlen xfers) in
  put (count tfer (sc_tree f), buffer);;
  json ← lift (t2_getJSON tx);
  tree ← lift (add_to_tree json (sc_tree f));
  put (count tfer tree, buffer).

Definition scan_block (mode : eAppMode) : M (Scan * InputBuffer) unit :=
  s ← get;
  let '(r, buffer) := fb_from_buffer_mode (sc_priori s.1) keys mode s.2 in
  put (s.1, buffer);;
  one_block ← lift r;
  let f := s.1 in
  let txs_count := fb_getNumTransactions one_block in
  tfers ← lift (fb_getNumTransfers one_block);
  let previous_time := sc_blocktime f in
  let blocktime := fb_block_time one_block in
  let upd start volume value posteri tree ws :=
    mkScan (sc_blocks f) (sc_txs f) (sc_tfer f) start blocktime volume value
      (fb_block_state one_block) posteri tree ws in
  put (upd (sc_start_time f) (sc_volume f) (sc_value f) (sc_posteri f) (sc_tree f) (sc_warnings f), buffer);;
  json ← lift (fb_GetJSON one_block);
  tree ← lift (add_to_tree json (sc_tree f));
  let start :=
    if negb (u64 (blocktime - previous_time) =? 0) && negb (previous_time =? 0) then sc_start_time f
    else if previous_time =? 0 then blocktime else sc_start_time f in
  put (upd start (sc_volume f) (sc_value f) (sc_posteri f) tree (sc_warnings f), buffer);;
  block_volume ← lift (fb_getVolume one_block);
  let volume := u64 (sc_volume f + block_volume) in
  put (upd start volume (sc_value f) (sc_posteri f) tree (sc_warnings f), buffer);;
  v ← lift (fb_getValue one_block);
  let value := u64 (sc_value f + v) in
  let '(r, (st, ws)) := replay_block one_block (sc_posteri f, sc_warnings f) in
  put (upd start volume value st tree ws, buffer);;
  lift r;;
  put (mkScan (u64 (sc_blocks f + 1)) (u64 (sc_txs f + txs_count)) (u64 (sc_tfer f + tfers)) start
         blocktime volume value (fb_block_state one_block) st tree ws, buffer).

(** Transactions are looked for first. *)
Definition scan_item (mode : eAppMode) (is_block is_transaction : bool) : M (Scan * InputBuffer) unit :=
  if is_transaction then scan_transaction
  else if is_block then scan_block mode
  else mret tt.

Definition scan_failed (f : Scan) : Scan :=
  mkScan (sc_blocks f) (sc_txs f) (sc_tfer f) (sc_start_time f) (sc_blocktime f) (sc_volume f)
    (sc_value f) (sc_priori f) (sc_posteri f) (sc_tree f) (sc_warnings f ++ [FileError]).

Definition scan_file (now : Z) (mode : eAppMode) (fuel : nat) (raw : bytes) (tree : list json)
    (ws : list warning) : res unit * Scan :=
  match (is_block ← IsBlockData now raw; is_transaction ← IsTxData raw; Ok (is_block, is_transaction)) with
  | Ok (is_block, is_transaction) =>
      let ws := if negb is_block && negb is_transaction then ws ++ [UnknownData] else ws in
      let '(r, s) := file_loop (scan_item mode is_block is_transaction) scan_failed (zlen raw) fuel
                       (file_start tree ws, mkIB raw 0) in
      (r, s.1)
  | Err e => (Err e, file_start tree ws)
  | UB => (UB, file_start tree ws)
  | NoFuel => (NoFuel, file_start tree ws)
  end.

(** The totals of a directory. *)
Record Totals := mkTotals {
  block_counter : Z; tx_counter : Z; tfer_count : Z; total_volume : Z;
  block_array : list json; scan_warnings : list warning
}.

Fixpoint scan_files (s : fs_state) (now : Z) (mode : eAppMode) (fuel : nat) (files : list bytes)
    (t : Totals) : res Totals :=
  match files with
  | [] => Ok t
  | file_name :: files' =>
      raw ← ReadBinaryFile s file_name;
      let '(r, f) := scan_file now mode fuel raw (block_array t) (scan_warnings t) in
      r;;
      scan_files s now mode fuel files'
        (mkTotals (u64 (block_counter t + sc_blocks f)) (u64 (tx_counter t + sc_txs f))
           (u64 (tfer_count t + sc_tfer f)) (u64 (total_volume t + sc_volume f))
           (sc_tree f) (sc_warnings f))
  end.
End auditors.

(** ** [filter_by_address] *)

(** [get_child(key)] throws [ptree_bad_path]; the children of a tree; the first
    child with a key; [data()]. *)
Definition get_child (tree : json) (key : bytes) : res json :=
  match tree with
  | JObj l => match List.find (fun m => bool_decide (m.1 = key)) l with
              | Some m => Ok m.2 | None => Err RuntimeError end
  | _ => Err RuntimeError
  end.

Definition children (tree : json) : list json :=
  match tree with JArr l => l | JObj l => l.*2 | _ => [] end.

Definition tree_data (tree : json) : bytes :=
  match tree with JStr s => s | JNum n => to_string n | _ => [] end.

(** [xfer.second.find("addr")->second.data()]: the end iterator when there is
    none. *)
Definition find_data (tree : json) (key : bytes) : res bytes :=
  match tree with
  | JObj l => match List.find (fun m => bool_decide (m.1 = key)) l with
              | Some m => Ok (tree_data m.2) | None => UB end
  | _ => UB
  end.

Definition contains (pat s : bytes) : bool :=
  match find_str pat s with Some _ => true | None => false end.

Definition tx_involves (filter_address : bytes) (tx : json) : res bool :=
  transfers ← get_child tx kXFER_TAG;
  addrs ← map_res (fun xfer => find_data xfer kADDR_TAG) (children transfers);
  Ok (existsb (contains filter_address) addrs).

Definition filter_block (filter_address : bytes) (acc : list json) (block : json) : res (list json) :=
  txs ← get_child block kTXS_TAG;
  fold_res (fun acc tx =>
    addr_found ← tx_involves filter_address tx;
    Ok (if (addr_found : bool) then acc ++ [tx] else acc)) acc (children txs).

Definition filter_by_address (tree : list json) (filter_address : bytes) : res json :=
  tx_children ← fold_res (filter_block filter_address) [] tree;
  Ok (JObj [(kTXS_TAG, JArr tx_children)]).

Definition kBLOCKS_TAG : bytes := text "blocks".

(** The totals of the log and the tree for the output file; [None] is the error
    return for a bad directory. *)
Definition scanner_main `{Crypto} `{FileSystem} `{PropertyTree} (s : fs_state) (now : Z) (mode : eAppMode)
    (fuel : nat) (working_dir write_file address_filter : bytes) : res (option (Totals * option json)) :=
  if bool_decide (working_dir = []) || negb (is_directory s working_dir) then Ok None
  else
    let files := in_dir working_dir <$> fs_entries s working_dir in
    t ← scan_files KeyRing_empty s now mode fuel files (mkTotals 0 0 0 0 [] []);
    out ← (if bool_decide (write_file = []) then Ok None
           else if 0 <? zlen address_filter then
             txs_tree ← filter_by_address (block_array t) address_filter; Ok (Some txs_tree)
           else Ok (Some (JObj [(kBLOCKS_TAG, JArr (block_array t))])));
    Ok (Some (t, out)).

(** ** Files of unknown content

    The loop over a file that is neither blocks nor transactions consumes
    nothing. *)
Lemma idle_loop {S} (failed : S -> S) size fuel : forall (s : S) b,
  offset_ b < size -> file_loop (mret tt) failed size fuel (s, b) = (NoFuel, (s, b)).
Proof.
  induction fuel as [|fuel IH]; intros s b Hb; cbn [file_loop]; rewrite bind_get; cbn [snd];
    rewrite (proj2 (Z.ltb_lt _ _)) by done; [done|]. by apply IH.
Qed.

Section unknown.
Context `{Crypto} `{FileSystem} (keys : KeyRing).

Definition unknown_data (now : Z) (raw : bytes) : Prop :=
  raw <> [] /\ IsBlockData now raw = Ok false /\ IsTxData raw = Ok false.

Lemma unknown_size now raw : unknown_data now raw -> 0 < zlen raw.
Proof.
  intros (N & _). destruct raw as [|c raw]; [done|]. rewrite zlen_cons. pose proof (zlen_nonneg raw). lia.
Qed.

Lemma verify_unknown now mode fuel raw a : unknown_data now raw ->
  fst (verify_file keys now mode fuel raw a) = NoFuel.
Proof.
  intros U. pose proof (unknown_size _ _ U). destruct U as (N & E1 & E2). unfold verify_file.
  rewrite (proj2 (Z.leb_gt _ _)) by done. rewrite E1, E2. cbn [mbind res_bind negb andb verify_item].
  by rewrite idle_loop.
Qed.

Lemma scan_unknown `{PropertyTree} now mode fuel raw tree ws : unknown_data now raw ->
  fst (scan_file keys now mode fuel raw tree ws) = NoFuel.
Proof.
  intros U. pose proof (unknown_size _ _ U). destruct U as (N & E1 & E2). unfold scan_file.
  rewrite E1, E2. cbn [mbind res_bind negb andb scan_item]. by rewrite idle_loop.
Qed.

Lemma verifier_hangs s now mode fuel wd name names raw :
  is_directory s wd = true -> fs_entries s wd = name :: names ->
  fs_content s (in_dir wd name) = Some raw -> unknown_data now raw ->
  verifier_main keys s now mode fuel wd = NoFuel.
Proof.
  intros D E C U. unfold verifier_main. rewrite D, E. cbn [negb]. cbv zeta. rewrite fmap_cons.
  cbn [verify_files]. unfold ReadBinaryFile. rewrite C, bind_lift.
  pose proof (verify_unknown now mode fuel raw audit_start U) as V.
  unfold mbind at 1, M_bind at 1. destruct (verify_file _ _ _ _ _ _) as [r a]. cbn in V. by subst r.
Qed.

End unknown.

Lemma scanner_hangs `{Crypto} `{FileSystem} `{PropertyTree} s now mode fuel wd name names raw out pat :
  wd <> [] -> is_directory s wd = true -> fs_entries s wd = name :: names ->
  fs_content s (in_dir wd name) = Some raw -> unknown_data now raw ->
  scanner_main s now mode fuel wd out pat = NoFuel.
Proof.
  intros N D E C U. unfold scanner_main. rewrite bool_decide_false, D, E by done. cbn [negb orb]. cbv zeta.
  rewrite fmap_cons. cbn [scan_files]. unfold ReadBinaryFile. rewrite C. cbn [mbind res_bind].
  pose proof (scan_unknown KeyRing_empty now mode fuel raw [] [] U) as V. cbn [block_array scan_warnings].
  destruct (scan_file _ _ _ _ _ _ _) as [r f]. cbn in V. by subst r.
Qed.

(** ** Files that look like both

    The first eight bytes of a block are its version and the low bytes of its
    size: as a size of transfers they say 256 times the block. *)
Lemma low_byte v k : 0 <= k <= 24 -> Z.land (Z.shiftr (u32 v) k) 255 = Z.land (Z.shiftr v k) 255.
Proof.
  intros Hk. unfold u32, u32_mod. rewrite <- Z.land_ones by lia. change 255 with (Z.ones 8).
  apply Z.bits_inj'. intros i Hi.
  rewrite !Z.land_spec, !Z.shiftr_spec, Z.land_spec, !Z.testbit_ones_nonneg by lia.
  destruct (i <? 8) eqn:E; [|by rewrite !andb_false_r].
  bool_to_prop. rewrite (proj2 (Z.ltb_lt (i + k) 32)) by lia. by rewrite andb_true_r.
Qed.

(** The bytes of a 64-bit number. *)
Lemma Uint64ToBin_octets v :
  Uint64ToBin v [] = (fun k => Z.land (Z.shiftr v k) 255) <$> [0; 8; 16; 24; 32; 40; 48; 56].
Proof.
  unfold Uint64ToBin, Uint32ToBin, push_int. cbn [foldl app fmap list_fmap].
  assert (forall k, 0 <= k <= 24 ->
    Z.land (Z.shiftr (u32 (Z.land v 4294967295)) k) 255 = Z.land (Z.shiftr v k) 255) as L.
  { intros k Hk. rewrite <- (low_byte v k) by done. change 4294967295 with (Z.ones 32).
    rewrite Z.land_ones by lia. unfold u32, u32_mod. by rewrite Zmod_mod. }
  rewrite !L, !low_byte by lia. rewrite !Z.shiftr_shiftr by lia. done.
Qed.

Lemma shifted_size n : Uint64ToBin (256 * n) [] = 0 :: take 7 (Uint64ToBin n []).
Proof.
  rewrite !Uint64ToBin_octets. cbn [fmap list_fmap take].
  assert (forall k, 0 <= k -> Z.shiftr (256 * n) (8 + k) = Z.shiftr n k) as Sh.
  { intros k Hk. rewrite <- Z.shiftr_shiftr by lia. f_equal.
    rewrite Z.shiftr_div_pow2 by lia. change (2 ^ 8) with 256. rewrite Z.mul_comm. by apply Z.div_mul. }
  assert (Z.land (256 * n) 255 = 0) as Z0.
  { change 255 with (Z.ones 8). rewrite Z.land_ones by lia. change (2 ^ 8) with 256.
    rewrite Z.mul_comm. by apply Z.mod_mul. }
  rewrite Z.shiftr_0_r, Z0.
  rewrite (Sh 0 ltac:(lia) : Z.shiftr (256 * n) 8 = _), (Sh 8 ltac:(lia) : Z.shiftr (256 * n) 16 = _),
    (Sh 16 ltac:(lia) : Z.shiftr (256 * n) 24 = _), (Sh 24 ltac:(lia) : Z.shiftr (256 * n) 32 = _),
    (Sh 32 ltac:(lia) : Z.shiftr (256 * n) 40 = _), (Sh 40 ltac:(lia) : Z.shiftr (256 * n) 48 = _),
    (Sh 48 ltac:(lia) : Z.shiftr (256 * n) 56 = _).
  done.
Qed.

Section both.
Context `{Crypto}.

Lemma last_byte v : 0 <= v < 2 ^ 56 -> drop 7 (Uint64ToBin v []) = [0].
Proof.
  intros Hv. rewrite Uint64ToBin_octets. cbn [fmap list_fmap drop]. f_equal.
  rewrite Z.shiftr_div_pow2, Z.div_small by lia. done.
Qed.

(** The same bytes as [IsTxData] takes them. *)
Lemma block_file_as_tx n t tail : 0 <= n < 2 ^ 56 -> 0 <= t < 2 ^ 56 ->
  ([0] ++ Uint64ToBin n []) ++ Uint64ToBin t [] ++ tail =
  Uint64ToBin (256 * n) [] ++ Uint64ToBin (256 * t) [] ++ [0] ++ tail.
Proof.
  intros Hn Ht. rewrite !shifted_size.
  rewrite <- (take_drop 7 (Uint64ToBin n [])) at 1. rewrite <- (take_drop 7 (Uint64ToBin t [])) at 1.
  rewrite !last_byte by done. by rewrite <- !app_assoc.
Qed.

Section long.
Variables (b : FinalBlock) (rest : bytes).
Abbreviation raw := (fb_getCanonical b ++ rest).
Hypothesis wf : fb_wf b.
Hypothesis time_low : 1514764800 <= fb_block_time b.
Hypothesis time_high : fb_block_time b < 2 ^ 55.
Hypothesis long : 91 + 256 * fb_num_bytes b <= zlen raw < 2 ^ 38.

Lemma long_sizes : 101 <= fb_num_bytes b < 2 ^ 30.
Proof.
  pose proof wf as (_ & _ & _ & Ec & _). pose proof (fb_canonical_min b wf). split; lia.
Qed.

Lemma long_is_block now : fb_block_time b <= now -> IsBlockData now raw = Ok true.
Proof using All.
  intros Hn. apply block_file_recognised; [done | lia | lia].
Qed.

(** As a transaction: its sizes and its operation. *)
Lemma long_fields : BinToUint64 raw 0 = Ok (256 * fb_num_bytes b) /\
  BinToUint64 raw 8 = Ok (256 * fb_block_time b) /\ raw !! 16%nat = Some 0.
Proof using All.
  pose proof long_sizes. destruct (block_file_start b rest wf) as (tail & E).
  rewrite block_file_as_tx in E by lia. rewrite E in *. split; [|split].
  - apply (BinToUint64_window []); [unfold in_u64, u64_mod; lia | rewrite app_nil_l; lia].
  - change 8 with (zlen (Uint64ToBin (256 * fb_num_bytes b) [])).
    apply BinToUint64_window; [unfold in_u64, u64_mod; lia | lia].
  - by rewrite !Uint64ToBin_octets.
Qed.

Lemma long_is_tx : IsTxData raw = Ok true.
Proof using All.
  pose proof long_sizes. destruct long_fields as (E1 & _ & E2). unfold IsTxData.
  rewrite (proj2 (Z.ltb_ge _ _)) by (unfold kTX_MIN_SIZE; unfold_sizes; lia). rewrite E1.
  cbn [mbind res_bind]. cbv zeta. unfold kTX_MIN_SIZE. unfold_sizes.
  rewrite u64_id by (unfold in_u64, u64_mod; lia). rewrite (proj2 (Z.ltb_ge _ _)) by lia.
  unfold vec_idx. rewrite (proj2 (Z.ltb_lt 16 _)) by lia. change (Z.to_nat 16) with 16%nat. by rewrite E2.
Qed.

Lemma long_outside :
  vec_at raw (u64 (u64 (kTRANSFER_OFFSET + 256 * fb_num_bytes b + 256 * fb_block_time b) + 0)) = Err OutOfRange.
Proof using All.
  pose proof long_sizes. unfold kTRANSFER_OFFSET. unfold_sizes. rewrite Z.add_0_r.
  rewrite !u64_id by (unfold in_u64, u64_mod; rewrite ?u64_id by (unfold in_u64, u64_mod; lia); lia).
  unfold vec_at. rewrite (proj2 (Z.ltb_ge _ (zlen raw))) by lia. by rewrite andb_false_r.
Qed.

(** No transaction is read from it. *)
Lemma long_not_tx keys flag : t2_Create keys flag (mkIB raw 0) = (Err OutOfRange, mkIB raw 0).
Proof using All.
  pose proof long_sizes. destruct long_fields as (E1 & E2 & E3). unfold t2_Create, t2_Fill. mstep.
  rewrite u64_id by (unfold in_u64, u64_mod, kTX_MIN_SIZE; unfold_sizes; lia).
  rewrite (proj2 (Z.ltb_ge _ _)) by (unfold kTX_MIN_SIZE; unfold_sizes; lia).
  assert (Buf.getNextUint64 false (mkIB raw 0) = (Ok (256 * fb_num_bytes b), mkIB raw 0)) as R1
    by (unfold Buf.getNextUint64; mstep; by rewrite E1).
  assert (Buf.getSecondUint64 false (mkIB raw 0) = (Ok (256 * fb_block_time b), mkIB raw 0)) as R2
    by (unfold Buf.getSecondUint64; mstep; change (u64 (0 + 8)) with 8; by rewrite E2).
  mrun R1. mrun R2. rewrite (proj2 (Z.ltb_ge _ _)) by (unfold kMIN_NONCE_SIZE; lia). mstep.
  assert (vec_at raw (u64 (16 + 0)) = Ok 0) as ->.
  { change (u64 (16 + 0)) with 16. unfold vec_at. rewrite (proj2 (Z.ltb_lt 16 _)) by lia.
    change (Z.to_nat 16) with 16%nat. by rewrite E3. }
  change (eOpType.NumOperations <=? 0) with false. cbn iota. mstep. by rewrite long_outside.
Qed.

(** The scanner, which asks for transactions first, gives the file up. *)
Lemma long_scan `{PropertyTree} keys now mode fuel tree ws : fb_block_time b <= now ->
  scan_file keys now mode (S fuel) raw tree ws = (Ok tt, scan_failed (file_start tree ws)).
Proof using All.
  intros Hn. pose proof long_sizes. unfold scan_file. rewrite (long_is_block now Hn), long_is_tx.
  cbn [mbind res_bind negb andb scan_item file_loop]. rewrite bind_get. cbn [snd offset_].
  rewrite (proj2 (Z.ltb_lt _ _)) by lia. unfold scan_transaction. rewrite bind_get. cbn [snd fst].
  rewrite long_not_tx. done.
Qed.
End long.
End both.

(** ** A replay without a new warning *)
Section clean.
Context `{Crypto} (keys : KeyRing).

Lemma replay_step item txs s : replay keys (item :: txs) s =
  match tx_isValid item keys s.1 with
  | (Ok true, c) => replay keys txs (c, s.2)
  | (Ok false, c) =>
      (lift (tx_getJSON item);; replay keys txs) (c, s.2 ++ [InvalidTransaction])
  | (Err e, c) => (Err e, (c, s.2))
  | (UB, c) => (UB, (c, s.2))
  | (NoFuel, c) => (NoFuel, (c, s.2))
  end.
Proof.
  cbn [replay]. rewrite bind_get. destruct (tx_isValid item keys s.1) as [[[]|e| |] c]; try done.
  rewrite bind_put, bind_lift. cbn [negb]. unfold mbind, M_bind, put, lift. by destruct (tx_getJSON item).
Qed.

Lemma replay_warns txs : forall s r s', replay keys txs s = (r, s') -> exists l, s'.2 = s.2 ++ l.
Proof.
  induction txs as [|item txs IH]; intros s r s'.
  { intros [= <- <-]. exists []. by rewrite app_nil_r. }
  rewrite replay_step. destruct (tx_isValid item keys s.1) as [[[]|e| |] c];
    try (intros [= <- <-]; exists []; by rewrite app_nil_r).
  - intros E. by apply IH in E.
  - rewrite bind_lift. destruct (tx_getJSON item);
      [|intros [= <- <-]; by eexists..].
    intros (l & ->)%IH. cbn [snd]. exists ([InvalidTransaction] ++ l). by rewrite app_assoc.
Qed.

Lemma views_app xs ys vs ws : views xs = Ok vs -> views ys = Ok ws -> views (xs ++ ys) = Ok (vs ++ ws).
Proof.
  revert vs. induction xs as [|x xs IH]; intros vs Hx Hy; [by injection Hx as <-|].
  unfold views in *. cbn [app map_res] in *. apply res_bind_inv_ok in Hx as (v & -> & Hx).
  apply res_bind_inv_ok in Hx as (vs' & Hx & [= <-]). cbn [mbind res_bind]. by rewrite (IH _ Hx Hy).
Qed.

Lemma apply_views_app vs : forall p p1 p2 ws,
  apply_views p vs = Ok p1 -> apply_views p1 ws = Ok p2 -> apply_views p (vs ++ ws) = Ok p2.
Proof.
  unfold apply_views. induction vs as [|v vs IH]; intros p p1 p2 ws; cbn [app fold_res].
  - by intros [= ->].
  - intros (q & E & Hv)%res_bind_inv_ok Hw. rewrite E. cbn [mbind res_bind]. by apply (IH q p1).
Qed.

Lemma refines_app xs ys c c1 c2 : refines xs c c1 -> refines ys c1 c2 -> refines (xs ++ ys) c c2.
Proof.
  intros (vs & Hx & Hv) (ws & Hy & Hw). exists (vs ++ ws). split; [by apply views_app|].
  by apply (apply_views_app vs _ (v_state c1, v_summary c1)).
Qed.

(** The transactions of a replay that adds no warning are sound, and what it
    leaves is what their transfers say. *)
Lemma replay_clean txs : forall s s', replay keys txs s = (Ok tt, s') -> s'.2 = s.2 ->
  Forall (fun t => tx_isSound t keys = Ok true) txs /\
  exists xss, map_res tx_getTransfers txs = Ok xss /\ refines (concat xss) s.1 s'.1.
Proof.
  induction txs as [|item txs IH]; intros s s' E W.
  { injection E as <-. split; [done|]. exists []. split; [done | apply refines_nil]. }
  rewrite replay_step in E. destruct (tx_isValid item keys s.1) as [[[]|e| |] c] eqn:V; try done.
  - apply tx_isValid_refines in V as (S & xs & Hx & R). destruct (IH _ _ E W) as (F & xss & Hm & Rs).
    split; [by constructor|]. exists (xs :: xss). cbn [map_res]. rewrite Hx. cbn [mbind res_bind].
    rewrite Hm. split; [done|]. by apply (refines_app _ _ _ c).
  - rewrite bind_lift in E. destruct (tx_getJSON item); try done.
    apply replay_warns in E as (l & E). cbn [snd] in E. rewrite W in E. exfalso.
    apply (f_equal length) in E. rewrite !length_app in E. cbn in E. lia.
Qed.

Lemma replay_block_clean b st ws st' :
  replay_block keys b (st, ws) = (Ok tt, (st', ws)) ->
  Forall (fun t => tx_isSound t keys = Ok true) (fb_CopyTransactions b) /\
  exists xss sum agg,
    map_res tx_getTransfers (fb_CopyTransactions b) = Ok xss /\
    refines (concat xss) (mkVCtx st SummaryOps.Create []) (mkVCtx st' sum agg) /\
    SummaryOps.getCanonical sum = SummaryOps.getCanonical (fb_summary b).
Proof.
  unfold replay_block. cbn [fst snd].
  destruct (replay keys _ _) as [[[]|e| |] [c ws']] eqn:E; try done.
  case_bool_decide as C.
  - intros [= <- ->]. destruct (replay_clean _ _ _ E eq_refl) as (F & xss & Hx & R). split; [done|].
    exists xss, (v_summary c), (v_aggregate c). cbn in R. by destruct c.
  - intros [= _ _ W]. apply replay_warns in E as (l & E). cbn [snd] in E. subst ws'. exfalso.
    apply (f_equal length) in W. rewrite !length_app in W. cbn in W. lia.
Qed.
End clean.

(** ** The address filter on the trees of blocks *)
Lemma find_from_spec pat s : forall i,
  (exists k, find_from pat s i = Some k) <-> exists a b, s = a ++ pat ++ b.
Proof.
  induction s as [|c s IH]; intros i; cbn [find_from]; case_bool_decide as P.
  - split; [|by eauto]. intros _. exists [], []. rewrite app_nil_r, <- P. by rewrite take_nil.
  - split; [by intros (k & ?)|]. intros (a & b & E). exfalso. apply P.
    by destruct a, pat.
  - split; [|by eauto]. intros _. exists [], (drop (length pat) (c :: s)). cbn [app].
    rewrite <- P at 1. by rewrite take_drop.
  - rewrite IH. split; intros (a & b & E).
    + exists (c :: a), b. by rewrite E.
    + destruct a as [|d a].
      * exfalso. apply P. cbn [app] in E. by rewrite E, take_app_length.
      * exists a, b. by injection E.
Qed.

Lemma contains_spec pat s : contains pat s = true <-> exists a b, s = a ++ pat ++ b.
Proof.
  rewrite <- (find_from_spec pat s 0). unfold contains, find_str.
  destruct (find_from pat s 0); split; eauto; [done | by intros (k & ?)].
Qed.

(** A content with a transfer of an address whose text contains the filter. *)
Definition involves (pat : bytes) (c : t2_content) : bool :=
  existsb (fun v => contains pat (AddressOps.getJSON (v_addr v))) (c_xfers c).

Lemma tx_involves_tree pat c : tx_involves pat (t2_tree c) = Ok (involves pat c).
Proof.
  unfold tx_involves, involves. change (get_child (t2_tree c) kXFER_TAG) with
    (Ok (JArr (xfer_tree <$> c_xfers c))). cbn [mbind res_bind children]. induction (c_xfers c) as [|v vs IH]; [done|].
  rewrite fmap_cons. cbn [map_res existsb]. change (find_data (xfer_tree v) kADDR_TAG) with
    (Ok (AddressOps.getJSON (v_addr v))). cbn [mbind res_bind].
  apply res_bind_inv_ok in IH as (l & -> & [= IH]). cbn [mbind res_bind existsb]. by rewrite IH.
Qed.

Lemma filter_block_tree `{Crypto} pat acc b cs :
  filter_block pat acc (fb_tree b (t2_tree <$> cs)) = Ok (acc ++ (t2_tree <$> List.filter (involves pat) cs)).
Proof.
  unfold filter_block. change (get_child (fb_tree b (t2_tree <$> cs)) kTXS_TAG) with
    (Ok (JArr (t2_tree <$> cs))). cbn [mbind res_bind children]. revert acc.
  induction cs as [|c cs IH]; intros acc; [by rewrite app_nil_r|].
  rewrite fmap_cons. cbn [fold_res List.filter]. rewrite tx_involves_tree. cbn [mbind res_bind].
  rewrite IH. f_equal. destruct (involves pat c); [|done]. by rewrite fmap_cons, <- app_assoc.
Qed.

Lemma filter_trees `{Crypto} pat bs css acc : length bs = length css ->
  fold_res (filter_block pat) acc (zip_with (fun b cs => fb_tree b (t2_tree <$> cs)) bs css) =
  Ok (acc ++ (t2_tree <$> List.filter (involves pat) (concat css))).
Proof.
  revert css acc. induction bs as [|b bs IH]; intros [|cs css] acc E; try done.
  { by rewrite app_nil_r. }
  cbn [zip_with fold_res concat]. rewrite filter_block_tree. cbn [mbind res_bind].
  rewrite IH by (by injection E). f_equal. by rewrite List.filter_app, fmap_app, app_assoc.
Qed.

Lemma involves_spec pat c : involves pat c = true <->
  exists v a z, v ∈ c_xfers c /\ AddressOps.getJSON (v_addr v) = a ++ pat ++ z.
Proof.
  unfold involves. rewrite existsb_exists. split.
  - intros (v & Hv%list_elem_of_In & (a & z & E)%contains_spec). by exists v, a, z.
  - intros (v & a & z & Hv%list_elem_of_In & E). exists v. split; [done|]. apply contains_spec. by exists a, z.
Qed.

Lemma add_tree `{PropertyTree} j tree : json_ok j -> add_to_tree (render j) tree = Ok (tree ++ [j]).
Proof. intros Hj. unfold add_to_tree. by rewrite read_json_tree. Qed.
