(* ===== verification/AuditRuns.v ===== *)
(** * Whole runs of the verifier

    What a run of verifier.cpp over a directory has read and booked when it
    leaves no warning: the items of a file are read one after the other up to its
    end, and the two chain states are what the transfers of all transactions
    add up to. *)

From Stdlib Require Import ZArith Lia String.
From stdpp Require Import base list numbers.
From S2P Require Import Prelude OrdMap Converters Keys Buffers Transfer ChainState Summary.
From S2P Require Import Validation KeyRing Context DevvUri Transactions Blocks Blockchain Oracles Pool.
From S2P Require Import JsonTree JsonPrint Files Auditors.

#[local] Open Scope Z_scope.

(** ** What is in the files *)
Section contents.
Context `{Crypto} `{FileSystem} (keys : KeyRing).

(** Items that follow each other up to [size]. *)
Inductive reads {A} (one : InputBuffer -> A -> InputBuffer -> Prop) (size : Z) : InputBuffer -> list A -> Prop :=
| reads_end b : size <= offset_ b -> reads one size b []
| reads_item b a b' l : offset_ b < size -> one b a b' -> reads one size b' l -> reads one size b (a :: l).

Definition block_at (mode : eAppMode) (b : InputBuffer) (one_block : FinalBlock) (b' : InputBuffer) : Prop :=
  exists prior, fb_from_buffer_mode prior keys mode b = (Ok one_block, b').

Definition tx_at (b : InputBuffer) (tx : Tier2Transaction) (b' : InputBuffer) : Prop :=
  t2_Create keys true b = (Ok tx, b').

(** A file of blocks, or of transactions. *)
Definition file_holds (now : Z) (mode : eAppMode) (raw : bytes) (bs : list FinalBlock)
    (txs : list Tier2Transaction) : Prop :=
  raw <> [] /\
  ((IsBlockData now raw = Ok true /\ reads (block_at mode) (zlen raw) (mkIB raw 0) bs /\ txs = []) \/
   (IsBlockData now raw = Ok false /\ IsTxData raw = Ok true /\
    reads tx_at (zlen raw) (mkIB raw 0) txs /\ bs = [])).

Inductive files_hold (s : fs_state) (now : Z) (mode : eAppMode)
    : list bytes -> list FinalBlock -> list Tier2Transaction -> Prop :=
| holds_none : files_hold s now mode [] [] []
| holds_file name names raw bs txs bs' txs' : fs_content s name = Some raw -> file_holds now mode raw bs txs ->
    files_hold s now mode names bs' txs' -> files_hold s now mode (name :: names) (bs ++ bs') (txs ++ txs').
End contents.

(** ** What transactions add up to *)
Section booking.
Context `{Crypto} (keys : KeyRing).

(** The transfers of a list of transactions. *)
Definition all_views (txs : list Transaction) : res (list tview) :=
  xss ← map_res tx_getTransfers txs; views (concat xss).

Definition booked (txs : list Transaction) (st st' : ChainState) : Prop :=
  Forall (fun t => tx_isSound t keys = Ok true) txs /\
  exists vs, all_views txs = Ok vs /\ forall a coin, balance st' a coin = balance st a coin + views_delta vs a coin.

(** The summary that transfers make. *)
Definition summary_of (vs : list tview) : Summary :=
  foldl (fun sum v => (SummaryOps.addItem_delta sum (v_addr v) (v_coin v) (v_amount v) (v_delay v)).2)
    SummaryOps.Create vs.

Definition summary_matches (b : FinalBlock) : Prop :=
  exists vs, all_views (fb_CopyTransactions b) = Ok vs /\
    SummaryOps.getCanonical (fb_summary b) = SummaryOps.getCanonical (summary_of vs).

Lemma map_res_app {A B} (f : A -> res B) l l' r r' :
  map_res f l = Ok r -> map_res f l' = Ok r' -> map_res f (l ++ l') = Ok (r ++ r').
Proof.
  revert r. induction l as [|x l IH]; intros r E E'; [by injection E as <-|].
  cbn [app map_res] in *. apply res_bind_inv_ok in E as (y & -> & E).
  apply res_bind_inv_ok in E as (ys & E & [= <-]). cbn [mbind res_bind]. by rewrite (IH _ E E').
Qed.

Lemma all_views_app l l' vs vs' :
  all_views l = Ok vs -> all_views l' = Ok vs' -> all_views (l ++ l') = Ok (vs ++ vs').
Proof.
  unfold all_views. intros (xss & X & V)%res_bind_inv_ok (xss' & X' & V')%res_bind_inv_ok.
  rewrite (map_res_app _ _ _ _ _ X X'). cbn [mbind res_bind]. rewrite concat_app. by apply views_app.
Qed.

Lemma views_delta_app vs vs' a coin : views_delta (vs ++ vs') a coin = views_delta vs a coin + views_delta vs' a coin.
Proof. unfold views_delta. rewrite fmap_app. generalize (fun v => delta_of (flow v) a coin). intros f.
  induction vs as [|v vs IH]; [done|]. rewrite fmap_cons. cbn [app zsum foldr]. unfold zsum in *. lia.
Qed.

Lemma booked_nil st : booked [] st st.
Proof. split; [done|]. exists []. split; [done|]. intros a coin. unfold views_delta. cbn. lia. Qed.

Lemma booked_app l l' st st1 st2 : booked l st st1 -> booked l' st1 st2 -> booked (l ++ l') st st2.
Proof.
  intros (F & vs & V & B) (F' & vs' & V' & B'). split; [by apply list.Forall_app|].
  exists (vs ++ vs'). split; [by apply all_views_app|]. intros a coin. rewrite B', B, views_delta_app. lia.
Qed.

Lemma apply_views_made vs : forall p p', apply_views p vs = Ok p' ->
  p'.2 = foldl (fun sum v => (SummaryOps.addItem_delta sum (v_addr v) (v_coin v) (v_amount v) (v_delay v)).2) p.2 vs.
Proof.
  unfold apply_views. induction vs as [|v vs IH]; intros p p'; cbn [fold_res foldl]; [by intros [= ->]|].
  intros (q & E & R)%res_bind_inv_ok. apply apply_view_inv in E as [_ <-]. by apply IH.
Qed.

Lemma refines_booked l xss c c' : Forall (fun t => tx_isSound t keys = Ok true) l ->
  map_res tx_getTransfers l = Ok xss -> refines (concat xss) c c' -> booked l (v_state c) (v_state c').
Proof.
  intros F X (vs & V & R). split; [done|]. exists vs. unfold all_views. rewrite X. split; [done|].
  intros a coin. by apply (apply_views_balance vs (v_state c, v_summary c) (v_state c', v_summary c') a coin).
Qed.

Lemma replay_booked l s s' : replay keys l s = (Ok tt, s') -> s'.2 = s.2 ->
  booked l (v_state s.1) (v_state s'.1).
Proof. intros E W. destruct (replay_clean keys l s s' E W) as (F & xss & X & R). by eapply refines_booked. Qed.

Lemma replay_block_booked b st ws st' : replay_block keys b (st, ws) = (Ok tt, (st', ws)) ->
  booked (fb_CopyTransactions b) st st' /\ summary_matches b.
Proof.
  intros (F & xss & sum & agg & X & R & S)%replay_block_clean.
  split; [exact (refines_booked _ _ (mkVCtx st _ _) (mkVCtx st' _ _) F X R)|].
  destruct R as (vs & V & R). exists vs. unfold all_views. rewrite X. split; [done|].
  apply apply_views_made in R. cbn in R. by rewrite <- S, R.
Qed.
End booking.

(** ** Runs without a new warning *)
Definition extends (a a' : Audit) : Prop := exists l, au_warnings a' = au_warnings a ++ l.

Lemma extends_refl a : extends a a.
Proof. exists []. by rewrite app_nil_r. Qed.

Lemma extends_trans a b c : extends a b -> extends b c -> extends a c.
Proof. intros [l E] [l' E']. exists (l ++ l'). by rewrite E', E, app_assoc. Qed.

Lemma extends_warn a w : extends a (warn a w).
Proof. by exists [w]. Qed.

#[export] Hint Resolve extends_refl extends_warn : devv.

Lemma nothing_added {A} (x l l' : list A) : x = (x ++ l) ++ l' -> l = [] /\ l' = [].
Proof.
  intros E. apply (f_equal length) in E. rewrite !length_app in E.
  destruct l, l'; cbn in E; [done | lia..].
Qed.

(** Between the ends of a run that adds no warning nothing adds one. *)
Lemma quiet_between a b c : extends a b -> extends b c -> au_warnings c = au_warnings a ->
  au_warnings b = au_warnings a /\ au_warnings c = au_warnings b.
Proof.
  intros [l E] [l' E'] W. rewrite E', E in W. apply eq_sym, nothing_added in W as [-> ->].
  by rewrite E', E, !app_nil_r.
Qed.

Section loops.
Context {A : Type} (item : M (Audit * InputBuffer) unit) (one : InputBuffer -> A -> InputBuffer -> Prop).
Context (book : Audit -> Audit -> list A -> Prop).
Hypothesis item_warns : forall s r s', item s = (r, s') -> extends s.1 s'.1.
Hypothesis item_clean : forall s s', item s = (Ok tt, s') -> au_warnings s'.1 = au_warnings s.1 ->
  exists x, one s.2 x s'.2 /\ book s.1 s'.1 [x].
Hypothesis book_nil : forall a, book a a [].
Hypothesis book_app : forall a b c l l', book a b l -> book b c l' -> book a c (l ++ l').

Abbreviation loop := (file_loop item (fun a => warn a FileError)).

Lemma loop_warns size fuel : forall s r s', loop size fuel s = (r, s') -> extends s.1 s'.1.
Proof using item_warns.
  induction fuel as [|fuel IH]; intros s r s'; cbn [file_loop]; rewrite bind_get;
    (destruct (_ <? _); [|intros [= <- <-]; auto with devv]); [intros [= <- <-]; auto with devv|].
  destruct (item s) as [[[]|e| |] s1] eqn:E; apply item_warns in E; try (by intros [= <- <-]).
  - intros R. apply IH in R. by eapply extends_trans.
  - destruct (is_std_exception e); intros [= <- <-]; [|done].
    eapply extends_trans; [exact E | apply extends_warn].
Qed.

Lemma loop_clean size fuel : forall s s', loop size fuel s = (Ok tt, s') ->
  au_warnings s'.1 = au_warnings s.1 -> exists l, reads one size s.2 l /\ book s.1 s'.1 l.
Proof using All.
  induction fuel as [|fuel IH]; intros s s'; cbn [file_loop]; rewrite bind_get;
    (destruct (offset_ s.2 <? size) eqn:O; [apply Z.ltb_lt in O | apply Z.ltb_ge in O;
       intros [= <-] _; exists []; split; [by apply reads_end | done]]); [done|].
  destruct (item s) as [[[]|e| |] s1] eqn:E; try done.
  - intros R W. pose proof (item_warns _ _ _ E) as X1. pose proof (loop_warns _ _ _ _ _ R) as X2.
    destruct (quiet_between _ _ _ X1 X2 W) as [W1 W2].
    destruct (item_clean _ _ E W1) as (x & O1 & B1). destruct (IH _ _ R W2) as (l & Rl & Bl).
    exists (x :: l). split; [by eapply reads_item | by apply (book_app _ _ _ [x] l B1)].
  - destruct (is_std_exception e); [|done]. intros [= <-] W. cbn in W.
    apply item_warns in E as [l E]. rewrite E in W. by apply eq_sym, nothing_added in W as [_ W].
Qed.
End loops.

(** ** The verifier *)
Section verifier.
Context `{Crypto} `{FileSystem} (keys : KeyRing) (mode : eAppMode).

(** What blocks and transactions do to the states of the run. *)
Definition books (a a' : Audit) (bs : list FinalBlock) (txs : list Tier2Transaction) : Prop :=
  booked keys (concat (fb_CopyTransactions <$> bs)) (au_posteri a) (au_posteri a') /\
  booked keys (Tier2 <$> txs) (v_state (au_priori a)) (v_state (au_priori a')) /\
  Forall summary_matches bs.

Lemma books_nil a : books a a [] [].
Proof. split_and!; [apply booked_nil | apply booked_nil | done]. Qed.

Lemma books_app a b c bs txs bs' txs' :
  books a b bs txs -> books b c bs' txs' -> books a c (bs ++ bs') (txs ++ txs').
Proof.
  intros (B & T & S) (B' & T' & S'). split_and!; [|rewrite fmap_app; by eapply booked_app | by apply list.Forall_app].
  rewrite fmap_app, concat_app. by eapply booked_app.
Qed.

Lemma replay_block_warns b s r s' : replay_block keys b s = (r, s') -> exists l, s'.2 = s.2 ++ l.
Proof.
  unfold replay_block. destruct (replay keys _ _) as [r1 [c ws]] eqn:E. apply replay_warns in E as [l E].
  cbn [snd] in E. subst ws. destruct r1; try (intros [= <- <-]; by eexists).
  case_bool_decide; intros [= <- <-]; cbn [snd]; [by eexists | exists (l ++ [InvalidSummary])].
  by rewrite app_assoc.
Qed.

Lemma block_warns s r s' : verify_block keys mode s = (r, s') -> extends s.1 s'.1.
Proof.
  unfold verify_block. rewrite bind_get. destruct (fb_from_buffer_mode _ _ _ _) as [rb buffer].
  rewrite bind_put, bind_lift. destruct rb as [b|e| |]; try (intros [= <- <-]; apply extends_refl).
  destruct (replay_block keys b _) as [r1 [st ws]] eqn:E. apply replay_block_warns in E as [l E].
  cbn [snd] in E. rewrite bind_put. unfold lift. intros [= <- <-]. by exists l.
Qed.

Lemma block_clean s s' : verify_block keys mode s = (Ok tt, s') -> au_warnings s'.1 = au_warnings s.1 ->
  exists b, block_at keys mode s.2 b s'.2 /\ books s.1 s'.1 [b] [].
Proof.
  unfold verify_block. rewrite bind_get. destruct (fb_from_buffer_mode _ _ _ _) as [rb buffer] eqn:P.
  rewrite bind_put, bind_lift. destruct rb as [b|e| |]; try done.
  destruct (replay_block keys b _) as [r1 [st ws]] eqn:E. rewrite bind_put. unfold lift.
  intros [= -> <-] W. cbn in W. subst ws. exists b. split; [by eexists|].
  apply replay_block_booked in E as [B S]. split_and!; [by rewrite list_fmap_singleton; cbn; rewrite app_nil_r
    | apply booked_nil | by apply Forall_singleton].
Qed.

Lemma transaction_warns s r s' : verify_transaction keys s = (r, s') -> extends s.1 s'.1.
Proof.
  unfold verify_transaction. rewrite bind_get. destruct (t2_Create _ _ _) as [rt buffer].
  rewrite bind_put, bind_lift. destruct rt as [tx|e| |]; try (intros [= <- <-]; apply extends_refl).
  destruct (replay keys _ _) as [r1 [c ws]] eqn:E. apply replay_warns in E as [l E].
  cbn [snd] in E. rewrite bind_put. unfold lift. intros [= <- <-]. by exists l.
Qed.

Lemma transaction_clean s s' : verify_transaction keys s = (Ok tt, s') -> au_warnings s'.1 = au_warnings s.1 ->
  exists tx, tx_at keys s.2 tx s'.2 /\ books s.1 s'.1 [] [tx].
Proof.
  unfold verify_transaction. rewrite bind_get. destruct (t2_Create _ _ _) as [rt buffer] eqn:P.
  rewrite bind_put, bind_lift. destruct rt as [tx|e| |]; try done.
  destruct (replay keys _ _) as [r1 [c ws]] eqn:E. rewrite bind_put. unfold lift.
  intros [= -> <-] W. cbn in W. subst ws. exists tx. split; [done|].
  apply replay_booked in E; [|done]. split_and!; [apply booked_nil | done | done].
Qed.

(** One file. *)
Lemma file_clean now fuel raw a a' : verify_file keys now mode fuel raw a = (Ok tt, a') ->
  au_warnings a' = au_warnings a -> exists bs txs, file_holds keys now mode raw bs txs /\ books a a' bs txs.
Proof.
  unfold verify_file. destruct (zlen raw <=? 0) eqn:Z; [done|].
  assert (raw <> []) as N by (by intros ->).
  destruct (IsBlockData now raw) as [is_block|e| |] eqn:IB; try done. cbn [mbind res_bind].
  destruct (IsTxData raw) as [is_tx|e| |] eqn:IT; try done. cbn [mbind res_bind].
  destruct (file_loop _ _ _ _ _) as [r s'] eqn:L. intros [= -> <-] W.
  destruct is_block; cbn [negb andb verify_item] in L; [|destruct is_tx; cbn [negb andb verify_item] in L].
  - destruct (loop_clean _ (block_at keys mode) (fun a a' bs => books a a' bs []) block_warns block_clean books_nil
      (fun a b c l l' => books_app a b c l [] l' []) _ _ _ _ L W) as (bs & R & B).
    exists bs, []. split; [|done]. split; [done|]. left. done.
  - destruct (loop_clean _ (tx_at keys) (fun a a' txs => books a a' [] txs) transaction_warns transaction_clean
      books_nil (fun a b c l l' => books_app a b c [] l [] l') _ _ _ _ L W) as (txs & R & B).
    exists [], txs. split; [|done]. split; [done|]. right. done.
  - exfalso. apply loop_warns in L as [l E]; [|intros s0 r0 s1 [= <- <-]; apply extends_refl].
    rewrite E in W. cbn in W. by apply eq_sym, nothing_added in W as [W _].
Qed.

Lemma file_warns now fuel raw a r a' : verify_file keys now mode fuel raw a = (r, a') -> extends a a'.
Proof.
  unfold verify_file. destruct (zlen raw <=? 0); [intros [= <- <-]; apply extends_refl|].
  destruct (IsBlockData now raw) as [is_block|e| |]; try (intros [= <- <-]; apply extends_refl).
  cbn [mbind res_bind].
  destruct (IsTxData raw) as [is_tx|e| |]; try (intros [= <- <-]; apply extends_refl). cbn [mbind res_bind].
  destruct (file_loop _ _ _ _ _) as [r1 s'] eqn:L. intros [= <- <-].
  apply loop_warns in L.
  - eapply extends_trans; [|exact L]. cbn [fst]. destruct (_ && _); auto with devv.
  - intros s0 r0 s1. unfold verify_item. destruct is_block; [apply block_warns|].
    destruct is_tx; [apply transaction_warns|]. intros [= <- <-]. apply extends_refl.
Qed.

(** A directory. *)
Lemma files_warn s now fuel names : forall a r a',
  verify_files keys s now mode fuel names a = (r, a') -> extends a a'.
Proof.
  induction names as [|name names IH]; intros a r a'; cbn [verify_files]; [intros [= <- <-]; apply extends_refl|].
  rewrite bind_lift. destruct (ReadBinaryFile s name); try (intros [= <- <-]; apply extends_refl).
  unfold mbind, M_bind. destruct (verify_file _ _ _ _ _ _) as [[[]|e| |] a1] eqn:E; apply file_warns in E;
    try (by intros [= <- <-]). intros R. apply IH in R. by eapply extends_trans.
Qed.

Lemma files_clean s now fuel names : forall a a', verify_files keys s now mode fuel names a = (Ok tt, a') ->
  au_warnings a' = au_warnings a -> exists bs txs, files_hold keys s now mode names bs txs /\ books a a' bs txs.
Proof.
  induction names as [|name names IH]; intros a a'; cbn [verify_files].
  { intros [= <-] _. exists [], []. split; [constructor | apply books_nil]. }
  rewrite bind_lift. destruct (ReadBinaryFile s name) as [raw|e| |] eqn:C; try done.
  unfold mbind, M_bind. destruct (verify_file _ _ _ _ _ _) as [[[]|e| |] a1] eqn:E; try done.
  intros R W. pose proof (file_warns _ _ _ _ _ _ E) as X1. pose proof (files_warn _ _ _ _ _ _ _ R) as X2.
  destruct (quiet_between _ _ _ X1 X2 W) as [W1 W2].
  destruct (file_clean _ _ _ _ _ E W1) as (bs & txs & F & B). destruct (IH _ _ R W2) as (bs' & txs' & F' & B').
  exists (bs ++ bs'), (txs ++ txs'). split; [|by eapply books_app].
  unfold ReadBinaryFile in C. destruct (fs_content s name) as [v|] eqn:V; [|done]. injection C as ->.
  by eapply holds_file.
Qed.
End verifier.

(** ** Comparing the states *)
Lemma compare_coins_eq x : forall y, length x = length y -> compare_coins x y = true -> x = y.
Proof.
  induction x as [|[k v] x IH]; intros [|[k' v'] y] L; try done. cbn [compare_coins].
  destruct (k =? k') eqn:K; [|done]. destruct (v =? v') eqn:V; [|done]. cbn [negb]. intros E.
  apply Z.eqb_eq in K as ->. apply Z.eqb_eq in V as ->. f_equal. apply IH; [by injection L | done].
Qed.

Lemma compare_addrs_eq x : forall y, length x = length y -> compare_addrs x y = true -> x = y.
Proof.
  induction x as [|[a c] x IH]; intros [|[a' c'] y] L; try done. cbn [compare_addrs].
  case_bool_decide as D; [done|]. destruct (zlen c =? zlen c') eqn:Z; [|done]. cbn [negb].
  destruct (compare_coins c c') eqn:C; [|done]. cbn [negb]. intros E.
  apply Z.eqb_eq in Z. subst a'. f_equal; [|apply IH; [by injection L | done]].
  f_equal. apply compare_coins_eq; [unfold zlen in Z; lia | done].
Qed.

Lemma compare_states x y : CompareChainStateMaps x y = true -> x = y.
Proof.
  unfold CompareChainStateMaps. destruct (zlen x =? zlen y) eqn:L; [|done]. cbn [negb]. intros E.
  apply compare_addrs_eq; [apply Z.eqb_eq in L; unfold zlen in L; lia | done].
Qed.
