(* ===== verification/Generators.v ===== *)
(** * circuit.cpp, laminar.cpp and turbulent.cpp

    Three programs that write a file of Tier-2 transactions for load tests: the INN
    funds the wallets, then the wallets pay each other, until a number of
    transactions is reached.  Their nested loops share the output, the counter and
    the bytes of the nonce, and every level of them breaks when the counter is
    full.  [clock] and [rand] are the results of the calls of
    [GetMillisecondsSinceEpoch] and [std::rand]. *)

From Stdlib Require Import ZArith Lia.
From stdpp Require Import base list numbers.
From S2P Require Import Prelude OrdMap Converters Keys Buffers Transfer ChainState Summary.
From S2P Require Import KeyRing Transactions.

#[local] Open Scope Z_scope.

Record Options := mkOptions {
  o_node_index : Z; generate_count : Z; tx_amount : Z; clear_state : bool
}.

Record Gen := mkGen {
  g_out : bytes;
  g_counter : Z;
  g_nonce_bin : bytes;
  g_clock : nat;          (* calls of the clock so far *)
  g_rand : nat            (* calls of [std::rand] so far *)
}.

Definition gen_start : Gen := mkGen [] 0 [] 0 0.

(** [0, 1, ..., n - 1] from [k] on. *)
Definition indices (k n : Z) : list Z := Z.of_nat <$> seq (Z.to_nat k) (Z.to_nat (n - k)).

Section generators.
Context `{Crypto} (keys : KeyRing) (clock rand : nat -> Z) (o : Options).

(** [1000000 * (node_index + 1) * a * b]: the first factors are 32 bits wide. *)
Definition salt (a b : Z) : Z := u64 (u64 (u32 (1000000 * u32 (o_node_index o + 1)) * a) * b).

Definition clear_nonce : M Gen unit :=
  g ← get;
  put (mkGen (g_out g) (g_counter g) [] (g_clock g) (g_rand g)).

(** [nonce = GetMillisecondsSinceEpoch() + s; Uint64ToBin(nonce, nonce_bin)] *)
Definition push_nonce (s : Z) : M Gen unit :=
  g ← get;
  let nonce := u64 (clock (g_clock g) + s) in
  put (mkGen (g_out g) (g_counter g) (Uint64ToBin nonce (g_nonce_bin g)) (S (g_clock g)) (g_rand g)).

(** The transaction, its bytes at the end of the output, [counter++].  Laminar asks
    in between whether the transaction is sound. *)
Definition emit (recheck : bool) (oper : Z) (xfers : list Transfer) (key : EC_KEY) : M Gen unit :=
  g ← get;
  tx ← lift (t2_ctor_sign_checked oper xfers (g_nonce_bin g) key keys);
  put (mkGen (g_out g ++ t2_canonical tx) (g_counter g) (g_nonce_bin g) (g_clock g) (g_rand g));;
  (if recheck then
     ok ← lift (t2_isSound tx keys);
     if (ok : bool) then mret tt else throw RuntimeError
   else mret tt);;
  put (mkGen (g_out g ++ t2_canonical tx) (u64 (g_counter g + 1)) (g_nonce_bin g) (g_clock g) (g_rand g)).

(** The INN's transaction; [-1l * addr_count * ...] is computed without a sign. *)
Definition fund (inn_addr : Address) (addr_count : Z) : M Gen unit :=
  let inn_transfer :=
    TransferOps.ctor inn_addr 0
      (i64 (u64 (u64 (u64 (u64 (-1) * addr_count) * u64 (addr_count - 1)) * tx_amount o))) 0 in
  xfers ← lift (map_res (fun i =>
                  addr ← getWalletAddr keys i;
                  Ok (TransferOps.ctor addr 0 (i64 (u64 (tx_amount o * u64 (addr_count - 1)))) 0))
                (indices 0 addr_count));
  push_nonce (salt (u64 (tx_amount o + 1)) 1);;
  key ← lift (getKey keys inn_addr);
  emit false eOpType.Create (inn_transfer :: xfers) key.

(** A payment of [amount] from wallet [i] to wallet [j]. *)
Definition move (recheck : bool) (i j amount : Z) : M Gen unit :=
  a ← lift (getWalletAddr keys i);
  let sender := TransferOps.ctor a 0 (i64 (u64 (u64 (-1) * amount))) 0 in
  b ← lift (getWalletAddr keys j);
  let receiver := TransferOps.ctor b 0 (i64 amount) 0 in
  clear_nonce;;
  push_nonce (salt (i + 1) (j + 1));;
  key ← lift (getWalletKey keys i);
  emit recheck eOpType.Exchange [sender; receiver] key.

(** Back to the INN; the nonce is not cleared here. *)
Definition give_back (inn_addr : Address) (addr_count i : Z) : M Gen unit :=
  a ← lift (getWalletAddr keys i);
  let sender := TransferOps.ctor a 0 (i64 (u64 (u64 (u64 (-1) * u64 (addr_count - 1)) * tx_amount o))) 0 in
  let receiver := TransferOps.ctor inn_addr 0 (i64 (u64 (u64 (addr_count - 1) * tx_amount o))) 0 in
  push_nonce (salt (i + 1) (addr_count + 2));;
  key ← lift (getWalletKey keys i);
  emit false eOpType.Exchange [sender; receiver] key.

Definition full : M Gen bool := g ← get; mret (generate_count o <=? g_counter g).

(** [for (x : l) { if (skip) { continue; } body; if (full) { break; } }] *)
Fixpoint for_break {A} (skip : A -> bool) (body : A -> M Gen unit) (l : list A) : M Gen unit :=
  match l with
  | [] => mret tt
  | x :: l' =>
      if skip x then for_break skip body l'
      else
        body x;;
        f ← full;
        if (f : bool) then mret tt else for_break skip body l'
  end.

Definition never {A} (x : A) : bool := false.

(** One turn of the outer loop of each program. *)
Definition circuit_pass (addr_count : Z) : M Gen unit :=
  for_break never (fun i =>
    for_break (Z.eqb i) (fun j => move false i j (tx_amount o)) (indices 0 addr_count))
    (indices 0 addr_count).

Definition clear_pass (inn_addr : Address) (addr_count : Z) : M Gen unit :=
  if clear_state o then for_break never (give_back inn_addr addr_count) (indices 0 addr_count)
  else mret tt.

Definition laminar_pass (addr_count : Z) : M Gen unit :=
  for_break never (fun i =>
    for_break (Z.eqb i) (fun j => move true i j (tx_amount o)) (indices i addr_count))
    (indices 0 addr_count).

(** [std::rand() % n] *)
Definition draw (n : Z) : M Gen Z :=
  g ← get;
  if n =? 0 then lift UB
  else
    put (mkGen (g_out g) (g_counter g) (g_nonce_bin g) (g_clock g) (S (g_rand g)));;
    mret (rand (g_rand g) mod n).

Fixpoint turbulent_pass (addr_count : Z) (l : list Z) : M Gen unit :=
  match l with
  | [] => mret tt
  | i :: l' =>
      j ← draw addr_count;
      amount ← draw (tx_amount o);
      if i =? j then turbulent_pass addr_count l'
      else
        move false i j amount;;
        f ← full;
        if (f : bool) then mret tt else turbulent_pass addr_count l'
  end.

(** [while (counter < generate_count) { pass; if (full) { break; } rest; }] *)
Fixpoint while_loop (pass rest : M Gen unit) (fuel : nat) : M Gen unit :=
  f ← full;
  if (f : bool) then mret tt
  else
    match fuel with
    | O => lift NoFuel
    | S fuel' =>
        pass;;
        f ← full;
        if (f : bool) then mret tt
        else rest;; while_loop pass rest fuel'
    end.

(** [std::min(keys.CountWallets(), static_cast<size_t>(std::sqrt(generate_count - 1)))];
    the root of a 32-bit number is exact enough in a [double] to be rounded down. *)
Definition count_addrs : Z := Z.min (CountWallets keys) (Z.sqrt (u32 (generate_count o - 1))).

(** What the programs write; [CASH_THROW] throws the literal. *)
Definition run_generator (addr_count : Z) (loop : Address -> M Gen unit) (inn_addr : Address) : res bytes :=
  let '(r, g) := (fund inn_addr addr_count;; loop inn_addr) gen_start in
  r;; Ok (g_out g).

Definition circuit (fuel : nat) : res bytes :=
  inn_addr ← getInnAddr keys;
  if generate_count o <? 2 then Err ThrownString
  else
    run_generator count_addrs
      (fun inn => while_loop (circuit_pass count_addrs) (clear_pass inn count_addrs) fuel) inn_addr.

Definition laminar (fuel : nat) : res bytes :=
  inn_addr ← getInnAddr keys;
  if generate_count o <? 2 then Err ThrownString
  else
    run_generator count_addrs
      (fun _ => while_loop (laminar_pass count_addrs) (mret tt) fuel) inn_addr.

Definition turbulent (fuel : nat) : res bytes :=
  inn_addr ← getInnAddr keys;
  let addr_count := CountWallets keys in
  run_generator addr_count
    (fun _ => while_loop (turbulent_pass addr_count (indices 0 addr_count)) (mret tt) fuel) inn_addr.
End generators.

(** ** What the loops emit

    A job is an operation with the transfers of a transaction.  [emits] says what
    a run has added to the output; [runs] that a piece of the program emits the
    beginning of a list of jobs, as far as the counter allows. *)
Record job := mkJob { j_oper : Z; j_xfers : list tview }.

Section emission.
Context `{CryptoLaws} (keys : KeyRing) (clock rand : nat -> Z) (o : Options).

Definition job_of (c : t2_content) : job := mkJob (c_oper c) (c_xfers c).

Definition content_sound (c : t2_content) : Prop :=
  t2c_readable c /\
  SignatureOps.size (c_sig c) =
    (if c_oper c =? eOpType.Exchange then kWALLET_SIG_BUF_SIZE else kNODE_SIG_BUF_SIZE) /\
  t2_isSound (t2_built (c_oper c) (c_xfers c) (c_nonce c) (c_sig c) false) keys = Ok true.

Definition emits (l : list job) (g g' : Gen) : Prop :=
  exists cs, job_of <$> cs = l /\ Forall content_sound cs /\
    g_out g' = g_out g ++ concat (t2c_bytes <$> cs) /\ g_counter g' = g_counter g + zlen l.

Definition gen_ok (g : Gen) : Prop :=
  0 <= g_counter g <= generate_count o /\ zlen (g_nonce_bin g) <= 8 * g_counter g.

Definition runs (m : M Gen unit) (l : list job) : Prop := forall g,
  gen_ok g -> 1 <= g_counter g < generate_count o ->
  exists g', m g = (Ok tt, g') /\ gen_ok g' /\
    emits (take (Z.to_nat (generate_count o - g_counter g)) l) g g'.

Lemma emits_nil g : emits [] g g.
Proof. exists []. rewrite app_nil_r, Z.add_0_r. done. Qed.

Lemma emits_app l1 l2 g1 g2 g3 : emits l1 g1 g2 -> emits l2 g2 g3 -> emits (l1 ++ l2) g1 g3.
Proof.
  intros (c1 & <- & F1 & O1 & N1) (c2 & <- & F2 & O2 & N2). exists (c1 ++ c2).
  rewrite !fmap_app, concat_app. split; [done|]. split; [by apply Forall_app|].
  split; [by rewrite O2, O1, app_assoc|]. rewrite N2, N1, (zlen_app (job_of <$> c1) (job_of <$> c2)). by rewrite Z.add_assoc.
Qed.

Lemma runs_nil : runs (mret tt) [].
Proof. intros g G _. exists g. rewrite take_nil. split; [done|]. split; [done | apply emits_nil]. Qed.

(** After the beginning of a list has been emitted, either the counter is full or
    all of it has been. *)
Lemma emits_full l g g' : g_counter g < generate_count o ->
  emits (take (Z.to_nat (generate_count o - g_counter g)) l) g g' ->
  (g_counter g' = generate_count o /\ zlen l >= generate_count o - g_counter g) \/
  (g_counter g' < generate_count o /\ g_counter g' = g_counter g + zlen l /\
   take (Z.to_nat (generate_count o - g_counter g)) l = l).
Proof.
  intros Hg (cs & _ & _ & _ & N). unfold zlen in *. rewrite length_take in N.
  destruct (decide (generate_count o - g_counter g <= Z.of_nat (length l))).
  - left. lia.
  - right. rewrite take_ge by lia. repeat split; lia.
Qed.

Lemma run_full g : full o g = (Ok (generate_count o <=? g_counter g), g).
Proof. done. Qed.

(** One piece, the test, and the next. *)
Lemma runs_seq m1 m2 l1 l2 : runs m1 l1 -> runs m2 l2 ->
  runs (m1;; f ← full o; if (f : bool) then mret tt else m2) (l1 ++ l2).
Proof.
  intros R1 R2 g G Hg. destruct (R1 g G Hg) as (g1 & E1 & G1 & M1).
  rewrite (bind_ok _ _ _ _ _ E1), (bind_ok _ _ _ _ _ (run_full g1)). pose proof (emits_full _ _ _ (proj2 Hg) M1) as C.
  rewrite take_app. unfold zlen in C. destruct C as [(F & L)|(F & N & T)].
  - rewrite (proj2 (Z.leb_le _ _)) by lia. exists g1. split; [done|]. split; [done|].
    replace (_ - length l1)%nat with 0%nat by lia. by rewrite app_nil_r.
  - rewrite (proj2 (Z.leb_gt _ _)) by lia. destruct (R2 g1 G1 ltac:(lia)) as (g2 & E2 & G2 & M2). exists g2. split; [done|]. split; [done|].
    apply (emits_app _ _ _ g1); [done|].
    by replace (_ - length l1)%nat with (Z.to_nat (generate_count o - g_counter g1)) by lia.
Qed.

Lemma runs_for {A} (skip : A -> bool) body (jobs : A -> list job) l :
  (forall x, x ∈ l -> skip x = false -> runs (body x) (jobs x)) ->
  runs (for_break o skip body l) (flat_map jobs (List.filter (fun x => negb (skip x)) l)).
Proof.
  induction l as [|x l IH]; intros B; [apply runs_nil|]. cbn [for_break List.filter].
  assert (forall y, y ∈ l -> skip y = false -> runs (body y) (jobs y)) as B' by (intros; apply B; [by right | done]).
  destruct (skip x) eqn:S; [by apply IH|]. cbn [negb flat_map].
  apply (runs_seq (body x)); [by apply B; [left|] | by apply IH].
Qed.

(** Enough turns of the outer loop. *)
Fixpoint repeated {A} (n : nat) (l : list A) : list A :=
  match n with O => [] | S n' => l ++ repeated n' l end.

Lemma while_full pass rest fuel g : generate_count o <= g_counter g ->
  while_loop o pass rest fuel g = (Ok tt, g).
Proof.
  intros F. destruct fuel; cbn [while_loop]; rewrite (bind_ok _ _ _ _ _ (run_full g));
    by rewrite (proj2 (Z.leb_le _ _)).
Qed.

Lemma runs_while pass rest l1 l2 : runs pass l1 -> runs rest l2 -> l1 <> [] ->
  forall fuel g, gen_ok g -> 1 <= g_counter g -> generate_count o - g_counter g <= Z.of_nat fuel ->
  exists g', while_loop o pass rest fuel g = (Ok tt, g') /\ g_counter g' = generate_count o /\
    emits (take (Z.to_nat (generate_count o - g_counter g)) (repeated fuel (l1 ++ l2))) g g'.
Proof.
  intros R1 R2 Hne. assert (0 < zlen l1) as L1.
  { destruct l1 as [|x l1]; [done|]. rewrite zlen_cons. pose proof (zlen_nonneg l1). lia. }
  pose proof (zlen_nonneg l2) as L2.
  induction fuel as [|fuel IH]; intros g G Hg Hf; pose proof G as ((_ & Hc) & _);
    (destruct (decide (g_counter g = generate_count o)) as [F|F];
      [rewrite while_full by lia; exists g; rewrite F, Z.sub_diag, take_0;
       split; [done|]; split; [done | apply emits_nil]|]); [lia|].
  cbn [while_loop]. rewrite (bind_ok _ _ _ _ _ (run_full g)), (proj2 (Z.leb_gt _ _)) by lia.
  (* a whole turn, then the loop *)
  assert (runs (pass;; f ← full o; if (f : bool) then mret tt else rest) (l1 ++ l2)) as R by by apply runs_seq.
  destruct (R g G ltac:(lia)) as (g1 & E1 & G1 & M1).
  assert ((pass;; f ← full o; if (f : bool) then mret tt else rest;; while_loop o pass rest fuel) g =
          while_loop o pass rest fuel g1) as ->.
  { revert E1. unfold mbind at 1 3, M_bind at 1 3. destruct (pass g) as [[[]|e| |] g0]; try done.
    rewrite !(bind_ok _ _ _ _ _ (run_full g0)).
    destruct (generate_count o <=? g_counter g0) eqn:F0; bool_to_prop.
    - intros [= <-]. by rewrite while_full.
    - intros E1. by rewrite (bind_ok _ _ _ _ _ E1). }
  cbn [repeated]. rewrite take_app.
  assert (g_counter g < generate_count o) as Hlt by lia.
  destruct (emits_full _ _ _ Hlt M1) as [(F1 & N1)|(F1 & N1 & T1)]; unfold zlen in N1.
  - rewrite while_full by lia. exists g1. split; [done|]. split; [done|].
    replace (_ - length (l1 ++ l2))%nat with 0%nat by lia. by rewrite app_nil_r.
  - unfold zlen in *. rewrite length_app in N1.
    destruct (IH g1 G1 ltac:(lia) ltac:(lia)) as (g2 & E2 & C2 & M2). exists g2.
    split; [done|]. split; [done|]. apply (emits_app _ _ _ g1); [done|]. rewrite length_app.
    by replace (_ - _)%nat with (Z.to_nat (generate_count o - g_counter g1)) by lia.
Qed.
End emission.

(** ** The transactions of the programs *)
Section transactions.
Context `{CryptoLaws} (keys : KeyRing) (clock rand : nat -> Z) (o : Options).

Definition wallet_ready (a : Address) : Prop :=
  addr_wf a /\ exists k, om_find a (key_map_ keys) = Some k /\ is_node_key k = false.

(** A key ring with the INN's keys and a key for every wallet. *)
Definition ring_ready (inn : Address) : Prop :=
  getInnAddr keys = Ok inn /\ addr_wf inn /\
  (exists k, getKey keys inn = Ok k /\ is_node_key k = true) /\
  Forall wallet_ready (wallet_list_ keys) /\ zlen (wallet_list_ keys) < 2 ^ 31.

Definition wallet_at (i : Z) : Address := nth (Z.to_nat i) (wallet_list_ keys) AddressOps.default.

Definition pay_views (a b : Address) (amount : Z) : list tview :=
  [mkView a 0 (- amount) 0; mkView b 0 amount 0].

Definition move_job (amount i j : Z) : job :=
  mkJob eOpType.Exchange (pay_views (wallet_at i) (wallet_at j) amount).

Definition back_job (inn : Address) (x i : Z) : job :=
  mkJob eOpType.Exchange (pay_views (wallet_at i) inn ((x - 1) * tx_amount o)).

Definition fund_job (inn : Address) (x : Z) : job :=
  mkJob eOpType.Create
    (mkView inn 0 (- (x * (x - 1) * tx_amount o)) 0
     :: ((fun i => mkView (wallet_at i) 0 ((x - 1) * tx_amount o) 0) <$> indices 0 x)).

Lemma indices_range k n i : i ∈ indices k n -> 0 <= k -> k <= i < n.
Proof.
  unfold indices. intros (m & -> & Hm)%list_elem_of_fmap Hk. apply elem_of_seq in Hm. lia.
Qed.

(** Products computed without a sign. *)
Lemma u64_mul_l a b : u64 (u64 a * b) = u64 (a * b).
Proof. unfold u64. apply Z.mul_mod_idemp_l. by unfold u64_mod. Qed.

Lemma u64_mul_r a b : u64 (a * u64 b) = u64 (a * b).
Proof. unfold u64. apply Z.mul_mod_idemp_r. by unfold u64_mod. Qed.

Lemma i64_congruent z y : u64 z = u64 y -> in_i64 y -> i64 z = y.
Proof. intros E Hy. rewrite <- i64_u64, E, i64_u64. by apply i64_id. Qed.

Lemma negated x : in_i64 (- x) -> i64 (u64 (u64 (-1) * x)) = - x.
Proof. intros R. rewrite i64_u64. apply i64_congruent; [|done]. rewrite u64_mul_l. done. Qed.

Lemma negated_product x y : in_i64 (- (x * y)) -> i64 (u64 (u64 (u64 (-1) * x) * y)) = - (x * y).
Proof.
  intros R. rewrite i64_u64. apply i64_congruent; [|done]. by rewrite u64_mul_l, <- Z.mul_assoc, u64_mul_l.
Qed.

Lemma negated_triple x y z : in_i64 (- (x * y * z)) ->
  i64 (u64 (u64 (u64 (u64 (-1) * x) * y) * z)) = - (x * y * z).
Proof.
  intros R. rewrite i64_u64. apply i64_congruent; [|done].
  rewrite u64_mul_l, <- Z.mul_assoc, u64_mul_l, <- Z.mul_assoc, u64_mul_l. f_equal. ring.
Qed.

Lemma emit_ok recheck oper vs a k g :
  sound_content oper vs a -> getKey keys a = Ok k -> is_node_key k = negb (oper =? eOpType.Exchange) ->
  0 <= oper < eOpType.NumOperations -> 8 <= zlen (g_nonce_bin g) < 2 ^ 40 -> zlen vs < 2 ^ 40 -> 0 <= g_counter g < 2 ^ 63 ->
  exists c, job_of c = mkJob oper vs /\ content_sound keys c /\
    emit keys recheck oper (xfer_of <$> vs) k g =
      (Ok tt, mkGen (g_out g ++ t2c_bytes c) (g_counter g + 1) (g_nonce_bin g) (g_clock g) (g_rand g)).
Proof.
  intros C Hk Hn Hop Hm Hv Hc. pose proof (xfers_canonical_bound vs (proj1 C)).
  assert (zlen (t2_body oper vs (g_nonce_bin g)) < 2 ^ 62) as L by (rewrite t2_body_length; lia).
  destruct (t2_sign_steps oper vs (g_nonce_bin g) k keys Hn (proj1 Hm) L) as (sig & E & W & V & Z & Lb).
  assert (t2_isSound (t2_built oper vs (g_nonce_bin g) sig false) keys = Ok true) as Hs
    by (by apply (t2_built_sound oper vs (g_nonce_bin g) sig keys a k)).
  exists (mkT2c oper vs (g_nonce_bin g) sig). split; [done|].
  split; [split; [split; [apply C | split; [done | split; [apply Hm | done]]] | done]|]. unfold emit. rewrite bind_get, E. unfold t2_check. rewrite Hs.
  cbn [mbind res_bind negb]. rewrite bind_lift, bind_put.
  rewrite (u64_id (g_counter g + 1)) by (unfold in_u64, u64_mod; lia). by destruct recheck.
Qed.

Lemma push_nonce_ok s g : push_nonce clock s g =
  (Ok tt, mkGen (g_out g) (g_counter g) (g_nonce_bin g ++ Uint64ToBin (u64 (clock (g_clock g) + s)) [])
            (S (g_clock g)) (g_rand g)).
Proof. unfold push_nonce. rewrite bind_get. unfold put. by rewrite Uint64ToBin_app. Qed.

Lemma clear_nonce_ok g :
  clear_nonce g = (Ok tt, mkGen (g_out g) (g_counter g) [] (g_clock g) (g_rand g)).
Proof. done. Qed.

Lemma pay_sound_content a b amount : addr_wf a -> addr_wf b -> 0 < amount < 2 ^ 63 ->
  sound_content eOpType.Exchange (pay_views a b amount) a.
Proof.
  intros Wa Wb R. unfold pay_views. split; [|split; [|split; [|split; [|split]]]].
  - repeat constructor; cbn; unfold in_u64, in_i64, u64_mod; try done; lia.
  - repeat constructor; cbn; lia.
  - unfold has_sender. cbn [existsb v_amount]. by rewrite (proj2 (Z.ltb_lt _ _)) by lia.
  - unfold sums_ok, in_i64b. cbn [v_amount]. repeat (rewrite andb_true_iff; split); try apply Z.leb_le; try apply Z.ltb_lt; lia.
  - unfold zsum. cbn. lia.
  - done.
Qed.

Section ready.
Variable inn : Address.
Hypothesis ready : ring_ready inn.
Hypothesis count_range : generate_count o < 2 ^ 32.

Lemma wallet_lookup i : 0 <= i < zlen (wallet_list_ keys) ->
  getWalletAddr keys i = Ok (wallet_at i) /\ wallet_ready (wallet_at i).
Proof.
  intros Hi. destruct ready as (_ & _ & _ & F & L). unfold getWalletAddr, wallet_at.
  rewrite u64_id by (unfold in_u64, u64_mod; lia). unfold zlen in *.
  assert (wallet_list_ keys !! Z.to_nat i = Some (nth (Z.to_nat i) (wallet_list_ keys) AddressOps.default)) as E.
  { destruct (wallet_list_ keys !! Z.to_nat i) eqn:E; [by rewrite (nth_lookup_Some _ _ _ _ E)|].
    apply lookup_ge_None in E. lia. }
  split; [|by apply (Forall_lookup_1 _ _ _ _ F E)].
  unfold vec_at, zlen. rewrite (proj2 (Z.leb_le _ _)), (proj2 (Z.ltb_lt _ _)) by lia. cbn [andb]. by rewrite E.
Qed.

Lemma wallet_key i : 0 <= i < zlen (wallet_list_ keys) ->
  exists k, getWalletKey keys i = Ok k /\ getKey keys (wallet_at i) = Ok k /\ is_node_key k = false.
Proof.
  intros Hi. destruct (wallet_lookup i Hi) as (E & _ & k & Ek & Hk). exists k.
  unfold getWalletKey, getKey. unfold getWalletAddr in E. rewrite E. cbn [mbind res_bind]. by rewrite Ek.
Qed.

(** One payment: whatever pushes a nonce and emits it. *)
Lemma run_one (m : M Gen unit) (j : job) : 
  (forall g, gen_ok o g -> 1 <= g_counter g < generate_count o -> exists c g',
    m g = (Ok tt, g') /\ job_of c = j /\ content_sound keys c /\
    g_out g' = g_out g ++ t2c_bytes c /\ g_counter g' = g_counter g + 1 /\
    zlen (g_nonce_bin g') <= zlen (g_nonce_bin g) + 8) ->
  runs keys o m [j].
Proof.
  intros Hm g G Hg. destruct (Hm g G Hg) as (c & g' & E & Hj & S & Ho & Hc & Hn). exists g'.
  split; [done|]. destruct G as (G1 & G2). split; [split; lia|].
  rewrite take_ge by (cbn; lia). exists [c]. rewrite fmap_cons, Hj. split; [done|].
  split; [by constructor|]. cbn [fmap list_fmap concat]. by rewrite app_nil_r, Hc.
Qed.

Lemma gen_nonce g : gen_ok o g -> g_counter g < generate_count o -> zlen (g_nonce_bin g) + 8 < 2 ^ 40.
Proof using count_range. unfold gen_ok. lia. Qed.

(** A payment of one wallet once the nonce is there. *)
Lemma emit_pay recheck i b amount nonce g t g1 :
  0 <= i < zlen (wallet_list_ keys) -> addr_wf b -> 0 < amount < 2 ^ 63 ->
  zlen nonce + 8 < 2 ^ 40 -> 0 <= g_counter g < 2 ^ 63 ->
  g1 = mkGen (g_out g) (g_counter g) (nonce ++ Uint64ToBin t []) (S (g_clock g)) (g_rand g) ->
  exists c, job_of c = mkJob eOpType.Exchange (pay_views (wallet_at i) b amount) /\ content_sound keys c /\
    (key ← lift (getWalletKey keys i);
     emit keys recheck eOpType.Exchange (xfer_of <$> pay_views (wallet_at i) b amount) key) g1 =
      (Ok tt, mkGen (g_out g ++ t2c_bytes c) (g_counter g + 1) (g_nonce_bin g1) (g_clock g1) (g_rand g1)).
Proof using ready.
  intros Hi Wb Ha Hn Hc ->. destruct (wallet_key i Hi) as (k & E1 & E2 & Hk).
  destruct (wallet_lookup i Hi) as (_ & Wa & _). rewrite E1, bind_lift.
  apply (emit_ok recheck eOpType.Exchange _ (wallet_at i) k
    (mkGen (g_out g) (g_counter g) (nonce ++ Uint64ToBin t []) (S (g_clock g)) (g_rand g)));
    cbn [g_nonce_bin g_counter]; try done.
  - by apply pay_sound_content.
  - rewrite zlen_app, Uint64ToBin_length. pose proof (zlen_nonneg nonce). lia.
Qed.

Lemma move_runs recheck i j amount :
  0 <= i < zlen (wallet_list_ keys) -> 0 <= j < zlen (wallet_list_ keys) -> 0 < amount < 2 ^ 63 ->
  runs keys o (move keys clock o recheck i j amount) [move_job amount i j].
Proof using ready count_range.
  intros Hi Hj Ha. apply run_one. intros g G Hg. pose proof (gen_nonce g G (proj2 Hg)) as Gn.
  destruct (wallet_lookup i Hi) as (E1 & _), (wallet_lookup j Hj) as (E2 & Wj & _).
  destruct (emit_pay recheck i (wallet_at j) amount [] g
    (u64 (clock (g_clock g) + salt o (i + 1) (j + 1))) _ Hi Wj Ha ltac:(done) ltac:(lia) eq_refl)
    as (c & Hc & Hs & E).
  exists c. eexists. split; [|split; [exact Hc|split; [exact Hs|]]].
  - unfold move. rewrite E1, bind_lift, E2, bind_lift, (bind_ok _ _ _ _ _ (clear_nonce_ok g)).
    rewrite (bind_ok _ _ _ _ _ (push_nonce_ok _ _)). cbn [g_out g_counter g_nonce_bin g_clock g_rand].
    rewrite negated, (i64_id amount) by (unfold in_i64; lia). exact E.
  - cbn [g_out g_counter g_nonce_bin]. split; [done|]. split; [done|].
    rewrite app_nil_l, Uint64ToBin_length. pose proof (zlen_nonneg (g_nonce_bin g)). lia.
Qed.

Lemma back_runs x i : 0 <= i < zlen (wallet_list_ keys) -> 2 <= x ->
  0 < (x - 1) * tx_amount o < 2 ^ 63 -> x < 2 ^ 32 ->
  runs keys o (give_back keys clock o inn x i) [back_job inn x i].
Proof using ready count_range.
  intros Hi Hx Ha Hx2. apply run_one. intros g G Hg. pose proof (gen_nonce g G (proj2 Hg)) as Gn.
  destruct (wallet_lookup i Hi) as (E1 & _). pose proof ready as (_ & Wi & _).
  destruct (emit_pay false i inn ((x - 1) * tx_amount o) (g_nonce_bin g) g
    (u64 (clock (g_clock g) + salt o (i + 1) (x + 2))) _ Hi Wi Ha Gn ltac:(lia) eq_refl)
    as (c & Hc & Hs & E).
  exists c. eexists. split; [|split; [exact Hc|split; [exact Hs|]]].
  - unfold give_back. rewrite E1, bind_lift, (bind_ok _ _ _ _ _ (push_nonce_ok _ _)).
    rewrite (u64_id (x - 1)) by (unfold in_u64, u64_mod; lia).
    rewrite negated_product, (i64_u64_id (_ * _)) by (unfold in_i64; lia). exact E.
  - cbn [g_out g_counter g_nonce_bin]. split; [done|]. split; [done|].
    by rewrite zlen_app, Uint64ToBin_length.
Qed.

(** The INN's transaction. *)
Lemma fund_views x : 0 <= x <= zlen (wallet_list_ keys) -> 
  map_res (fun i => addr ← getWalletAddr keys i;
             Ok (TransferOps.ctor addr 0 (i64 (u64 (tx_amount o * u64 (x - 1)))) 0)) (indices 0 x) =
  Ok (xfer_of <$> ((fun i => mkView (wallet_at i) 0 (i64 (u64 (tx_amount o * u64 (x - 1)))) 0) <$> indices 0 x)).
Proof using ready.
  intros Hx. assert (forall i, i ∈ indices 0 x -> 0 <= i < x) as R by (intros; by apply indices_range).
  induction (indices 0 x) as [|i l IH]; [done|]. rewrite !fmap_cons. cbn [map_res].
  destruct (wallet_lookup i) as (-> & _); [pose proof (R i ltac:(by left)); lia|]. cbn [mbind res_bind].
  rewrite IH by (intros; apply R; by right). done.
Qed.

Lemma sums_falling a (l : list Z) (f : Z -> Address) : 0 <= a ->
  forall n, - 2 ^ 63 <= n -> n + a * zlen l <= 0 ->
  sums_ok n ((fun i => mkView (f i) 0 a 0) <$> l) = true.
Proof.
  intros Ha. induction l as [|i l IH]; intros n Hn Hs; [done|]. rewrite fmap_cons. cbn [sums_ok v_amount].
  rewrite zlen_cons in Hs. pose proof (zlen_nonneg l). apply andb_true_iff. split; [|apply IH; nia].
  unfold in_i64b. apply andb_true_iff. split; [apply Z.leb_le | apply Z.ltb_lt]; nia.
Qed.

Lemma zsum_const {A} a (l : list A) (f : A -> tview) : (forall x, v_amount (f x) = a) ->
  zsum (v_amount <$> (f <$> l)) = a * zlen l.
Proof.
  intros E. induction l as [|x l IH]; [unfold zlen; cbn; lia|].
  rewrite !fmap_cons, zlen_cons. unfold zsum in *. cbn [foldr]. rewrite IH, E. lia.
Qed.

Lemma indices_length x : 0 <= x -> zlen (indices 0 x) = x.
Proof. intros Hx. unfold zlen, indices. rewrite length_fmap, length_seq. lia. Qed.

Lemma fund_sound x : 2 <= x <= zlen (wallet_list_ keys) -> 0 < tx_amount o ->
  x * (x - 1) * tx_amount o < 2 ^ 63 ->
  sound_content eOpType.Create (j_xfers (fund_job inn x)) inn.
Proof using ready.
  intros Hx Ha Hm. pose proof ready as (Ei & Wi & _). unfold fund_job. cbn [j_xfers].
  assert (forall i, i ∈ indices 0 x -> addr_wf (wallet_at i)) as Wl.
  { intros i Hi%indices_range; [|done]. apply wallet_lookup. lia. }
  assert (0 < (x - 1) * tx_amount o) as Hp by nia.
  replace (x * (x - 1) * tx_amount o) with (x * ((x - 1) * tx_amount o)) in * by ring.
  revert Hp Hm. generalize ((x - 1) * tx_amount o) as p. intros p Hp Hm.
  assert (p <= x * p) as Hxp by nia.
  split; [|split; [|split; [|split; [|split]]]].
  - constructor; [split; [done|]; unfold in_u64, in_i64, u64_mod; cbn -[Z.mul]; repeat split; lia|].
    apply List.Forall_forall. intros v Hv%list_elem_of_In. apply list_elem_of_fmap in Hv as (i & -> & Hi).
    split; [by apply Wl|]. unfold in_u64, in_i64, u64_mod. cbn -[Z.mul]. repeat split; lia.
  - constructor; [done|]. apply List.Forall_forall. intros v Hv%list_elem_of_In.
    apply list_elem_of_fmap in Hv as (i & -> & Hi). cbn. lia.
  - unfold has_sender. cbn [existsb v_amount]. by rewrite (proj2 (Z.ltb_lt _ _)) by lia.
  - cbn [sums_ok v_amount]. apply andb_true_iff. split.
    + unfold in_i64b. apply andb_true_iff. split; [apply Z.leb_le | apply Z.ltb_lt]; lia.
    + apply sums_falling; [lia | lia|]. rewrite indices_length by lia. lia.
  - rewrite fmap_cons. unfold zsum at 1. cbn [foldr v_amount].
    change (foldr Z.add 0) with zsum. rewrite (zsum_const p) by done. rewrite indices_length by lia. lia.
  - intros _. unfold getInnAddr, isINN in Ei. by destruct (AddressOps.isNodeAddress (inn_addr_ keys)) eqn:E;
      simplify_eq.
Qed.

Lemma fund_ok x : 2 <= x <= zlen (wallet_list_ keys) -> 0 < tx_amount o ->
  x * (x - 1) * tx_amount o < 2 ^ 63 -> 1 <= generate_count o ->
  exists g, fund keys clock o inn x gen_start = (Ok tt, g) /\ gen_ok o g /\ g_counter g = 1 /\
    emits keys [fund_job inn x] gen_start g.
Proof using ready.
  intros Hx Ha Hm Hg. pose proof ready as (Ei & Wi & (k & Ek & Hk) & _ & Hw).
  set (t := u64 (clock 0%nat + salt o (u64 (tx_amount o + 1)) 1)).
  destruct (emit_ok false eOpType.Create (j_xfers (fund_job inn x)) inn k
    (mkGen [] 0 ([] ++ Uint64ToBin t []) 1 0) (fund_sound x Hx Ha Hm) Ek) as (c & Hc & Hs & E).
  { done. }
  { done. }
  { cbn [g_nonce_bin]. by rewrite app_nil_l, Uint64ToBin_length. }
  { cbn [fund_job j_xfers]. rewrite zlen_cons. unfold zlen at 1. rewrite length_fmap.
    fold (zlen (indices 0 x)). rewrite indices_length by lia. lia. }
  { done. }
  assert (0 < (x - 1) * tx_amount o <= x * (x - 1) * tx_amount o) as Hp by nia.
  eexists. split; [|split; [|split]].
  - unfold fund. rewrite fund_views, bind_lift by lia.
    rewrite (bind_ok _ _ _ _ _ (push_nonce_ok _ _)). rewrite Ek, bind_lift.
    rewrite (u64_id (x - 1)) by (unfold in_u64, u64_mod; lia).
    rewrite negated_triple, (Z.mul_comm (tx_amount o)), i64_u64_id by (unfold in_i64; lia). exact E.
  - split; [cbn; lia|]. cbn [g_nonce_bin g_counter]. by rewrite app_nil_l, Uint64ToBin_length.
  - done.
  - exists [c]. rewrite fmap_cons, Hc. split; [done|]. split; [by constructor|]. split; [|done].
    cbn [fmap list_fmap concat g_out]. by rewrite app_nil_r.
Qed.

(** With one wallet or none there is nothing to fund, and nobody who sends. *)
Lemma fund_small x : 0 <= x <= 1 -> x <= zlen (wallet_list_ keys) ->
  fst (fund keys clock o inn x gen_start) = Err RuntimeError.
Proof using ready.
  intros Hx Hw. pose proof ready as (_ & Wi & (k & Ek & Hk) & _). unfold fund.
  rewrite fund_views, bind_lift, (bind_ok _ _ _ _ _ (push_nonce_ok _ _)), Ek, bind_lift by lia.
  assert (i64 (u64 (tx_amount o * u64 (1 - 1))) = 0) as Z0 by (by rewrite Z.mul_0_r).
  set (vs := mkView inn 0 0 0 :: ((fun i => mkView (wallet_at i) 0 0 0) <$> indices 0 x)).
  assert (Forall view_ok vs /\ Forall (fun v => v_amount v = 0) vs /\ zlen vs <= 2) as (V1 & V2 & V3).
  { split; [|split].
    - constructor; [by split|]. apply List.Forall_forall. intros v Hv%list_elem_of_In.
      apply list_elem_of_fmap in Hv as (i & -> & Hi%indices_range); [|done].
      split; [apply wallet_lookup; lia | done].
    - constructor; [done|]. apply List.Forall_forall. intros v Hv%list_elem_of_In.
      by apply list_elem_of_fmap in Hv as (i & -> & _).
    - unfold vs. rewrite zlen_cons. unfold zlen. rewrite length_fmap. fold (zlen (indices 0 x)).
      rewrite indices_length; lia. }
  set (n := [] ++ Uint64ToBin (u64 (clock 0%nat + salt o (u64 (tx_amount o + 1)) 1)) []).
  assert (t2_ctor_sign_checked eOpType.Create (xfer_of <$> vs) n k keys = Err RuntimeError) as T.
  { apply t2_create_senderless; try done. rewrite t2_body_length. pose proof (xfers_canonical_bound vs V1).
    change (zlen n) with 8. lia. }
  assert (x = 0 \/ x = 1) as Hc by lia.
  assert (i64 (u64 (u64 (u64 (u64 (-1) * x) * u64 (x - 1)) * tx_amount o)) = 0) as ->
    by (destruct Hc as [-> | ->]; done).
  assert ((fun i => mkView (wallet_at i) 0 (i64 (u64 (tx_amount o * u64 (x - 1)))) 0) <$> indices 0 x =
          (fun i => mkView (wallet_at i) 0 0 0) <$> indices 0 x) as ->
    by (destruct Hc as [-> | ->]; [done | by rewrite Z0]).
  unfold emit. rewrite bind_get. cbn [g_nonce_bin gen_start].
  rewrite (T : t2_ctor_sign_checked _ (TransferOps.ctor inn 0 0 0 :: (xfer_of <$> _)) _ _ _ = _). done.
Qed.

(** The jobs of the loops of circuit and laminar. *)
Definition from_to (js : Z -> list Z) (x : Z) : list job :=
  flat_map (fun i => flat_map (fun j => [move_job (tx_amount o) i j])
                       (List.filter (fun j => negb (i =? j)) (js i))) (indices 0 x).

Definition circuit_jobs (x : Z) : list job := from_to (fun _ => indices 0 x) x.
Definition laminar_jobs (x : Z) : list job := from_to (fun i => indices i x) x.
Definition back_jobs (x : Z) : list job :=
  if clear_state o then flat_map (fun i => [back_job inn x i]) (indices 0 x) else [].

Lemma filter_never {A} (l : list A) : List.filter (fun x => negb (never x)) l = l.
Proof. induction l as [|y l IH]; [done|]. cbn [List.filter]. unfold never at 1. cbn [negb]. by rewrite IH. Qed.

Lemma from_to_runs recheck js x : x <= zlen (wallet_list_ keys) -> 0 < tx_amount o < 2 ^ 63 ->
  (forall i j, 0 <= i < x -> j ∈ js i -> 0 <= j < x) ->
  runs keys o (for_break o never (fun i =>
    for_break o (Z.eqb i) (fun j => move keys clock o recheck i j (tx_amount o)) (js i)) (indices 0 x))
    (from_to js x).
Proof using ready count_range.
  intros Hx Ha Hj. unfold from_to. rewrite <- (filter_never (indices 0 x)) at 2.
  apply runs_for. intros i Hi%indices_range _; [|done].
  apply runs_for. intros j Hji _. specialize (Hj i j Hi Hji). apply move_runs; [lia | lia | done].
Qed.

Lemma clear_runs x : 2 <= x <= zlen (wallet_list_ keys) -> 0 < tx_amount o ->
  x * (x - 1) * tx_amount o < 2 ^ 63 -> runs keys o (clear_pass keys clock o inn x) (back_jobs x).
Proof using ready count_range.
  intros Hx Ha Hm. unfold clear_pass, back_jobs. destruct (clear_state o); [|apply runs_nil].
  pose proof ready as (_ & _ & _ & _ & Hw). rewrite <- (filter_never (indices 0 x)) at 2.
  apply runs_for. intros i Hi%indices_range _; [|done]. apply back_runs; [lia | lia | nia | lia].
Qed.

(** A generator whose loop repeats two lists of jobs. *)
Lemma generator_ok x pass rest l1 l2 fuel :
  2 <= x <= zlen (wallet_list_ keys) -> 0 < tx_amount o -> x * (x - 1) * tx_amount o < 2 ^ 63 ->
  1 <= generate_count o -> runs keys o pass l1 -> runs keys o rest l2 -> l1 <> [] ->
  generate_count o <= Z.of_nat fuel ->
  exists cs, run_generator keys clock o x (fun _ => while_loop o pass rest fuel) inn =
      Ok (concat (t2c_bytes <$> cs)) /\
    Forall (content_sound keys) cs /\ zlen cs = generate_count o /\
    job_of <$> cs = take (Z.to_nat (generate_count o)) (fund_job inn x :: repeated fuel (l1 ++ l2)).
Proof using ready.
  intros Hx Ha Hm Hg R1 R2 Hne Hf. destruct (fund_ok x Hx Ha Hm Hg) as (g1 & E1 & G1 & C1 & M1).
  destruct (runs_while keys o pass rest l1 l2 R1 R2 Hne fuel g1 G1 ltac:(lia) ltac:(lia)) as (g2 & E2 & C2 & M2).
  destruct (emits_app _ _ _ _ _ _ M1 M2) as (cs & Hj & Fs & Ho & Hc). exists cs.
  unfold run_generator. rewrite (bind_ok _ _ _ _ _ E1), E2. cbn [mbind res_bind].
  split; [by rewrite Ho|]. split; [done|]. rewrite Hj. split.
  - rewrite <- Hj in Hc. cbn in Hc. unfold zlen in *. rewrite length_fmap in Hc. lia.
  - destruct (Z.to_nat (generate_count o)) as [|n] eqn:En; [lia|]. cbn [take app]. do 2 f_equal. lia.
Qed.
End ready.
End transactions.

(** ** The books of a circuit

    Sums over lists, then the change of one balance by a list of jobs. *)
Definition sum_over {A} (f : A -> Z) (l : list A) : Z := zsum (f <$> l).

Section sums.
Context {A : Type}.

Lemma sum_cons (f : A -> Z) x l : sum_over f (x :: l) = f x + sum_over f l.
Proof. done. Qed.

Lemma sum_app (f : A -> Z) l1 l2 : sum_over f (l1 ++ l2) = sum_over f l1 + sum_over f l2.
Proof. induction l1 as [|x l1 IH]; [done|]. cbn [app]. rewrite !sum_cons, IH. lia. Qed.

Lemma sum_ext (f g : A -> Z) l : (forall x, x ∈ l -> f x = g x) -> sum_over f l = sum_over g l.
Proof.
  induction l as [|x l IH]; intros E; [done|]. rewrite !sum_cons, (E x) by left.
  rewrite IH; [done|]. intros y Hy. apply E. by right.
Qed.

Lemma sum_affine (c d : Z) (f : A -> Z) l : sum_over (fun x => c + d * f x) l = c * zlen l + d * sum_over f l.
Proof.
  induction l as [|x l IH]; [unfold zlen, sum_over; cbn; lia|]. rewrite !sum_cons, IH, zlen_cons. ring.
Qed.

(** Leaving out elements that count for nothing. *)
Lemma sum_filter (f : A -> Z) p l : (forall x, p x = false -> f x = 0) ->
  sum_over f (List.filter p l) = sum_over f l.
Proof.
  intros Z. induction l as [|x l IH]; [done|]. cbn [List.filter]. rewrite sum_cons.
  destruct (p x) eqn:E; [by rewrite sum_cons, IH | by rewrite IH, (Z x E)].
Qed.
End sums.

Lemma sum_flat_map {A B} (f : B -> Z) (g : A -> list B) l :
  sum_over f (flat_map g l) = sum_over (fun x => sum_over f (g x)) l.
Proof. induction l as [|x l IH]; [done|]. cbn [flat_map]. by rewrite sum_app, sum_cons, IH. Qed.

Section books.
Context `{Crypto} (keys : KeyRing) (o : Options) (inn a : Address) (coin : Z).

(** The change of the balance of [a] by a list of jobs. *)
Definition jobs_delta (l : list job) : Z := views_delta (concat (j_xfers <$> l)) a coin.

Definition at_ (b : Address) : Z := if decide (a = b /\ coin = 0) then 1 else 0.

Lemma view_delta b amount : delta_of (flow (mkView b 0 amount 0)) a coin = amount * at_ b.
Proof. unfold delta_of, flow, at_. cbn. repeat case_decide; try lia; tauto. Qed.

Lemma jobs_delta_sum l : jobs_delta l = sum_over (fun j => views_delta (j_xfers j) a coin) l.
Proof.
  unfold jobs_delta, views_delta. induction l as [|j l IH]; [done|].
  rewrite sum_cons, <- IH, fmap_cons. cbn [concat]. apply (sum_app (fun v => delta_of (flow v) a coin)).
Qed.

Lemma jobs_delta_app l1 l2 : jobs_delta (l1 ++ l2) = jobs_delta l1 + jobs_delta l2.
Proof. by rewrite !jobs_delta_sum, sum_app. Qed.

Lemma pay_delta b c amount : views_delta (pay_views b c amount) a coin = amount * (at_ c - at_ b).
Proof.
  unfold views_delta, pay_views. rewrite !fmap_cons, !view_delta. unfold zsum. cbn [foldr fmap list_fmap]. ring.
Qed.

Definition holders (x : Z) : Z := sum_over (fun i => at_ (wallet_at keys i)) (indices 0 x).

(** Every wallet pays every other one: nobody has more or less. *)
Lemma circuit_delta x : 0 <= x -> jobs_delta (circuit_jobs keys o x) = 0.
Proof.
  intros Hx. rewrite jobs_delta_sum. unfold circuit_jobs, from_to. rewrite sum_flat_map.
  rewrite (sum_ext _ (fun i => tx_amount o * holders x + (- (tx_amount o * x)) * at_ (wallet_at keys i))).
  { rewrite sum_affine, indices_length by done. fold (holders x). ring. }
  intros i _. rewrite sum_flat_map, sum_filter.
  - rewrite (sum_ext _ (fun j => - (tx_amount o * at_ (wallet_at keys i)) + tx_amount o * at_ (wallet_at keys j))).
    { rewrite sum_affine, indices_length by done. fold (holders x). ring. }
    intros j _. unfold sum_over. cbn -[views_delta Z.mul]. unfold zsum. cbn -[views_delta Z.mul].
    rewrite pay_delta. ring.
  - intros j E. apply negb_false_iff, Z.eqb_eq in E as <-. unfold sum_over, zsum. cbn -[views_delta Z.mul].
    rewrite pay_delta. ring.
Qed.

Lemma back_delta x : 0 <= x -> clear_state o = true ->
  jobs_delta (back_jobs keys o inn x) = (x - 1) * tx_amount o * (x * at_ inn - holders x).
Proof.
  intros Hx C. rewrite jobs_delta_sum. unfold back_jobs. rewrite C, sum_flat_map.
  rewrite (sum_ext _ (fun i => (x - 1) * tx_amount o * at_ inn
                               + (- ((x - 1) * tx_amount o)) * at_ (wallet_at keys i))).
  { rewrite sum_affine, indices_length by done. fold (holders x). ring. }
  intros i _. unfold sum_over, zsum. cbn -[views_delta Z.mul Z.sub]. rewrite pay_delta. ring.
Qed.

Lemma fund_delta x : 0 <= x ->
  jobs_delta [fund_job keys o inn x] = (x - 1) * tx_amount o * (holders x - x * at_ inn).
Proof.
  intros Hx. rewrite jobs_delta_sum, sum_cons. unfold sum_over at 1, zsum at 1. cbn [fmap list_fmap foldr].
  unfold fund_job, views_delta. cbn [j_xfers]. rewrite fmap_cons, view_delta, <- list_fmap_compose.
  change (zsum (?y :: ?l)) with (y + zsum l).
  change (zsum (?f <$> indices 0 x)) with (sum_over f (indices 0 x)).
  rewrite (sum_ext _ (fun i => 0 + (x - 1) * tx_amount o * at_ (wallet_at keys i))).
  { rewrite sum_affine. fold (holders x). ring. }
  intros i _. unfold compose. rewrite view_delta. ring.
Qed.

(** Funding, a pass and the way back: the books are closed. *)
Lemma books_closed x : 0 <= x -> clear_state o = true ->
  jobs_delta (fund_job keys o inn x :: circuit_jobs keys o x ++ back_jobs keys o inn x) = 0.
Proof.
  intros Hx C. change (?j :: ?l) with ([j] ++ l).
  rewrite !jobs_delta_app, fund_delta, circuit_delta, back_delta by done. ring.
Qed.
End books.

(** Repetition of a list, as far as its first copy. *)
Lemma take_repeated {A} (l : list A) fuel : (0 < fuel)%nat -> take (length l) (repeated fuel l) = l.
Proof. intros Hf. destruct fuel; [lia|]. cbn [repeated]. by rewrite take_app_length. Qed.

Lemma singles_length {A B} (f : A -> B) l : length (flat_map (fun x => [f x]) l) = length l.
Proof. induction l as [|x l IH]; [done|]. cbn. by rewrite IH. Qed.

Lemma from_to_length `{Crypto} keys o js x n : (forall i, i ∈ indices 0 x ->
    length (List.filter (fun j => negb (i =? j)) (js i)) = n) ->
  length (from_to keys o js x) = (length (indices 0 x) * n)%nat.
Proof.
  unfold from_to. induction (indices 0 x) as [|i l IH]; intros F; [done|]. cbn [flat_map length].
  rewrite length_app, IH by (intros; apply F; by right). rewrite Nat.mul_succ_l, Nat.add_comm. f_equal.
  rewrite <- (F i) by left. apply singles_length.
Qed.

Lemma others_length x i : 0 <= i < x ->
  length (List.filter (fun j => negb (i =? j)) (indices 0 x)) = (Z.to_nat x - 1)%nat.
Proof.
  intros Hi. unfold indices. rewrite Z.sub_0_r. change (Z.to_nat 0) with 0%nat.
  replace (Z.to_nat x) with (Z.to_nat i + S (Z.to_nat x - Z.to_nat i - 1))%nat by lia.
  rewrite seq_app, fmap_app, List.filter_app, length_app. cbn [seq fmap list_fmap List.filter].
  rewrite Nat.add_0_l, Z2Nat.id, Z.eqb_refl by lia. cbn [negb].
  assert (forall k n : nat, (k + n <= Z.to_nat i \/ Z.to_nat i < k)%nat ->
    length (List.filter (fun j => negb (i =? j)) (Z.of_nat <$> seq k n)) = n) as F.
  { intros k n. revert k. induction n as [|n IH]; intros k Hk; [done|]. cbn [seq fmap list_fmap List.filter].
    rewrite (proj2 (Z.eqb_neq _ _)) by lia. cbn [negb length]. f_equal. apply IH. lia. }
  rewrite (F 0%nat), F by lia. lia.
Qed.

Lemma circuit_jobs_length `{Crypto} keys o x : 0 <= x ->
  length (circuit_jobs keys o x) = (Z.to_nat x * (Z.to_nat x - 1))%nat.
Proof.
  intros Hx. unfold circuit_jobs. rewrite (from_to_length _ _ _ _ (Z.to_nat x - 1)).
  - f_equal. pose proof (indices_length x Hx). unfold zlen in *. lia.
  - intros i Hi. apply others_length. by apply indices_range in Hi.
Qed.

Lemma back_jobs_length `{Crypto} keys o inn x : 0 <= x -> clear_state o = true ->
  length (back_jobs keys o inn x) = Z.to_nat x.
Proof.
  intros Hx C. unfold back_jobs. rewrite C. pose proof (indices_length x Hx) as E. unfold zlen in E.
  rewrite singles_length. lia.
Qed.
