(* ===== verification/Announcer.v ===== *)
(** * announcer.cpp, pb_announcer.cpp and [ThreadPool] of common/util.h

    The announcer reads a directory of transactions or blocks in parallel, gathers
    them in batches, and publishes one message for each; the protobuf announcer
    publishes the transactions of the envelopes it is sent.  Threads are lists of
    calls; what they do together is an interleaving of them, which is enough
    because the only shared object is behind a mutex, apart from a counter for the
    log. *)

From Stdlib Require Import ZArith Lia String.
From stdpp Require Import base list numbers.
From S2P Require Import Prelude OrdMap Converters Keys Buffers Transfer ChainState Summary.
From S2P Require Import Validation KeyRing Context DevvUri Transactions Blocks Message Blockchain.
From S2P Require Import Oracles Pbuf Files.

#[local] Open Scope Z_scope.

(** ** [ThreadPool] *)

(** The calls of a loop from [k1] to [k2]. *)
Definition calls (k1 k2 : Z) : list Z := (fun n => k1 + Z.of_nat n) <$> seq 0 (Z.to_nat (k2 - k1)).

Definition SequentialFor (start end_ : Z) : list Z := calls start end_.

Definition nb_threads (hardware_concurrency n_cpu_factor : Z) : Z :=
  let nb_threads_hint := hardware_concurrency / n_cpu_factor in
  if nb_threads_hint =? 0 then 8 else nb_threads_hint.

(** [std::round(n / (double) nb)] for a non-negative [n]; [std::max] covers the
    others. *)
Definition slice_size (n nb : Z) : Z := Z.max ((2 * n + nb) / (2 * nb)) 1.

(** [for (i = 0; i + 1 < nb_threads && i1 < end; ++i)], and the thread for the
    rest: the pairs with which [launchRange] is called. *)
Fixpoint launch (left : nat) (slice i1 i2 end_ : Z) : list (Z * Z) :=
  match left with
  | S left' =>
      if i1 <? end_ then (i1, i2) :: launch left' slice i2 (Z.min (i2 + slice) end_) end_
      else []
  | O => if i1 <? end_ then [(i1, end_)] else []
  end.

(** The calls of each thread of the pool. *)
Definition ParallelFor (start end_ nb : Z) : list (list Z) :=
  let slice := slice_size (end_ - start + 1) nb in
  (fun r => calls r.1 r.2) <$> launch (Z.to_nat (nb - 1)) slice start (Z.min (start + slice) end_) end_.

(** Threads run together. *)
Inductive interleaving {A} : list (list A) -> list A -> Prop :=
| il_done ts : Forall (fun t => t = []) ts -> interleaving ts []
| il_step ts1 x t ts2 tr : interleaving (ts1 ++ t :: ts2) tr -> interleaving (ts1 ++ (x :: t) :: ts2) (x :: tr).

(** ** The announcer *)

(** The locals of the loop over a file: [batch], [batch_blocks], [last_op] and
    [first_file_tx], and what [ParallelPush] has been called with. *)
Record Batching := mkBatching {
  ba_pushed : list bytes;
  ba_batch : bytes; ba_blocks : Z; ba_last_op : Z; ba_first : bool
}.

Definition batch_start : Batching := mkBatching [] [] 0 99 true.

(** [ParallelPush(...); batch.clear(); batch_blocks = 0;] *)
Definition flush (b : Batching) : Batching :=
  mkBatching (ba_pushed b ++ [ba_batch b]) [] 0 (ba_last_op b) (ba_first b).

(** What happens to a Tier-2 transaction that has been read. *)
Definition add_transaction (batch_size : Z) (distinct_ops : bool) (b : Batching) (tx : Z * bytes) : Batching :=
  let '(oper, tx_canon) := tx in
  let b :=
    if distinct_ops then
      let b := if negb (ba_first b) && negb (oper =? ba_last_op b) then flush b
               else mkBatching (ba_pushed b) (ba_batch b) (ba_blocks b) (ba_last_op b) false in
      mkBatching (ba_pushed b) (ba_batch b) (ba_blocks b) oper (ba_first b)
    else b in
  let b := if batch_size <=? ba_blocks b then flush b else b in
  mkBatching (ba_pushed b) (ba_batch b ++ tx_canon) (u32 (ba_blocks b + 1)) (ba_last_op b) (ba_first b).

Section announcer.
Context `{Crypto} `{FileSystem} (keys : KeyRing) (mode : eAppMode) (batch_size : Z) (distinct_ops : bool).

Definition announce_item (is_block is_transaction : bool) : M (Batching * InputBuffer) unit :=
  s ← get;
  let b := s.1 in
  if is_block && bool_decide (mode = T1) then
    let '(r, buffer) := fb_Create ChainStateOps.empty s.2 in
    put (b, buffer);;
    one_block ← lift r;
    tx ← lift (CreateTier1Transaction one_block keys);
    put (mkBatching (ba_pushed b) (ba_batch b ++ t1_canonical tx) (ba_blocks b) (ba_last_op b) (ba_first b),
         buffer)
  else if is_transaction && negb (bool_decide (mode = T1)) then
    let '(r, buffer) := t2_Create keys true s.2 in
    put (b, buffer);;
    tx ← lift r;
    oper ← lift (t2_getOperation tx);
    put (add_transaction batch_size distinct_ops b (oper, t2_canonical tx), buffer)
  else throw RuntimeError.

Fixpoint announce_loop (is_block is_transaction : bool) (size : Z) (fuel : nat)
    : M (Batching * InputBuffer) unit :=
  s ← get;
  if offset_ s.2 <? size then
    match fuel with
    | O => lift NoFuel
    | S fuel' => announce_item is_block is_transaction;; announce_loop is_block is_transaction size fuel'
    end
  else mret tt.

(** The batches of one file, in the order in which they are pushed. *)
Definition announce_file (now : Z) (fuel : nat) (raw : bytes) : res (list bytes) :=
  if zlen raw <=? 0 then Err AssertionFailure
  else
    is_block ← IsBlockData now raw;
    is_transaction ← IsTxData raw;
    let '(r, s) := announce_loop is_block is_transaction (zlen raw) fuel (batch_start, mkIB raw 0) in
    r;;
    Ok (ba_pushed (flush s.1)).
End announcer.

(** The index of a message for the log: [processed + 11000000]. *)
Definition DEBUG_TRANSACTION_INDEX (processed : Z) : Z := u32 (processed + 11000000).

(** The loop that announces [transactions]. *)
Fixpoint announcements (context : DevcashContext) (processed : Z) (transactions : list bytes)
    : list DevcashMessage :=
  match transactions with
  | [] => []
  | batch :: rest =>
      mkMessage (ContextOps.get_uri context) eMessageType.TRANSACTION_ANNOUNCEMENT batch
        (DEBUG_TRANSACTION_INDEX processed)
      :: announcements context (u32 (processed + 1)) rest
  end.

(** ** The protobuf announcer *)

(** What [catch (std::runtime_error&)] catches. *)
Definition is_runtime_error (e : exn) : bool :=
  match e with
  | RuntimeError | RangeError | DevcashMessageError | DeserializationError => true
  | _ => false
  end.

(** One envelope: the messages queued and the reply; the texts of exceptions are
    [what].  Another exception leaves the loop and ends the program. *)
Definition pb_announce `{Crypto} `{ProtoParser} (what : exn -> bytes) (context : DevcashContext)
    (keys : KeyRing) (tx_string : bytes) : res (list DevcashMessage * bytes) :=
  match Pbuf.DeserializeEnvelopeProtobufString tx_string keys with
  | Ok ptrs =>
      Ok (announcements context 0 (tx_getCanonical <$> ptrs),
          text "Successfully published " ++ to_string (zlen ptrs) ++ text " transactions.")
  | Err e => if is_runtime_error e then Ok ([], text "Deserialization error: " ++ what e) else Err e
  | UB => UB
  | NoFuel => NoFuel
  end.

(** ** The slices cover the range *)
Lemma calls_app a b c : a <= b <= c -> calls a b ++ calls b c = calls a c.
Proof.
  intros Hr. unfold calls. replace (Z.to_nat (c - a)) with (Z.to_nat (b - a) + Z.to_nat (c - b))%nat by lia.
  rewrite seq_app, fmap_app. f_equal.
  rewrite Nat.add_comm, <- fmap_add_seq, <- list_fmap_compose.
  apply list_fmap_ext. intros i n _. unfold compose. lia.
Qed.

Lemma calls_nil a b : b <= a -> calls a b = [].
Proof. intros Hr. unfold calls. by replace (Z.to_nat (b - a)) with 0%nat by lia. Qed.

Lemma launch_covers left slice end_ : forall i1 i2, 1 <= slice -> i1 <= i2 <= end_ -> (i1 < end_ -> i1 < i2) ->
  concat ((fun r => calls r.1 r.2) <$> launch left slice i1 i2 end_) = calls i1 end_ /\
  Forall (fun r => r.1 < r.2) (launch left slice i1 i2 end_) /\
  (length (launch left slice i1 i2 end_) <= S left)%nat.
Proof.
  induction left as [|left IH]; intros i1 i2 Hs Hr Hp; cbn [launch]; destruct (i1 <? end_) eqn:E; bool_to_prop.
  - cbn. rewrite app_nil_r. split; [done|]. split; [by repeat constructor | lia].
  - rewrite calls_nil by lia. split; [done|]. split; [done | cbn; lia].
  - destruct (IH i2 (Z.min (i2 + slice) end_)) as (C & F & L); [lia | lia | lia|].
    rewrite fmap_cons. cbn [concat fst snd length]. rewrite C, calls_app by lia.
    split; [done|]. split; [constructor; [cbn; lia | done] | lia].
  - rewrite calls_nil by lia. split; [done|]. split; [done | cbn; lia].
Qed.

Lemma parallel_covers start end_ nb : 1 <= nb -> start <= end_ ->
  concat (ParallelFor start end_ nb) = SequentialFor start end_ /\
  Forall (fun t => t <> []) (ParallelFor start end_ nb) /\ zlen (ParallelFor start end_ nb) <= nb.
Proof.
  intros Hn Hr. unfold ParallelFor, SequentialFor.
  set (slice := slice_size _ nb). assert (1 <= slice) by apply Z.le_max_r.
  destruct (launch_covers (Z.to_nat (nb - 1)) slice end_ start (Z.min (start + slice) end_)) as (C & F & L);
    [done | lia | lia|].
  split; [done|]. split.
  - apply Forall_fmap. eapply List.Forall_impl; [|exact F]. intros [k1 k2] Hk. cbn in Hk |- *.
    unfold calls. by destruct (Z.to_nat (k2 - k1)) eqn:En; [lia|].
  - unfold zlen. rewrite length_fmap. lia.
Qed.

(** All that the threads compute stays within an [int]. *)
Lemma slice_fits n nb : 1 <= nb -> 1 <= n -> 1 <= slice_size n nb <= n.
Proof.
  intros Hb Hn. unfold slice_size. split; [apply Z.le_max_r|]. apply Z.max_lub; [|lia].
  assert (n <= nb * n) by nia. apply Z.lt_succ_r, Z.div_lt_upper_bound; lia.
Qed.

Lemma interleaving_perm {A} (ts : list (list A)) tr : interleaving ts tr -> tr ≡ₚ concat ts.
Proof.
  induction 1 as [ts F|ts1 x t ts2 tr _ IH].
  - by induction F as [|t ts -> _ IH].
  - rewrite IH, !concat_app. cbn [concat app]. apply Permutation_middle.
Qed.

(** ** The batches of a file *)
Section batches.
Context (batch_size : Z) (distinct_ops : bool).

Definition bodies (g : list (Z * bytes)) : bytes := concat g.*2.

(** What a batch may hold. *)
Definition group_ok (g : list (Z * bytes)) : Prop :=
  (1 <= batch_size -> zlen g <= batch_size) /\
  (distinct_ops = true -> exists oper, Forall (fun tx => tx.1 = oper) g).

(** The transactions so far: those of the batches pushed, and the current ones. *)
Definition grouped (gs : list (list (Z * bytes))) (cur l : list (Z * bytes)) (b : Batching) : Prop :=
  concat gs ++ cur = l /\ ba_pushed b = bodies <$> gs /\ ba_batch b = bodies cur /\
  ba_blocks b = zlen cur /\ Forall group_ok gs /\ group_ok cur.

Definition opers_ok (cur : list (Z * bytes)) (b : Batching) : Prop :=
  distinct_ops = true -> (ba_first b = true -> cur = []) /\ Forall (fun tx => tx.1 = ba_last_op b) cur.

Lemma group_nil : group_ok [].
Proof. split; [unfold zlen; cbn; lia|]. intros _. by exists 0. Qed.

Lemma grouped_start : grouped [] [] [] batch_start.
Proof. split; [done|]. split; [done|]. split; [done|]. split; [done|]. split; [done | apply group_nil]. Qed.

Lemma grouped_flush gs cur l b : grouped gs cur l b -> grouped (gs ++ [cur]) [] l (flush b).
Proof.
  intros (E & P & B & N & F & G). unfold grouped.
  rewrite concat_app, fmap_app. cbn [concat flush ba_pushed ba_batch ba_blocks]. rewrite !app_nil_r, P, B.
  split; [done|]. split; [done|]. split; [done|]. split; [done|].
  split; [by apply Forall_app_2; [|constructor] | apply group_nil].
Qed.

(** A new operation starts a new batch. *)
Lemma grouped_oper gs cur l b oper : grouped gs cur l b -> opers_ok cur b -> distinct_ops = true ->
  let b' := if negb (ba_first b) && negb (oper =? ba_last_op b) then flush b
            else mkBatching (ba_pushed b) (ba_batch b) (ba_blocks b) (ba_last_op b) false in
  exists gs' cur',
    grouped gs' cur' l (mkBatching (ba_pushed b') (ba_batch b') (ba_blocks b') oper (ba_first b')) /\
    Forall (fun tx => tx.1 = oper) cur'.
Proof.
  intros Hg Ho D. destruct (Ho D) as [O1 O2].
  destruct (negb (ba_first b) && negb (oper =? ba_last_op b)) eqn:C; cbn zeta.
  - exists (gs ++ [cur]), []. split; [|constructor]. by apply grouped_flush in Hg.
  - exists gs, cur. split; [done|]. apply andb_false_iff in C as [C|C]; apply negb_false_iff in C.
    + by rewrite O1.
    + apply Z.eqb_eq in C as ->. done.
Qed.

(** One more, after a flush when the batch is full. *)
Lemma grouped_add gs cur l b oper canon : grouped gs cur l b ->
  (distinct_ops = true -> Forall (fun tx => tx.1 = oper) cur) -> zlen l < 2 ^ 31 ->
  let b' := if batch_size <=? ba_blocks b then flush b else b in
  exists gs' cur',
    grouped gs' (cur' ++ [(oper, canon)]) (l ++ [(oper, canon)])
      (mkBatching (ba_pushed b') (ba_batch b' ++ canon) (u32 (ba_blocks b' + 1)) (ba_last_op b') (ba_first b')) /\
    (distinct_ops = true -> Forall (fun tx => tx.1 = oper) (cur' ++ [(oper, canon)])).
Proof.
  intros Hg Ho Hl b'.
  assert (exists gs' cur', grouped gs' cur' l b' /\ (1 <= batch_size -> zlen cur' < batch_size) /\
    (distinct_ops = true -> Forall (fun tx => tx.1 = oper) cur')) as (gs' & cur' & G & R & O).
  { unfold b'. pose proof Hg as (_ & _ & _ & N & _). destruct (batch_size <=? ba_blocks b) eqn:C; bool_to_prop.
    - exists (gs ++ [cur]), []. split; [by apply grouped_flush|]. split; [unfold zlen; cbn; lia | constructor].
    - exists gs, cur. split; [done|]. split; [lia | done]. }
  exists gs', cur'. assert (distinct_ops = true -> Forall (fun tx => tx.1 = oper) (cur' ++ [(oper, canon)])) as O'
    by (intros D; apply Forall_app_2; [by apply O | by repeat constructor]).
  split; [|done]. destruct G as (E & P & B & N & F & G1 & G2). pose proof (zlen_nonneg cur').
  assert (zlen cur' <= zlen l) as Hc.
  { rewrite <- E, (zlen_app (concat gs') cur'). pose proof (zlen_nonneg (concat gs')). lia. }
  assert (zlen (cur' ++ [(oper, canon)]) = zlen cur' + 1) as Z1 by (unfold zlen; rewrite length_app; cbn; lia).
  unfold grouped. cbn [ba_pushed ba_batch ba_blocks]. rewrite Z1, N, P, B.
  split; [by rewrite app_assoc, E|]. split; [done|].
  split; [unfold bodies; rewrite fmap_app, concat_app; cbn; by rewrite app_nil_r|].
  split; [unfold u32, u32_mod; rewrite Z.mod_small; lia|]. split; [done|].
  split; [lia|]. intros D. exists oper. by apply O'.
Qed.

Lemma add_grouped gs cur l b tx : grouped gs cur l b -> opers_ok cur b -> zlen l < 2 ^ 31 ->
  exists gs' cur', grouped gs' cur' (l ++ [tx]) (add_transaction batch_size distinct_ops b tx) /\
    opers_ok cur' (add_transaction batch_size distinct_ops b tx).
Proof.
  intros Hg Ho Hl. destruct tx as [oper canon].
  set (b1 := if distinct_ops then
      let b := if negb (ba_first b) && negb (oper =? ba_last_op b) then flush b
               else mkBatching (ba_pushed b) (ba_batch b) (ba_blocks b) (ba_last_op b) false in
      mkBatching (ba_pushed b) (ba_batch b) (ba_blocks b) oper (ba_first b)
    else b).
  assert (exists gs1 cur1, grouped gs1 cur1 l b1 /\
    (distinct_ops = true -> Forall (fun tx => tx.1 = oper) cur1 /\ ba_last_op b1 = oper /\ ba_first b1 = false))
    as (gs1 & cur1 & G1 & O1).
  { unfold b1. destruct (bool_dec distinct_ops true) as [D|D].
    - destruct (grouped_oper gs cur l b oper Hg Ho D) as (gs1 & cur1 & G1 & F1). exists gs1, cur1.
      rewrite D at 2 3 4. split; [by rewrite D|]. intros _. split; [done|]. split; [done|].
      by destruct (ba_first b) eqn:Eb, (oper =? ba_last_op b); cbn; rewrite ?Eb.
    - exists gs, cur. apply not_true_is_false in D. split; [by rewrite D | by rewrite D at 1]. }
  destruct (grouped_add gs1 cur1 l b1 oper canon G1 (fun D => proj1 (O1 D)) Hl) as (gs' & cur' & G' & O').
  exists gs', (cur' ++ [(oper, canon)]). split; [exact G'|]. intros D. destruct (O1 D) as (_ & L1 & F1).
  unfold add_transaction. fold b1. cbn [ba_first ba_last_op].
  assert (forall c : bool, ba_first (if c then flush b1 else b1) = false /\
    ba_last_op (if c then flush b1 else b1) = oper) as I by (by intros []).
  destruct (I (batch_size <=? ba_blocks b1)) as [-> ->]. split; [done | by apply O'].
Qed.

Lemma fold_grouped rest : forall gs cur l b,
  grouped gs cur l b -> opers_ok cur b -> zlen (l ++ rest) < 2 ^ 31 ->
  exists gs' cur', grouped gs' cur' (l ++ rest) (foldl (add_transaction batch_size distinct_ops) b rest).
Proof.
  induction rest as [|tx rest IH]; intros gs cur l b Hg Ho Hl; cbn [foldl].
  { exists gs, cur. by rewrite app_nil_r. }
  assert (zlen (l ++ tx :: rest) = zlen l + 1 + zlen rest) as Ez
    by (unfold zlen; rewrite length_app; cbn; lia). pose proof (zlen_nonneg rest).
  destruct (add_grouped gs cur l b tx Hg Ho) as (gs1 & cur1 & G1 & O1); [lia|].
  rewrite cons_middle, app_assoc. apply (IH gs1 cur1); [done | done|].
  by rewrite <- app_assoc, <- cons_middle.
Qed.

(** All the batches of a file. *)
Definition file_batches (l : list (Z * bytes)) : list bytes :=
  ba_pushed (flush (foldl (add_transaction batch_size distinct_ops) batch_start l)).

Lemma batches_grouped l : zlen l < 2 ^ 31 ->
  exists gs, file_batches l = bodies <$> gs /\ concat gs = l /\ Forall group_ok gs.
Proof.
  intros Hl. destruct (fold_grouped l [] [] [] batch_start) as (gs & cur & G);
    [apply grouped_start | by intros _ | done|].
  apply grouped_flush in G as (E & P & _ & _ & F & _). rewrite app_nil_r in E. eauto.
Qed.
End batches.

(** No batch size: every transaction is alone, behind an empty batch. *)
Lemma default_batches l : l <> [] -> file_batches 0 false l = [] :: l.*2.
Proof.
  intros N. unfold file_batches.
  assert (forall rest b, 0 <= ba_blocks b -> rest <> [] ->
    ba_pushed (flush (foldl (add_transaction 0 false) b rest)) = ba_pushed b ++ [ba_batch b] ++ rest.*2) as F.
  { induction rest as [|[oper canon] rest IH]; intros b Hb Hr; [done|]. cbn [foldl].
    assert (add_transaction 0 false b (oper, canon) =
      mkBatching (ba_pushed b ++ [ba_batch b]) canon 1 (ba_last_op b) (ba_first b)) as ->
      by (unfold add_transaction; by rewrite (proj2 (Z.leb_le _ _))).
    destruct rest as [|tx rest]; [cbn; by rewrite <- app_assoc|].
    rewrite IH by done. cbn [ba_pushed ba_batch]. by rewrite <- app_assoc, !fmap_cons. }
  by rewrite F.
Qed.

(** ** The reply to an empty proposal *)
Lemma empty_data_throws `{Crypto} size chain :
  Pbuf.DecomposeProposal (Proto.mkProposal (text "io.devv.data") size []) chain = Err OutOfRange.
Proof. done. Qed.

(** ** A file of Tier-2 transactions

    [Fill] is [QuickFill] and the check of what it read. *)
Lemma t2_Fill_quick `{Crypto} tx keys flag b : t2_Fill tx keys flag b =
  (tx' ← t2_QuickFill tx;
   if (flag : bool) then ok ← lift (t2_isSound tx' keys); mret (t2_set_sound tx' ok)
   else mret tx') b.
Proof.
  unfold t2_Fill, t2_QuickFill. change kOPERATION_OFFSET with 16.
  unfold mbind, M_bind. repeat (case_match; try done; simplify_eq).
Qed.

Lemma create_undefined `{Crypto} c rest keys a k :
  t2c_readable c -> sound_content (c_oper c) (c_xfers c) a -> getKey keys a = Ok k ->
  SignatureOps.size (c_sig c) =
    (if c_oper c =? eOpType.Exchange then kWALLET_SIG_BUF_SIZE else kNODE_SIG_BUF_SIZE) ->
  zlen (t2c_bytes c ++ rest) < 2 ^ 63 ->
  fst (t2_Create keys true (mkIB (t2c_bytes c ++ rest) 0)) = UB.
Proof.
  intros (W & Hs & Hn & Ho & Hl) C Hk Hz Hr. unfold t2_Create. rewrite t2_Fill_quick.
  pose proof (t2_QuickCreate_run (c_oper c) (c_xfers c) (c_nonce c) (c_sig c) Hs Hn Ho [] rest Hr) as E.
  rewrite app_nil_l, zlen_nil in E. unfold t2_QuickCreate in E. unfold t2c_bytes.
  rewrite (bind_ok _ _ _ _ _ E), cut_tx_eq by done.
  by rewrite (cut_tx_isSound (c_oper c) (c_xfers c) (c_nonce c) (c_sig c) Hs Hn Ho Hl keys a k).
Qed.

Lemma vec_at_in {A} (v : list A) i : 0 <= i < zlen v -> exists x, vec_at v i = Ok x.
Proof.
  intros Hi. unfold vec_at. rewrite (proj2 (Z.leb_le _ _)), (proj2 (Z.ltb_lt _ _)) by lia. cbn [andb].
  destruct (v !! Z.to_nat i) eqn:E; [by eauto|]. apply lookup_ge_None in E. unfold zlen in Hi. lia.
Qed.

Lemma BinToUint64_in v start : 0 <= start -> start + 8 <= zlen v < 2 ^ 63 -> exists x, BinToUint64 v start = Ok x.
Proof.
  intros Hs Hv.
  assert (forall s, 0 <= s -> s + 4 <= zlen v -> exists x, BinToUint32 v s = Ok x) as R.
  { intros s H0 H4. unfold BinToUint32. generalize 0 at 1 as d.
    assert (Forall (fun i => 0 <= i < 4) [0; 1; 2; 3]) as F by (repeat constructor; lia). revert F.
    generalize [0; 1; 2; 3] as idx. induction idx as [|i idx IH]; intros F d; [by eexists|].
    inversion F as [|? ? Hi F']; subst. cbn [bin_or]. rewrite u64_id by (unfold in_u64, u64_mod; lia).
    destruct (vec_at_in v (s + i)) as (x & ->); [lia|]. by apply IH. }
  unfold BinToUint64. destruct (R start) as (x & ->); [lia | lia|]. cbn [mbind res_bind].
  rewrite u64_id by (unfold in_u64, u64_mod, kBYTES_PER_INT; lia).
  destruct (R (start + kBYTES_PER_INT)) as (y & ->); [unfold kBYTES_PER_INT; lia.. |]. by eexists.
Qed.

Lemma IsBlockData_total now raw : zlen raw < 2 ^ 63 -> exists b, IsBlockData now raw = Ok b.
Proof.
  intros Hl. unfold IsBlockData. destruct (zlen raw <? fb_MinSize) eqn:S; [by eexists|].
  unfold fb_MinSize in S. bool_to_prop. destruct raw as [|v raw]; [by change (zlen []) with 0 in S|].
  change (vec_idx (v :: raw) 0) with (Ok v : res Z). cbn [mbind res_bind].
  destruct (negb (v =? 0)); [by eexists|].
  destruct (BinToUint64_in (v :: raw) 9) as (x & ->); [lia | lia|]. cbn [mbind res_bind].
  repeat case_match; by eexists.
Qed.

Lemma tx_file_recognised c rest : t2c_readable c -> zlen (t2c_bytes c ++ rest) < 2 ^ 63 ->
  IsTxData (t2c_bytes c ++ rest) = Ok true /\ 91 <= zlen (t2c_bytes c ++ rest).
Proof.
  intros (W & Hs & Hn & Ho & _) Hl. pose proof (zlen_nonneg rest) as Hr.
  pose proof (zlen_nonneg (xfers_canonical (c_xfers c))) as Hx.
  assert (zlen (t2c_bytes c) = 17 + zlen (xfers_canonical (c_xfers c)) + zlen (c_nonce c)
    + zlen (s_canonical (c_sig c))) as L
    by (unfold t2c_bytes; rewrite (zlen_app (t2_body _ _ _)), t2_body_length; lia).
  assert (74 <= zlen (s_canonical (c_sig c))) as Lg.
  { apply sig_wf_parts in Hs as (t & raw & -> & Lr & Ht). rewrite zlen_cons, Lr. unfold_sizes. lia. }
  unfold kMIN_NONCE_SIZE in Hn. rewrite zlen_app in Hl.
  assert (91 + zlen (xfers_canonical (c_xfers c)) <= zlen (t2c_bytes c ++ rest)) as Lb by (rewrite zlen_app; lia).
  split; [|lia]. unfold IsTxData, kTX_MIN_SIZE. unfold_sizes. rewrite (proj2 (Z.ltb_ge _ _)) by lia.
  set (raw := t2c_bytes c ++ rest) in *.
  assert (raw = [] ++ Uint64ToBin (zlen (xfers_canonical (c_xfers c))) [] ++ Uint64ToBin (zlen (c_nonce c)) [] ++
    c_oper c :: xfers_canonical (c_xfers c) ++ c_nonce c ++ s_canonical (c_sig c) ++ rest) as E
    by (unfold raw, t2c_bytes, t2_body; rewrite <- !app_assoc; done).
  assert (BinToUint64 raw 0 = Ok (zlen (xfers_canonical (c_xfers c)))) as ->.
  { assert (zlen raw < 2 ^ 63) as Lr by (unfold raw; rewrite zlen_app; lia). rewrite E in Lr |- *.
    apply (BinToUint64_window []); [unfold in_u64, u64_mod; lia | done]. }
  cbn [mbind res_bind]. cbv zeta. rewrite u64_id by (unfold in_u64, u64_mod; lia).
  rewrite (proj2 (Z.ltb_ge _ _)) by lia.
  assert (vec_idx raw 16 = Ok (c_oper c)) as ->
    by (unfold vec_idx; rewrite (proj2 (Z.ltb_lt 16 _)) by lia; rewrite E; done).
  cbn [mbind res_bind]. unfold eOpType.NumOperations in Ho. by rewrite (proj2 (Z.leb_gt _ _)) by lia.
Qed.

(** So the announcer cannot read what the generators wrote. *)
Lemma announce_undefined `{Crypto} keys mode batch_size distinct_ops now fuel c rest a k :
  mode <> T1 -> t2c_readable c -> sound_content (c_oper c) (c_xfers c) a -> getKey keys a = Ok k ->
  SignatureOps.size (c_sig c) =
    (if c_oper c =? eOpType.Exchange then kWALLET_SIG_BUF_SIZE else kNODE_SIG_BUF_SIZE) ->
  zlen (t2c_bytes c ++ rest) < 2 ^ 63 ->
  announce_file keys mode batch_size distinct_ops now (S fuel) (t2c_bytes c ++ rest) = UB.
Proof.
  intros Hm R C Hk Hz Hl. destruct (tx_file_recognised c rest R Hl) as [T L].
  destruct (IsBlockData_total now _ Hl) as (ib & B).
  pose proof (create_undefined c rest keys a k R C Hk Hz Hl) as U.
  assert (announce_item keys mode batch_size distinct_ops ib true (batch_start, mkIB (t2c_bytes c ++ rest) 0) =
    (UB, (batch_start, snd (t2_Create keys true (mkIB (t2c_bytes c ++ rest) 0))))) as E.
  { unfold announce_item. rewrite bind_get, bool_decide_false, andb_false_r by done. cbn [negb andb fst snd].
    destruct (t2_Create _ _ _) as [r buffer]. cbn in U. by subst r. }
  unfold announce_file. rewrite (proj2 (Z.leb_gt _ _)), B, T by lia. cbn [mbind res_bind announce_loop].
  unfold mbind at 1, M_bind at 1, get. cbn [snd offset_]. rewrite (proj2 (Z.ltb_lt _ _)) by lia.
  unfold mbind at 1, M_bind at 1. by rewrite E.
Qed.

(** ** A file of blocks, announced by a Tier-1 node *)
Section blocks.
Context `{Crypto} (keys : KeyRing) (batch_size : Z) (distinct_ops is_tx : bool).

Definition with_batch (b : Batching) (v : bytes) : Batching :=
  mkBatching (ba_pushed b) v (ba_blocks b) (ba_last_op b) (ba_first b).

Definition announced (bs : list FinalBlock) (txs : list Tier1Transaction) : Prop :=
  Forall2 (fun b tx => fb_wf b /\ Forall raw_ok (fb_raw_transactions b) /\
    CreateTier1Transaction b keys = Ok tx) bs txs.

Lemma announce_blocks bs txs : announced bs txs -> forall pre b fuel,
  zlen (pre ++ concat (fb_getCanonical <$> bs)) < 2 ^ 63 -> (length bs <= fuel)%nat ->
  let raw := pre ++ concat (fb_getCanonical <$> bs) in
  announce_loop keys T1 batch_size distinct_ops true is_tx (zlen raw) fuel (b, mkIB raw (zlen pre)) =
    (Ok tt, (with_batch b (ba_batch b ++ concat (t1_canonical <$> txs)), mkIB raw (zlen raw))).
Proof.
  induction 1 as [|blk tx bs txs (W & R & T) _ IH]; intros pre b fuel Hl Hf raw.
  - subst raw. cbn [fmap list_fmap concat]. rewrite !app_nil_r.
    destruct fuel; cbn [announce_loop]; rewrite bind_get; cbn [snd offset_];
      rewrite (proj2 (Z.ltb_ge _ _)) by lia; by destruct b.
  - destruct fuel as [|fuel]; [cbn in Hf; lia|].
    assert (101 <= zlen (fb_getCanonical blk)) as Hb by (by apply fb_canonical_min).
    assert (raw = pre ++ fb_getCanonical blk ++ concat (fb_getCanonical <$> bs)) as Er by done.
    pose proof (zlen_nonneg (concat (fb_getCanonical <$> bs))) as Hc. pose proof (zlen_nonneg pre).
    assert (zlen raw = zlen pre + zlen (fb_getCanonical blk) + zlen (concat (fb_getCanonical <$> bs))) as Ez
      by (rewrite Er, (zlen_app pre), (zlen_app (fb_getCanonical blk)); lia).
    pose proof (parses_fb_Create blk ChainStateOps.empty W R) as Ep. unfold parses in Ep.
    assert (zlen (pre ++ fb_getCanonical blk ++ concat (fb_getCanonical <$> bs)) < 2 ^ 63) as Hl2 by exact Hl.
    specialize (Ep pre _ Hl2). rewrite <- Er in Ep.
    assert (announce_item keys T1 batch_size distinct_ops true is_tx (b, mkIB raw (zlen pre)) =
      (Ok tt, (with_batch b (ba_batch b ++ t1_canonical tx), mkIB raw (zlen pre + zlen (fb_getCanonical blk)))))
      as Ei.
    { unfold announce_item. rewrite bind_get, bool_decide_true by done. cbn [andb fst snd].
      rewrite Ep, bind_put, bind_lift. change (CreateTier1Transaction (fb_raw blk _) keys) with
        (CreateTier1Transaction blk keys). by rewrite T, bind_lift. }
    cbn [announce_loop]. rewrite bind_get. cbn [snd offset_]. rewrite (proj2 (Z.ltb_lt _ _)) by lia.
    rewrite (bind_ok _ _ _ _ _ Ei).
    specialize (IH (pre ++ fb_getCanonical blk) (with_batch b (ba_batch b ++ t1_canonical tx)) fuel).
    cbv zeta in IH. rewrite <- !app_assoc, <- Er, (zlen_app pre (fb_getCanonical blk)) in IH.
    rewrite IH; [|done | cbn in Hf; lia]. cbn [with_batch ba_batch ba_pushed ba_blocks ba_last_op ba_first fmap list_fmap concat].
    unfold with_batch. cbn [ba_batch ba_pushed ba_blocks ba_last_op ba_first]. by rewrite <- app_assoc.
Qed.
End blocks.
