(* ===== verification/Handlers.v ===== *)
(** * consensus/tier2_message_handlers.{h,cpp} and the three controllers
    (concurrency/ConsensusController.cpp, InternetworkController.cpp,
    ValidatorController.cpp)

    A node's state is its chain, its pool, the number of remote blocks it has
    seen and the messages it has sent; a handler is one step of it.  Each
    controller takes a mutex of its own around its callback and hands a message
    to the handler of its type. *)

From Stdlib Require Import ZArith Lia.
From stdpp Require Import base list numbers.
From S2P Require Import Prelude OrdMap Converters Keys Buffers Transfer ChainState Summary.
From S2P Require Import Validation KeyRing Context Transactions Blocks Message Blockchain Pool.

Section handlers.
Context `{Crypto}.

Record Node := mkNode {
  n_chain : Blockchain;
  n_pool : Pool;
  n_remote_blocks : Z;
  n_sent : list DevcashMessage
}.

(** Calls of the pool's methods, updates of the chain, and the callback. *)
Definition on_pool {A} (m : M Pool A) : M Node A := fun n =>
  let '(r, p) := m (n_pool n) in (r, mkNode (n_chain n) p (n_remote_blocks n) (n_sent n)).

Definition push_block (b : FinalBlock) : M Node unit := fun n =>
  (Ok tt, mkNode (bc_push_back (n_chain n) b) (n_pool n) (n_remote_blocks n) (n_sent n)).

Definition callback (m : DevcashMessage) : M Node unit := fun n =>
  (Ok tt, mkNode (n_chain n) (n_pool n) (n_remote_blocks n) (n_sent n ++ [m])).

Definition set_remote_blocks (h : Z) : M Node unit := fun n =>
  (Ok tt, mkNode (n_chain n) (n_pool n) h (n_sent n)).

Definition final_chain : M Node Blockchain := fun n => (Ok (n_chain n), n).

(** "Genesis" *)
Definition genesis : bytes := [71; 101; 110; 101; 115; 105; 115].

Definition CreateNextProposal (keys : KeyRing) (context : DevcashContext) : M Node bytes :=
  chain ← final_chain;
  let block_height := bc_size chain in
  hp ← on_pool HasProposal;
  pending ← (if (hp : bool) then mret false else on_pool HasPendingTransactions);
  (if (pending : bool) then
     if 0 <? block_height then
       b ← lift (bc_back chain);
       let prev_hash := DevcashHash (fb_getCanonical b) in
       prior ← lift (bc_getHighestChainState chain);
       on_pool (ProposeBlock prev_hash prior keys context);;
       mret tt
     else
       on_pool (ProposeBlock (DevcashHash genesis) ChainStateOps.empty keys context);;
       mret tt
   else mret tt);;
  on_pool getProposal.

(** [((block_height + 1) + (context.get_current_node() + 1) * 1000000)] as the
    message's 32-bit index. *)
Definition proposal_index (block_height : Z) (context : DevcashContext) : Z :=
  u32 (block_height + 1 + u32 ((ContextOps.get_current_node context + 1) * 1000000)).

(** [block_height % peers == node % peers] *)
Definition my_turn (block_height : Z) (context : DevcashContext) : bool :=
  block_height mod ContextOps.get_peer_count context
    =? ContextOps.get_current_node context mod ContextOps.get_peer_count context.

(** Propose and send, when there is no proposal yet. *)
Definition propose_if_idle (block_height : Z) (keys : KeyRing) (context : DevcashContext)
    : M Node bool :=
  hp ← on_pool HasProposal;
  if (hp : bool) then mret false
  else
    proposal ← CreateNextProposal keys context;
    if isNullProposal proposal then mret false
    else
      callback (mkMessage (ContextOps.get_shard_uri context) eMessageType.PROPOSAL_BLOCK proposal
                  (proposal_index block_height context));;
      mret true.

Definition HandleFinalBlock (msg : DevcashMessage) (context : DevcashContext) (keys : KeyRing)
    : M Node bool :=
  chain ← final_chain;
  prior ← lift (bc_getHighestChainState chain);
  top_block ← on_pool (FinalizeRemoteBlock prior keys (mkIB (m_data msg) 0));
  push_block top_block;;
  hp ← on_pool HasProposal;
  (if (hp : bool) then
     on_pool (ReverifyProposal (DevcashHash (fb_getCanonical top_block))
                (fb_block_state top_block) keys context);;
     mret tt
   else mret tt);;
  chain ← final_chain;
  let block_height := bc_size chain in
  pending ← on_pool HasPendingTransactions;
  if negb pending then mret false
  else if my_turn block_height context then propose_if_idle block_height keys context
  else mret false.

Definition HandleProposalBlock (msg : DevcashMessage) (context : DevcashContext) (keys : KeyRing)
    : M Node bool :=
  n ← get;
  prior ← lift (bc_getHighestChainState (n_chain n));
  to_validate ← lift (fst (pb_from_buffer prior keys (mode_ (n_pool n)) (mkIB (m_data msg) 0)));
  valid ← lift (pb_validate to_validate keys);
  if negb valid then mret false
  else
    signed ← lift (pb_signBlock to_validate keys context);
    if negb signed.1 then mret false
    else
      let validation := pb_getValidationData signed.2 in
      callback (mkMessage (ContextOps.get_shard_uri context) eMessageType.VALID validation
                  (m_index msg));;
      mret true.

Definition HandleValidationBlock (now : Z) (msg : DevcashMessage) (context : DevcashContext)
    : M Node bool :=
  ready ← on_pool (CheckValidation context (mkIB (m_data msg) 0));
  if (ready : bool) then
    top_block ← on_pool (FinalizeLocalBlock now);
    push_block top_block;;
    let final_msg := fb_getCanonical top_block in
    callback (mkMessage (ContextOps.get_shard_uri context) eMessageType.FINAL_BLOCK final_msg
                (m_index msg));;
    mret true
  else mret false.

(** One block of the request's answer: the tier 1 transaction of a tier 2
    block. *)
Definition since_step (keys : KeyRing) (tier1_data : bytes) : P bytes :=
  one_block ← fb_Create ChainStateOps.empty;
  let sum := SummaryOps.Copy (fb_summary one_block) in
  pair ← lift (ValidationOps.getFirstValidation (fb_vals one_block));
  tx ← lift (t1_ctor_summary sum pair.2 pair.1 keys);
  mret (tier1_data ++ t1_canonical tx).

Definition HandleBlocksSinceRequest (msg : DevcashMessage) (context : DevcashContext)
    (keys : KeyRing) : M Node bool :=
  if zlen (m_data msg) <? 16 then mret false
  else
    height ← lift (BinToUint32 (m_data msg) 0);
    node ← lift (BinToUint32 (m_data msg) 8);
    chain ← final_chain;
    raw ← lift (bc_PartialBinaryDump chain height);
    match ContextOps.get_app_mode context with
    | T2 =>
        tier1_data ← lift (fst (offset_fold (since_step keys) (zlen raw) [] (mkIB raw 0)));
        callback (mkMessage (ContextOps.get_uri_from_index context node)
                    eMessageType.TRANSACTION_ANNOUNCEMENT tier1_data (m_index msg));;
        mret true
    | T1 =>
        let covered_height := u64 (bc_size chain - 1) in
        let raw := Uint64ToBin covered_height [] ++ raw in
        callback (mkMessage (ContextOps.get_uri_from_index context node)
                    eMessageType.BLOCKS_SINCE raw (m_index msg));;
        mret true
    | scan => mret false
    end.

(** The loop of [HandleBlocksSince] over the coins of the designated wallets;
    [state] is a local copy, and the clock is read once per block. *)
Definition add_coins (state : ChainState) (coins : list SmartCoin) : res ChainState :=
  fold_res (fun st c => r ← ChainStateOps.addCoin st c; Ok r.2) state coins.

Definition blocks_since_step (clock : nat -> Z) (wallets : list Address)
    (acc : nat * ChainState) : P (nat * ChainState) :=
  one_block ← fb_Create acc.2;
  let elapsed := u64 (clock acc.1 - fb_block_time one_block) in
  let sum := SummaryOps.Copy (fb_summary one_block) in
  state ← lift (fold_res (fun st addr => add_coins st (SummaryOps.getCoinsByAddr sum addr elapsed))
                  acc.2 wallets);
  mret (S acc.1, state).

Definition HandleBlocksSince (clock : nat -> Z) (msg : DevcashMessage) (context : DevcashContext)
    (keys : KeyRing) : M Node bool :=
  let b := mkIB (m_data msg) 0 in
  if zlen (m_data msg) <? 8 then mret false
  else
    let '(r, b1) := Buf.getNextUint64 true b in
    height ← lift r;
    match ContextOps.get_app_mode context with
    | T2 =>
        wallets ← lift (getDesignatedWallets keys (i32 (ContextOps.get_current_shard context)));
        chain ← final_chain;
        state ← lift (bc_getHighestChainState chain);
        _ ← lift (fst (offset_fold (blocks_since_step clock wallets) (zlen (m_data msg))
                         (O, state) b1));
        n ← get;
        (if n_remote_blocks n <? height then set_remote_blocks height else mret tt);;
        mret false
    | _ => mret false
    end.

(** ** ConsensusController::consensusCallback *)
Definition consensusCallback (now : Z) (msg : DevcashMessage) (context : DevcashContext)
    (keys : KeyRing) : M Node unit :=
  try_catch
    (if m_type msg =? eMessageType.FINAL_BLOCK then
       HandleFinalBlock msg context keys;; mret tt
     else if m_type msg =? eMessageType.PROPOSAL_BLOCK then
       HandleProposalBlock msg context keys;; mret tt
     else if m_type msg =? eMessageType.VALID then
       HandleValidationBlock now msg context;; mret tt
     else throw DevcashMessageError)
    (fun _ => throw StdException).

(** ** InternetworkController::messageCallback *)
Definition request_blocks (context : DevcashContext) (mode : eAppMode) : M Node unit :=
  n ← get;
  let remote := n_remote_blocks n in
  let node := ContextOps.get_current_node context in
  let peers := ContextOps.get_peer_count context in
  if remote <? bc_size (n_chain n) then
    let request := Uint64ToBin node (Uint64ToBin remote []) in
    match mode with
    | T1 =>
        callback (mkMessage (ContextOps.get_uri_from_index context (peers + node mod peers))
                    eMessageType.GET_BLOCKS_SINCE request (u32 remote));;
        callback (mkMessage (ContextOps.get_uri_from_index context (peers * 2 + node mod peers))
                    eMessageType.GET_BLOCKS_SINCE request (u32 remote))
    | T2 =>
        callback (mkMessage (ContextOps.get_uri_from_index context (node mod peers))
                    eMessageType.GET_BLOCKS_SINCE request (u32 remote))
    | scan => mret tt
    end
  else mret tt.

(** Only a [DeserializationError] is swallowed. *)
Definition catch_deserialization (m : M Node unit) : M Node unit := fun n =>
  match m n with
  | (Err DeserializationError, n') => (Ok tt, n')
  | r => r
  end.

Definition messageCallback (clock : nat -> Z) (msg : DevcashMessage) (context : DevcashContext)
    (mode : eAppMode) (keys : KeyRing) : M Node unit :=
  catch_deserialization
    (if m_type msg =? eMessageType.REQUEST_BLOCK then request_blocks context mode
     else if m_type msg =? eMessageType.GET_BLOCKS_SINCE then
       HandleBlocksSinceRequest msg context keys;; mret tt
     else if m_type msg =? eMessageType.BLOCKS_SINCE then
       HandleBlocksSince clock msg context keys;; mret tt
     else mret tt).

(** ** ValidatorController::validatorCallback *)
Definition validatorCallback (ptr : option DevcashMessage) (context : DevcashContext)
    (keys : KeyRing) : M Node unit :=
  match ptr with
  | None => throw DevcashMessageError
  | Some msg =>
      if m_type msg =? eMessageType.TRANSACTION_ANNOUNCEMENT then
        on_pool (AddTransactions_serial keys (m_data msg));;
        chain ← final_chain;
        let block_height := bc_size chain in
        if my_turn block_height context
        then propose_if_idle block_height keys context;; mret tt
        else mret tt
      else throw DevcashMessageError
  end.
End handlers.
