(* ===== verification/Node.v ===== *)
(** * The invariant of a running node

    A node runs the three callbacks of its controllers on whatever messages
    arrive.  A callback that throws a [std::exception] ends its worker thread
    and the other workers go on from the state it left, so the invariant holds
    after exceptions too; a run that is undefined or ends the process has no
    successor. *)

From Stdlib Require Import ZArith Lia.
From stdpp Require Import relations.
From stdpp Require Import base list numbers.
From S2P Require Import Prelude OrdMap Converters Keys Buffers Transfer ChainState Summary.
From S2P Require Import Validation KeyRing Context Transactions Blocks Message Blockchain Pool.
From S2P Require Import Handlers.

#[local] Open Scope devv_scope.

Section node.
Context `{Crypto} (keys : KeyRing).

(** The hash that the next block must name: of the top block, or of the word
    [Genesis] when there is none. *)
Definition tip_hash (c : Blockchain) : bytes :=
  DevcashHash (match list.last (chain_ c) with Some b => fb_getCanonical b | None => genesis end).

Definition sound (t : Transaction) : Prop := tx_isSound t keys = Ok true.

Definition proposal_ok (tip : bytes) (b : ProposedBlock) : Prop :=
  pb_prev_hash b = tip /\ cs_ok (pb_block_state b) /\ Forall sound (pb_transactions b).

(** What the pool holds, given the hash its proposal has to name.  A null
    proposal owes nothing. *)
Definition pool_inv (tip : bytes) (p : Pool) : Prop :=
  pool_ok keys p /\ (pb_isNull (pending_proposal_ p) = false -> proposal_ok tip (pending_proposal_ p)).

Definition chain_inv (c : Blockchain) : Prop :=
  bc_ok c /\ Forall (fun b => cs_ok (fb_block_state b)) (chain_ c).

Definition node_ok (n : Node) : Prop :=
  chain_inv (n_chain n) /\ pool_inv (tip_hash (n_chain n)) (n_pool n) /\
  locks false false (n_pool n).
End node.

(** ** The pool's methods *)
Section pool_wp.
Context `{Crypto} (keys : KeyRing).

(** The lock flags are no part of [pool_inv]. *)
Lemma wp_txs_lock {A} (m : M Pool A) p Q E :
  wp m (set_txs_lock p true) (fun a p' => Q a (set_txs_lock p' false))
     (fun p' => E (set_txs_lock p' false)) -> wp (with_txs_lock m) p Q E.
Proof.
  unfold wp, with_txs_lock. destruct (txs_locked p); [done|].
  by destruct (m _) as [[]].
Qed.

Lemma wp_proposal_lock {A} (m : M Pool A) p Q E :
  wp m (set_proposal_lock p true) (fun a p' => Q a (set_proposal_lock p' false))
     (fun p' => E (set_proposal_lock p' false)) -> wp (with_proposal_lock m) p Q E.
Proof.
  unfold wp, with_proposal_lock. destruct (proposal_locked p); [done|].
  by destruct (m _) as [[]].
Qed.

Lemma wp_keeps {S A} (I : S -> Prop) (m : M S A) s : keeps I m -> I s -> wp m s (fun _ => I) I.
Proof. intros K Hs. specialize (K s Hs). unfold wp. destruct (m s) as [[]]; by cbn in *. Qed.

Lemma wp_any {S A} (m : M S A) s (Q : A -> S -> Prop) (E : S -> Prop) :
  (forall a s', Q a s') -> (forall s', E s') -> wp m s Q E.
Proof. unfold wp. destruct (m s) as [[]]; auto. Qed.

Lemma add_one_pending b item : keeps (fun p => pending_proposal_ p = b) (add_one keys item).
Proof.
  intros p E. unfold add_one. mstep. destruct (tx_getSignature item) as [sig| | |]; try done.
  mstep. destruct (om_find sig (txs_ p)) as [[n tx]|]; mstep; [done|].
  by destruct (tx_isSound item keys) as [[]| | |].
Qed.

Lemma AddTransactions_pool tip txs : keeps (pool_inv keys tip) (AddTransactions keys txs).
Proof.
  intros p [C P]. split; [by apply AddTransactions_keeps|].
  assert (keeps (fun q => pending_proposal_ q = pending_proposal_ p) (AddTransactions keys txs)) as K.
  { intros q E. unfold AddTransactions, with_txs_lock. case_match; [done|].
    assert (keeps (fun q => pending_proposal_ q = pending_proposal_ p)
              (try_catch (add_loop keys txs true) (fun _ => mret false))) as K.
    { apply keeps_try; [|intros; apply keeps_ret]. generalize true.
      induction txs as [|t l IH]; intros g; cbn [add_loop]; [apply keeps_ret|].
      apply keeps_bind; [apply add_one_pending | intros; apply IH]. }
    specialize (K (set_txs_lock q true) E). by destruct (try_catch _ _ _). }
  by rewrite (K p eq_refl).
Qed.

Lemma relock_proposal p :
  proposal_locked p = false -> set_proposal_lock (set_proposal_lock p true) false = p.
Proof. by destruct p; cbn; intros ->. Qed.

Lemma relock_txs p : txs_locked p = false -> set_txs_lock (set_txs_lock p true) false = p.
Proof. by destruct p; cbn; intros ->. Qed.

Lemma wp_HasProposal p Q E :
  locks false false p -> Q (negb (pb_isNull (pending_proposal_ p))) p -> wp HasProposal p Q E.
Proof.
  intros [_ L] HQ. apply wp_proposal_lock. unfold wp. rewrite bind_get. cbn.
  by rewrite relock_proposal.
Qed.

Lemma wp_getProposal p Q E :
  locks false false p -> Q (pb_getCanonical (pending_proposal_ p)) p -> wp getProposal p Q E.
Proof.
  intros [_ L] HQ. apply wp_proposal_lock. unfold wp. rewrite bind_get. cbn.
  by rewrite relock_proposal.
Qed.

Lemma wp_HasPending p (Q : bool -> Pool -> Prop) E :
  locks false false p -> (forall b, Q b p) -> wp HasPendingTransactions p Q E.
Proof.
  intros [L _] HQ. apply wp_txs_lock. unfold wp. rewrite bind_get. cbn.
  by rewrite relock_txs.
Qed.

(** A transaction's validity is always decided: the check catches what it
    throws. *)
Lemma aggregate_quiet t prior c :
  wp (tx_isValidInAggregate t keys prior) c (fun _ _ => True) (fun _ => False).
Proof.
  destruct t as [tx|tx]; cbn [tx_isValidInAggregate]; apply wp_try; by apply wp_any.
Qed.

Lemma collect_quiet prior max_txs entries : forall num c,
  wp (collect_loop keys prior max_txs num entries) c (fun _ _ => True) (fun _ => False).
Proof.
  induction entries as [|[sig [n tx]] rest IH]; intros num c; cbn [collect_loop]; [by apply wp_ret|].
  apply wp_bind. eapply wp_mono; [apply aggregate_quiet | | done]. intros [] c' _ _; [case_match|].
  - by apply wp_ret.
  - apply wp_bind. eapply wp_mono; [apply IH | by intros | done].
  - apply wp_bind. eapply wp_mono; [apply IH | by intros | done].
Qed.

Lemma reverify_quiet prior txs : forall c,
  wp (reverify_loop keys prior txs) c (fun _ _ => True) (fun _ => False).
Proof.
  induction txs as [|t rest IH]; intros c; cbn [reverify_loop]; [by apply wp_ret|].
  apply wp_bind. eapply wp_mono; [apply aggregate_quiet | | done]. intros [] c' _ _; [apply IH | done].
Qed.

Lemma wp_Collect prior s p :
  pool_ok keys p -> cs_ok prior -> summary_ok s ->
  wp (CollectValidTransactions keys prior s) p
    (fun v p' => pool_ok keys p' /\ pending_proposal_ p' = pending_proposal_ p /\
                 cs_ok v.1.2 /\ Forall (sound keys) v.1.1)
    (fun _ => False).
Proof.
  intros [So F] C S. apply wp_txs_lock, wp_bind, wp_get.
  cbn [set_txs_lock max_tx_per_block_ txs_ num_cum_txs_ pending_proposal_].
  pose proof (collect_quiet prior (max_tx_per_block_ p) (txs_ p) 0 (mkVCtx prior s [])) as W.
  unfold wp in W. destruct (collect_loop _ _ _ _ _ _) as [[[valid entries']|e| |] c'] eqn:El;
    unfold wp; rewrite bind_lift; [|done..].
  pose proof (collect_loop_entries _ _ _ _ _ _ _ _ _ El F) as F'.
  apply collect_loop_spec in El as (K & Fv & Hm & _). destruct (K (conj C S)) as [C' _].
  rewrite bind_put. cbn. split; [split; [by apply (om_sorted_keys (txs_ p)) | done]|].
  split; [done|]. split; [done|]. eapply Forall_impl; [|exact Fv]. by intros t [? _].
Qed.

(** The node's key ring has its address and its key, so that it can sign. *)
Definition signable (context : DevcashContext) : Prop := forall h txs s st,
  exists r, pb_signBlock (pb_ctor h txs s ValidationOps.Create st) keys context = Ok r.

Lemma wp_ProposeBlock h prior context p :
  pool_ok keys p -> cs_ok prior -> signable context ->
  wp (ProposeBlock h prior keys context) p (fun _ p' => pool_inv keys h p') (fun _ => False).
Proof.
  intros C Cs Hs. apply wp_bind.
  eapply wp_mono; [by apply wp_Collect, Create_ok | | done].
  intros [[valid st] s] p1 _ (C1 & _ & Cst & Fv). cbn [fst snd] in *. apply wp_bind.
  destruct (Hs h valid s st) as [[f b] Hb]. unfold wp, lift. rewrite Hb. fold (@wp Pool bool).
  apply pb_sign_inv in Hb as (a & k & sig & v & _ & _ & _ & _ & _ & ->).
  apply wp_bind, wp_proposal_lock, wp_bind, wp_get, wp_put, wp_ret.
  split; [done | by intros _].
Qed.

(** After a reverification the proposal names the new hash, or there is none:
    the branch that would propose again relocks a held mutex. *)
Lemma wp_ReverifyProposal tip h prior context p :
  pool_inv keys tip p -> cs_ok prior -> signable context ->
  wp (ReverifyProposal h prior keys context) p (fun _ p' => pool_inv keys h p') (fun _ => False).
Proof.
  intros [C P] Cs Hs. apply wp_proposal_lock, wp_bind, wp_get. case_match eqn:N.
  { apply wp_ret. split; [done|]. cbn in N |- *. by rewrite N. }
  specialize (P N). destruct P as (_ & Pst & Ptx). cbn in N.
  apply wp_bind. unfold ReverifyTransactions. apply wp_txs_lock, wp_bind, wp_get.
  pose proof (reverify_quiet prior (pb_transactions (pending_proposal_ p))
    (mkVCtx prior SummaryOps.Create [])) as W. unfold wp in W. cbn [set_txs_lock set_proposal_lock pending_proposal_].
  destruct (reverify_loop _ _ _ _) as [[ok|e| |] c']; unfold wp at 1, lift; cbn [fst]; [|done..].
  destruct ok.
  - apply wp_bind, wp_get, wp_bind, wp_put, wp_ret. by split.
  - apply wp_bind. unfold ProposeBlock. apply wp_bind.
    eapply wp_mono; [apply wp_Collect; [done | done | apply Create_ok] | | done].
    intros [[valid st] s] p1 Hrun _. cbn [fst snd]. apply wp_bind.
    destruct (Hs h valid s st) as [r Hb]. unfold wp at 1, lift. rewrite Hb. cbn [snd].
    apply wp_bind. unfold wp, with_proposal_lock.
    match type of Hrun with CollectValidTransactions _ _ _ ?q = _ =>
      pose proof (Collect_neutral keys prior SummaryOps.Create (txs_locked q) true q
        (conj eq_refl eq_refl)) as [_ Lk] end.
    rewrite Hrun in Lk. cbn in Lk. by rewrite Lk.
Qed.

Lemma check_frame b context buf r b' :
  fst (pb_checkValidationData b context buf) = Ok (r, b') ->
  pb_prev_hash b' = pb_prev_hash b /\ pb_block_state b' = pb_block_state b /\
  pb_transactions b' = pb_transactions b.
Proof.
  destruct (pb_checkValidationData b context buf) as [x buf'] eqn:E. cbn [fst]. intros ->.
  unfold pb_checkValidationData in E. rewrite bind_size in E. case_match; [by minv|].
  apply bind_inv_ok in E as (h & s1 & _ & E). case_match; [|by minv].
  apply bind_inv_ok in E as (o & s2 & _ & E). by minv.
Qed.

Lemma wp_CheckValidation tip context buf p :
  pool_inv keys tip p ->
  wp (CheckValidation context buf) p
    (fun r p' => pool_inv keys tip p' /\ (r = true -> proposal_ok keys tip (pending_proposal_ p') /\
       ContextOps.get_peer_count context / 2 < u32 (zlen (sigs_ (pb_vals (pending_proposal_ p'))))))
    (pool_inv keys tip).
Proof.
  intros [C P]. apply wp_proposal_lock, wp_bind, wp_get. case_match eqn:N.
  { apply wp_ret. split; [by split | done]. }
  specialize (P N) as Pb. apply wp_bind, wp_lift; [|by split]. intros [r b'] Hr.
  pose proof (check_frame _ _ _ _ _ Hr) as (E1 & E2 & E3).
  apply wp_bind, wp_put, wp_ret. cbn in E1, E2, E3 |- *.
  assert (proposal_ok keys tip b') as Pb'.
  { unfold proposal_ok. rewrite E1, E2, E3. exact Pb. }
  split; [by split|]. intros ->. split; [done|].
  destruct (pb_checkValidationData _ _ _) as [x buf'] eqn:Ec in Hr. cbn [fst] in Hr. subst x.
  apply pb_check_true in Ec as (o & _ & Hcount & Hgt & _). by rewrite <- Hcount.
Qed.

Lemma remove_loop_ok txs : keeps (pool_ok keys) (remove_loop txs).
Proof.
  induction txs as [|t txs IH]; cbn [remove_loop]; [apply keeps_ret|].
  apply keeps_bind; [apply keeps_lift | intros sig _ _ _]. intros p [S F].
  rewrite bind_get, bind_put. apply IH. split; [by apply om_del_sorted | by apply om_del_Forall].
Qed.

Lemma wp_FinalizeLocal now tip p :
  pool_inv keys tip p ->
  wp (FinalizeLocalBlock now) p
    (fun fb p' => pool_ok keys p' /\ pb_isNull (pending_proposal_ p') = true)
    (pool_inv keys tip).
Proof.
  intros [C P]. apply wp_proposal_lock, wp_bind, wp_get, wp_bind.
  unfold FinalizeBlock. apply wp_bind. unfold RemoveTransactions. apply wp_txs_lock.
  assert (keeps (fun q => pool_ok keys q /\ pending_proposal_ q = pending_proposal_ p)
    (remove_loop (pb_transactions (pending_proposal_ p)))) as K.
  { generalize (pb_transactions (pending_proposal_ p)). intros l q [Hq Eq].
    split; [by apply remove_loop_ok|]. revert q Hq Eq. induction l as [|t l IH]; intros q Hq Eq;
      cbn [remove_loop]; [done|]. mstep. destruct (tx_getSignature t); try done. mstep.
    apply IH; [|done]. split; [by apply om_del_sorted, Hq | by apply om_del_Forall, Hq]. }
  eapply wp_mono; [by apply (wp_keeps _ _ _ K) | |].
  - intros r q _ [Hq Eq]. apply wp_ret, wp_bind, wp_get, wp_bind, wp_put, wp_ret. by split.
  - intros q [Hq Eq]. split; [done|]. cbn. by rewrite Eq.
Qed.

Lemma remote_state prior mode buf b buf' :
  fb_from_remote prior keys mode buf = (Ok b, buf') -> fb_block_state b = prior.
Proof.
  unfold fb_from_remote. intros E. rewrite bind_size in E. case_match; [by minv|].
  apply bind_inv_ok in E as (v & s1 & _ & E). case_match; [by minv|].
  apply bind_inv_ok in E as (nb & s2 & _ & E). case_match; [by minv|].
  by minv.
Qed.
End pool_wp.

(** ** The handlers *)
Section node_wp.
Context `{Crypto} (keys : KeyRing).

Definition with_pool (n : Node) (p : Pool) : Node :=
  mkNode (n_chain n) p (n_remote_blocks n) (n_sent n).

(** A pool method called by a handler: it finds the mutexes free and leaves
    them free. *)
Lemma wp_on_pool {A} (m : M Pool A) n Q E :
  lock_neutral m -> locks false false (n_pool n) ->
  wp m (n_pool n) (fun a p => locks false false p -> Q a (with_pool n p))
     (fun p => locks false false p -> E (with_pool n p)) ->
  wp (on_pool m) n Q E.
Proof.
  intros N L. specialize (N false false (n_pool n) L). unfold wp, on_pool.
  destruct (m (n_pool n)) as [[a|e| |] p]; cbn in *; auto.
Qed.

Lemma HasProposal_neutral : lock_neutral (HasProposal).
Proof. apply neutral_proposal_lock, neutral_get. done. Qed.

Lemma getProposal_neutral : lock_neutral (getProposal).
Proof. apply neutral_proposal_lock, neutral_get. done. Qed.

Lemma HasPending_neutral : lock_neutral (HasPendingTransactions).
Proof. apply neutral_txs_lock, neutral_get. done. Qed.

Lemma with_pool_id n : with_pool n (n_pool n) = n.
Proof. by destruct n. Qed.

Lemma wp_node_HasProposal n Q E :
  locks false false (n_pool n) -> Q (negb (pb_isNull (pending_proposal_ (n_pool n)))) n ->
  wp (on_pool HasProposal) n Q E.
Proof.
  intros L HQ. apply wp_on_pool; [apply HasProposal_neutral | done |].
  apply wp_HasProposal; [done|]. intros _. by rewrite with_pool_id.
Qed.

Lemma wp_node_HasPending n (Q : bool -> Node -> Prop) E :
  locks false false (n_pool n) -> (forall b, Q b n) -> wp (on_pool HasPendingTransactions) n Q E.
Proof.
  intros L HQ. apply wp_on_pool; [apply HasPending_neutral | done |].
  apply wp_HasPending; [done|]. intros b _. by rewrite with_pool_id.
Qed.

Lemma highest_state c :
  chain_inv c -> exists st, bc_getHighestChainState c = Ok st /\ cs_ok st.
Proof.
  intros [(Hs & _) F]. unfold bc_getHighestChainState, bc_back. rewrite Hs.
  destruct (list.last (chain_ c)) as [b|] eqn:L.
  - exists (fb_block_state b). split.
    + case_match; bool_to_prop; [|done].
      destruct (chain_ c); [done|]. rewrite zlen_cons in *. pose proof (zlen_nonneg l). lia.
    + apply last_Some in L as [l E]. rewrite E in F. apply Forall_app in F as [_ F].
      by inversion F.
  - apply last_None in L as ->. exists ChainStateOps.empty. by repeat split.
Qed.

Lemma push_chain_inv c b :
  chain_inv c -> zlen (chain_ c) + 1 < 2 ^ 31 -> cs_ok (fb_block_state b) ->
  chain_inv (bc_push_back c b).
Proof.
  intros [C F] L S. split; [by apply bc_push_ok|]. cbn. apply Forall_app. split; [done|].
  apply Forall_cons; [done | constructor].
Qed.

Lemma tip_push c b : tip_hash (bc_push_back c b) = DevcashHash (fb_getCanonical b).
Proof. unfold tip_hash. cbn [bc_push_back chain_]. by rewrite last_snoc. Qed.

Lemma wp_CreateNextProposal context n :
  node_ok keys n -> signable keys context ->
  CreateNextProposal keys context @ n ⊨ node_ok keys.
Proof.
  intros (C & P & L) Hs. unfold CreateNextProposal.
  apply wp_bind. unfold final_chain, wp at 1.
  apply wp_bind, wp_node_HasProposal; [done|].
  assert (forall m, node_ok keys m -> on_pool getProposal @ m ⊨ node_ok keys) as G.
  { intros m N. destruct N as (? & ? & ?). apply wp_on_pool; [apply getProposal_neutral | done |].
    apply wp_getProposal; [done|]. intros _. by rewrite with_pool_id. }
  assert (forall tip prior, tip = tip_hash (n_chain n) -> cs_ok prior ->
    on_pool (ProposeBlock tip prior keys context) @ n ⊨ node_ok keys) as Pr.
  { intros tip prior -> Cs. apply wp_on_pool; [apply ProposeBlock_neutral | done |].
    eapply wp_mono; [by apply wp_ProposeBlock; [apply P | |] | | done].
    intros r p' _ P' L'. by split; [|split]. }
  apply wp_bind.
  match goal with |- wp (if ?b then _ else _) _ _ _ => destruct b end.
  { apply wp_ret, wp_bind, wp_ret, G. by split; [|split]. }
  apply wp_node_HasPending; [done|]. intros pending. apply wp_bind.
  destruct pending; [|by apply wp_ret, G; split; [|split]].
  pose proof (bc_size_ok _ (proj1 C)) as Hsz. destruct (highest_state _ C) as (st & Est & Cst).
  destruct (0 <? bc_size (n_chain n)) eqn:E0; bool_to_prop.
  - apply wp_bind, wp_lift; [|by split; [|split]]. intros b Hb. apply wp_bind.
    unfold wp at 1, lift. rewrite Est. apply wp_bind.
    eapply wp_mono; [apply Pr; [|done] | |done].
    + unfold bc_back in Hb. unfold tip_hash. case_match; by simplify_eq.
    + intros r n' _ N. by apply wp_ret, G.
  - apply wp_bind. eapply wp_mono; [apply Pr; [|by repeat split] | | done].
    + unfold tip_hash. rewrite Hsz in E0. destruct (chain_ (n_chain n)) as [|x l]; [done|].
      rewrite zlen_cons in E0. pose proof (zlen_nonneg l). lia.
    + intros r n' _ N. by apply wp_ret, G.
Qed.

Lemma wp_propose_if_idle height context n :
  node_ok keys n -> signable keys context ->
  propose_if_idle height keys context @ n ⊨ node_ok keys.
Proof.
  intros N Hs. apply wp_bind, wp_node_HasProposal; [apply N|]. case_match; [by apply wp_ret|].
  apply wp_bind. eapply wp_mono; [by apply wp_CreateNextProposal | | done].
  intros b n' _ N'. case_match; [by apply wp_ret|]. by apply wp_bind.
Qed.

Definition room (n : Node) : Prop := zlen (chain_ (n_chain n)) + 1 < 2 ^ 31.

Lemma wp_HandleFinalBlock msg context n :
  node_ok keys n -> room n -> signable keys context ->
  HandleFinalBlock msg context keys @ n ⊨ node_ok keys.
Proof.
  intros (C & P & L) R Hs. unfold HandleFinalBlock. apply wp_bind. unfold final_chain at 1, wp at 1.
  destruct (highest_state _ C) as (st & Est & Cst). apply wp_bind. unfold wp at 1, lift at 1.
  rewrite Est. apply wp_bind. unfold wp at 1, on_pool at 1, FinalizeRemoteBlock. rewrite bind_get.
  unfold lift at 1. destruct (fb_from_remote st keys _ _) as [[top|e| |] buf'] eqn:Er; cbn [fst];
    [|by intros _; split; [|split]|done..].
  pose proof (remote_state _ _ _ _ _ _ Er) as Estate. apply wp_bind.
  unfold push_block, wp at 1. cbn [n_chain n_pool n_remote_blocks n_sent].
  set (n1 := mkNode (bc_push_back (n_chain n) top) _ _ _).
  assert (chain_inv (n_chain n1)) as C1 by (apply push_chain_inv; [done | exact R | by rewrite Estate]).
  assert (forall n', node_ok keys n' -> n_chain n' = n_chain n1 ->
    wp (chain ← final_chain;
        pending ← on_pool HasPendingTransactions;
        if negb pending then mret false
        else if my_turn (bc_size chain) context
             then propose_if_idle (bc_size chain) keys context else mret false)
       n' (fun _ n' => node_ok keys n') (node_ok keys)) as Tail.
  { intros n' N' _. apply wp_bind. unfold final_chain, wp at 1.
    apply wp_bind, wp_node_HasPending; [apply N'|]. intros b. case_match; [by apply wp_ret|].
    case_match; [by apply wp_propose_if_idle | by apply wp_ret]. }
  apply wp_bind, wp_node_HasProposal; [done|]. apply wp_bind. case_match eqn:Eh.
  - apply wp_bind, wp_on_pool; [apply ReverifyProposal_neutral | done |].
    eapply wp_mono; [eapply wp_ReverifyProposal; [exact P | by rewrite Estate | done] | | done].
    intros r p' _ P' L'. apply wp_ret, Tail; [|done].
    split; [done|]. split; [|done]. cbn [n_chain with_pool n1 n_pool]. by rewrite tip_push.
  - apply wp_ret, Tail; [|done]. split; [done|]. split; [|done].
    split; [apply P|]. intros Hn. cbn [n1 n_pool] in *. by rewrite Hn in Eh.
Qed.

(** Finalising what was proposed here. *)
Lemma wp_HandleValidationBlock now msg context n :
  node_ok keys n -> room n ->
  HandleValidationBlock now msg context @ n ⊨ node_ok keys.
Proof.
  intros (C & P & L) R. apply wp_bind, wp_on_pool; [apply CheckValidation_neutral | done |].
  eapply wp_mono; [by apply wp_CheckValidation | |].
  2: { intros p' P' L'. by split; [|split]. }
  intros r p' _ [P' Hr] L'. destruct r; [|by apply wp_ret; split; [|split]].
  destruct (Hr eq_refl) as [Pb _].
  apply wp_bind, wp_on_pool; [apply FinalizeLocal_neutral | done |]. cbn [with_pool n_pool].
  pose proof (wp_FinalizeLocal keys now _ _ P') as W.
  eapply wp_mono; [exact W | | by intros p2 P2 L2; split; [|split]].
  intros fb p2 Hf [C2 N2] L2. apply FinalizeLocalBlock_spec in Hf as (-> & _); [|apply P'].
  apply wp_bind. unfold push_block, wp at 1. apply wp_bind. unfold callback, wp at 1.
  apply wp_ret. cbn [n_chain n_pool with_pool]. split; [|split; [|done]].
  - apply push_chain_inv; [done | exact R | apply Pb].
  - split; [done|]. cbn [n_pool]. by rewrite N2.
Qed.

(** The other handlers leave the chain and the pool alone. *)
Definition same_core (n n' : Node) : Prop := n_chain n' = n_chain n /\ n_pool n' = n_pool n.

Lemma same_core_ok n n' : same_core n n' -> node_ok keys n -> node_ok keys n'.
Proof. intros [E1 E2]. unfold node_ok. by rewrite E1, E2. Qed.

Lemma core_callback n m : keeps (same_core n) (callback m).
Proof. by intros n' []. Qed.

Lemma core_remote n h : keeps (same_core n) (set_remote_blocks h).
Proof. by intros n' []. Qed.

Lemma core_get {A} n (f : Node -> M Node A) :
  (forall x, keeps (same_core n) (f x)) -> keeps (same_core n) (get ≫= f).
Proof. intros K n' S. rewrite bind_get. by apply K. Qed.

Lemma core_chain {A} n (f : Blockchain -> M Node A) :
  (forall x, keeps (same_core n) (f x)) -> keeps (same_core n) (final_chain ≫= f).
Proof. intros K n' S. unfold mbind, M_bind, final_chain. by apply K. Qed.

Ltac core := repeat lazymatch goal with
  | |- keeps _ (mret _) => apply keeps_ret
  | |- keeps _ (lift _) => apply keeps_lift
  | |- keeps _ (callback _) => apply core_callback
  | |- keeps _ (set_remote_blocks _) => apply core_remote
  | |- keeps _ (get ≫= _) => apply core_get; intros ?
  | |- keeps _ (final_chain ≫= _) => apply core_chain; intros ?
  | |- keeps _ (_ ≫= _) => apply keeps_bind; [|intros ? ? ? _]
  | |- keeps _ (match ?x with _ => _ end) => destruct x
  end.

Lemma core_HandleProposalBlock n msg context :
  keeps (same_core n) (HandleProposalBlock msg context keys).
Proof. unfold HandleProposalBlock. core. Qed.

Lemma core_HandleBlocksSinceRequest n msg context :
  keeps (same_core n) (HandleBlocksSinceRequest msg context keys).
Proof. unfold HandleBlocksSinceRequest. core. Qed.

Lemma core_HandleBlocksSince n clock msg context :
  keeps (same_core n) (HandleBlocksSince clock msg context keys).
Proof. unfold HandleBlocksSince. core. Qed.

Lemma core_request_blocks n context mode : keeps (same_core n) (request_blocks context mode).
Proof. unfold request_blocks. core. Qed.

Lemma core_messageCallback n clock msg context mode :
  keeps (same_core n) (messageCallback clock msg context mode keys).
Proof.
  assert (forall m, keeps (same_core n) m -> keeps (same_core n) (catch_deserialization m)) as K.
  { intros m K s S. specialize (K s S). unfold catch_deserialization.
    destruct (m s) as [[a|[]| |] s']; done. }
  apply K. repeat case_match; [apply core_request_blocks | | | apply keeps_ret];
    (apply keeps_bind; [|intros; apply keeps_ret]);
    [apply core_HandleBlocksSinceRequest | apply core_HandleBlocksSince].
Qed.

Lemma wp_consensusCallback now msg context n :
  node_ok keys n -> room n -> signable keys context ->
  consensusCallback now msg context keys @ n ⊨ node_ok keys.
Proof.
  intros N R Hs. apply wp_try.
  assert (forall (m : M Node bool), wp m n (fun _ n' => node_ok keys n') (node_ok keys) ->
    wp (m;; mret tt) n (fun _ n' => node_ok keys n')
       (fun s' => forall e : exn, wp (A := unit) (throw StdException) s' (fun _ n' => node_ok keys n') (node_ok keys)))
    as K.
  { intros m W. apply wp_bind. eapply wp_mono; [exact W | |]; [by intros; apply wp_ret|].
    intros n' N' e. by apply wp_throw. }
  repeat case_match; [apply K; by apply wp_HandleFinalBlock | apply K |
    apply K; by apply wp_HandleValidationBlock | by apply wp_throw; intros; apply wp_throw].
  eapply wp_mono; [apply (wp_keeps _ _ _ (core_HandleProposalBlock n msg context)); by split | |].
  - intros b n2 _ S. exact (same_core_ok _ _ S N).
  - intros n2 S. exact (same_core_ok _ _ S N).
Qed.

Lemma wp_messageCallback clock msg context mode n :
  node_ok keys n ->
  messageCallback clock msg context mode keys @ n ⊨ node_ok keys.
Proof.
  intros N.
  eapply wp_mono; [apply (wp_keeps _ _ _ (core_messageCallback n clock msg context mode)); by split | |].
  - intros b n2 _ S. exact (same_core_ok _ _ S N).
  - intros n2 S. exact (same_core_ok _ _ S N).
Qed.

Lemma wp_validatorCallback ptr context n :
  node_ok keys n -> signable keys context ->
  validatorCallback ptr context keys @ n ⊨ node_ok keys.
Proof.
  intros N Hs. destruct ptr as [msg|]; cbn [validatorCallback]; [|by apply wp_throw].
  case_match; [|by apply wp_throw].
  apply wp_bind, wp_on_pool; [| apply N |].
  { intros a b p Lp. unfold AddTransactions_serial. rewrite bind_get. mstep.
    destruct (fst _); [by apply AddTransactions_neutral | done..]. }
  destruct N as (C & P & L). unfold AddTransactions_serial. apply wp_bind, wp_get, wp_bind, wp_lift.
  2: { intros _. by split; [|split]; rewrite ?with_pool_id. }
  intros txs _. eapply wp_mono; [apply (wp_keeps _ _ _ (AddTransactions_pool keys (tip_hash (n_chain n)) txs)), P | |].
  2: { intros p' P' L'. by split; [|split]. }
  intros r p' _ P' L'. apply wp_bind. unfold final_chain, wp at 1.
  assert (node_ok keys (with_pool n p')) as N' by by split; [|split].
  case_match; [|by apply wp_ret]. apply wp_bind.
  eapply wp_mono; [by apply wp_propose_if_idle | by intros; apply wp_ret | done].
Qed.
End node_wp.

(** ** What a finalised block is *)
Section finalised.
Context `{Crypto} (keys : KeyRing).

Lemma on_pool_inv {A} (m : M Pool A) n a n' :
  on_pool m n = (Ok a, n') -> exists p, m (n_pool n) = (Ok a, p) /\ n' = with_pool n p.
Proof. unfold on_pool. destruct (m (n_pool n)) as [r p]. intros. simplify_eq. by exists p. Qed.

Lemma wp_ok {S A} (m : M S A) s (Q : A -> S -> Prop) E a s' : wp m s Q E -> m s = (Ok a, s') -> Q a s'.
Proof. unfold wp. intros W R. by rewrite R in W. Qed.

Lemma clone_all (txs : list Transaction) : tx_clone <$> txs = txs.
Proof. induction txs as [|t txs IH]; [done|]. by rewrite fmap_cons, IH, tx_clone_id. Qed.

Lemma finalised_inv now msg context n n' :
  node_ok keys n -> HandleValidationBlock now msg context n = (Ok true, n') ->
  exists b p, proposal_ok keys (tip_hash (n_chain n)) b /\
    ContextOps.get_peer_count context / 2 < u32 (zlen (sigs_ (pb_vals b))) /\
    n' = mkNode (bc_push_back (n_chain n) (fb_of_proposed now b)) p (n_remote_blocks n)
           (n_sent n ++ [mkMessage (ContextOps.get_shard_uri context) eMessageType.FINAL_BLOCK
                           (fb_getCanonical (fb_of_proposed now b)) (m_index msg)]) /\
    exists sigs, map_res tx_getSignature (pb_transactions b) = Ok sigs /\
      forall s, s ∈ sigs -> om_find s (txs_ p) = None.
Proof.
  intros (C & P & L) E. unfold HandleValidationBlock in E.
  apply bind_inv_ok in E as (r & n1 & (p1 & Hc & ->)%on_pool_inv & E). destruct r; [|by minv].
  pose proof (wp_ok _ _ _ _ _ _ (wp_CheckValidation keys _ context _ _ P) Hc) as [P1 Hq].
  destruct (Hq eq_refl) as [Pb Hcount].
  apply bind_inv_ok in E as (fb & n2 & (p2 & Hf & ->)%on_pool_inv & E).
  apply FinalizeLocalBlock_spec in Hf as (-> & _ & sigs & Hs & Hrm & _); [|apply P1].
  apply bind_inv_ok in E as (u & n3 & Hp & E). unfold push_block in Hp. simplify_eq.
  apply bind_inv_ok in E as (u' & n4 & Hp & E). unfold callback in Hp. simplify_eq. minv.
  exists (pending_proposal_ p1), p2. cbn [n_pool with_pool n_chain n_remote_blocks n_sent] in *.
  split; [done|]. split; [done|]. split; [done|]. eauto.
Qed.

(** A call of a pool method leaves the chain alone. *)
Lemma on_pool_chain {A} c (m : M Pool A) : keeps (fun n => n_chain n = c) (on_pool m).
Proof. intros n E. unfold on_pool. by destruct (m (n_pool n)). Qed.

Ltac chain_kept :=
  repeat lazymatch goal with
  | |- keeps _ (mret _) => apply keeps_ret
  | |- keeps _ (lift _) => apply keeps_lift
  | |- keeps _ (on_pool _) => apply on_pool_chain
  | |- keeps _ (callback _) => by intros ?
  | |- keeps _ final_chain => by intros ?
  | |- keeps _ (_ ≫= _) => apply keeps_bind; [|intros ? ? ? _]
  | |- keeps _ (match ?x with _ => _ end) => destruct x
  end.

Lemma propose_chain c height context :
  keeps (fun n => n_chain n = c) (propose_if_idle height keys context).
Proof.
  unfold propose_if_idle, CreateNextProposal. chain_kept.
Qed.

(** [HandleFinalBlock] pushes one block, whose state is the highest state so
    far. *)
Lemma final_block_inv msg context n r n' :
  chain_inv (n_chain n) -> HandleFinalBlock msg context keys n = (Ok r, n') ->
  exists top, bc_getHighestChainState (n_chain n) = Ok (fb_block_state top) /\
    n_chain n' = bc_push_back (n_chain n) top.
Proof.
  intros C E. destruct (highest_state _ C) as (st & Est & _). unfold HandleFinalBlock in E.
  apply bind_inv_ok in E as (c & n1 & Hc & E). unfold final_chain in Hc. simplify_eq.
  apply bind_inv_ok in E as (prior & n2 & Hp & E). unfold lift in Hp. simplify_eq.
  apply bind_inv_ok in E as (top & n3 & (p & Hf & ->)%on_pool_inv & E).
  unfold FinalizeRemoteBlock in Hf. rewrite bind_get in Hf. unfold lift in Hf.
  destruct (fb_from_remote _ _ _ _) as [x buf'] eqn:Er in Hf. cbn [fst] in Hf. simplify_eq.
  apply remote_state in Er. exists top. rewrite Er. split; [congruence|].
  apply bind_inv_ok in E as (u & n4 & Hp' & E). unfold push_block in Hp'. simplify_eq.
  match type of E with ?m ?s = _ =>
    assert (keeps (fun n => n_chain n = bc_push_back (n_chain n2) top) m) as K end.
  { chain_kept. apply propose_chain. }
  match type of E with _ ?s = _ => specialize (K s eq_refl) end. by rewrite E in K.
Qed.
End finalised.

(** ** Runs of a node *)
Section runs.
Context `{Crypto} (keys : KeyRing) (context : DevcashContext).

(** The process goes on after a result or a [std::exception]. *)
Definition alive {A} (r : res A) : Prop :=
  match r with Ok _ => True | Err e => is_std_exception e = true | _ => False end.

(** One message handled by one of the three controllers, at any time. *)
Inductive node_step (n n' : Node) : Prop :=
| step_consensus now msg r :
    room n -> consensusCallback now msg context keys n = (r, n') -> alive r -> node_step n n'
| step_internetwork clock msg mode r :
    messageCallback clock msg context mode keys n = (r, n') -> alive r -> node_step n n'
| step_validator ptr r :
    validatorCallback ptr context keys n = (r, n') -> alive r -> node_step n n'.

(** A node that starts with an empty chain.  The constructor of the
    controller does not initialise [remote_blocks_]. *)
Definition node_start (mode : eAppMode) (max_tx remote : Z) : Node :=
  mkNode bc_empty (pool_ctor ChainStateOps.empty mode max_tx) remote [].

Lemma wp_alive {A} (m : M Node A) n r n' (I : Node -> Prop) :
  wp m n (fun _ => I) I -> m n = (r, n') -> alive r -> I n'.
Proof. unfold wp. intros W E Al. rewrite E in W. destruct r; try done. by apply W. Qed.

Lemma node_start_ok mode max_tx remote : node_ok keys (node_start mode max_tx remote).
Proof.
  split; [split; [apply bc_empty_ok | constructor]|]. split; [|done].
  split; [by split|]. done.
Qed.

Lemma node_step_ok n n' : signable keys context -> node_ok keys n -> node_step n n' -> node_ok keys n'.
Proof.
  intros Hs N [now msg r R E Al|clock msg mode r E Al|ptr r E Al].
  - eapply wp_alive; [by apply wp_consensusCallback | exact E | done].
  - eapply wp_alive; [by apply wp_messageCallback | exact E | done].
  - eapply wp_alive; [by apply wp_validatorCallback | exact E | done].
Qed.

Lemma node_reachable_ok mode max_tx remote n :
  signable keys context -> rtc node_step (node_start mode max_tx remote) n -> node_ok keys n.
Proof.
  intros Hs. revert n. apply rtc_ind_r; [apply node_start_ok|].
  intros y z _ St N. by eapply node_step_ok.
Qed.
End runs.

(** ** A node that has its keys can sign *)
Section signing.
Context `{CryptoLaws}.

(** What a node needs of its key ring: its own address and the private key for
    it, on the node curve. *)
Definition has_keys (keys : KeyRing) (context : DevcashContext) (a : Address) (k : EC_KEY) : Prop :=
  let i := ContextOps.get_current_node context mod 3 in
  getNodeAddr keys i = Ok a /\ getNodeKey keys i = Ok k /\ node_addr a /\ is_node_key k = true.

Lemma sign_run keys context a k b :
  has_keys keys context a k ->
  exists sig, SignBinary k (DevcashHash (SummaryOps.getCanonical (pb_summary b))) = Ok sig /\
    VerifyByteSig k (DevcashHash (SummaryOps.getCanonical (pb_summary b))) sig = Ok true /\
    node_sig sig /\
    pb_signBlock b keys context = Ok (true,
      pb_set_vals b (mkValidation (fst (om_insert a sig (sigs_ (pb_vals b)))))
                    (u32 (pb_val_count b + 1))).
Proof.
  intros (Ha & Hk & Na & Nk).
  destruct (SignBinary_ok k (DevcashHash (SummaryOps.getCanonical (pb_summary b))))
    as (sig & Es & V & W & Z). rewrite Nk in Z.
  assert (node_sig sig) as Ns by (by apply node_sig_of_size).
  exists sig. split; [done|]. split; [done|]. split; [done|].
  unfold pb_signBlock. change (ContextOps.get_peer_count context) with 3.
  rewrite Ha. cbn [mbind res_bind]. rewrite Hk. cbn [mbind res_bind]. rewrite Es.
  cbn [mbind res_bind]. unfold ValidationOps.addValidation.
  apply node_addr_size in Na. unfold AddressOps.size in *. rewrite Na, Z. done.
Qed.

Lemma has_keys_signable keys context a k : has_keys keys context a k -> signable keys context.
Proof.
  intros Hk h txs s st. destruct (sign_run keys context a k (pb_ctor h txs s ValidationOps.Create st) Hk)
    as (sig & _ & _ & _ & E). eauto.
Qed.
End signing.
