(* ===== verification/Network.v ===== *)
(** * modules/BlockchainModule.{h,cpp}, modules/ParallelExecutor.h,
    concurrency/ThreadGroup.{h,cpp}, io/message_service.{h,cpp}

    A process: the node of [Handlers], a queue and a worker thread per controller,
    the filters of its two clients, and the messages its server has still to
    publish.  Processes exchange messages through ZeroMQ sockets, which are not part
    of the sources: [PubSub] is what a subscription matches.  The network is a step
    relation in which any message may be lost, delayed or overtaken, and in which
    anyone may send anything to a process. *)

From Stdlib Require Import ZArith Lia.
From stdpp Require Import relations.
From stdpp Require Import base list numbers functions.
From S2P Require Import Prelude OrdMap Converters Keys Buffers Transfer ChainState Summary.
From S2P Require Import Validation KeyRing Context DevvUri Transactions Blocks Message Blockchain Pool.
From S2P Require Import Handlers Node.

#[local] Open Scope Z_scope.

(** [ZMQ_SUBSCRIBE]: a message is received when its first frame begins with a
    filter of the socket. *)
Class PubSub := {
  zmq_matches : bytes -> bytes -> bool;
  zmq_prefix filter topic : zmq_matches filter topic = true <-> filter `prefix_of` topic
}.

(** ** ThreadGroup.cpp

    The queue is unbounded; several threads push to it, so a pop takes a
    message from any place. *)
Record ThreadGroup := mkGroup {
  thread_queue_ : list DevcashMessage;
  do_run_ : bool;
  thread_alive : bool
}.

Module ThreadGroupOps.
Definition ctor : ThreadGroup := mkGroup [] false false.

Definition pushMessage (g : ThreadGroup) (message : DevcashMessage) : ThreadGroup :=
  mkGroup (thread_queue_ g ++ [message]) (do_run_ g) (thread_alive g).

Definition start (g : ThreadGroup) : bool * ThreadGroup :=
  if negb (do_run_ g) then (true, mkGroup (thread_queue_ g) true true) else (false, g).

Definition pop (g : ThreadGroup) (i : nat) : option (DevcashMessage * ThreadGroup) :=
  match thread_queue_ g !! i with
  | Some m => Some (m, mkGroup (delete i (thread_queue_ g)) (do_run_ g) (thread_alive g))
  | None => None
  end.

(** An exception that [loop] catches ends the thread. *)
Definition exit (g : ThreadGroup) : ThreadGroup := mkGroup (thread_queue_ g) (do_run_ g) false.
End ThreadGroupOps.

Section network.
Context `{Crypto} `{PubSub} (keys : KeyRing).

(** ** BlockchainModule *)
Record BlockchainModule := mkModule {
  bm_node : Node;
  bm_consensus : ThreadGroup;
  bm_internetwork : ThreadGroup;
  bm_validator : ThreadGroup;
  bm_remote_blocks : Z;
  bm_client_filters : list bytes;
  bm_loopback_filters : list bytes;
  bm_published : nat           (* of the messages in [n_sent] *)
}.

Definition bm_ctor (mode : eAppMode) (max_tx remote : Z) : BlockchainModule :=
  mkModule (node_start mode max_tx remote) ThreadGroupOps.ctor ThreadGroupOps.ctor
    ThreadGroupOps.ctor 0 [] [] 0.

Definition set_node (m : BlockchainModule) (n : Node) : BlockchainModule :=
  mkModule n (bm_consensus m) (bm_internetwork m) (bm_validator m) (bm_remote_blocks m)
    (bm_client_filters m) (bm_loopback_filters m) (bm_published m).

Definition set_consensus (m : BlockchainModule) (g : ThreadGroup) : BlockchainModule :=
  mkModule (bm_node m) g (bm_internetwork m) (bm_validator m) (bm_remote_blocks m)
    (bm_client_filters m) (bm_loopback_filters m) (bm_published m).

Definition set_internetwork (m : BlockchainModule) (g : ThreadGroup) : BlockchainModule :=
  mkModule (bm_node m) (bm_consensus m) g (bm_validator m) (bm_remote_blocks m)
    (bm_client_filters m) (bm_loopback_filters m) (bm_published m).

Definition set_validator (m : BlockchainModule) (g : ThreadGroup) : BlockchainModule :=
  mkModule (bm_node m) (bm_consensus m) (bm_internetwork m) g (bm_remote_blocks m)
    (bm_client_filters m) (bm_loopback_filters m) (bm_published m).

(** The switch over the type; the executors' [pushMessage]. *)
Definition handleMessage (message : DevcashMessage) : M BlockchainModule unit :=
  m ← get;
  let to_validator := put (set_validator m (ThreadGroupOps.pushMessage (bm_validator m) message)) in
  let to_internetwork :=
    put (set_internetwork m (ThreadGroupOps.pushMessage (bm_internetwork m) message)) in
  let to_consensus := put (set_consensus m (ThreadGroupOps.pushMessage (bm_consensus m) message)) in
  let t := m_type message in
  if t =? eMessageType.TRANSACTION_ANNOUNCEMENT then to_validator
  else if t =? eMessageType.GET_BLOCKS_SINCE then to_internetwork
  else if t =? eMessageType.BLOCKS_SINCE then to_internetwork
  else if t =? eMessageType.REQUEST_BLOCK then to_internetwork
  else if t =? eMessageType.FINAL_BLOCK then to_consensus
  else if t =? eMessageType.PROPOSAL_BLOCK then to_consensus
  else if t =? eMessageType.VALID then to_consensus
  else throw DevcashMessageError.

(** [init] and the start of the executors. *)
Definition bm_start (context : DevcashContext) (m : BlockchainModule) : BlockchainModule :=
  mkModule (bm_node m)
    (snd (ThreadGroupOps.start (bm_consensus m)))
    (snd (ThreadGroupOps.start (bm_internetwork m)))
    (snd (ThreadGroupOps.start (bm_validator m)))
    (bm_remote_blocks m)
    (bm_client_filters m ++ [ContextOps.get_shard_uri context; ContextOps.get_uri context])
    (bm_loopback_filters m ++ [ContextOps.get_uri context])
    (bm_published m).

(** One turn of the loop of [start]. *)
Definition bm_tick (context : DevcashContext) (m : BlockchainModule) : BlockchainModule :=
  if bm_remote_blocks m <? bc_size (n_chain (bm_node m)) then
    let request_msg := mkMessage (ContextOps.get_uri context) eMessageType.REQUEST_BLOCK []
                         (u32 (bm_remote_blocks m)) in
    let n := snd (callback request_msg (bm_node m)) in
    mkModule n (bm_consensus m) (bm_internetwork m) (bm_validator m)
      (bc_size (n_chain n)) (bm_client_filters m) (bm_loopback_filters m) (bm_published m)
  else m.

(** ** message_service.cpp *)

(** What the server puts on its socket: the uri as the first frame. *)
Definition sendMessage (message : DevcashMessage) : bytes * bytes :=
  (m_uri message, serialize message).

Definition subscribed (filters : list bytes) (uri : bytes) : bool :=
  existsb (fun f => zmq_matches f uri) filters.

Definition processIncomingMessage (uri mess : bytes) : M BlockchainModule unit :=
  match uri, mess with
  | [], _ => mret tt
  | _, [] => mret tt
  | _, _ => message ← lift (deserialize mess); handleMessage message
  end.

(** The method is [noexcept]: an exception ends the process. *)
Definition receive (uri mess : bytes) (m : BlockchainModule) : option BlockchainModule :=
  match processIncomingMessage uri mess m with
  | (Ok _, m') => Some m'
  | _ => None
  end.

(** ** Workers *)
Inductive Worker := Consensus | Internetwork | Validator.

#[global] Instance Worker_eq_dec : EqDecision Worker.
Proof. solve_decision. Defined.

Definition worker_group (w : Worker) (m : BlockchainModule) : ThreadGroup :=
  match w with
  | Consensus => bm_consensus m | Internetwork => bm_internetwork m | Validator => bm_validator m
  end.

Definition set_group (w : Worker) (m : BlockchainModule) (g : ThreadGroup) : BlockchainModule :=
  match w with
  | Consensus => set_consensus m g
  | Internetwork => set_internetwork m g
  | Validator => set_validator m g
  end.

Definition worker_callback (w : Worker) (clock : nat -> Z) (context : DevcashContext)
    (mode : eAppMode) (msg : DevcashMessage) : M Node unit :=
  match w with
  | Consensus => consensusCallback (clock O) msg context keys
  | Internetwork => messageCallback clock msg context mode keys
  | Validator => validatorCallback (Some msg) context keys
  end.

(** One turn of [ThreadGroup::loop]; [None]: the process has ended. *)
Definition worker_turn (w : Worker) (clock : nat -> Z) (context : DevcashContext) (mode : eAppMode)
    (i : nat) (m : BlockchainModule) : option BlockchainModule :=
  let g := worker_group w m in
  if do_run_ g && thread_alive g then
    match ThreadGroupOps.pop g i with
    | Some (msg, g') =>
        match worker_callback w clock context mode msg (bm_node m) with
        | (Ok _, n') => Some (set_group w (set_node m n') g')
        | (Err e, n') =>
            if is_std_exception e
            then Some (set_group w (set_node m n') (ThreadGroupOps.exit g'))
            else None
        | _ => None
        end
    | None => Some m
    end
  else Some m.

(** ** The network *)
Record Net := mkNet {
  proc : nat -> option BlockchainModule;
  inbox : nat -> list (bytes * bytes)
}.

(** [links i j]: process [j] connects its client to the server of [i]; every
    process connects its loopback client to its own. *)
Context (contexts : nat -> DevcashContext) (mode : eAppMode) (links : nat -> nat -> bool).

Definition hears (i j : nat) (m : BlockchainModule) (uri : bytes) : bool :=
  links i j && subscribed (bm_client_filters m) uri
  || bool_decide (i = j) && subscribed (bm_loopback_filters m) uri.

Definition publish (i : nat) (msg : DevcashMessage) (net : Net) (j : nat) : list (bytes * bytes) :=
  match proc net j with
  | Some m => if hears i j m (m_uri msg) then inbox net j ++ [sendMessage msg] else inbox net j
  | None => inbox net j
  end.

Definition next_published (m : BlockchainModule) : BlockchainModule :=
  mkModule (bm_node m) (bm_consensus m) (bm_internetwork m) (bm_validator m) (bm_remote_blocks m)
    (bm_client_filters m) (bm_loopback_filters m) (S (bm_published m)).

Inductive net_step (net : Net) : Net -> Prop :=
| ns_publish i m msg :
    proc net i = Some m -> n_sent (bm_node m) !! bm_published m = Some msg ->
    net_step net (mkNet (<[i := Some (next_published m)]> (proc net)) (publish i msg net))
| ns_receive j m k frame :
    proc net j = Some m -> inbox net j !! k = Some frame ->
    net_step net (mkNet (<[j := receive frame.1 frame.2 m]> (proc net))
                        (<[j := delete k (inbox net j)]> (inbox net)))
| ns_drop j k :
    net_step net (mkNet (proc net) (<[j := delete k (inbox net j)]> (inbox net)))
| ns_inject j frame :
    net_step net (mkNet (proc net) (<[j := inbox net j ++ [frame]]> (inbox net)))
| ns_work j m w clock k :
    proc net j = Some m -> room (bm_node m) ->
    net_step net (mkNet (<[j := worker_turn w clock (contexts j) mode k m]> (proc net)) (inbox net))
| ns_tick j m :
    proc net j = Some m ->
    net_step net (mkNet (<[j := Some (bm_tick (contexts j) m)]> (proc net)) (inbox net)).

Definition net_start (max_tx remote : Z) : Net :=
  mkNet (fun j => Some (bm_start (contexts j) (bm_ctor mode max_tx remote))) (fun _ => []).
End network.

(** ** The invariant of a process

    [node_ok] of its node, and in each queue only messages of the types that the
    controller behind it handles. *)
Definition handles (w : Worker) (t : Z) : Prop :=
  match w with
  | Consensus => t = eMessageType.FINAL_BLOCK \/ t = eMessageType.PROPOSAL_BLOCK \/ t = eMessageType.VALID
  | Internetwork =>
      t = eMessageType.GET_BLOCKS_SINCE \/ t = eMessageType.BLOCKS_SINCE \/ t = eMessageType.REQUEST_BLOCK
  | Validator => t = eMessageType.TRANSACTION_ANNOUNCEMENT
  end.

Ltac unfold_types :=
  unfold eMessageType.FINAL_BLOCK, eMessageType.PROPOSAL_BLOCK, eMessageType.TRANSACTION_ANNOUNCEMENT,
    eMessageType.VALID, eMessageType.REQUEST_BLOCK, eMessageType.GET_BLOCKS_SINCE,
    eMessageType.BLOCKS_SINCE, eMessageType.NUM_TYPES in *.

Lemma handles_unique w w' t : handles w t -> handles w' t -> w = w'.
Proof. destruct w, w'; cbn; unfold_types; (done || lia). Qed.

Lemma handles_range w t : handles w t -> 0 <= t < eMessageType.NUM_TYPES.
Proof. destruct w; cbn; unfold_types; lia. Qed.

Section invariant.
Context `{Crypto} `{PubSub} (keys : KeyRing).

Definition typed (m : BlockchainModule) : Prop :=
  forall w, Forall (fun msg => handles w (m_type msg)) (thread_queue_ (worker_group w m)).

Definition module_ok (m : BlockchainModule) : Prop := node_ok keys (bm_node m) /\ typed m.

Lemma group_set_group w w' m g :
  worker_group w (set_group w' m g) =
    match w, w' with
    | Consensus, Consensus | Internetwork, Internetwork | Validator, Validator => g
    | _, _ => worker_group w m
    end.
Proof. by destruct w, w'. Qed.

Lemma typed_set_group w m g :
  typed m -> Forall (fun msg => handles w (m_type msg)) (thread_queue_ g) -> typed (set_group w m g).
Proof. intros T F w'. rewrite group_set_group. pose proof (T w'). by destruct w', w. Qed.

Lemma push_typed w m msg : typed m -> handles w (m_type msg) ->
  typed (set_group w m (ThreadGroupOps.pushMessage (worker_group w m) msg)).
Proof.
  intros T Hh. apply typed_set_group; [done|]. cbn. apply Forall_app. split; [apply T | by constructor].
Qed.

(** What the switch does with a message. *)
Lemma handleMessage_spec msg m :
  match handleMessage msg m with
  | (Ok _, m') => exists w, handles w (m_type msg) /\
      m' = set_group w m (ThreadGroupOps.pushMessage (worker_group w m) msg)
  | (Err e, m') => e = DevcashMessageError /\ m' = m /\ forall w, ~ handles w (m_type msg)
  | _ => False
  end.
Proof.
  unfold handleMessage. rewrite bind_get. cbv zeta.
  repeat match goal with
  | |- context [if m_type msg =? ?t then _ else _] =>
      destruct (m_type msg =? t) eqn:?; bool_to_prop;
      [cbn; first [by exists Validator | exists Internetwork; split; [by cbn; auto | done]
                  | exists Consensus; split; [by cbn; auto | done]]|]
  end.
  cbn. split; [done|]. split; [done|]. intros []; cbn; intuition.
Qed.

Lemma receive_ok uri mess m m' : module_ok m -> receive uri mess m = Some m' -> module_ok m'.
Proof.
  intros [N T] E. unfold receive, processIncomingMessage in E.
  destruct uri as [|u uri]; [by injection E as <-|]. destruct mess as [|c mess]; [by injection E as <-|].
  rewrite bind_lift in E. destruct (deserialize _) as [msg| | |]; try done.
  pose proof (handleMessage_spec msg m) as S. destruct (handleMessage msg m) as [[[]| | |] m1]; try done.
  simplify_eq. destruct S as (w & Hw & ->). split; [by destruct w | by apply push_typed].
Qed.

Lemma pop_typed w m i msg g : typed m -> ThreadGroupOps.pop (worker_group w m) i = Some (msg, g) ->
  handles w (m_type msg) /\ Forall (fun msg => handles w (m_type msg)) (thread_queue_ g).
Proof.
  intros T E. unfold ThreadGroupOps.pop in E. case_match eqn:L; [|done]. simplify_eq.
  split; [by apply (Forall_lookup_1 _ _ _ _ (T w) L)|]. cbn. apply Forall_delete, T.
Qed.

Lemma worker_step w clock context mode msg n r n' :
  room n -> worker_callback keys w clock context mode msg n = (r, n') -> alive r ->
  node_step keys context n n'.
Proof.
  intros R E Al. destruct w; cbn [worker_callback] in E;
    [by eapply step_consensus | by eapply step_internetwork | by eapply step_validator].
Qed.

Lemma worker_turn_ok w clock context mode i m m' :
  signable keys context -> module_ok m -> room (bm_node m) ->
  worker_turn keys w clock context mode i m = Some m' -> module_ok m'.
Proof.
  intros Hs [N T] R E. unfold worker_turn in E. case_match; [|by simplify_eq].
  destruct (ThreadGroupOps.pop _ _) as [[msg g]|] eqn:Ep; [|by simplify_eq].
  destruct (pop_typed w m i msg g T Ep) as [_ F].
  destruct (worker_callback _ _ _ _ _ _ _) as [r n'] eqn:Ec.
  assert (alive r -> node_ok keys n') as Hn.
  { intros Al. eapply node_step_ok; [done | exact N | by eapply worker_step]. }
  destruct r as [u|e| |]; try done; [|case_match eqn:Es; [|done]]; simplify_eq.
  - split; [destruct w; by apply Hn | apply typed_set_group; [by intros []; apply T | done]].
  - split; [destruct w; by apply Hn | apply typed_set_group; [by intros []; apply T | done]].
Qed.

Lemma tick_ok context m : module_ok m -> module_ok (bm_tick context m).
Proof. intros [N T]. unfold bm_tick. case_match; [|done]. split; [apply N | by intros []; apply T]. Qed.

Lemma start_ok context mode max_tx remote :
  module_ok (bm_start context (bm_ctor mode max_tx remote)).
Proof. split; [apply node_start_ok | intros []; constructor]. Qed.

(** ** The network *)
Context (contexts : nat -> DevcashContext) (mode : eAppMode) (links : nat -> nat -> bool).
Context (Hs : forall j, signable keys (contexts j)).

Definition net_ok (net : Net) : Prop := forall j m, proc net j = Some m -> module_ok m.

Lemma insert_ok (net : Net) j o : net_ok net -> (forall m, o = Some m -> module_ok m) ->
  forall k m, (<[j := o]> (proc net)) k = Some m -> module_ok m.
Proof.
  intros N Ho k m. destruct (decide (j = k)) as [-> | Ne].
  - rewrite fn_lookup_insert. apply Ho.
  - rewrite fn_lookup_insert_ne by done. apply N.
Qed.

Lemma net_step_ok net net' : net_ok net -> net_step keys contexts mode links net net' -> net_ok net'.
Proof.
  intros N [i m msg Em El | j m k f Em El | j k | j f | j m w clock k Em R | j m Em]; try exact N;
    intros k0 m0; cbn [proc]; revert k0 m0; apply (insert_ok net _ _ N); intros m' E.
  - simplify_eq. apply (N i m Em).
  - eapply receive_ok; [by apply (N j) | done].
  - eapply worker_turn_ok; [apply Hs | by apply (N j) | done | done].
  - simplify_eq. by apply tick_ok, (N j).
Qed.

Lemma net_reachable_ok max_tx remote net :
  rtc (net_step keys contexts mode links) (net_start contexts mode max_tx remote) net -> net_ok net.
Proof.
  revert net. apply rtc_ind_r.
  - intros j m [= <-]. apply start_ok.
  - intros y z _ St N. by eapply net_step_ok.
Qed.
End invariant.

(** ** Addresses

    A filter is a prefix: one decimal number can begin with another. *)
Lemma digits_app f : forall n acc, digits f n acc = digits f n [] ++ acc.
Proof.
  induction f as [|f IH]; intros n acc; [done|]. cbn [digits]. case_match; [done|].
  rewrite IH, (IH _ [_]), <- app_assoc. done.
Qed.

Lemma digits_fuel f : forall n acc, 0 <= n < 10 ^ Z.of_nat f -> (0 < f)%nat ->
  digits (S f) n acc = digits f n acc.
Proof.
  induction f as [|f IH]; intros n acc Hn Hf; [lia|]. remember (S f) as g. cbn [digits]. subst g.
  cbn [digits]. case_match; [done|]. bool_to_prop. destruct f as [|f]; [cbn in Hn; lia|].
  apply IH; [|lia]. split; [apply Z.div_pos; lia|]. apply Z.div_lt_upper_bound; [lia|].
  rewrite Nat2Z.inj_succ, Z.pow_succ_r in Hn by lia. lia.
Qed.

(** Ten times a number prints as the number and a zero. *)
Lemma to_string_ten i : 0 < i < 2 ^ 32 -> to_string (10 * i) = to_string i ++ [48].
Proof.
  intros Hi. unfold to_string. rewrite !(proj2 (Z.ltb_ge _ 0)) by lia.
  assert (digits 20 (10 * i) [] = digits 19 i [48]) as ->.
  { change 20%nat with (S 19). remember 19%nat as f. cbn [digits].
    rewrite (proj2 (Z.ltb_ge _ _)) by lia.
    replace ((10 * i) mod 10) with 0 by (rewrite Z.mul_comm, Z.mod_mul; lia).
    by replace (10 * i / 10) with i by (rewrite Z.mul_comm, Z.div_mul; lia). }
  rewrite digits_app. f_equal. symmetry. apply digits_fuel; [|lia].
  change (10 ^ Z.of_nat 19) with 10000000000000000000. lia.
Qed.

Lemma to_string_small i : 0 <= i < 10 -> to_string i = [48 + i].
Proof.
  intros Hi. unfold to_string. rewrite (proj2 (Z.ltb_ge _ 0)) by lia. cbn [digits].
  rewrite (proj2 (Z.ltb_lt _ _)) by lia. by rewrite Z.mod_small.
Qed.

Section addressing.
Context `{PubSub}.

(** A filter and a topic with a common first part. *)
Lemma matches_app p a b : zmq_matches (p ++ a) (p ++ b) = true <-> a `prefix_of` b.
Proof. rewrite zmq_prefix. split; [apply prefix_app_inv | apply prefix_app]. Qed.

Lemma small_prefix i j : 0 <= i < 10 -> 0 <= j < 10 ->
  to_string i `prefix_of` to_string j <-> i = j.
Proof.
  intros Hi Hj. rewrite !to_string_small by done. split; [|by intros ->].
  intros [k E]. simplify_list_eq. lia.
Qed.

Lemma heads_differ c d a b : c <> d -> zmq_matches (c :: a) (d :: b) = false.
Proof.
  intros N. destruct (zmq_matches _ _) eqn:E; [|done]. apply zmq_prefix in E as [k E]. by simplify_list_eq.
Qed.

(** The index of a node of the first shards. *)
Definition index_of (c : DevcashContext) : Z :=
  u32 (current_node_ c + current_shard_ c * ContextOps.get_peer_count c).

(** What a started process hears of messages to a node and to a shard. *)
Lemma hears_node c m0 j : bm_client_filters m0 = [] ->
  subscribed (bm_client_filters (bm_start c m0)) (ContextOps.get_uri_from_index c j) = true <->
  to_string (index_of c) `prefix_of` to_string (u32 j).
Proof.
  intros E. unfold subscribed, bm_start. cbn [bm_client_filters]. rewrite E. cbn [app existsb].
  assert (zmq_matches (ContextOps.get_shard_uri c) (ContextOps.get_uri_from_index c j) = false) as ->
    by (by apply heads_differ).
  rewrite orb_false_r. cbn [orb]. apply matches_app.
Qed.

Lemma hears_shard c m0 c' : bm_client_filters m0 = [] ->
  subscribed (bm_client_filters (bm_start c m0)) (ContextOps.get_shard_uri c') = true <->
  to_string (current_shard_ c) `prefix_of` to_string (current_shard_ c').
Proof.
  intros E. unfold subscribed, bm_start. cbn [bm_client_filters]. rewrite E. cbn [app existsb].
  assert (zmq_matches (ContextOps.get_uri c) (ContextOps.get_shard_uri c') = false) as ->
    by (by apply heads_differ).
  rewrite !orb_false_r. apply matches_app.
Qed.
End addressing.

(** ** Receiving *)
Section receiving.
Context `{Crypto}.

Lemma serialize_nonempty m : message_ok m -> serialize m <> [].
Proof. intros Ho E. pose proof (deserialize_serialize m Ho) as R. by rewrite E in R. Qed.

Lemma receive_run msg m : message_ok msg -> m_uri msg <> [] ->
  receive (sendMessage msg).1 (sendMessage msg).2 m =
    match handleMessage msg m with (Ok _, m') => Some m' | _ => None end.
Proof.
  intros Ho Hu. unfold receive, sendMessage, processIncomingMessage. cbn [fst snd].
  pose proof (deserialize_serialize msg Ho) as R. pose proof (serialize_nonempty msg Ho).
  destruct (m_uri msg) eqn:Eu; [done|]. destruct (serialize msg) eqn:Es; [done|].
  by rewrite bind_lift, R.
Qed.
End receiving.
