(* ===== verification/Sockets.v ===== *)
(** * The sockets of io/message_service.cpp, through io/zhelpers.hpp

    A server writes a message as two parts, the uri and the bytes; a client reads
    two parts for every message.  ZeroMQ is not part of the sources: [ZeroMQ] is
    the calls of cppzmq that the helpers make, [ZeroMQLaws] what is documented of
    them.  [Network] gives a client whole messages; here is what a client makes
    of the parts. *)

From Stdlib Require Import ZArith Lia.
From stdpp Require Import base list numbers.
From S2P Require Import Prelude Converters Message.

#[local] Open Scope Z_scope.

Class ZeroMQ := {
  pub_socket : Type;
  sub_socket : Type;
  (** [send(message, flags)], with [ZMQ_SNDMORE] or without: whether it was
      taken *)
  zmq_send : bool -> bytes -> pub_socket -> bool * pub_socket;
  (** [recv(&message)]; [None]: nothing for the time of [ZMQ_RCVTIMEO], and the
      message stays empty *)
  zmq_recv : sub_socket -> option bytes * sub_socket
}.

Class ZeroMQLaws `{ZeroMQ} := {
  (** the messages written, each a list of parts, and the parts of the one that
      is being written *)
  written : pub_socket -> list (list bytes);
  unfinished : pub_socket -> list bytes;
  (** the parts that have arrived, the first one first *)
  arrived : sub_socket -> list bytes;
  (** a [ZMQ_PUB] socket never blocks *)
  send_more p s : exists s', zmq_send true p s = (true, s') /\
    written s' = written s /\ unfinished s' = unfinished s ++ [p];
  send_last p s : exists s', zmq_send false p s = (true, s') /\
    written s' = written s ++ [unfinished s ++ [p]] /\ unfinished s' = [];
  recv_none s : arrived s = [] -> zmq_recv s = (None, s);
  recv_part p l s : arrived s = p :: l -> exists s', zmq_recv s = (Some p, s') /\ arrived s' = l
}.

Section sockets.
Context `{ZeroMQ}.

(** ** io/zhelpers.hpp *)
Definition s_send (buf : bytes) : M pub_socket bool := fun s =>
  let '(rc, s') := zmq_send false buf s in (Ok rc, s').

Definition s_sendmore (string : bytes) : M pub_socket bool := fun s =>
  let '(rc, s') := zmq_send true string s in (Ok rc, s').

Definition s_recv : M sub_socket bytes := fun s =>
  let '(message, s') := zmq_recv s in (Ok (default [] message), s').

Definition s_vrecv : M sub_socket bytes := fun s =>
  let '(message, s') := zmq_recv s in (Ok (default [] message), s').

(** ** io/message_service.cpp *)

(** [zeroPrepend] of the header. *)
Definition zeroPrepend (number : bytes) (num_width : Z) : bytes :=
  if num_width <=? zlen number then number
  else
    let to_pad := num_width - zlen number in
    replicate (Z.to_nat to_pad) 48 ++ number.

(** [TransactionServer::sendMessage], while the server runs. *)
Definition socket_sendMessage (dc_message : DevcashMessage) : M pub_socket unit :=
  let buffer := serialize dc_message in
  s_sendmore (m_uri dc_message);;
  s_send buffer;;
  mret tt.

Fixpoint socket_send_all (ms : list DevcashMessage) : M pub_socket unit :=
  match ms with
  | [] => mret tt
  | m :: ms' => socket_sendMessage m;; socket_send_all ms'
  end.

(** [TransactionClient::processIncomingMessage]; the callback has a state of its
    own. *)
Context {S : Type} (callback : DevcashMessage -> M S unit).

Definition on_socket {A} (m : M sub_socket A) : M (S * sub_socket) A := fun s =>
  let '(r, k) := m s.2 in (r, (s.1, k)).
Definition on_state {A} (m : M S A) : M (S * sub_socket) A := fun s =>
  let '(r, q) := m s.1 in (r, (q, s.2)).

Definition processIncoming : M (S * sub_socket) unit :=
  uri ← on_socket s_recv;
  match uri with
  | [] => mret tt
  | _ =>
      mess ← on_socket s_vrecv;
      match mess with
      | [] => mret tt
      | _ =>
          devcash_message ← lift (deserialize mess);
          on_state (callback devcash_message)
      end
  end.

(** The loop of [TransactionClient::run]; [processIncomingMessage] is
    [noexcept]: [None] when the process has ended. *)
Fixpoint client_turns (k : nat) (s : S * sub_socket) : option (S * sub_socket) :=
  match k with
  | O => Some s
  | Datatypes.S k' =>
      match processIncoming s with
      | (Ok _, s') => client_turns k' s'
      | _ => None
      end
  end.

(** The callback on one message after the other. *)
Fixpoint handle_all (ms : list DevcashMessage) (q : S) : option S :=
  match ms with
  | [] => Some q
  | m :: ms' => match callback m q with (Ok _, q') => handle_all ms' q' | _ => None end
  end.
End sockets.

(** ** Messages and parts *)
Section parts.
Context `{ZeroMQLaws}.

Definition parts_of (m : DevcashMessage) : list bytes := [m_uri m; serialize m].

(** What a server writes: the two parts of every message, in order. *)
Lemma sent_parts ms : forall s, unfinished s = [] ->
  exists s', socket_send_all ms s = (Ok tt, s') /\ unfinished s' = [] /\
    written s' = written s ++ (parts_of <$> ms).
Proof.
  induction ms as [|m ms IH]; intros s U; [exists s; by rewrite app_nil_r|].
  destruct (send_more (m_uri m) s) as (s1 & E1 & W1 & U1).
  destruct (send_last (serialize m) s1) as (s2 & E2 & W2 & U2).
  destruct (IH s2 U2) as (s' & E & U' & W). exists s'.
  cbn [socket_send_all]. unfold socket_sendMessage, s_sendmore, s_send, mbind, M_bind, mret, M_ret.
  rewrite E1, E2. split; [exact E|]. split; [done|].
  rewrite W, W2, W1, U1, U, <- app_assoc. done.
Qed.

Context {S : Type} (callback : DevcashMessage -> M S unit).

Lemma recv_next p l k (q : S) : arrived k = p :: l ->
  exists k', on_socket s_recv (q, k) = (Ok p, (q, k')) /\ on_socket s_vrecv (q, k) = (Ok p, (q, k')) /\
    arrived k' = l.
Proof.
  intros A. destruct (recv_part p l k A) as (k' & E & A'). exists k'.
  unfold on_socket, s_recv, s_vrecv. cbn [fst snd]. by rewrite E.
Qed.

(** Two parts that are not empty: the second is read as a message. *)
Lemma process_pair u v l q k : arrived k = u :: v :: l -> u <> [] -> v <> [] ->
  exists k', arrived k' = l /\
    processIncoming callback (q, k) = (msg ← lift (deserialize v); on_state (callback msg)) (q, k').
Proof.
  intros A Nu Nv. destruct (recv_next u (v :: l) k q A) as (k1 & E1 & _ & A1).
  destruct (recv_next v l k1 q A1) as (k2 & _ & E2 & A2). exists k2. split; [done|].
  unfold processIncoming. rewrite (bind_ok _ _ _ _ _ E1). destruct u; [done|].
  rewrite (bind_ok _ _ _ _ _ E2). by destruct v.
Qed.

(** Nothing has arrived. *)
Lemma process_quiet q k : arrived k = [] -> processIncoming callback (q, k) = (Ok tt, (q, k)).
Proof.
  intros A. unfold processIncoming, on_socket, s_recv, mbind, M_bind. cbn [fst snd].
  by rewrite recv_none.
Qed.

(** Messages as a server writes them. *)
Definition sendable_message (m : DevcashMessage) : Prop := message_ok m /\ m_uri m <> [].

Lemma serialize_some m : message_ok m -> serialize m <> [].
Proof. intros Ho E. pose proof (deserialize_serialize m Ho) as R. by rewrite E in R. Qed.

Lemma turns_handle ms : forall l q k, Forall sendable_message ms ->
  arrived k = concat (parts_of <$> ms) ++ l ->
  match handle_all callback ms q with
  | Some q' => exists k', arrived k' = l /\ client_turns callback (length ms) (q, k) = Some (q', k')
  | None => client_turns callback (length ms) (q, k) = None
  end.
Proof.
  induction ms as [|m ms IH]; intros l q k F A; [by exists k|].
  apply list.Forall_cons in F as [[Ho Hu] F]. cbn [fmap list_fmap concat parts_of app] in A.
  destruct (process_pair _ _ _ q k A Hu (serialize_some m Ho)) as (k1 & A1 & E).
  cbn [handle_all length client_turns]. rewrite E, bind_lift, deserialize_serialize by done.
  unfold on_state. cbn [fst snd]. destruct (callback m q) as [[[]|e| |] q1]; try done. by apply IH.
Qed.

(** The first byte of a message is the version of its header. *)
Lemma deserialize_other c v : c <> kMSG_HEADER -> deserialize (c :: v) = Err AssertionFailure.
Proof.
  intros N. unfold deserialize, extract. rewrite zlen_cons. pose proof (zlen_nonneg v).
  rewrite (proj2 (Z.leb_le _ _)) by lia. cbn [negb].
  rewrite (vec_range_prefix [c] v) by done. cbn [mbind res_bind fst].
  change (vec_idx [c] 0) with (Ok c). cbn [mbind res_bind]. by rewrite (proj2 (Z.eqb_neq _ _)).
Qed.
End parts.

(** A number is padded to the width and never cut, and the padding can be taken
    off again. *)
Lemma zeroPrepend_pads number num_width :
  zlen (zeroPrepend number num_width) = Z.max num_width (zlen number) /\
  drop (length (zeroPrepend number num_width) - length number) (zeroPrepend number num_width) = number.
Proof.
  unfold zeroPrepend. destruct (num_width <=? zlen number) eqn:E; bool_to_prop.
  - split; [lia|]. by rewrite Nat.sub_diag.
  - unfold zlen in *. rewrite length_app, length_replicate. split; [lia|].
    apply drop_app_length'. rewrite length_replicate. lia.
Qed.
