(* ===== verification/Service.v ===== *)
(** * io/message_service.{h,cpp}: starting and stopping; concurrency/DevcashMPMCQueue.h;
    concurrency/ThreadGroup.cpp: stopping

    A server, a client and a thread group are each an owner, who calls the
    methods, and threads of their own.  Their flags are plain or atomic
    booleans; each step below is one access, and the steps of the owner, of the
    threads and of the producers interleave in any order.  The queue of
    moodycamel keeps the order of each producer's messages, not that between
    producers; a wait that times out has seen it empty. *)

From Stdlib Require Import ZArith Lia.
From stdpp Require Import relations.
From stdpp Require Import base list numbers.
From S2P Require Import Prelude Keys KeyRing Context Transactions Blocks Message Blockchain Pool.
From S2P Require Import Handlers Node Network.

(** ** DevcashMPMCQueue *)
Module Queue.
Section queue.
Context {A : Type}.

(** A message with the thread that pushed it. *)
Record t := mkQueue { items : list (nat * A); keep_popping_ : bool }.

Definition ctor : t := mkQueue [] true.

Definition push (q : t) (producer : nat) (a : A) : t :=
  mkQueue (items q ++ [(producer, a)]) (keep_popping_ q).

(** The messages of one producer, in the order of their pushes. *)
Definition from (p : nat) (l : list (nat * A)) : list A :=
  snd <$> filter (fun e => e.1 = p) l.

(** [wait_dequeue_timed] returns the [i]th message: the oldest of its producer. *)
Definition take (q : t) (i : nat) : option (nat * A * t) :=
  match items q !! i with
  | Some e =>
      if bool_decide (Forall (fun x => x.1 <> e.1) (list.take i (items q)))
      then Some (e, mkQueue (delete i (items q)) (keep_popping_ q)) else None
  | None => None
  end.

(** It timed out: [pop] returns [nullptr], or waits again. *)
Definition timeout (q : t) : option bool :=
  match items q with [] => Some (negb (keep_popping_ q)) | _ => None end.

Definition ClearBlockers (q : t) : t := mkQueue (items q) false.

(** What is taken of a producer is the first of what it pushed. *)
Lemma from_app p l l' : from p (l ++ l') = from p l ++ from p l'.
Proof. unfold from. by rewrite list.filter_app, fmap_app. Qed.

Lemma from_none p l : Forall (fun x => x.1 <> p) l -> from p l = [].
Proof.
  unfold from. induction 1 as [|x l N _ IH]; [done|]. by rewrite filter_cons_False.
Qed.

Lemma from_one p e : from p [e] = if decide (e.1 = p) then [e.2] else [].
Proof.
  unfold from. destruct (decide (e.1 = p)); [by rewrite filter_cons_True | by rewrite filter_cons_False].
Qed.

Lemma take_order q i e q' p :
  take q i = Some (e, q') ->
  from p (items q) = (if decide (e.1 = p) then [e.2] else []) ++ from p (items q').
Proof.
  unfold take. destruct (items q !! i) as [e'|] eqn:L; [|done]. case_bool_decide as F; [|done].
  intros [= -> <-]. cbn [items].
  assert (items q = list.take i (items q) ++ e :: drop (S i) (items q)) as E
    by (symmetry; by apply take_drop_middle).
  rewrite delete_take_drop. rewrite E at 1. rewrite !from_app. destruct (decide (e.1 = p)) as [<-|N].
  - rewrite (from_none _ _ F). unfold from at 1. by rewrite filter_cons_True.
  - unfold from at 2. rewrite filter_cons_False by done. done.
Qed.
End queue.
Arguments t : clear implicits.
End Queue.

(** ** TransactionServer *)
Module Server.
Section server.
Context {Msg : Type}.

(** Where the server's thread is: in [pop], about to call [sendMessage], at the
    test that ends the loop, or out of [run]. *)
Inductive pc := NoThread | AtPop | AtSend (e : nat * Msg) | AtTest | Ended.

(** Where its owner is: in none of its methods; in [startServer], with the
    thread created, then [server_thread_] assigned; in [stopServer], with the
    flag cleared, then joining. *)
Inductive call := Free | Created | Assigned | Flagged | Joining.

Record TransactionServer := mkServer {
  message_queue_ : Queue.t Msg;
  keep_running_ : bool;
  server_thread_ : bool;
  s_pc : pc;
  s_call : call;
  s_queued : list (nat * Msg);            (* every message queued, in order *)
  s_taken : list (nat * Msg * bool)       (* every message popped; whether it was sent *)
}.

Definition ctor : TransactionServer := mkServer Queue.ctor false false NoThread Free [] [].

Definition set_pc (s : TransactionServer) (p : pc) : TransactionServer :=
  mkServer (message_queue_ s) (keep_running_ s) (server_thread_ s) p (s_call s) (s_queued s) (s_taken s).
Definition set_call (s : TransactionServer) (c : call) : TransactionServer :=
  mkServer (message_queue_ s) (keep_running_ s) (server_thread_ s) (s_pc s) c (s_queued s) (s_taken s).
Definition set_running (s : TransactionServer) (b : bool) : TransactionServer :=
  mkServer (message_queue_ s) b (server_thread_ s) (s_pc s) (s_call s) (s_queued s) (s_taken s).
Definition set_queue (s : TransactionServer) (q : Queue.t Msg) : TransactionServer :=
  mkServer q (keep_running_ s) (server_thread_ s) (s_pc s) (s_call s) (s_queued s) (s_taken s).

Definition queueMessage (s : TransactionServer) (producer : nat) (m : Msg) : TransactionServer :=
  mkServer (Queue.push (message_queue_ s) producer m) (keep_running_ s) (server_thread_ s) (s_pc s)
    (s_call s) (s_queued s ++ [(producer, m)]) (s_taken s).

(** [sendMessage]: a message that arrives while the flag is down is discarded. *)
Definition sendMessage (s : TransactionServer) (e : nat * Msg) : TransactionServer :=
  mkServer (message_queue_ s) (keep_running_ s) (server_thread_ s) AtTest (s_call s) (s_queued s)
    (s_taken s ++ [(e, keep_running_ s)]).

(** [startServer], step by step: the thread runs before the flag is raised. *)
Definition startServer (s : TransactionServer) : option TransactionServer :=
  match s_call s with
  | Free => if keep_running_ s then Some s else Some (set_call (set_pc s AtPop) Created)
  | Created =>
      Some (mkServer (message_queue_ s) (keep_running_ s) true (s_pc s) Assigned (s_queued s) (s_taken s))
  | Assigned => Some (set_call (set_running s true) Free)
  | _ => None
  end.

(** [stopServer], step by step. *)
Definition stopServer (s : TransactionServer) : option TransactionServer :=
  match s_call s with
  | Free => if keep_running_ s then Some (set_call (set_running s false) Flagged) else Some s
  | Flagged => Some (set_call (set_queue s (Queue.ClearBlockers (message_queue_ s))) Joining)
  | Joining => match s_pc s with Ended => Some (set_call s Free) | _ => None end
  | _ => None
  end.

(** [run]: [pop] with a message or with a timeout, [sendMessage], the test. *)
Definition run_pop (s : TransactionServer) (i : nat) : option TransactionServer :=
  match s_pc s with
  | AtPop =>
      match Queue.take (message_queue_ s) i with
      | Some (e, q) => Some (set_pc (set_queue s q) (AtSend e))
      | None => None
      end
  | _ => None
  end.

Definition run_timeout (s : TransactionServer) : option TransactionServer :=
  match s_pc s with
  | AtPop =>
      match Queue.timeout (message_queue_ s) with
      | Some null => Some (if null then set_pc s Ended else s)
      | None => None
      end
  | _ => None
  end.

Definition run_send (s : TransactionServer) : option TransactionServer :=
  match s_pc s with AtSend e => Some (sendMessage s e) | _ => None end.

Definition run_test (s : TransactionServer) : option TransactionServer :=
  match s_pc s with
  | AtTest => Some (set_pc s (if server_thread_ s && negb (keep_running_ s) then Ended else AtPop))
  | _ => None
  end.

Inductive event :=
| Produce (producer : nat) (m : Msg) | Start | Stop
| Pop (i : nat) | Timeout | Send | Test.

Definition exec1 (e : event) (s : TransactionServer) : option TransactionServer :=
  match e with
  | Produce p m => Some (queueMessage s p m)
  | Start => startServer s
  | Stop => stopServer s
  | Pop i => run_pop s i
  | Timeout => run_timeout s
  | Send => run_send s
  | Test => run_test s
  end.

Fixpoint exec (es : list event) (s : TransactionServer) : option TransactionServer :=
  match es with
  | [] => Some s
  | e :: rest => s' ← exec1 e s; exec rest s'
  end.

Definition step (s s' : TransactionServer) : Prop := exists e, exec1 e s = Some s'.

Lemma server_exec_steps es : forall s s', exec es s = Some s' -> rtc step s s'.
Proof.
  induction es as [|e es IH]; intros s s' E; cbn [exec] in E; [by injection E as ->|].
  destruct (exec1 e s) as [s1|] eqn:E1; [|done]. eapply rtc_l; [by exists e | by apply IH].
Qed.

(** ** Where the owner and the thread can be *)
Definition in_flight (s : TransactionServer) : list (nat * Msg) :=
  match s_pc s with AtSend e => [e] | _ => [] end.

Definition phase_ok (s : TransactionServer) : Prop :=
  match s_call s with
  | Free =>
      if keep_running_ s then server_thread_ s = true /\ s_pc s <> NoThread
      else s_pc s = NoThread \/ s_pc s = Ended
  | Created | Assigned => keep_running_ s = false /\ s_pc s <> NoThread
  | Flagged | Joining => keep_running_ s = false /\ server_thread_ s = true /\ s_pc s <> NoThread
  end /\
  (s_call s = Assigned -> server_thread_ s = true) /\
  (s_call s = Joining -> Queue.keep_popping_ (message_queue_ s) = false).

(** ** The order of messages *)
Definition order_ok (s : TransactionServer) : Prop := forall p,
  Queue.from p (s_queued s) =
    Queue.from p (fst <$> s_taken s) ++ Queue.from p (in_flight s) ++
    Queue.from p (Queue.items (message_queue_ s)).

Definition server_ok (s : TransactionServer) : Prop := phase_ok s /\ order_ok s.

Lemma take_popping q i e q' :
  Queue.take q i = Some (e, q') -> Queue.keep_popping_ q' = Queue.keep_popping_ (A := Msg) q.
Proof. unfold Queue.take. repeat case_match; intros; by simplify_eq. Qed.

Lemma server_phase_exec1 e s s' : phase_ok s -> exec1 e s = Some s' -> phase_ok s'.
Proof.
  intros (P1 & P2 & P3) E. destruct e as [p m| | |i| | |]; cbn [exec1] in E.
  - by injection E as <-.
  - unfold startServer in E.
    destruct (s_call s) eqn:C; try done; [destruct (keep_running_ s) eqn:K | |]; injection E as <-;
      unfold phase_ok; cbn; rewrite ?C, ?K; try specialize (P2 eq_refl); intuition congruence.
  - unfold stopServer in E.
    destruct (s_call s) eqn:C; try done; [destruct (keep_running_ s) eqn:K | |];
      [..|destruct (s_pc s) eqn:Ep; try done]; injection E as <-;
      unfold phase_ok; cbn; rewrite ?C, ?K, ?Ep; intuition (try congruence).
    rewrite H. by right.
  - unfold run_pop in E. destruct (s_pc s) eqn:Ep; try done.
    destruct (Queue.take (message_queue_ s) i) as [[e q]|] eqn:T; [|done]. injection E as <-.
    split; [|split; [exact P2 | cbn; by rewrite (take_popping _ _ _ _ T)]].
    cbn. destruct (s_call s); [destruct (keep_running_ s)|..]; intuition congruence.
  - unfold run_timeout in E. destruct (s_pc s) eqn:Ep; try done.
    destruct (Queue.timeout (message_queue_ s)) as [[]|]; try done; injection E as <-; [|by rewrite <- Ep in P1].
    split; [|by split]. cbn. destruct (s_call s); [destruct (keep_running_ s)|..]; intuition congruence.
  - unfold run_send in E. destruct (s_pc s) as [| |e| |] eqn:Ep; try done. injection E as <-.
    split; [|by split]. cbn. destruct (s_call s); [destruct (keep_running_ s)|..]; intuition congruence.
  - unfold run_test in E. destruct (s_pc s) eqn:Ep; try done. injection E as <-.
    split; [|by split]. cbn. destruct (server_thread_ s && negb (keep_running_ s));
      (destruct (s_call s); [destruct (keep_running_ s)|..]); intuition congruence.
Qed.

Ltac order O x :=
  intros x; specialize (O x); unfold in_flight in O |- *; cbn -[Queue.from] in O |- *; rewrite O.

Lemma order_exec1 e s s' : phase_ok s -> order_ok s -> exec1 e s = Some s' -> order_ok s'.
Proof.
  intros (P1 & P2 & P3) O E. destruct e as [p m| | |i| | |]; cbn [exec1] in E.
  - injection E as <-. intros x. unfold in_flight. cbn -[Queue.from].
    rewrite !Queue.from_app, (O x). by rewrite <- !app_assoc.
  - unfold startServer in E.
    destruct (s_call s) eqn:C; try done; [destruct (keep_running_ s) | |]; injection E as <-; try exact O.
    order O x. destruct P1 as [-> | ->]; reflexivity.
  - unfold stopServer in E.
    destruct (s_call s) eqn:C; try done; [destruct (keep_running_ s) | |];
      [..|destruct (s_pc s) eqn:Ep; try done]; injection E as <-; exact O.
  - unfold run_pop in E. destruct (s_pc s) eqn:Ep; try done.
    destruct (Queue.take (message_queue_ s) i) as [[e q]|] eqn:T; [|done]. injection E as <-.
    order O x. by rewrite Ep, (Queue.take_order _ _ _ _ x T), Queue.from_one.
  - unfold run_timeout in E. destruct (s_pc s) eqn:Ep; try done.
    destruct (Queue.timeout (message_queue_ s)) as [[]|]; try done; injection E as <-; [|exact O].
    order O x. by rewrite Ep.
  - unfold run_send in E. destruct (s_pc s) as [| |e| |] eqn:Ep; try done. injection E as <-.
    order O x. by rewrite Ep, fmap_app, Queue.from_app, <- app_assoc.
  - unfold run_test in E. destruct (s_pc s) eqn:Ep; try done. injection E as <-.
    order O x. rewrite Ep. by destruct (server_thread_ s && negb (keep_running_ s)).
Qed.

Lemma step_ok s s' : server_ok s -> step s s' -> server_ok s'.
Proof. intros [P O] [e E]. split; [by eapply server_phase_exec1 | by eapply order_exec1]. Qed.

Lemma server_reachable_ok s : rtc step ctor s -> server_ok s.
Proof.
  intros R. cut (forall s0, rtc step s0 s -> server_ok s0 -> server_ok s).
  { intros K. apply (K ctor R). split; [split; [by left | by split] | done]. }
  clear R. induction 1; [done|]. eauto using step_ok.
Qed.

(** ** Stopping *)
Definition is_thread (e : event) : bool :=
  match e with Pop _ | Timeout | Send | Test => true | _ => false end.

(** The steps that the thread has left once its queue does not block it. *)
Definition remaining (s : TransactionServer) : nat :=
  match s_pc s with AtPop => 3 | AtSend _ => 2 | AtTest => 1 | _ => 0 end.

Lemma server_joining_step e s s' :
  phase_ok s -> s_call s = Joining -> exec1 e s = Some s' -> s_call s' = Joining ->
  ((if is_thread e then 1 else 0) + remaining s' <= remaining s)%nat.
Proof.
  intros (P1 & _ & P3) J E J'. rewrite J in P1. destruct P1 as (K & T & _). specialize (P3 J).
  destruct e as [p m| | |i| | |]; cbn [exec1 is_thread] in *.
  - injection E as <-. done.
  - unfold startServer in E. by rewrite J in E.
  - unfold stopServer in E. rewrite J in E. destruct (s_pc s); try done. by injection E as <-.
  - unfold run_pop in E. unfold remaining. destruct (s_pc s); try done.
    destruct (Queue.take _ _) as [[e q]|]; [|done]. injection E as <-. done.
  - unfold run_timeout in E. unfold remaining. destruct (s_pc s); try done.
    unfold Queue.timeout in E. destruct (Queue.items (message_queue_ s)); [|done].
    rewrite P3 in E. injection E as <-. cbn. lia.
  - unfold run_send in E. unfold remaining. destruct (s_pc s); try done. injection E as <-. done.
  - unfold run_test in E. unfold remaining. destruct (s_pc s); try done. injection E as <-.
    cbn. by rewrite K, T.
Qed.

Lemma server_thread_enabled s :
  s_pc s <> NoThread -> s_pc s <> Ended -> exists e, is_thread e = true /\ is_Some (exec1 e s).
Proof.
  intros N1 N2. destruct (s_pc s) as [| |m| |] eqn:Ep; try done.
  - destruct (Queue.items (message_queue_ s)) as [|x l] eqn:Q.
    + exists Timeout. split; [done|]. cbn. unfold run_timeout, Queue.timeout. rewrite Ep, Q. by eexists.
    + exists (Pop 0). split; [done|]. cbn. unfold run_pop, Queue.take. rewrite Ep, Q. by eexists.
  - exists Send. split; [done|]. cbn. unfold run_send. rewrite Ep. by eexists.
  - exists Test. split; [done|]. cbn. unfold run_test. rewrite Ep. by eexists.
Qed.

Fixpoint thread_steps (es : list event) : nat :=
  match es with [] => 0 | e :: rest => (if is_thread e then 1 else 0) + thread_steps rest end.

(** While the owner joins, the owner and the producers do not set the thread
    back. *)
Lemma joining_stays e s s' :
  s_call s = Joining -> exec1 e s = Some s' -> s_call s' <> Joining -> e = Stop /\ s_pc s = Ended.
Proof.
  intros J E N. destruct e as [p m| | |i| | |]; cbn [exec1] in E.
  - injection E as <-. done.
  - unfold startServer in E. by rewrite J in E.
  - unfold stopServer in E. rewrite J in E. by destruct (s_pc s).
  - unfold run_pop in E. destruct (s_pc s); try done. destruct (Queue.take _ _) as [[e q]|]; [|done].
    by injection E as <-.
  - unfold run_timeout in E. destruct (s_pc s); try done. destruct (Queue.timeout _) as [[]|]; try done;
      by injection E as <-.
  - unfold run_send in E. destruct (s_pc s); try done. by injection E as <-.
  - unfold run_test in E. destruct (s_pc s); try done. by injection E as <-.
Qed.

(** [es] is a run that the owner spends in [join]. *)
Fixpoint joining_run (es : list event) (s : TransactionServer) : Prop :=
  s_call s = Joining /\
  match es with
  | [] => True
  | e :: rest => exists s', exec1 e s = Some s' /\ joining_run rest s'
  end.

Lemma server_joining_bound es : forall s, phase_ok s -> joining_run es s -> (thread_steps es <= remaining s)%nat.
Proof.
  induction es as [|e es IH]; intros s P [J R]; cbn [thread_steps]; [lia|].
  destruct R as (s' & E & R). assert (s_call s' = Joining) as J' by (by destruct es; destruct R).
  pose proof (server_joining_step e s s' P J E J'). specialize (IH s' (server_phase_exec1 _ _ _ P E) R). lia.
Qed.

(** ** A thread that has ended

    Nothing but [stopServer] ever follows. *)
Lemma silent_exec es : forall s s',
  s_pc s = Ended -> s_call s = Free -> keep_running_ s = true ->
  Forall (fun e => e <> Stop) es -> exec es s = Some s' -> s_taken s' = s_taken s.
Proof.
  induction es as [|e es IH]; intros s s' Pe C K F E; cbn [exec] in E; [by injection E as <-|].
  inversion F as [|? ? N F']; subst.
  destruct (exec1 e s) as [s1|] eqn:E1; [|done]. cbn in E.
  assert (s_pc s1 = Ended /\ s_call s1 = Free /\ keep_running_ s1 = true /\ s_taken s1 = s_taken s)
    as (? & ? & ? & Et).
  { destruct e as [p m| | |i| | |]; cbn [exec1] in E1; try done.
    - by injection E1 as <-.
    - unfold startServer in E1. rewrite C, K in E1. by injection E1 as <-.
    - unfold run_pop in E1. by rewrite Pe in E1.
    - unfold run_timeout in E1. by rewrite Pe in E1.
    - unfold run_send in E1. by rewrite Pe in E1.
    - unfold run_test in E1. by rewrite Pe in E1. }
  rewrite <- Et. by apply IH.
Qed.

(** ** A server that is used as the node uses it

    Nothing is queued before [startServer] has returned, and it is not stopped. *)
Definition prompt (s : TransactionServer) (e : event) : Prop :=
  match e with Produce _ _ => keep_running_ s = true | Stop => False | _ => True end.

Inductive prompt_step (s s' : TransactionServer) : Prop :=
| prompt_intro e : prompt s e -> exec1 e s = Some s' -> prompt_step s s'.

Definition live_ok (s : TransactionServer) : Prop :=
  Queue.keep_popping_ (message_queue_ s) = true /\
  Forall (fun x => x.2 = true) (s_taken s) /\
  if keep_running_ s then s_call s = Free /\ s_pc s <> NoThread /\ s_pc s <> Ended
  else Queue.items (message_queue_ s) = [] /\
       (s_call s = Free /\ s_pc s = NoThread \/ s_call s = Created /\ s_pc s = AtPop \/
        s_call s = Assigned /\ s_pc s = AtPop).

Lemma prompt_step_ok s s' : live_ok s -> prompt_step s s' -> live_ok s'.
Proof.
  intros (Kp & F & L) [e Pr E]. unfold live_ok. destruct e as [p m| | |i| | |]; cbn [exec1 prompt] in *.
  - injection E as <-. cbn. by rewrite Pr in L |- *.
  - unfold startServer in E. destruct (keep_running_ s) eqn:K.
    + destruct L as (C & L). rewrite C in E. injection E as <-. by rewrite K.
    + destruct L as (Q & [[C Ep]|[[C Ep]|[C Ep]]]); rewrite C in E; injection E as <-; cbn; rewrite ?K;
        (split; [done|]); (split; [done|]); [split; [done|]; auto | split; [done|]; auto |].
      split; [done|]. by rewrite Ep.
  - done.
  - unfold run_pop in E. destruct (s_pc s) eqn:Ep; try done.
    destruct (Queue.take _ _) as [[e q]|] eqn:T; [|done]. injection E as <-. cbn.
    rewrite (take_popping _ _ _ _ T). split; [done|]. split; [done|].
    destruct (keep_running_ s); [by destruct L as (? & _)|]. destruct L as (Q & _).
    unfold Queue.take in T. by rewrite Q in T.
  - unfold run_timeout in E. destruct (s_pc s) eqn:Ep; try done. unfold Queue.timeout in E.
    rewrite Kp in E. destruct (Queue.items (message_queue_ s)) eqn:Q; [|done]. injection E as <-.
    rewrite Q, Ep. done.
  - unfold run_send in E. destruct (s_pc s) as [| |e| |] eqn:Ep; try done. injection E as <-. cbn.
    destruct (keep_running_ s) eqn:K.
    + split; [done|]. split; [apply Forall_app; by split; [|constructor]|]. by destruct L.
    + destruct L as (_ & [[_ X]|[[_ X]|[_ X]]]); congruence.
  - unfold run_test in E. destruct (s_pc s) eqn:Ep; try done. injection E as <-. cbn.
    split; [done|]. split; [done|]. destruct (keep_running_ s) eqn:K.
    + rewrite andb_false_r. by destruct L.
    + destruct L as (_ & [[_ X]|[[_ X]|[_ X]]]); congruence.
Qed.

Lemma prompt_reachable_ok s : rtc prompt_step ctor s -> live_ok s.
Proof.
  intros R. cut (forall s0, rtc prompt_step s0 s -> live_ok s0 -> live_ok s).
  { intros K. apply (K ctor R). split; [done|]. split; [constructor|]. cbn. auto. }
  clear R. induction 1; [done|]. eauto using prompt_step_ok.
Qed.

Lemma prompt_reachable_step s : rtc prompt_step ctor s -> rtc step ctor s.
Proof. apply rtc_subrel. intros x y [e _ E]. by exists e. Qed.
End server.
End Server.

(** ** TransactionClient *)
Module Client.
Section client.
Context {Frame : Type}.

(** The client's thread: in [s_recv], at the test that ends the loop, or out of
    [run]; its owner: in none of its methods, in [startClient] with the thread
    created, then assigned, or in [stopClient], joining. *)
Inductive pc := NoThread | AtRecv | AtTest | Ended.
Inductive call := Free | Created | Assigned | Joining.

Record TransactionClient := mkClient {
  peer_urls_ : list bytes;
  filter_vector_ : list bytes;
  callback_ : bool;                     (* whether one is attached *)
  keep_running_ : bool;
  client_thread_ : bool;
  k_pc : pc;
  k_call : call;
  k_handled : list Frame                (* given to the callback *)
}.

Definition ctor : TransactionClient := mkClient [] [] false false false NoThread Free [].

Definition addConnection (c : TransactionClient) (endpoint : bytes) : TransactionClient :=
  mkClient (peer_urls_ c ++ [endpoint]) (filter_vector_ c) (callback_ c) (keep_running_ c)
    (client_thread_ c) (k_pc c) (k_call c) (k_handled c).

Definition listenTo (c : TransactionClient) (filter : bytes) : TransactionClient :=
  mkClient (peer_urls_ c) (filter_vector_ c ++ [filter]) (callback_ c) (keep_running_ c)
    (client_thread_ c) (k_pc c) (k_call c) (k_handled c).

Definition attachCallback (c : TransactionClient) : TransactionClient :=
  mkClient (peer_urls_ c) (filter_vector_ c) true (keep_running_ c)
    (client_thread_ c) (k_pc c) (k_call c) (k_handled c).

Definition CreateTransactionClient (host_vector : list bytes) : TransactionClient :=
  foldl addConnection ctor host_vector.

(** What [run] does with its socket before the loop: a subscription to every
    filter after every connection. *)
Inductive sock := Connect (endpoint : bytes) | Subscribe (filter : bytes).

Definition run_setup (c : TransactionClient) : list sock :=
  concat ((fun e => Connect e :: (Subscribe <$> filter_vector_ c)) <$> peer_urls_ c).

Definition set_pc (c : TransactionClient) (p : pc) : TransactionClient :=
  mkClient (peer_urls_ c) (filter_vector_ c) (callback_ c) (keep_running_ c) (client_thread_ c) p
    (k_call c) (k_handled c).
Definition set_call (c : TransactionClient) (k : call) : TransactionClient :=
  mkClient (peer_urls_ c) (filter_vector_ c) (callback_ c) (keep_running_ c) (client_thread_ c) (k_pc c)
    k (k_handled c).
Definition set_flags (c : TransactionClient) (running thread : bool) : TransactionClient :=
  mkClient (peer_urls_ c) (filter_vector_ c) (callback_ c) running thread (k_pc c)
    (k_call c) (k_handled c).

Definition startClient (c : TransactionClient) : option TransactionClient :=
  match k_call c with
  | Free => if keep_running_ c then Some c else Some (set_call (set_pc c AtRecv) Created)
  | Created => Some (set_call (set_flags c (keep_running_ c) true) Assigned)
  | Assigned => Some (set_call (set_flags c true (client_thread_ c)) Free)
  | Joining => None
  end.

(** The thread is joined and forgotten. *)
Definition stopClient (c : TransactionClient) : option TransactionClient :=
  match k_call c with
  | Free =>
      if keep_running_ c then
        let c := set_flags c false (client_thread_ c) in
        Some (if client_thread_ c then set_call c Joining else c)
      else Some c
  | Joining =>
      match k_pc c with
      | Ended => Some (set_call (set_pc (set_flags c (keep_running_ c) false) NoThread) Free)
      | _ => None
      end
  | _ => None
  end.

(** [processIncomingMessage]: nothing for a tenth of a second, or a message for
    the callback.  An empty [std::function] throws, and the method is
    [noexcept]: the process ends. *)
Definition run_quiet (c : TransactionClient) : option TransactionClient :=
  match k_pc c with AtRecv => Some (set_pc c AtTest) | _ => None end.

Definition run_receive (c : TransactionClient) (f : Frame) : option TransactionClient :=
  match k_pc c with
  | AtRecv =>
      if callback_ c then
        Some (mkClient (peer_urls_ c) (filter_vector_ c) true (keep_running_ c) (client_thread_ c)
                AtTest (k_call c) (k_handled c ++ [f]))
      else None
  | _ => None
  end.

Definition run_test (c : TransactionClient) : option TransactionClient :=
  match k_pc c with
  | AtTest => Some (set_pc c (if client_thread_ c && negb (keep_running_ c) then Ended else AtRecv))
  | _ => None
  end.

Inductive event := Start | Stop | Quiet | Receive (f : Frame) | Test.

Definition exec1 (e : event) (c : TransactionClient) : option TransactionClient :=
  match e with
  | Start => startClient c
  | Stop => stopClient c
  | Quiet => run_quiet c
  | Receive f => run_receive c f
  | Test => run_test c
  end.

Fixpoint exec (es : list event) (c : TransactionClient) : option TransactionClient :=
  match es with
  | [] => Some c
  | e :: rest => c' ← exec1 e c; exec rest c'
  end.

Definition step (c c' : TransactionClient) : Prop := exists e, exec1 e c = Some c'.

Lemma client_exec_steps es : forall s s', exec es s = Some s' -> rtc step s s'.
Proof.
  induction es as [|e es IH]; intros s s' E; cbn [exec] in E; [by injection E as ->|].
  destruct (exec1 e s) as [s1|] eqn:E1; [|done]. eapply rtc_l; [by exists e | by apply IH].
Qed.

Definition phase_ok (c : TransactionClient) : Prop :=
  match k_call c with
  | Free =>
      if keep_running_ c then client_thread_ c = true /\ k_pc c <> NoThread
      else client_thread_ c = false /\ k_pc c = NoThread
  | Created => keep_running_ c = false /\ k_pc c <> NoThread
  | Assigned | Joining => keep_running_ c = false /\ client_thread_ c = true /\ k_pc c <> NoThread
  end.

Lemma client_phase_exec1 e c c' : phase_ok c -> exec1 e c = Some c' -> phase_ok c'.
Proof.
  intros P E. unfold phase_ok in *. destruct e as [| | |f|]; cbn [exec1] in E.
  - unfold startClient in E.
    destruct (k_call c) eqn:C; try done; [destruct (keep_running_ c) eqn:K | |]; injection E as <-;
      cbn; rewrite ?C, ?K; intuition congruence.
  - unfold stopClient in E. destruct (k_call c) eqn:C; try done;
      [destruct (keep_running_ c) eqn:K | destruct (k_pc c) eqn:Ep; try done].
    + destruct P as [T N]. cbn in E. rewrite T in E. injection E as <-. by cbn; rewrite ?T.
    + injection E as <-. by rewrite C, K.
    + injection E as <-. cbn. destruct P as (-> & _). done.
  - unfold run_quiet in E. destruct (k_pc c) eqn:Ep; try done. injection E as <-. cbn.
    destruct (k_call c); [destruct (keep_running_ c)|..]; intuition congruence.
  - unfold run_receive in E. destruct (k_pc c) eqn:Ep; try done. destruct (callback_ c); [|done].
    injection E as <-. cbn. destruct (k_call c); [destruct (keep_running_ c)|..]; intuition congruence.
  - unfold run_test in E. destruct (k_pc c) eqn:Ep; try done. injection E as <-. cbn.
    destruct (client_thread_ c && negb (keep_running_ c));
      (destruct (k_call c); [destruct (keep_running_ c)|..]); intuition congruence.
Qed.

Lemma client_reachable_ok hosts c : rtc step (CreateTransactionClient hosts) c -> phase_ok c.
Proof.
  assert (phase_ok (CreateTransactionClient hosts)) as P0.
  { unfold CreateTransactionClient. assert (phase_ok ctor) as P by done. revert P. generalize ctor.
    induction hosts as [|h hosts IH]; intros c0 P; [done|]. by apply IH. }
  induction 1 as [|x y z [e E] _ IH]; [done|]. apply IH. by eapply client_phase_exec1.
Qed.

(** The connections and subscriptions of a created client. *)
Lemma Create_peers hosts : peer_urls_ (CreateTransactionClient hosts) = hosts.
Proof.
  unfold CreateTransactionClient. change hosts with (peer_urls_ ctor ++ hosts) at 2. generalize ctor.
  induction hosts as [|h hosts IH]; intros c; cbn [foldl]; [by rewrite app_nil_r|].
  rewrite IH. cbn. by rewrite <- app_assoc.
Qed.

Lemma subscribes c f : Subscribe f ∈ run_setup c <-> peer_urls_ c <> [] /\ f ∈ filter_vector_ c.
Proof.
  unfold run_setup. rewrite list_elem_of_In, in_concat. split.
  - intros (l & Hl & Hf). rewrite <- list_elem_of_In in Hl. apply list_elem_of_fmap in Hl as (e & -> & He).
    split; [by intros E; rewrite E in He; apply elem_of_nil in He|].
    destruct Hf as [Hf|Hf]; [done|]. rewrite <- list_elem_of_In in Hf.
    by apply list_elem_of_fmap in Hf as (x & [= ->] & Hx).
  - intros [N Hf]. destruct (peer_urls_ c) as [|e l]; [done|]. eexists. split; [by left|]. right.
    apply list_elem_of_In, list_elem_of_fmap. by exists f.
Qed.

(** ** Stopping *)
Definition is_thread (e : event) : bool :=
  match e with Quiet | Receive _ | Test => true | _ => false end.

Definition remaining (c : TransactionClient) : nat :=
  match k_pc c with AtRecv => 2 | AtTest => 1 | _ => 0 end.

Lemma client_joining_step e c c' :
  phase_ok c -> k_call c = Joining -> exec1 e c = Some c' -> k_call c' = Joining ->
  is_thread e = true /\ (remaining c' < remaining c)%nat.
Proof.
  intros P J E J'. unfold phase_ok in P. rewrite J in P. destruct P as (K & T & _).
  destruct e as [| | |f|]; cbn [exec1] in E.
  - unfold startClient in E. by rewrite J in E.
  - unfold stopClient in E. rewrite J in E. destruct (k_pc c); try done. by injection E as <-.
  - unfold run_quiet in E. unfold remaining. destruct (k_pc c); try done. injection E as <-. cbn. split; [done|lia].
  - unfold run_receive in E. unfold remaining. destruct (k_pc c); try done. destruct (callback_ c); [|done].
    injection E as <-. cbn. split; [done|lia].
  - unfold run_test in E. unfold remaining. destruct (k_pc c); try done. injection E as <-. cbn.
    rewrite K, T. cbn. split; [done|lia].
Qed.

Fixpoint joining_run (es : list event) (c : TransactionClient) : Prop :=
  k_call c = Joining /\
  match es with
  | [] => True
  | e :: rest => exists c', exec1 e c = Some c' /\ joining_run rest c'
  end.

Lemma client_joining_bound es : forall c, phase_ok c -> joining_run es c -> (length es <= remaining c)%nat.
Proof.
  induction es as [|e es IH]; intros c P [J R]; cbn [length]; [lia|].
  destruct R as (c' & E & R). assert (k_call c' = Joining) as J' by (by destruct es; destruct R).
  destruct (client_joining_step e c c' P J E J') as [_ L].
  specialize (IH c' (client_phase_exec1 _ _ _ P E) R). lia.
Qed.

Lemma client_thread_enabled c :
  k_pc c <> NoThread -> k_pc c <> Ended -> exists e, is_thread e = true /\ is_Some (exec1 e c).
Proof.
  intros N1 N2. destruct (k_pc c) eqn:Ep; try done.
  - exists Quiet. split; [done|]. cbn. unfold run_quiet. rewrite Ep. by eexists.
  - exists Test. split; [done|]. cbn. unfold run_test. rewrite Ep. by eexists.
Qed.
End client.
End Client.

(** ** ThreadGroup *)
Module Group.
Section group.
Context {Msg : Type} (message_callback_ : option Msg -> res unit).

(** A thread of the group: at the test of [while (do_run_)], in [pop], calling
    back with what it popped, or out of [loop]. *)
Inductive pc := AtLoop | AtGet | AtCall (m : option Msg) | Gone.
Inductive call := Free | Flagged | Joining.

Record ThreadGroup := mkGroup {
  thread_queue_ : Queue.t Msg;
  do_run_ : bool;
  num_threads_ : nat;
  thread_pool_ : list pc;
  g_call : call
}.

Definition ctor (num_threads : nat) : ThreadGroup := mkGroup Queue.ctor false num_threads [] Free.

Definition pushMessage (g : ThreadGroup) (producer : nat) (m : Msg) : ThreadGroup :=
  mkGroup (Queue.push (thread_queue_ g) producer m) (do_run_ g) (num_threads_ g) (thread_pool_ g) (g_call g).

Definition start (g : ThreadGroup) : option (bool * ThreadGroup) :=
  match g_call g with
  | Free =>
      if do_run_ g then Some (false, g)
      else Some (true, mkGroup (thread_queue_ g) true (num_threads_ g)
                         (thread_pool_ g ++ replicate (num_threads_ g) AtLoop) Free)
  | _ => None
  end.

Definition all_gone (g : ThreadGroup) : bool :=
  forallb (fun t => match t with Gone => true | _ => false end) (thread_pool_ g).

(** [stop], step by step; [None] while it is in the middle. *)
Definition stop (g : ThreadGroup) : option (option bool * ThreadGroup) :=
  match g_call g with
  | Free =>
      if do_run_ g
      then Some (None, mkGroup (thread_queue_ g) false (num_threads_ g) (thread_pool_ g) Flagged)
      else Some (Some false, g)
  | Flagged =>
      Some (None, mkGroup (Queue.ClearBlockers (thread_queue_ g)) (do_run_ g) (num_threads_ g)
                    (thread_pool_ g) Joining)
  | Joining =>
      if all_gone g
      then Some (Some true, mkGroup (thread_queue_ g) (do_run_ g) (num_threads_ g) (thread_pool_ g) Free)
      else None
  end.

Definition set_thread (g : ThreadGroup) (i : nat) (t : pc) : ThreadGroup :=
  mkGroup (thread_queue_ g) (do_run_ g) (num_threads_ g) (<[i := t]> (thread_pool_ g)) (g_call g).
Definition set_queue (g : ThreadGroup) (q : Queue.t Msg) : ThreadGroup :=
  mkGroup q (do_run_ g) (num_threads_ g) (thread_pool_ g) (g_call g).

(** [loop] of thread [i], with the [k]th message when there is a choice.  A
    callback that throws a [std::exception] ends the thread; a worse one ends
    the process. *)
Definition loop (g : ThreadGroup) (i k : nat) : option ThreadGroup :=
  match thread_pool_ g !! i with
  | Some AtLoop => Some (set_thread g i (if do_run_ g then AtGet else Gone))
  | Some AtGet =>
      match Queue.take (thread_queue_ g) k, Queue.timeout (thread_queue_ g) with
      | Some (e, q), _ => Some (set_thread (set_queue g q) i (AtCall (Some e.2)))
      | None, Some true => Some (set_thread g i (AtCall None))
      | None, Some false => Some g
      | None, None => None
      end
  | Some (AtCall m) =>
      match message_callback_ m with
      | Ok _ => Some (set_thread g i AtLoop)
      | Err e => if is_std_exception e then Some (set_thread g i Gone) else None
      | _ => None
      end
  | _ => None
  end.

Inductive event := Push (producer : nat) (m : Msg) | Start | Stop | Loop (i k : nat).

Definition exec1 (e : event) (g : ThreadGroup) : option ThreadGroup :=
  match e with
  | Push p m => Some (pushMessage g p m)
  | Start => snd <$> start g
  | Stop => snd <$> stop g
  | Loop i k => loop g i k
  end.

Fixpoint exec (es : list event) (g : ThreadGroup) : option ThreadGroup :=
  match es with
  | [] => Some g
  | e :: rest => g' ← exec1 e g; exec rest g'
  end.

Definition step (g g' : ThreadGroup) : Prop := exists e, exec1 e g = Some g'.

Lemma group_exec_steps es : forall s s', exec es s = Some s' -> rtc step s s'.
Proof.
  induction es as [|e es IH]; intros s s' E; cbn [exec] in E; [by injection E as ->|].
  destruct (exec1 e s) as [s1|] eqn:E1; [|done]. eapply rtc_l; [by exists e | by apply IH].
Qed.

(** ** Stopping *)
Definition stopping_ok (g : ThreadGroup) : Prop :=
  (g_call g <> Free -> do_run_ g = false) /\
  (g_call g = Joining -> Queue.keep_popping_ (thread_queue_ g) = false).

Lemma stopping_exec1 e g g' : stopping_ok g -> exec1 e g = Some g' -> stopping_ok g'.
Proof.
  intros [S1 S2] E. unfold stopping_ok. destruct e as [p m| | |i k]; cbn [exec1] in E.
  - by injection E as <-.
  - unfold start in E. destruct (g_call g) eqn:C; try done. destruct (do_run_ g) eqn:D; injection E as <-; cbn;
      rewrite ?C; done.
  - unfold stop in E. destruct (g_call g) eqn:C.
    + destruct (do_run_ g) eqn:D; injection E as <-; cbn; rewrite ?C; done.
    + injection E as <-. cbn. split; [intros _; by apply S1 | done].
    + destruct (all_gone g); [|done]. injection E as <-. cbn. done.
  - unfold loop in E. destruct (thread_pool_ g !! i) as [[| |m|]|]; try done.
    + injection E as <-. done.
    + destruct (Queue.take (thread_queue_ g) k) as [[e q]|] eqn:T.
      * injection E as <-. cbn. split; [done|]. intros J. rewrite <- (S2 J).
        unfold Queue.take in T. repeat case_match; by simplify_eq.
      * destruct (Queue.timeout (thread_queue_ g)) as [[]|]; try done; by injection E as <-.
    + destruct (message_callback_ m) as [|ex| |]; [| destruct (is_std_exception ex); [|done] | done..];
        by injection E as <-.
Qed.

Lemma group_reachable_ok n g : rtc step (ctor n) g -> stopping_ok g.
Proof.
  intros R. cut (forall g0, rtc step g0 g -> stopping_ok g0 -> stopping_ok g).
  { intros K. by apply (K (ctor n) R). }
  clear R. induction 1 as [|x y z [e E] _ IH]; [done|]. intros. by eapply IH, stopping_exec1.
Qed.

Definition weight (t : pc) : nat :=
  match t with AtGet => 3 | AtCall _ => 2 | AtLoop => 1 | Gone => 0 end.

Fixpoint weights (l : list pc) : nat :=
  match l with [] => 0 | t :: l' => weight t + weights l' end.

Definition remaining (g : ThreadGroup) : nat := weights (thread_pool_ g).

Lemma weight_set l i t t' :
  l !! i = Some t ->
  (weights (<[i := t']> l) + weight t = weights l + weight t')%nat.
Proof.
  revert i. induction l as [|x l IH]; intros i L; [done|]. destruct i as [|i]; cbn in L.
  - injection L as ->. cbn. lia.
  - specialize (IH i L). change (<[S i := t']> (x :: l)) with (x :: <[i := t']> l).
    cbn [weights]. lia.
Qed.

(** Once the queue does not block, every step of a thread is one less. *)
Lemma group_joining_step i k g g' :
  stopping_ok g -> g_call g = Joining -> loop g i k = Some g' -> (remaining g' < remaining g)%nat.
Proof.
  intros [S1 S2] J E. assert (do_run_ g = false) as D by (apply S1; by rewrite J).
  specialize (S2 J). unfold loop in E. unfold remaining.
  destruct (thread_pool_ g !! i) as [t|] eqn:L; [|done].
  pose proof (fun t' => weight_set (thread_pool_ g) i t t' L) as W.
  destruct t as [| |m|]; try done.
  - rewrite D in E. injection E as <-. specialize (W Gone). cbn in W |- *. lia.
  - destruct (Queue.take (thread_queue_ g) k) as [[e q]|].
    + injection E as <-. specialize (W (AtCall (Some e.2))). cbn in W |- *. lia.
    + unfold Queue.timeout in E. destruct (Queue.items (thread_queue_ g)); [|done].
      rewrite S2 in E. injection E as <-. specialize (W (AtCall None)). cbn in W |- *. lia.
  - destruct (message_callback_ m) as [|ex| |]; [| destruct (is_std_exception ex); [|done] | done..];
      injection E as <-; [specialize (W AtLoop) | specialize (W Gone)]; cbn in W |- *; lia.
Qed.

(** ** Every call of a thread gets a result *)
Definition benign : Prop := forall m, exists r, message_callback_ m = r /\
  match r with Ok _ => True | Err e => is_std_exception e = true | _ => False end.

Lemma loop_enabled g i t :
  benign -> thread_pool_ g !! i = Some t -> t <> Gone -> is_Some (loop g i 0).
Proof.
  intros B L N. unfold loop. rewrite L. destruct t as [| |m|]; try done.
  - destruct (Queue.items (thread_queue_ g)) as [|x l] eqn:Q.
    + unfold Queue.take, Queue.timeout. rewrite Q. cbn. destruct (Queue.keep_popping_ _); by eexists.
    + unfold Queue.take. rewrite Q. by eexists.
  - destruct (B m) as (r & -> & Hr). destruct r as [|e| |]; try done. by rewrite Hr.
Qed.

Lemma not_all_gone g : all_gone g = false -> exists i t, thread_pool_ g !! i = Some t /\ t <> Gone.
Proof.
  unfold all_gone. induction (thread_pool_ g) as [|t l IH]; [done|]. cbn.
  destruct t; try (intros _; by exists O; eexists). cbn. intros E. destruct (IH E) as (i & t & L & N).
  by exists (S i), t.
Qed.
End group.
End Group.

(** ** What the controllers do with a null pointer

    [pop] returns one when the queue has been told not to block. *)
Section null.
Context `{Crypto} (keys : KeyRing).

Definition callback_ptr (w : Worker) (clock : nat -> Z) (context : DevcashContext) (mode : eAppMode)
    (ptr : option DevcashMessage) : M Node unit :=
  match ptr with
  | Some msg => worker_callback keys w clock context mode msg
  | None =>
      match w with
      | Consensus | Internetwork => undef       (* ptr->message_type *)
      | Validator => validatorCallback None context keys
      end
  end.
End null.
