(* ===== verification/Lifecycle.v ===== *)
(** * modules/BlockchainModule.cpp: start and shutdown

    The module as the owner of its server, its two clients and its three
    executors ([Service]): [start] and [shutdown] are the sequences of their
    calls, made step by step while the threads of all the components run.
    [shutdown] is called by another thread than [start], which is in its loop. *)

From Stdlib Require Import ZArith Lia.
From stdpp Require Import relations.
From stdpp Require Import base list numbers.
From S2P Require Import Prelude Keys KeyRing Context Transactions Blocks Message Blockchain Pool.
From S2P Require Import Handlers Node Network Service.

#[local] Open Scope Z_scope.

(** [client_] and [loopback_client_] *)
Inductive which := Main | Loopback.

#[global] Instance which_eq_dec : EqDecision which.
Proof. solve_decision. Defined.

Inductive call :=
| CAttach (k : which) | CListen (k : which) (filter : bytes)
| CServerStart | CClientStart (k : which) | CExecutorStart (w : Worker)
| CClientStop (k : which) | CServerStop.

(** [init], then the executors. *)
Definition start_calls (context : DevcashContext) : list call :=
  [CAttach Main; CListen Main (ContextOps.get_shard_uri context); CListen Main (ContextOps.get_uri context);
   CAttach Loopback; CListen Loopback (ContextOps.get_uri context);
   CServerStart; CClientStart Main; CClientStart Loopback;
   CExecutorStart Consensus; CExecutorStart Internetwork; CExecutorStart Validator].

Definition shutdown_calls : list call := [CClientStop Main; CServerStop; CClientStop Loopback].

(** The executor that [handleMessage] gives a message to. *)
Definition executor_of (message : DevcashMessage) : option Worker :=
  let t := m_type message in
  if t =? eMessageType.TRANSACTION_ANNOUNCEMENT then Some Validator
  else if t =? eMessageType.GET_BLOCKS_SINCE then Some Internetwork
  else if t =? eMessageType.BLOCKS_SINCE then Some Internetwork
  else if t =? eMessageType.REQUEST_BLOCK then Some Internetwork
  else if t =? eMessageType.FINAL_BLOCK then Some Consensus
  else if t =? eMessageType.PROPOSAL_BLOCK then Some Consensus
  else if t =? eMessageType.VALID then Some Consensus
  else None.

(** It handles messages of that type. *)
Lemma executor_of_handles m w : executor_of m = Some w <-> handles w (m_type m).
Proof.
  unfold executor_of. destruct w; cbn [handles]; unfold_types;
    repeat (case_match; bool_to_prop); split; intros ?; try congruence; lia.
Qed.

Section lifecycle.
(** The outcome of an executor's callback. *)
Context (callback : Worker -> option DevcashMessage -> res unit).

Abbreviation Srv := (Server.TransactionServer (Msg := DevcashMessage)).
Abbreviation Cli := (Client.TransactionClient (Frame := DevcashMessage)).
Abbreviation Grp := (Group.ThreadGroup (Msg := DevcashMessage)).

Record Life := mkLife {
  l_server : Srv;
  l_client : which -> Cli;
  l_executor : Worker -> Grp;
  l_start : list call;                 (* what is left of [start] before its loop *)
  l_returned : bool;                   (* [start] has returned *)
  l_shutdown : option (list call);     (* what is left of [shutdown]; None: not called *)
  shutdown_ : bool;
  request_shutdown : bool
}.

Definition life_ctor (context : DevcashContext) (hosts loopback_hosts : list bytes) (num_threads : Worker -> nat)
    : Life :=
  mkLife Server.ctor
    (fun k => match k with Main => Client.CreateTransactionClient hosts
                         | Loopback => Client.CreateTransactionClient loopback_hosts end)
    (fun w => Group.ctor (num_threads w)) (start_calls context) false None false false.

Definition set_server (l : Life) (s : Srv) : Life :=
  mkLife s (l_client l) (l_executor l) (l_start l) (l_returned l) (l_shutdown l) (shutdown_ l) (request_shutdown l).
Definition set_client (l : Life) (k : which) (c : Cli) : Life :=
  mkLife (l_server l) (fun k' => if decide (k' = k) then c else l_client l k') (l_executor l) (l_start l)
    (l_returned l) (l_shutdown l) (shutdown_ l) (request_shutdown l).
Definition set_executor (l : Life) (w : Worker) (g : Grp) : Life :=
  mkLife (l_server l) (l_client l) (fun w' => if decide (w' = w) then g else l_executor l w') (l_start l)
    (l_returned l) (l_shutdown l) (shutdown_ l) (request_shutdown l).
Definition set_start (l : Life) (cs : list call) : Life :=
  mkLife (l_server l) (l_client l) (l_executor l) cs (l_returned l) (l_shutdown l) (shutdown_ l) (request_shutdown l).
Definition set_shutdown (l : Life) (cs : list call) : Life :=
  mkLife (l_server l) (l_client l) (l_executor l) (l_start l) (l_returned l) (Some cs) (shutdown_ l) (request_shutdown l).

Definition server_free (s : Srv) : bool := match Server.s_call s with Server.Free => true | _ => false end.
Definition client_free (c : Cli) : bool := match Client.k_call c with Client.Free => true | _ => false end.

(** One step of a call, and whether it has returned; [None]: it waits. *)
Definition do_call (c : call) (l : Life) : option (bool * Life) :=
  match c with
  | CAttach k => Some (true, set_client l k (Client.attachCallback (l_client l k)))
  | CListen k f => Some (true, set_client l k (Client.listenTo (l_client l k) f))
  | CServerStart => s ← Server.startServer (l_server l); Some (server_free s, set_server l s)
  | CClientStart k => s ← Client.startClient (l_client l k); Some (client_free s, set_client l k s)
  | CExecutorStart w => g ← Group.start (l_executor l w); Some (true, set_executor l w g.2)
  | CClientStop k => s ← Client.stopClient (l_client l k); Some (client_free s, set_client l k s)
  | CServerStop => s ← Server.stopServer (l_server l); Some (server_free s, set_server l s)
  end.

Definition start_step (l : Life) : option Life :=
  match l_start l with
  | [] => None
  | c :: rest => r ← do_call c l; Some (if r.1 : bool then set_start r.2 rest else r.2)
  end.

(** One turn of [while (!shutdown_)], with the request it may queue. *)
Definition loop_turn (request : option DevcashMessage) (l : Life) : option Life :=
  match l_start l with
  | [] =>
      if l_returned l then None
      else if shutdown_ l
      then Some (mkLife (l_server l) (l_client l) (l_executor l) [] true (l_shutdown l) true (request_shutdown l))
      else match request with
           | Some m => Some (set_server l (Server.queueMessage (l_server l) 0 m))
           | None => Some l
           end
  | _ => None
  end.

(** [request_shutdown = true;] and the calls. *)
Definition shutdown (l : Life) : option Life :=
  match l_start l, l_shutdown l with
  | [], None =>
      Some (mkLife (l_server l) (l_client l) (l_executor l) [] (l_returned l) (Some shutdown_calls) (shutdown_ l) true)
  | _, _ => None
  end.

Definition shutdown_step (l : Life) : option Life :=
  match l_shutdown l with
  | Some (c :: rest) => r ← do_call c l; Some (if r.1 : bool then set_shutdown r.2 rest else r.2)
  | _ => None
  end.

(** The threads.  An executor queues messages on the server; what a client
    receives goes through [handleMessage] in its [noexcept] method. *)
Definition server_event (e : Server.event) (l : Life) : option Life :=
  match e with
  | Server.Start | Server.Stop => None
  | _ => s ← Server.exec1 e (l_server l); Some (set_server l s)
  end.

Definition client_event (k : which) (e : Client.event) (l : Life) : option Life :=
  match e with
  | Client.Start | Client.Stop => None
  | Client.Receive m =>
      c ← Client.run_receive (l_client l k) m;
      w ← executor_of m;
      let l := set_client l k c in
      Some (set_executor l w (Group.pushMessage (l_executor l w) (match k with Main => 0 | Loopback => 1 end) m))
  | _ => c ← Client.exec1 e (l_client l k); Some (set_client l k c)
  end.

Definition executor_event (w : Worker) (i n : nat) (l : Life) : option Life :=
  g ← Group.loop (callback w) (l_executor l w) i n; Some (set_executor l w g).

Inductive event :=
| EStart | ETurn (request : option DevcashMessage) | EShutdown | EDown
| EServer (e : Server.event (Msg := DevcashMessage))
| EClient (k : which) (e : Client.event (Frame := DevcashMessage))
| EExecutor (w : Worker) (i n : nat).

Definition life_exec1 (e : event) (l : Life) : option Life :=
  match e with
  | EStart => start_step l
  | ETurn r => loop_turn r l
  | EShutdown => shutdown l
  | EDown => shutdown_step l
  | EServer e => server_event e l
  | EClient k e => client_event k e l
  | EExecutor w i n => executor_event w i n l
  end.

Fixpoint life_exec (es : list event) (l : Life) : option Life :=
  match es with
  | [] => Some l
  | e :: rest => l' ← life_exec1 e l; life_exec rest l'
  end.

Definition life_step (l l' : Life) : Prop := exists e, life_exec1 e l = Some l'.

Lemma life_exec_steps es : forall l l', life_exec es l = Some l' -> rtc life_step l l'.
Proof.
  induction es as [|e es IH]; intros l l' E; cbn [life_exec] in E; [by injection E as ->|].
  destruct (life_exec1 e l) as [l1|] eqn:E1; [|done]. eapply rtc_l; [by exists e | by apply IH].
Qed.

(** ** What holds throughout *)

Definition server_stopped (s : Srv) : Prop :=
  Server.s_call s = Server.Free /\ Server.keep_running_ s = false.
Definition client_stopped (c : Cli) : Prop :=
  Client.k_call c = Client.Free /\ Client.keep_running_ c = false.

Definition server_starting (s : Srv) : Prop :=
  Server.s_call s = Server.Created \/ Server.s_call s = Server.Assigned.
Definition client_starting (c : Cli) : Prop :=
  Client.k_call c = Client.Created \/ Client.k_call c = Client.Assigned.

(** An executor with [n] threads, when it is started. *)
Definition executor_ok (n : nat) (g : Grp) : Prop :=
  Group.g_call g = Group.Free /\ Queue.keep_popping_ (Group.thread_queue_ g) = true /\
  Group.num_threads_ g = n /\
  if Group.do_run_ g then length (Group.thread_pool_ g) = n else Group.thread_pool_ g = [].

(** [cs]: the calls of [start] still to be made. *)
Definition server_ok (cs : list call) (s : Srv) : Prop :=
  Server.phase_ok s /\ (~ (CServerStart ∈ cs) -> ~ server_starting s).
Definition client_ok (cs : list call) (k : which) (c : Cli) : Prop :=
  Client.phase_ok c /\ (~ (CClientStart k ∈ cs) -> ~ client_starting c).

Record life_ok (num_threads : Worker -> nat) (l : Life) : Prop := {
  lo_server : server_ok (l_start l) (l_server l);
  lo_client k : client_ok (l_start l) k (l_client l k);
  lo_flags : shutdown_ l = false /\ l_returned l = false;
  lo_executor w : executor_ok (num_threads w) (l_executor l w) /\
    (~ (CExecutorStart w ∈ l_start l) -> Group.do_run_ (l_executor l w) = true);
  lo_down cs : l_shutdown l = Some cs ->
    l_start l = [] /\ (~ (CServerStop ∈ cs) -> server_stopped (l_server l)) /\
    forall k, ~ (CClientStop k ∈ cs) -> client_stopped (l_client l k)
}.

(** The steps of a server's thread and of its producers leave its owner where
    it is. *)
Lemma server_thread e (s s' : Srv) : e <> Server.Start -> e <> Server.Stop -> Server.exec1 e s = Some s' ->
  Server.s_call s' = Server.s_call s /\ Server.keep_running_ s' = Server.keep_running_ s.
Proof.
  intros N1 N2 E. destruct e as [p m| | |i| | |]; cbn [Server.exec1] in E; try done.
  - by injection E as <-.
  - unfold Server.run_pop in E. destruct (Server.s_pc s); try done.
    destruct (Queue.take _ _) as [[e q]|]; [|done]. by injection E as <-.
  - unfold Server.run_timeout in E. destruct (Server.s_pc s); try done.
    destruct (Queue.timeout _) as [[]|]; try done; by injection E as <-.
  - unfold Server.run_send in E. destruct (Server.s_pc s); try done. by injection E as <-.
  - unfold Server.run_test in E. destruct (Server.s_pc s); try done. by injection E as <-.
Qed.

Lemma client_thread e (c c' : Cli) : e <> Client.Start -> e <> Client.Stop -> Client.exec1 e c = Some c' ->
  Client.k_call c' = Client.k_call c /\ Client.keep_running_ c' = Client.keep_running_ c.
Proof.
  intros N1 N2 E. destruct e as [| | |f|]; cbn [Client.exec1] in E; try done.
  - unfold Client.run_quiet in E. destruct (Client.k_pc c); try done. by injection E as <-.
  - unfold Client.run_receive in E. destruct (Client.k_pc c); try done. destruct (Client.callback_ c); [|done].
    by injection E as <-.
  - unfold Client.run_test in E. destruct (Client.k_pc c); try done. by injection E as <-.
Qed.

Lemma executor_thread w n (g g' : Grp) i k : executor_ok n g -> Group.loop (callback w) g i k = Some g' ->
  executor_ok n g' /\ Group.do_run_ g' = Group.do_run_ g.
Proof.
  intros (C & K & N & P) E. unfold executor_ok. unfold Group.loop in E.
  destruct (Group.thread_pool_ g !! i) as [[| |m|]|] eqn:L; try done.
  - injection E as <-. cbn. destruct (Group.do_run_ g); rewrite ?length_insert; [done|].
    by rewrite P in L.
  - destruct (Group.do_run_ g) eqn:D; [|by rewrite P in L].
    destruct (Queue.take (Group.thread_queue_ g) k) as [[e q]|] eqn:T.
    + injection E as <-. cbn. rewrite D, length_insert.
      assert (Queue.keep_popping_ q = true) as -> by
        (rewrite <- K; unfold Queue.take in T; repeat case_match; by simplify_eq). done.
    + destruct (Queue.timeout (Group.thread_queue_ g)) as [[]|]; try done; injection E as <-; cbn;
        rewrite ?D, ?length_insert; done.
  - destruct (Group.do_run_ g) eqn:D; [|by rewrite P in L].
    destruct (callback w m) as [|ex| |]; [| destruct (is_std_exception ex); [|done] | done..];
      injection E as <-; cbn; rewrite D, length_insert; done.
Qed.

(** When a call to start or to stop returns. *)
Lemma server_free_started s : server_free s = true -> ~ server_starting s.
Proof. intros F [E|E]; unfold server_free in F; by rewrite E in F. Qed.

Lemma client_free_started c : client_free c = true -> ~ client_starting c.
Proof. intros F [E|E]; unfold client_free in F; by rewrite E in F. Qed.

Lemma server_stops s s' : Server.phase_ok s -> Server.stopServer s = Some s' ->
  ~ server_starting s' /\ (server_free s' = true -> server_stopped s').
Proof.
  intros P E. unfold Server.stopServer in E. unfold server_starting, server_free, server_stopped.
  destruct P as [P _]. destruct (Server.s_call s) eqn:C; try done.
  - destruct (Server.keep_running_ s) eqn:K; injection E as <-; cbn; rewrite ?C, ?K; intuition congruence.
  - injection E as <-. cbn. intuition congruence.
  - destruct (Server.s_pc s); try done. injection E as <-. cbn. destruct P as (-> & _). intuition congruence.
Qed.

Lemma client_stops c c' : Client.phase_ok c -> Client.stopClient c = Some c' ->
  ~ client_starting c' /\ (client_free c' = true -> client_stopped c').
Proof.
  intros P E. unfold Client.stopClient in E. unfold client_starting, client_free, client_stopped.
  unfold Client.phase_ok in P. destruct (Client.k_call c) eqn:C; try done.
  - destruct (Client.keep_running_ c) eqn:K.
    + destruct P as [T _]. cbn in E. rewrite T in E. injection E as <-. cbn. intuition congruence.
    + injection E as <-. rewrite C, K. intuition congruence.
  - destruct (Client.k_pc c); try done. injection E as <-. cbn. destruct P as (-> & _). intuition congruence.
Qed.

(** A stopped server or client stays so, whatever its threads do. *)
Lemma server_thread_ok cs e s s' : e <> Server.Start -> e <> Server.Stop -> Server.exec1 e s = Some s' ->
  server_ok cs s -> server_ok cs s' /\ (server_stopped s -> server_stopped s').
Proof.
  intros N1 N2 E [P S]. destruct (server_thread e s s' N1 N2 E) as [C K].
  split; [split; [by eapply Server.server_phase_exec1 | unfold server_starting; by rewrite C]|].
  unfold server_stopped. by rewrite C, K.
Qed.

Lemma client_thread_ok cs k e c c' : e <> Client.Start -> e <> Client.Stop -> Client.exec1 e c = Some c' ->
  client_ok cs k c -> client_ok cs k c' /\ (client_stopped c -> client_stopped c').
Proof.
  intros N1 N2 E [P S]. destruct (client_thread e c c' N1 N2 E) as [C K].
  split; [split; [by eapply Client.client_phase_exec1 | unfold client_starting; by rewrite C]|].
  unfold client_stopped. by rewrite C, K.
Qed.

(** Replacing one component. *)
Lemma set_server_ok num l s : life_ok num l -> server_ok (l_start l) s ->
  (server_stopped (l_server l) -> server_stopped s) -> life_ok num (set_server l s).
Proof.
  intros [S C F X D] Hs Hk. split; try done. intros cs E. destruct (D cs E) as (A & B & G).
  split; [done|]. split; [intros N; by apply Hk, B | done].
Qed.

Lemma set_client_ok num l k c : life_ok num l -> client_ok (l_start l) k c ->
  (client_stopped (l_client l k) -> client_stopped c) -> life_ok num (set_client l k c).
Proof.
  intros [S C F X D] Hs Hk. split; try done.
  - intros k'. cbn. destruct (decide (k' = k)) as [->|]; [done | apply C].
  - intros cs E. destruct (D cs E) as (A & B & G). split; [done|]. split; [done|].
    intros k' N. cbn. destruct (decide (k' = k)) as [->|]; [by apply Hk, G | by apply G].
Qed.

Lemma set_executor_ok num l w g : life_ok num l -> executor_ok (num w) g ->
  (Group.do_run_ (l_executor l w) = true -> Group.do_run_ g = true) -> life_ok num (set_executor l w g).
Proof.
  intros [S C F X D] Hs Hk. split; try done. intros w'. cbn.
  destruct (decide (w' = w)) as [->|]; [|apply X]. split; [done|]. intros N. by apply Hk, X.
Qed.

(** Steps of the threads. *)
Lemma server_turn_ok num l e s : life_ok num l -> e <> Server.Start -> e <> Server.Stop ->
  Server.exec1 e (l_server l) = Some s -> life_ok num (set_server l s).
Proof.
  intros O N1 N2 E. destruct (server_thread_ok (l_start l) e _ _ N1 N2 E (lo_server _ _ O)).
  by apply set_server_ok.
Qed.

Lemma client_turn_ok num l k e c : life_ok num l -> e <> Client.Start -> e <> Client.Stop ->
  Client.exec1 e (l_client l k) = Some c -> life_ok num (set_client l k c).
Proof.
  intros O N1 N2 E. destruct (client_thread_ok (l_start l) k e _ _ N1 N2 E (lo_client _ _ O k)).
  by apply set_client_ok.
Qed.

(** A call of [start], before [shutdown]: [cs] is what follows it. *)
Definition going_up (num : Worker -> nat) (cs : list call) (l : Life) : Prop :=
  server_ok cs (l_server l) /\ (forall k, client_ok cs k (l_client l k)) /\
  forall w, executor_ok (num w) (l_executor l w) /\
    (~ (CExecutorStart w ∈ cs) -> Group.do_run_ (l_executor l w) = true).

(** Whether the invariant of a component depends on the call. *)
Definition starts (c : call) : bool :=
  match c with CServerStart | CClientStart _ | CExecutorStart _ => true | _ => false end.

(** Replacing a component and passing over a call that starts no other. *)
Lemma up_server num cs cs' l s : going_up num cs l -> server_ok cs' s ->
  (forall c, starts c = true -> c <> CServerStart -> ~ (c ∈ cs') -> ~ (c ∈ cs)) -> going_up num cs' (set_server l s).
Proof.
  intros (S & C & X) Hs N. split; [done|]. split.
  - intros k. destruct (C k) as [P Q]. split; [done|]. intros M. by apply Q, N.
  - intros w. destruct (X w) as [P Q]. split; [done|]. intros M. by apply Q, N.
Qed.

Lemma up_client num cs cs' l k c : going_up num cs l -> client_ok cs' k c ->
  (forall x, starts x = true -> x <> CClientStart k -> ~ (x ∈ cs') -> ~ (x ∈ cs)) -> going_up num cs' (set_client l k c).
Proof.
  intros (S & C & X) Hs N. split; [|split].
  - destruct S as [P Q]. split; [done|]. intros M. by apply Q, N.
  - intros k'. cbn. destruct (decide (k' = k)) as [->|Nk]; [done|]. destruct (C k') as [P Q]. split; [done|].
    intros M. apply Q, N; [done | congruence | done].
  - intros w. destruct (X w) as [P Q]. split; [done|]. intros M. by apply Q, N.
Qed.

Lemma up_executor num cs cs' l w g : going_up num cs l -> executor_ok (num w) g -> Group.do_run_ g = true ->
  (forall x, starts x = true -> x <> CExecutorStart w -> ~ (x ∈ cs') -> ~ (x ∈ cs)) -> going_up num cs' (set_executor l w g).
Proof.
  intros (S & C & X) Hg Hr N. split; [|split].
  - destruct S as [P Q]. split; [done|]. intros M. by apply Q, N.
  - intros k. destruct (C k) as [P Q]. split; [done|]. intros M. by apply Q, N.
  - intros w'. cbn. destruct (decide (w' = w)) as [->|Nw]; [done|]. destruct (X w') as [P Q]. split; [done|].
    intros M. apply Q, N; [done | congruence | done].
Qed.

Lemma executor_start n (g : Grp) b g' : executor_ok n g -> Group.start g = Some (b, g') ->
  executor_ok n g' /\ Group.do_run_ g' = true.
Proof.
  intros (C & K & N & P) E. unfold Group.start in E. rewrite C in E.
  destruct (Group.do_run_ g) eqn:D; injection E as <- <-; [unfold executor_ok; by rewrite D|].
  unfold executor_ok. cbn. by rewrite P, N, length_app, length_replicate.
Qed.

Lemma do_call_up num c cs l r l' : going_up num (c :: cs) l -> do_call c l = Some (r, l') ->
  going_up num (if r : bool then cs else c :: cs) l'.
Proof.
  intros U E. pose proof U as (S & C & X).
  assert (forall x, x <> c -> ~ (x ∈ cs) -> ~ (x ∈ c :: cs)) as Nc
    by (intros x N1 N2; by apply not_elem_of_cons).
  assert (forall y, starts c = false \/ y = c -> forall x, starts x = true -> x <> y -> ~ (x ∈ cs) -> ~ (x ∈ c :: cs))
    as Pc by (intros y [F | ->] x T N1; apply Nc; congruence).
  destruct c as [k|k f| |k|w|k|]; cbn [do_call] in E.
  - injection E as <- <-. eapply up_client; [exact U | | apply Pc; by left].
    destruct (C k) as [P Q]. split; [done|]. intros M. by apply Q, Nc.
  - injection E as <- <-. eapply up_client; [exact U | | apply Pc; by left].
    destruct (C k) as [P Q]. split; [done|]. intros M. by apply Q, Nc.
  - destruct (Server.startServer (l_server l)) as [s|] eqn:Es; [|done]. injection E as <- <-.
    assert (Server.phase_ok s) as P by (by eapply (Server.server_phase_exec1 Server.Start); [apply S|]).
    destruct (server_free s) eqn:Fs; (eapply up_server; [exact U | | try (apply Pc; by right); done]).
    + split; [done|]. intros _. by apply server_free_started.
    + split; [done|]. intros M. destruct M. by left.
  - destruct (Client.startClient (l_client l k)) as [s|] eqn:Es; [|done]. injection E as <- <-.
    assert (Client.phase_ok s) as P by (by eapply (Client.client_phase_exec1 Client.Start); [apply C|]).
    destruct (client_free s) eqn:Fs; (eapply up_client; [exact U | | try (apply Pc; by right); done]).
    + split; [done|]. intros _. by apply client_free_started.
    + split; [done|]. intros M. destruct M. by left.
  - destruct (Group.start (l_executor l w)) as [[b g]|] eqn:Eg; [|done]. injection E as <- <-.
    destruct (executor_start (num w) _ _ _ (proj1 (X w)) Eg) as [Hg Hr].
    eapply up_executor; [exact U | done | done | apply Pc; by right].
  - destruct (Client.stopClient (l_client l k)) as [s|] eqn:Es; [|done]. injection E as <- <-.
    destruct (client_stops _ _ (proj1 (C k)) Es) as [Hs _].
    assert (Client.phase_ok s) as P by (by eapply (Client.client_phase_exec1 Client.Stop); [apply C|]).
    destruct (client_free s); (eapply up_client; [exact U | done | try (apply Pc; by left); done]).
  - destruct (Server.stopServer (l_server l)) as [s|] eqn:Es; [|done]. injection E as <- <-.
    destruct (server_stops _ _ (proj1 S) Es) as [Hs _].
    assert (Server.phase_ok s) as P by (by eapply (Server.server_phase_exec1 Server.Stop); [apply S|]).
    destruct (server_free s); (eapply up_server; [exact U | done | try (apply Pc; by left); done]).
Qed.

(** What a call leaves as it is. *)
Lemma do_call_frame c l r l' : do_call c l = Some (r, l') ->
  l_start l' = l_start l /\ l_returned l' = l_returned l /\ l_shutdown l' = l_shutdown l /\
  shutdown_ l' = shutdown_ l /\ request_shutdown l' = request_shutdown l.
Proof.
  destruct c; cbn [do_call]; intros E;
    try match type of E with (?f ≫= _) = _ => destruct f; [|done] end; by injection E as <- <-.
Qed.

Lemma start_step_ok num l l' : life_ok num l -> start_step l = Some l' -> life_ok num l'.
Proof.
  intros O E. unfold start_step in E. destruct (l_start l) as [|c cs] eqn:Ec; [done|].
  assert (l_shutdown l = None) as Dn.
  { destruct (l_shutdown l) as [ds|] eqn:Ed; [|done]. destruct (lo_down _ _ O ds Ed) as [A _]. congruence. }
  destruct (do_call c l) as [[r l1]|] eqn:Ed; [|done]. injection E as <-.
  destruct O as [S C F X _]. rewrite Ec in *.
  destruct (do_call_up num c cs l r l1) as (S' & C' & X'); [done | done |].
  destruct (do_call_frame c l r l1 Ed) as (Fs & Fr & Fd & F1 & F2). rewrite Dn in Fd.
  destruct r; split; cbn; rewrite ?Fs, ?F1, ?Fr, ?Fd, ?Ec; try done.
Qed.

(** A call of [shutdown]. *)
Lemma stop_call_ok num c rest l r l' : life_ok num l -> l_shutdown l = Some (c :: rest) ->
  c ∈ shutdown_calls -> do_call c l = Some (r, l') ->
  life_ok num (if r : bool then set_shutdown l' rest else l').
Proof.
  intros O Ed Hc E. destruct (lo_down _ _ O _ Ed) as (A & B & G).
  unfold shutdown_calls in Hc. rewrite !elem_of_cons in Hc.
  destruct c as [k|k f| |k|w|k|]; try (exfalso; by intuition (try congruence; by eapply elem_of_nil)); clear Hc;
    cbn [do_call] in E.
  - destruct (Client.stopClient (l_client l k)) as [c|] eqn:Es; [|done]. injection E as <- <-.
    destruct (client_stops _ _ (proj1 (lo_client _ _ O k)) Es) as [Hs Hf].
    assert (Client.phase_ok c) as P by (by eapply (Client.client_phase_exec1 Client.Stop); [apply (lo_client _ _ O k)|]).
    destruct O as [S C F X D]. destruct (client_free c).
    + split; cbn; try done.
      * intros k'. destruct (decide (k' = k)) as [->|]; [done | apply C].
      * intros cs [= <-]. split; [done|]. split; [intros N; apply B; by apply not_elem_of_cons|].
        intros k' N. destruct (decide (k' = k)) as [->|Nk]; [by apply Hf|]. apply G.
        apply not_elem_of_cons. split; [congruence | done].
    + split; cbn; try done.
      * intros k'. destruct (decide (k' = k)) as [->|]; [done | apply C].
      * rewrite Ed. intros cs [= <-]. split; [done|]. split; [done|]. intros k' N.
        destruct (decide (k' = k)) as [->|Nk]; [destruct N; by left | by apply G].
  - destruct (Server.stopServer (l_server l)) as [c|] eqn:Es; [|done]. injection E as <- <-.
    destruct (server_stops _ _ (proj1 (lo_server _ _ O)) Es) as [Hs Hf].
    assert (Server.phase_ok c) as P by (by eapply (Server.server_phase_exec1 Server.Stop); [apply (lo_server _ _ O)|]).
    destruct O as [S C F X D]. destruct (server_free c); split; cbn; try done.
    + intros cs [= <-]. split; [done|]. split; [intros _; by apply Hf|]. intros k N. apply G.
      by apply not_elem_of_cons.
    + rewrite Ed. intros cs [= <-]. split; [done|]. split; [intros N; destruct N; by left | done].
Qed.

(** What is left of [shutdown] is the end of its list. *)
Definition down_suffix (l : Life) : Prop :=
  forall cs, l_shutdown l = Some cs -> cs `suffix_of` shutdown_calls.

Lemma life_exec1_ok num e l l' : life_ok num l /\ down_suffix l -> life_exec1 e l = Some l' ->
  life_ok num l' /\ down_suffix l'.
Proof.
  intros [O U] E. destruct e as [|m| | |e|k e|w i n]; cbn [life_exec1] in E.
  - split; [by eapply start_step_ok|]. unfold start_step in E. destruct (l_start l) as [|c cs]; [done|].
    destruct (do_call c l) as [[r l1]|] eqn:Ed; [|done]. injection E as <-.
    destruct (do_call_frame _ _ _ _ Ed) as (_ & _ & F & _). unfold down_suffix. destruct r; cbn; by rewrite F.
  - unfold loop_turn in E. destruct (l_start l); [|done]. destruct (lo_flags _ _ O) as [R1 R2].
    rewrite R1, R2 in E. destruct m as [m|]; injection E as <-; [|done]. split; [|done].
    by apply (server_turn_ok num l (Server.Produce 0 m)).
  - unfold shutdown in E. destruct (l_start l) eqn:Es; [|done]. destruct (l_shutdown l); [done|]. injection E as <-.
    destruct O as [S C F X D]. rewrite Es in *. split; [|by intros cs [= <-]]. split; cbn; try done.
    intros cs [= <-]. split; [done|]. split; [intros N; destruct N; right; left|].
    intros [] N; destruct N; [left | right; right; left].
  - unfold shutdown_step in E. destruct (l_shutdown l) as [[|c cs]|] eqn:Ed; try done.
    destruct (do_call c l) as [[r l1]|] eqn:Ec; [|done]. injection E as <-.
    pose proof (U _ Ed) as Sf. split.
    + apply (stop_call_ok num c cs l r l1 O Ed); [|done]. destruct Sf as [k ->]. apply elem_of_app. right. left.
    + destruct (do_call_frame _ _ _ _ Ec) as (_ & _ & F & _). destruct r; cbn.
      * intros ds [= <-]. by eapply suffix_cons_l.
      * unfold down_suffix. by rewrite F.
  - unfold server_event in E. assert (e <> Server.Start /\ e <> Server.Stop) as [N1 N2] by (by destruct e).
    destruct (Server.exec1 e (l_server l)) as [s|] eqn:Es; [|by destruct e].
    assert (l' = set_server l s) as -> by (destruct e; try done; by injection E).
    split; [by apply (server_turn_ok num l e) | done].
  - assert (e <> Client.Start /\ e <> Client.Stop) as [N1 N2] by (by destruct e).
    destruct (Client.exec1 e (l_client l k)) as [c|] eqn:Es; [|destruct e; cbn in E, Es; by rewrite ?Es in E].
    pose proof (client_turn_ok num l k e c O N1 N2 Es) as O'.
    destruct e as [| | |m|]; try done; cbn [client_event] in E; cbn [Client.exec1] in Es; cbn in E; rewrite Es in E;
      try (injection E as <-; by split).
    cbn in E. destruct (executor_of m) as [w|]; [|done]. injection E as <-. split; [|done].
    destruct (lo_executor _ _ O' w) as [(G1 & G2 & G3 & G4) _]. by apply set_executor_ok.
  - unfold executor_event in E. destruct (Group.loop _ _ _ _) as [g|] eqn:Eg; [|done]. injection E as <-.
    destruct (executor_thread w (num w) _ _ _ _ (proj1 (lo_executor _ _ O w)) Eg) as [Hg Hr].
    split; [apply set_executor_ok; [done | done | by rewrite Hr] | done].
Qed.

Lemma create_phase_ok hosts : Client.phase_ok (Client.CreateTransactionClient (Frame := DevcashMessage) hosts) /\
  client_stopped (Client.CreateTransactionClient hosts).
Proof.
  unfold Client.CreateTransactionClient.
  assert (Client.phase_ok (Client.ctor (Frame := DevcashMessage)) /\ client_stopped Client.ctor) as P by done.
  revert P. generalize (Client.ctor (Frame := DevcashMessage)).
  induction hosts as [|h hosts IH]; intros c0 P; [done|]. by apply IH.
Qed.

Lemma life_ctor_ok context hosts loopback num :
  life_ok num (life_ctor context hosts loopback num) /\ down_suffix (life_ctor context hosts loopback num).
Proof.
  split; [|done]. split; cbn; try done.
  - split; [by split; [left | split]|]. intros _ [H|H]; done.
  - intros k. pose proof (create_phase_ok hosts) as [P1 [Q1 _]]. pose proof (create_phase_ok loopback) as [P2 [Q2 _]].
    destruct k; (split; [done|]); intros _ [H|H]; congruence.
  - intros w. split; [done|]. intros N. destruct N. unfold start_calls.
    rewrite !elem_of_cons. destruct w; intuition.
Qed.

(** Every state a module can reach. *)
Lemma life_reachable context hosts loopback num l :
  rtc life_step (life_ctor context hosts loopback num) l -> life_ok num l /\ down_suffix l.
Proof.
  intros R. cut (forall l0, rtc life_step l0 l -> life_ok num l0 /\ down_suffix l0 -> life_ok num l /\ down_suffix l).
  { intros K. eapply K; [exact R | apply life_ctor_ok]. }
  clear R. induction 1 as [|x y z [e E] _ IH]; [done|]. intros O. by eapply IH, life_exec1_ok.
Qed.

(** A call to stop a component, or the thread it joins, has a step. *)
Lemma stop_client_progress cs k c : client_ok cs k c -> ~ (CClientStart k ∈ cs) ->
  is_Some (Client.stopClient c) \/ is_Some (Client.run_quiet c) \/ is_Some (Client.run_test c).
Proof.
  intros [P S] N. specialize (S N). unfold client_starting in S. unfold Client.phase_ok in P.
  unfold Client.stopClient, Client.run_quiet, Client.run_test.
  destruct (Client.k_call c) eqn:C; try (exfalso; by intuition).
  - left. destruct (Client.keep_running_ c); by eexists.
  - destruct P as (_ & _ & P). destruct (Client.k_pc c); try done; eauto.
Qed.

Lemma stop_server_progress cs s : server_ok cs s -> ~ (CServerStart ∈ cs) ->
  is_Some (Server.stopServer s) \/ exists e, Server.is_thread e = true /\ is_Some (Server.exec1 e s).
Proof.
  intros [P S] N. specialize (S N). unfold server_starting in S. destruct P as [P _].
  unfold Server.stopServer. destruct (Server.s_call s) eqn:C; try (exfalso; by intuition).
  - left. destruct (Server.keep_running_ s); by eexists.
  - left. by eexists.
  - destruct P as (_ & _ & P). destruct (Server.s_pc s) eqn:Ep; [done | | | | by left; eexists];
      right; apply Server.server_thread_enabled; congruence.
Qed.

(** While [shutdown] has a call to make, that call or the thread it waits for
    has a step. *)
Lemma shutdown_progress num l c cs : life_ok num l -> down_suffix l -> l_shutdown l = Some (c :: cs) ->
  is_Some (life_exec1 EDown l) \/
  (exists e, Server.is_thread e = true /\ is_Some (life_exec1 (EServer e) l)) \/
  (exists k e, Client.is_thread e = true /\ is_Some (life_exec1 (EClient k e) l)).
Proof.
  intros O U Ed. destruct (lo_down _ _ O _ Ed) as (A & _).
  assert (c ∈ shutdown_calls) as Hc by (destruct (U _ Ed) as [k ->]; apply elem_of_app; right; left).
  pose proof (lo_server _ _ O) as S. pose proof (lo_client _ _ O) as C. rewrite A in S, C.
  cbn [life_exec1]. unfold shutdown_step. rewrite Ed.
  unfold shutdown_calls in Hc. rewrite !elem_of_cons in Hc.
  destruct c as [k|k f| |k|w|k|]; try (exfalso; by intuition (try congruence; by eapply elem_of_nil)); clear Hc;
    cbn [do_call].
  - destruct (stop_client_progress [] k _ (C k) (not_elem_of_nil _)) as [[s E]|[[s E]|[s E]]].
    + left. rewrite E. by eexists.
    + right; right. exists k, Client.Quiet. split; [done|]. cbn. rewrite E. by eexists.
    + right; right. exists k, Client.Test. split; [done|]. cbn. rewrite E. by eexists.
  - destruct (stop_server_progress [] _ S (not_elem_of_nil _)) as [[s E]|(e & T & [s E])].
    + left. rewrite E. by eexists.
    + right; left. exists e. split; [done|]. unfold server_event. rewrite E. by destruct e; try done; eexists.
Qed.
End lifecycle.
