(* ===== verification/Threads.v ===== *)
(** * Threads over shared state

    A thread's code is a program: a tree of accesses to the shared state,
    acquisitions and releases of mutexes.  Every access names the locations it
    reads and writes.  The file gives the semantics of a set of threads that
    take turns between two steps, in any order, and a rely-guarantee logic for
    it: a thread proves its steps against an invariant and the locations that
    nobody else may write, and is proved once, without looking at the others.

    An access that is undefined or ends the process has no successor: what is
    shown of the reachable configurations is shown of all that precede it. *)

From Stdlib Require Import ZArith Lia.
From stdpp Require Import relations.
From stdpp Require Import base list numbers functions.
From S2P Require Import Prelude.

(** ** The shared state *)

(** Mutexes are flags of the state; [same l] says that two states agree on a
    location.  The flags are no location. *)
Class Shared (S mutex loc : Type) := {
  locked : mutex -> S -> bool;
  set_locked : mutex -> bool -> S -> S;
  same : loc -> S -> S -> Prop;
  same_equiv l :: Equivalence (same l);
  locked_set m b s : locked m (set_locked m b s) = b;
  locked_set_ne m m' b s : m <> m' -> locked m (set_locked m' b s) = locked m s;
  same_set m b s l : same l s (set_locked m b s)
}.

Inductive access (loc : Type) := Read (l : loc) | Write (l : loc).
Arguments Read {loc} l.
Arguments Write {loc} l.

#[global] Instance access_eq_dec {loc} `{EqDecision loc} : EqDecision (access loc).
Proof. solve_decision. Defined.

(** What ends the process at once: undefined behaviour and a failed assertion.
    A computation without an end has no result either. *)
Definition fatal {A} (r : res A) : bool :=
  match r with Ok _ => false | Err e => bool_decide (e = AssertionFailure) | UB | NoFuel => true end.

(** ** Programs *)
Section programs.
Context {S mutex loc : Type}.

Inductive prog (A : Type) : Type :=
| Ret (r : res A)
| Do {B : Type} (acc : list (access loc)) (m : M S B) (k : res B -> prog A)
| Acquire (l : mutex) (k : prog A)
| Release (l : mutex) (k : prog A).
Arguments Ret {A} r.
Arguments Do {A B} acc m k.
Arguments Acquire {A} l k.
Arguments Release {A} l k.

Fixpoint bindr {A B} (p : prog A) (f : res A -> prog B) : prog B :=
  match p with
  | Ret r => f r
  | Do acc m k => Do acc m (fun r => bindr (k r) f)
  | Acquire l k => Acquire l (bindr k f)
  | Release l k => Release l (bindr k f)
  end.

(** What goes on after a result, and what an exception skips. *)
Definition on_ok {A B} (f : A -> prog B) (r : res A) : prog B :=
  match r with
  | Ok a => f a
  | Err e => Ret (Err e)
  | UB => Ret UB
  | NoFuel => Ret NoFuel
  end.

Definition on_exception {A} (h : exn -> prog A) (r : res A) : prog A :=
  match r with
  | Err e => if is_std_exception e then h e else Ret (Err e)
  | r => Ret r
  end.

Definition on_deserialization (r : res unit) : prog unit :=
  match r with Err DeserializationError => Ret (Ok tt) | r => Ret r end.

Definition ptry {A} (p : prog A) (h : exn -> prog A) : prog A := bindr p (on_exception h).

(** One access, and a computation on local data. *)
Definition act {A} (acc : list (access loc)) (m : M S A) : prog A := Do acc m Ret.
Definition pure {A} (r : res A) : prog A := Ret r.

(** [std::lock_guard<std::mutex> guard(l)] around a body: released on every
    way out. *)
Definition guarded {A} (l : mutex) (p : prog A) : prog A :=
  Acquire l (bindr p (fun r => Release l (Ret r))).
End programs.
Arguments prog : clear implicits.
Arguments Ret {S mutex loc A} r.
Arguments Do {S mutex loc A B} acc m k.
Arguments Acquire {S mutex loc A} l k.
Arguments Release {S mutex loc A} l k.

#[global] Instance prog_ret {S mutex loc} : MRet (prog S mutex loc) := fun A a => Ret (Ok a).
#[global] Instance prog_bind {S mutex loc} : MBind (prog S mutex loc) := fun A B f p =>
  bindr p (on_ok f).

(** ** Outcomes

    After a fatal result nobody sees the state: computations are compared up to
    it. *)
Definition same_outcome {S A} (x y : res A * S) : Prop :=
  x.1 = y.1 /\ (fatal x.1 = false -> x.2 = y.2).

Definition mequiv {S A} (m m' : M S A) : Prop := forall s, same_outcome (m s) (m' s).
Infix "≃" := mequiv (at level 70, no associativity) : devv_scope.
#[local] Open Scope devv_scope.

(** A fatal result at another type. *)
Definition cast {A B} (r : res A) : res B :=
  match r with Err e => Err e | UB => UB | _ => NoFuel end.

Section outcomes.
Context {S : Type}.

#[export] Instance same_outcome_equiv {A} : Equivalence (@same_outcome S A).
Proof.
  split.
  - by intros x.
  - intros x y [E F]. split; [done|]. rewrite <- E. intros X. by rewrite F.
  - intros x y z [E1 F1] [E2 F2]. split; [congruence|]. intros X. rewrite F1 by done.
    apply F2. by rewrite <- E1.
Qed.

#[export] Instance mequiv_equiv {A} : Equivalence (@mequiv S A).
Proof.
  split.
  - by intros m s.
  - intros m m' E s. by symmetry.
  - intros m m' m'' E1 E2 s. by transitivity (m' s).
Qed.

Lemma mequiv_eq {A} (m m' : M S A) : (forall s, m s = m' s) -> m ≃ m'.
Proof. intros E s. by rewrite E. Qed.

Lemma outcome_bind {A B} (m m' : M S A) (f f' : A -> M S B) s :
  same_outcome (m s) (m' s) ->
  (forall a s', m' s = (Ok a, s') -> same_outcome (f a s') (f' a s')) ->
  same_outcome ((m ≫= f) s) ((m' ≫= f') s).
Proof.
  intros [E1 E2] Ef. unfold mbind, M_bind.
  destruct (m s) as [r s1], (m' s) as [r' s1']. cbn in *. subst r'.
  destruct r as [a|e| |]; [rewrite E2 by done; by apply Ef | | done..].
  split; [done|]. exact E2.
Qed.

Lemma bind_outcome {A B} (m m' : M S A) (f f' : A -> M S B) :
  m ≃ m' -> (forall a, f a ≃ f' a) -> (m ≫= f) ≃ (m' ≫= f').
Proof.
  intros Em Ef s. by apply outcome_bind; [|intros; apply Ef].
Qed.

Lemma try_outcome {A} (m m' : M S A) (h h' : exn -> M S A) :
  m ≃ m' -> (forall e, h e ≃ h' e) -> try_catch m h ≃ try_catch m' h'.
Proof.
  intros Em Eh s. destruct (Em s) as [E1 E2]. unfold try_catch.
  destruct (m s) as [r s1], (m' s) as [r' s1']. cbn in *. subst r'.
  destruct r as [a|e| |]; [by split | | done..].
  destruct (is_std_exception e) eqn:X; [|by split].
  rewrite E2; [apply Eh|]. by destruct e.
Qed.

#[export] Instance bind_proper {A B} :
  Proper (pointwise_relation _ mequiv ==> mequiv ==> mequiv) (@mbind (M S) _ A B).
Proof. intros f f' Ef m m' Em. by apply bind_outcome. Qed.
End outcomes.

(** ** A program alone

    Locking a mutex that is taken is undefined for the only thread. *)
Section alone.
Context {S mutex loc : Type} `{Shared S mutex loc}.
Abbreviation prog := (prog S mutex loc).

Fixpoint run {A} (p : prog A) : M S A := fun s =>
  match p with
  | Ret r => (r, s)
  | Do acc m k => let '(r, s1) := m s in if fatal r then (cast r, s1) else run (k r) s1
  | Acquire l k => if locked l s then (UB, s) else run k (set_locked l true s)
  | Release l k => run k (set_locked l false s)
  end.

(** What is done with a fatal result changes nothing. *)
Definition strict {A B} (f : res A -> prog B) : Prop :=
  forall r s, fatal r = true -> fst (run (f r) s) = cast r.

Lemma fatal_cast {A B} (r : res A) : fatal r = true -> fatal (cast (B := B) r) = true.
Proof. by destruct r. Qed.

Lemma cast_cast {A B C} (r : res A) : cast (B := C) (cast (B := B) r) = cast r.
Proof. by destruct r. Qed.

Lemma run_bindr {A B} (p : prog A) (f : res A -> prog B) s :
  strict f -> same_outcome (run (bindr p f) s) (let '(r, s1) := run p s in run (f r) s1).
Proof.
  intros St. revert s. induction p as [r|C acc m k IH|l k IH|l k IH]; intros s; cbn [bindr run].
  - done.
  - destruct (m s) as [r s1]. destruct (fatal r) eqn:F; [|apply IH].
    assert (fst (run (f (cast r)) s1) = cast r) as E.
    { rewrite St by by apply fatal_cast. apply cast_cast. }
    split; cbn [fst]; [done|]. rewrite fatal_cast by done. done.
  - destruct (locked l s); [|apply IH]. split; cbn [fst]; [|done].
    rewrite St by done. done.
  - apply IH.
Qed.

Lemma strict_ok {A B} (f : A -> prog B) : strict (on_ok f).
Proof. by intros [] s. Qed.

Lemma strict_exception {A} (h : exn -> prog A) : strict (on_exception h).
Proof. by intros [|[]| |] s. Qed.

Lemma strict_deserialization : strict on_deserialization.
Proof. by intros [|[]| |] s. Qed.

Lemma run_bind {A B} (p : prog A) (f : A -> prog B) :
  run (p ≫= f) ≃ (run p ≫= fun a => run (f a)).
Proof.
  intros s. etransitivity; [apply run_bindr, strict_ok|]. unfold mbind, M_bind.
  by destruct (run p s) as [[]].
Qed.

Lemma run_try {A} (p : prog A) (h : exn -> prog A) :
  run (ptry p h) ≃ try_catch (run p) (fun e => run (h e)).
Proof.
  intros s. etransitivity; [apply run_bindr, strict_exception|]. unfold try_catch.
  destruct (run p s) as [[|e| |] s1]; try done. cbn [on_exception].
  by destruct (is_std_exception e).
Qed.

Lemma run_act {A} (acc : list (access loc)) (m : M S A) : run (act acc m) ≃ m.
Proof.
  intros s. cbn. destruct (m s) as [r s1]. destruct (fatal r) eqn:F; [|done].
  split; cbn [fst]; [by destruct r|]. by rewrite fatal_cast.
Qed.

(** A body under a lock, alone. *)
Definition with_lock {A} (l : mutex) (m : M S A) : M S A := fun s =>
  if locked l s then (UB, s)
  else let '(r, s1) := m (set_locked l true s) in (r, set_locked l false s1).

Lemma run_guarded {A} (l : mutex) (p : prog A) (m : M S A) :
  run p ≃ m -> run (guarded l p) ≃ with_lock l m.
Proof.
  intros E s. cbn [guarded run]. unfold with_lock. destruct (locked l s); [done|].
  etransitivity; [apply run_bindr; by intros [] ?|].
  destruct (E (set_locked l true s)) as [E1 E2].
  destruct (run p _) as [r s1], (m _) as [r' s1']. cbn in E1, E2 |- *. subst r'.
  split; [done|]. cbn. intros F. by rewrite E2.
Qed.
End alone.

(** ** Configurations

    Each role is one thread: idle between two messages, running, or gone after
    an exception.  [held] lists the mutexes a running thread has, the last one
    first. *)
Section config.
Context {S mutex loc role : Type} `{Shared S mutex loc} `{EqDecision role}.
Abbreviation prog := (prog S mutex loc).

Inductive tstate :=
| Idle
| Running (held : list mutex) (p : prog unit)
| Gone.

Record config := mkConfig { c_shared : S; c_threads : role -> tstate }.

Definition held_of (t : tstate) : list mutex :=
  match t with Running held _ => held | _ => [] end.

(** One step of a running thread.  Waiting for a mutex is no step. *)
Definition advance (held : list mutex) (p : prog unit) (s : S) : option (tstate * S) :=
  match p with
  | Ret (Ok _) => Some (Idle, s)
  | Ret (Err e) => if is_std_exception e then Some (Gone, s) else None
  | Ret _ => None
  | Do acc m k =>
      let '(r, s1) := m s in if fatal r then None else Some (Running held (k r), s1)
  | Acquire l k =>
      if locked l s then None else Some (Running (l :: held) k, set_locked l true s)
  | Release l k => Some (Running (tail held) k, set_locked l false s)
  end.

Definition go (i : role) (c : config) : option config :=
  match c_threads c i with
  | Running held p =>
      r ← advance held p (c_shared c);
      Some (mkConfig r.2 (<[i := r.1]> (c_threads c)))
  | _ => None
  end.

(** A message arrives at an idle thread. *)
Definition start (i : role) (p : prog unit) (c : config) : option config :=
  match c_threads c i with
  | Idle => Some (mkConfig (c_shared c) (<[i := Running [] p]> (c_threads c)))
  | _ => None
  end.

(** A schedule: which thread goes on, and which message is taken up. *)
Inductive event := Start (i : role) (p : prog unit) | Go (i : role).

Definition exec1 (e : event) (c : config) : option config :=
  match e with Start i p => start i p c | Go i => go i c end.

Fixpoint exec (es : list event) (c : config) : option config :=
  match es with
  | [] => Some c
  | e :: rest => c' ← exec1 e c; exec rest c'
  end.

(** The same, as long as the shared state passes a test. *)
Fixpoint exec_within (within : S -> bool) (es : list event) (c : config) : option config :=
  match es with
  | [] => Some c
  | e :: rest =>
      if within (c_shared c) then c' ← exec1 e c; exec_within within rest c' else None
  end.

(** Any interleaving: idle threads take up programs of theirs, running ones
    step, as long as the shared state is within [side]. *)
Context (starts : role -> prog unit -> Prop) (side : S -> Prop).

Inductive cstep (c c' : config) : Prop :=
| cs_start i p : starts i p -> start i p c = Some c' -> cstep c c'
| cs_go i : side (c_shared c) -> go i c = Some c' -> cstep c c'.

(** The next access of a thread, and two accesses that conflict. *)
Definition next_access (t : tstate) : list (access loc) :=
  match t with Running _ (Do acc m k) => acc | _ => [] end.

Definition race (c : config) (i j : role) (l : loc) : Prop :=
  i <> j /\ Write l ∈ next_access (c_threads c i) /\
  (Read l ∈ next_access (c_threads c j) \/ Write l ∈ next_access (c_threads c j)).

(** [i] wants a mutex that [j] has. *)
Definition waits (c : config) (i j : role) : Prop :=
  exists held l k, c_threads c i = Running held (Acquire l k) /\
    l ∈ held_of (c_threads c j).

(** What a run of one thread by itself does is what [run] says. *)
Lemma go_alone i p : forall held c,
  c_threads c i = Running held p -> fatal (fst (run p (c_shared c))) = false ->
  exists n c' held', exec (replicate n (Go i)) c = Some c' /\
    c_shared c' = snd (run p (c_shared c)) /\
    c_threads c' i = Running held' (Ret (fst (run p (c_shared c)))) /\
    (forall j, j <> i -> c_threads c' j = c_threads c j).
Proof.
  assert (forall held p c held1 p1 s1,
    c_threads c i = Running held p -> advance held p (c_shared c) = Some (Running held1 p1, s1) ->
    (exists n c' held', exec (replicate n (Go i)) (mkConfig s1 (<[i := Running held1 p1]> (c_threads c)))
       = Some c' /\ c_shared c' = snd (run p1 s1) /\
       c_threads c' i = Running held' (Ret (fst (run p1 s1))) /\
       (forall j, j <> i -> c_threads c' j = <[i := Running held1 p1]> (c_threads c) j)) ->
    exists n c' held', exec (replicate n (Go i)) c = Some c' /\ c_shared c' = snd (run p1 s1) /\
       c_threads c' i = Running held' (Ret (fst (run p1 s1))) /\
       (forall j, j <> i -> c_threads c' j = c_threads c j)) as step.
  { intros held q c held1 q1 s1 Et Ea (n & c' & held' & R & E1 & E2 & E3).
    exists (Datatypes.S n), c', held'. cbn [replicate exec exec1]. unfold go at 1. rewrite Et, Ea.
    split; [exact R|]. split; [done|]. split; [done|]. intros j N. rewrite E3 by done.
    by rewrite fn_lookup_insert_ne. }
  induction p as [r|B acc m k IH|l k IH|l k IH]; intros held c Et F.
  - by exists O, c, held.
  - cbn [run] in F |- *. destruct (m (c_shared c)) as [r s1] eqn:E.
    destruct (fatal r) eqn:Fr; [cbn [fst] in F; by rewrite (fatal_cast r Fr) in F|].
    eapply step; [exact Et | cbn [advance]; by rewrite E, Fr|].
    apply (IH r held); [apply fn_lookup_insert | done].
  - cbn [run] in F |- *. destruct (locked l (c_shared c)) eqn:L; [done|].
    eapply step; [exact Et | cbn [advance]; by rewrite L|].
    apply (IH (l :: held)); [apply fn_lookup_insert | done].
  - cbn [run] in F |- *. eapply step; [exact Et | reflexivity|]. apply (IH (tail held)); [apply fn_lookup_insert | done].
Qed.
End config.

(** ** A discipline for shared locations

    [may_read], [may_write]: which accesses a thread may make with the mutexes
    it holds.  [stable]: the locations that no other thread may write
    meanwhile, which is what a thread can rely on between two of its steps.
    [rank] orders the mutexes. *)
Class Discipline (S mutex loc role : Type) `{Shared S mutex loc} := {
  may_read : role -> list mutex -> loc -> Prop;
  may_write : role -> list mutex -> loc -> Prop;
  stable : role -> list mutex -> loc -> Prop;
  rank : mutex -> nat;
  stable_excl i j hi hj l :
    i <> j -> stable j hj l -> may_write i hi l -> exists m, m ∈ hi /\ m ∈ hj;
  stable_cons i m hi l : stable i hi l -> stable i (m :: hi) l
}.

(** What the threads keep: an invariant of the shared state, within bounds
    ([ts_side]) that the environment promises; what holds between two messages
    of a thread and that nobody else can change; what every step of every thread
    does; and which accesses must give a result. *)
Class ThreadSpec (S mutex loc role : Type) `{Discipline S mutex loc role} := {
  ts_inv : S -> Prop;
  ts_side : S -> Prop;
  ts_rest : role -> S -> Prop;
  ts_grow : S -> S -> Prop;
  ts_total : list (access loc) -> Prop;
  ts_inv_set m b s : ts_inv s -> ts_inv (set_locked m b s);
  ts_grow_pre :: PreOrder ts_grow;
  ts_grow_set m b s : ts_grow s (set_locked m b s);
  ts_rest_stable i s s' :
    ts_grow s s' -> (forall l, stable i [] l -> same l s s') -> ts_rest i s -> ts_rest i s'
}.

Section logic.
Context {S mutex loc role : Type} `{ThreadSpec S mutex loc role}.
Context `{EqDecision mutex, EqDecision role, EqDecision loc}.
Abbreviation I := ts_inv.
Abbreviation J := ts_rest.
Abbreviation G := ts_grow.
Abbreviation side := ts_side.
Abbreviation total := ts_total.
Abbreviation prog := (prog S mutex loc).
Implicit Types (i j : role) (held : list mutex) (s : S).

(** The labels tell the truth: what is not written keeps its value, and the
    result and what is written depend on the labelled locations only.  Mutexes
    are left alone. *)
Definition honest {A} (acc : list (access loc)) (m : M S A) : Prop :=
  (forall s l, ~ (Write l ∈ acc) -> same l s (snd (m s))) /\
  (forall s x, locked x (snd (m s)) = locked x s) /\
  (forall s1 s2, (forall l, Read l ∈ acc \/ Write l ∈ acc -> same l s1 s2) ->
     fst (m s1) = fst (m s2) /\ (forall l, Write l ∈ acc -> same l (snd (m s1)) (snd (m s2)))).

Definition allowed i held (a : access loc) : Prop :=
  match a with Read l => may_read i held l | Write l => may_write i held l end.

(** What the others may have done between two steps: [G] is what every step of
    every thread does. *)
Definition rely i held s s1 : Prop := G s s1 /\ forall l, stable i held l -> same l s s1.

Lemma J_rely i s s' : rely i [] s s' -> J i s -> J i s'.
Proof. intros [Gs R]. by apply ts_rest_stable. Qed.

(** A mutex is taken above the ones that are held, or it is one of them: then
    the thread waits for itself. *)
Definition may_lock held (l : mutex) : Prop := l ∈ held \/ Forall (fun m => rank m < rank l)%nat held.

(** [safe i held p Q s]: run by thread [i] from [s] among others that keep the
    invariant and the discipline, [p] keeps them too, its [total] accesses give a
    result, and it ends in [Q]. *)
Fixpoint safe {A} i held (p : prog A) (Q : list mutex -> res A -> S -> Prop) s : Prop :=
  forall s1, rely i held s s1 -> I s1 ->
  match p with
  | Ret r => Q held r s1
  | Do acc m k =>
      Forall (allowed i held) acc /\ honest acc m /\
      (total acc -> exists a, fst (m s1) = Ok a) /\
      (side s1 -> fatal (fst (m s1)) = false ->
       I (snd (m s1)) /\ G s1 (snd (m s1)) /\ safe i held (k (fst (m s1))) Q (snd (m s1)))
  | Acquire l k => may_lock held l /\ (~ (l ∈ held) -> safe i (l :: held) k Q s1)
  | Release l k => exists held', held = l :: held' /\ safe i held' k Q s1
  end.

#[export] Instance rely_preorder i held : PreOrder (rely i held).
Proof.
  split; [by intros s|]. intros s1 s2 s3 [G1 R1] [G2 R2]. split; [by transitivity s2|].
  intros l St. etransitivity; [by apply R1 | by apply R2].
Qed.

Lemma rely_held i held s s1 : rely i held s s1 -> rely i [] s s1.
Proof.
  intros [Gs R]. split; [done|]. intros l St. apply R. clear R. induction held as [|m held IH]; [done | by apply stable_cons].
Qed.

Lemma J_held i held s s1 : rely i held s s1 -> J i s -> J i s1.
Proof. intros R. by apply J_rely, (rely_held i held). Qed.

Lemma rely_set i held s m b : rely i held s (set_locked m b s).
Proof. split; [apply ts_grow_set|]. intros l _. apply same_set. Qed.

Lemma safe_rely {A} i held (p : prog A) Q s s1 :
  rely i held s s1 -> safe i held p Q s -> safe i held p Q s1.
Proof.
  intros R W. destruct p; cbn [safe] in *; intros s2 R2 I2;
    apply (W s2); try done; by transitivity s1.
Qed.

Lemma safe_intro {A} i held (p : prog A) Q s :
  (forall s1, rely i held s s1 -> I s1 -> safe i held p Q s1) -> safe i held p Q s.
Proof.
  intros W. destruct p; cbn [safe] in *; intros s1 R1 I1; by apply (W s1 R1 I1).
Qed.

Lemma safe_mono {A} i held (p : prog A) (Q Q' : list mutex -> res A -> S -> Prop) s :
  (forall h r s', I s' -> Q h r s' -> Q' h r s') -> safe i held p Q s -> safe i held p Q' s.
Proof.
  intros HQ. revert held s. induction p as [r|B acc m k IH|l k IH|l k IH]; intros held s W s1 R1 I1;
    specialize (W s1 R1 I1).
  - by apply HQ.
  - destruct W as (L & Ho & T & W). split; [done|]. split; [done|]. split; [done|]. intros Sd F.
    destruct (W Sd F) as (? & ? & ?). split; [done|]. split; [done|]. by apply IH.
  - destruct W as [L W]. split; [done|]. intros N. by apply IH, W.
  - destruct W as (h & -> & W). exists h. split; [done|]. by apply IH.
Qed.

(** ** Rules *)
Lemma safe_ret {A} i held (r : res A) Q s :
  (forall s1, rely i held s s1 -> I s1 -> Q held r s1) -> safe i held (Ret r) Q s.
Proof. done. Qed.

Lemma safe_bindr {A B} i held (p : prog A) (f : res A -> prog B) Q s :
  safe i held p (fun h r s' => safe i h (f r) Q s') s -> safe i held (bindr p f) Q s.
Proof.
  revert held s. induction p as [r|C acc m k IH|l k IH|l k IH]; intros held s W.
  - apply safe_intro. exact W.
  - intros s1 R1 I1. destruct (W s1 R1 I1) as (L & Ho & T & W'). split; [done|]. split; [done|].
    split; [done|]. intros Sd F. destruct (W' Sd F) as (? & ? & ?). split; [done|]. split; [done|]. by apply IH.
  - intros s1 R1 I1. destruct (W s1 R1 I1) as (L & W'). split; [done|]. intros N. by apply IH, W'.
  - intros s1 R1 I1. destruct (W s1 R1 I1) as (h & -> & W'). exists h. split; [done|]. by apply IH.
Qed.

Lemma safe_act {A} i held (acc : list (access loc)) (m : M S A) Q s :
  Forall (allowed i held) acc -> honest acc m ->
  (forall s1, rely i held s s1 -> I s1 ->
     (total acc -> exists a, fst (m s1) = Ok a) /\
     (side s1 -> fatal (fst (m s1)) = false ->
      I (snd (m s1)) /\ G s1 (snd (m s1)) /\
      forall s2, rely i held (snd (m s1)) s2 -> I s2 -> Q held (fst (m s1)) s2)) ->
  safe i held (act acc m) Q s.
Proof.
  intros L Ho W s1 R1 I1. destruct (W s1 R1 I1) as [T W']. split; [done|]. split; [done|].
  by split.
Qed.

Lemma safe_guarded {A} i held l (p : prog A) Q s :
  may_lock held l ->
  (forall s1, rely i held s s1 -> I s1 ->
     safe i (l :: held) p (fun h r s' => h = l :: held /\
       forall s2, rely i held s' s2 -> I s2 -> Q held r s2) s1) ->
  safe i held (guarded l p) Q s.
Proof.
  intros L W s1 R1 I1. split; [done|]. intros N. apply safe_bindr.
  eapply safe_mono; [|by apply W]. cbn beta. intros h r s' I' [-> HQ]. intros s2 R2 I2.
  exists held. split; [done|]. intros s3 R3 I3. apply HQ; [|done].
  transitivity s2; [|done]. destruct R2 as [G2 R2]. split; [done|]. intros x Sx.
  by apply R2, stable_cons.
Qed.

(** The usual postcondition: the mutexes of the start, [J], and [P] of a result.
    An exception owes nothing more. *)
Definition ends {A} i held (P : A -> S -> Prop) : list mutex -> res A -> S -> Prop :=
  fun h r s => h = held /\ J i s /\ match r with Ok a => P a s | _ => True end.

Lemma safe_exception {A} i held (r : res A) P s :
  match r with Ok _ => False | _ => True end -> J i s -> safe i held (Ret r) (ends i held P) s.
Proof.
  intros X Js s1 R1 _. split; [done|]. split; [by eapply J_held|]. by destruct r.
Qed.

Lemma safe_bind {A B} i held (p : prog A) (f : A -> prog B) P s :
  safe i held p (ends i held (fun a s' => J i s' -> safe i held (f a) (ends i held P) s')) s ->
  safe i held (p ≫= f) (ends i held P) s.
Proof.
  intros W. apply safe_bindr. eapply safe_mono; [|exact W].
  intros h [a|e| |] s' I' (-> & Js & X); cbn [on_ok]; [by apply X | by apply safe_exception..].
Qed.

(** The rule for a call: its postcondition, then the rest. *)
Lemma safe_seq {A B} i held (p : prog A) (f : A -> prog B) P1 P s :
  safe i held p (ends i held P1) s ->
  (forall a s1, P1 a s1 -> I s1 -> J i s1 -> safe i held (f a) (ends i held P) s1) ->
  safe i held (p ≫= f) (ends i held P) s.
Proof.
  intros Wp Wf. apply safe_bind. eapply safe_mono; [|exact Wp].
  intros h r s1 I1 (-> & J1 & HP). split; [done|]. split; [done|]. destruct r; [|done..].
  intros _. by apply Wf.
Qed.

(** Weakening the postcondition. *)
Lemma safe_ends {A} i held (p : prog A) (P P' : A -> S -> Prop) s :
  (forall a s', I s' -> P a s' -> P' a s') ->
  safe i held p (ends i held P) s -> safe i held p (ends i held P') s.
Proof.
  intros HP. apply safe_mono. intros h r s1 I1 (-> & J1 & X). split; [done|]. split; [done|].
  destruct r; auto.
Qed.

Lemma safe_mret {A} i held (a : A) (P : A -> S -> Prop) s :
  J i s -> (forall s1, rely i held s s1 -> I s1 -> P a s1) ->
  safe i held (mret a) (ends i held P) s.
Proof. intros Js HP s1 R1 I1. split; [done|]. split; [by eapply J_held | by apply HP]. Qed.

Lemma safe_pure {A} i held (r : res A) (P : A -> S -> Prop) s :
  J i s -> (forall a s1, r = Ok a -> rely i held s s1 -> I s1 -> P a s1) ->
  safe i held (pure r) (ends i held P) s.
Proof.
  intros Js HP s1 R1 I1. split; [done|]. split; [by eapply J_held|]. destruct r; auto.
Qed.

Lemma safe_try {A} i held (p : prog A) (h : exn -> prog A) P s :
  (forall e s1, I s1 -> J i s1 -> safe i held (h e) (ends i held P) s1) ->
  safe i held p (ends i held (fun a s' => forall s2, rely i held s' s2 -> I s2 -> P a s2)) s ->
  safe i held (ptry p h) (ends i held P) s.
Proof.
  intros Hh W. apply safe_bindr. eapply safe_mono; [|exact W].
  intros h' [a|e| |] s' I' (-> & Js & X); cbn [on_exception];
    [by apply safe_mret | | by apply safe_exception..].
  case_match; [by apply Hh | by apply safe_exception].
Qed.

Lemma safe_do {A} i held (acc : list (access loc)) (m : M S A) (P : A -> S -> Prop) s :
  Forall (allowed i held) acc -> honest acc m -> J i s ->
  (forall s1, rely i held s s1 -> I s1 -> J i s1 ->
     (total acc -> exists a, fst (m s1) = Ok a) /\
     (side s1 -> fatal (fst (m s1)) = false ->
      I (snd (m s1)) /\ J i (snd (m s1)) /\ G s1 (snd (m s1)) /\
      forall a s2, fst (m s1) = Ok a -> rely i held (snd (m s1)) s2 -> I s2 -> P a s2)) ->
  safe i held (act acc m) (ends i held P) s.
Proof.
  intros L Ho Js W. apply safe_act; [done | done |]. intros s1 R1 I1.
  destruct (W s1 R1 I1 (J_held _ _ _ _ R1 Js)) as [T W']. split; [done|]. intros Sd F.
  destruct (W' Sd F) as (I2 & J2 & G2 & HP).
  split; [done|]. split; [done|]. intros s2 R2 I3. split; [done|]. split; [by eapply J_held|].
  destruct (fst (m s1)); [by apply HP | done..].
Qed.

Lemma safe_lock {A} i held l (p : prog A) (P : A -> S -> Prop) s :
  may_lock held l -> J i s ->
  (forall s1, rely i held s s1 -> I s1 -> J i s1 ->
     safe i (l :: held) p (ends i (l :: held) (fun a s' =>
       forall s2, rely i held s' s2 -> I s2 -> P a s2)) s1) ->
  safe i held (guarded l p) (ends i held P) s.
Proof.
  intros L Js W. apply safe_guarded; [done|]. intros s1 R1 I1.
  eapply safe_mono; [|apply W; [done | done | by eapply J_held]].
  intros h r s' I' (-> & J' & X). split; [done|]. intros s2 R2 I2.
  split; [done|]. split; [by eapply J_held|]. destruct r; auto.
Qed.

(** What every step does holds from the start of a program to its end. *)
Lemma safe_grow {A} i held (p : prog A) Q s s0 :
  G s0 s -> safe i held p Q s -> safe i held p (fun h r s' => Q h r s' /\ G s0 s') s.
Proof.
  revert held s. induction p as [r|B acc m k IH|l k IH|l k IH]; intros held s Gs W s1 R1 I1;
    specialize (W s1 R1 I1); assert (G s0 s1) as G1 by (etransitivity; [exact Gs | apply R1]).
  - done.
  - destruct W as (L & Ho & T & W). split; [done|]. split; [done|]. split; [done|]. intros Sd F.
    destruct (W Sd F) as (? & ? & ?). split; [done|]. split; [done|]. apply IH; [|done].
    by etransitivity.
  - destruct W as [L W]. split; [done|]. intros N. by apply IH; [|apply W].
  - destruct W as (h & -> & W). exists h. split; [done|]. by apply IH.
Qed.

(** So a fact that no step falsifies is carried along. *)
Lemma safe_frame {A} i held (p : prog A) P (F : S -> Prop) s :
  (forall s1 s2, G s1 s2 -> F s1 -> F s2) -> F s ->
  safe i held p (ends i held P) s -> safe i held p (ends i held (fun a s' => P a s' /\ F s')) s.
Proof.
  intros HF Fs W. eapply safe_mono; [|apply (safe_grow i held p (ends i held P) s s); [reflexivity | exact W]].
  intros h r s' I' [(-> & J' & X) Gs]. split; [done|]. split; [done|]. destruct r; [|done..].
  split; [done | by eapply HF].
Qed.

(** ** Soundness

    Every thread is safe from the present state, a mutex is locked when a
    thread has it, and no two threads have the same one. *)
Definition tsafe i (t : tstate) s : Prop :=
  match t with
  | Running held p => NoDup held /\ safe i held p (fun h _ s' => h = [] /\ J i s') s
  | _ => J i s
  end.

Record cinv (c : config) : Prop := {
  ci_inv : I (c_shared c);
  ci_safe i : tsafe i (c_threads c i) (c_shared c);
  ci_excl i j l : l ∈ held_of (c_threads c i) -> l ∈ held_of (c_threads c j) -> i = j;
  ci_locked l : locked l (c_shared c) = true <-> exists i, l ∈ held_of (c_threads c i)
}.

Lemma tsafe_rely i t s s' : rely i (held_of t) s s' -> tsafe i t s -> tsafe i t s'.
Proof.
  destruct t; cbn [held_of tsafe]; [apply J_rely | | apply J_rely].
  intros R [N W]. split; [done|]. by eapply safe_rely.
Qed.

(** Replacing one thread and the state. *)
Lemma cinv_update (c : config) i t' s' :
  cinv c -> I s' -> tsafe i t' s' ->
  (forall j, j <> i -> rely j (held_of (c_threads c j)) (c_shared c) s') ->
  (forall l, locked l s' = true <->
     l ∈ held_of t' \/ exists j, j <> i /\ l ∈ held_of (c_threads c j)) ->
  (forall l j, j <> i -> l ∈ held_of t' -> ~ (l ∈ held_of (c_threads c j))) ->
  cinv (mkConfig s' (<[i := t']> (c_threads c))).
Proof.
  intros [Ci Cs Ce Cl] I' T' R L D. split; cbn [c_shared c_threads].
  - done.
  - intros j. destruct (decide (j = i)) as [->|N]; [by rewrite fn_lookup_insert|].
    rewrite fn_lookup_insert_ne by done. eapply tsafe_rely; [by apply R | apply Cs].
  - intros j1 j2 l. destruct (decide (j1 = i)) as [->|N1], (decide (j2 = i)) as [->|N2];
      rewrite ?fn_lookup_insert, ?fn_lookup_insert_ne by done; try done.
    + intros X1 X2. by destruct (D l j2 N2 X1).
    + intros X1 X2. by destruct (D l j1 N1 X2).
    + apply Ce.
  - intros l. rewrite L. split.
    + intros [Hl|(j & N & Hl)]; [exists i; by rewrite fn_lookup_insert|].
      exists j. by rewrite fn_lookup_insert_ne.
    + intros [j Hl]. destruct (decide (j = i)) as [->|N].
      * left. by rewrite fn_lookup_insert in Hl.
      * right. exists j. by rewrite fn_lookup_insert_ne in Hl.
Qed.

(** A thread that keeps its mutexes. *)
Lemma cinv_keep (c : config) i t' s' :
  cinv c -> I s' -> tsafe i t' s' -> held_of t' = held_of (c_threads c i) ->
  (forall l, locked l s' = locked l (c_shared c)) ->
  (forall j, j <> i -> rely j (held_of (c_threads c j)) (c_shared c) s') ->
  cinv (mkConfig s' (<[i := t']> (c_threads c))).
Proof.
  intros C I' T' Eh El R. apply cinv_update; try done.
  - intros l. rewrite El, (ci_locked _ C), Eh. split.
    + intros [j Hj]. destruct (decide (j = i)) as [->|N]; eauto.
    + intros [Hl|(j & _ & Hl)]; eauto.
  - intros l j N Hi Hj. rewrite Eh in Hi. apply N. by eapply (ci_excl _ C).
Qed.

(** What a thread may write does not disturb another. *)
Lemma write_rely (c : config) i j held acc {A} (m : M S A) k :
  cinv c -> c_threads c i = Running held (Do acc m k) -> j <> i ->
  Forall (allowed i held) acc -> honest acc m ->
  G (c_shared c) (snd (m (c_shared c))) ->
  rely j (held_of (c_threads c j)) (c_shared c) (snd (m (c_shared c))).
Proof.
  intros C Et N L Ho Gs. split; [done|]. intros l St. destruct (decide (Write l ∈ acc)) as [W|W];
    [|by apply Ho]. rewrite List.Forall_forall in L.
  exfalso. specialize (L (Write l)). cbn in L. rewrite <- list_elem_of_In in L. specialize (L W).
  destruct (stable_excl i j held _ l (not_eq_sym N) St L) as (x & Hi & Hj).
  apply N. eapply (ci_excl _ C); [exact Hj|]. by rewrite Et.
Qed.
(** The four kinds of steps. *)
Lemma ret_cinv (c : config) i held (r : res unit) t' :
  cinv c -> c_threads c i = Running held (Ret r) -> t' = Idle \/ t' = Gone ->
  cinv (mkConfig (c_shared c) (<[i := t']> (c_threads c))).
Proof.
  intros C Et Ht. pose proof (ci_safe _ C i) as T. rewrite Et in T. destruct T as [_ W].
  destruct (W _ (reflexivity _) (ci_inv _ C)) as [-> Js].
  apply cinv_keep; try done; [apply C | | rewrite Et]; by destruct Ht as [-> | ->].
Qed.

Lemma do_cinv (c : config) i held acc {A} (m : M S A) k :
  cinv c -> c_threads c i = Running held (Do acc m k) -> side (c_shared c) ->
  fatal (fst (m (c_shared c))) = false ->
  cinv (mkConfig (snd (m (c_shared c)))
          (<[i := Running held (k (fst (m (c_shared c))))]> (c_threads c))).
Proof.
  intros C Et Sd F. pose proof (ci_safe _ C i) as T. rewrite Et in T. destruct T as [Nd W].
  destruct (W _ (reflexivity _) (ci_inv _ C)) as (L & Ho & _ & W').
  destruct (W' Sd F) as (I1 & G1 & W1).
  apply cinv_keep; try done; [by rewrite Et | intros l; by apply Ho |].
  intros j N. by apply (write_rely c i j held acc m k).
Qed.

Lemma acquire_cinv (c : config) i held l k :
  cinv c -> c_threads c i = Running held (Acquire l k) -> locked l (c_shared c) = false ->
  cinv (mkConfig (set_locked l true (c_shared c)) (<[i := Running (l :: held) k]> (c_threads c))).
Proof.
  intros C Et Lk. pose proof (ci_safe _ C i) as T. rewrite Et in T. destruct T as [Nd W].
  assert (forall j, ~ (l ∈ held_of (c_threads c j))) as Free.
  { intros j Hj. assert (locked l (c_shared c) = true) by (apply (ci_locked _ C); eauto). congruence. }
  assert (~ (l ∈ held)) as Nl by (specialize (Free i); by rewrite Et in Free).
  destruct (W _ (reflexivity _) (ci_inv _ C)) as [_ W']. specialize (W' Nl).
  apply cinv_update; cbn [held_of]; [done | by apply ts_inv_set, C | | intros; apply rely_set | |].
  - split; [by constructor|]. eapply safe_rely; [apply rely_set | done].
  - intros x. rewrite elem_of_cons. destruct (decide (x = l)) as [->|N].
    + rewrite locked_set. naive_solver.
    + rewrite locked_set_ne, (ci_locked _ C) by done. split.
      * intros [j Hj]. destruct (decide (j = i)) as [->|Nj]; [|eauto]. rewrite Et in Hj. auto.
      * intros [[->|Hx]|(j & _ & Hj)]; [done | exists i; by rewrite Et | eauto].
  - intros x j N Hx Hj. rewrite elem_of_cons in Hx. destruct Hx as [->|Hx]; [by eapply Free|].
    apply N. eapply (ci_excl _ C); [exact Hj|]. by rewrite Et.
Qed.

Lemma release_cinv (c : config) i held l k :
  cinv c -> c_threads c i = Running held (Release l k) ->
  cinv (mkConfig (set_locked l false (c_shared c)) (<[i := Running (tail held) k]> (c_threads c))).
Proof.
  intros C Et. pose proof (ci_safe _ C i) as T. rewrite Et in T. destruct T as [Nd W].
  destruct (W _ (reflexivity _) (ci_inv _ C)) as (held' & -> & W').
  inversion Nd as [|? ? Nl Nd']; subst.
  assert (forall x j, j <> i -> x ∈ l :: held' -> ~ (x ∈ held_of (c_threads c j))) as Free.
  { intros x j N Hx Hj. apply N. eapply (ci_excl _ C); [exact Hj|]. by rewrite Et. }
  apply cinv_update; cbn [held_of list.tail]; [done | by apply ts_inv_set, C | | intros; apply rely_set | |].
  - split; [done|]. eapply safe_rely; [apply rely_set | done].
  - intros x. destruct (decide (x = l)) as [->|N].
    + rewrite locked_set. split; [done|]. intros [?|(j & N & Hj)]; [done|].
      destruct (Free l j N); [apply elem_of_cons; by left | done].
    + rewrite locked_set_ne, (ci_locked _ C) by done. split.
      * intros [j Hj]. destruct (decide (j = i)) as [->|Nj]; [|eauto].
        rewrite Et in Hj. cbn in Hj. rewrite elem_of_cons in Hj. destruct Hj; [done | auto].
      * intros [Hx|(j & _ & Hj)]; [exists i; rewrite Et; apply elem_of_cons; by right | eauto].
  - intros x j N Hx. apply Free; [done|]. apply elem_of_cons. by right.
Qed.

Lemma go_cinv (c c' : config) i : cinv c -> side (c_shared c) -> go i c = Some c' -> cinv c'.
Proof.
  intros C Sd. unfold go. destruct (c_threads c i) as [|held p|] eqn:Et; [done| |done].
  destruct p as [r|B acc m k|l k|l k]; cbn [advance].
  - destruct r as [a|e| |]; [| destruct (is_std_exception e); [|done] | done..]; cbn; intros [= <-];
      eapply ret_cinv; eauto.
  - pose proof (do_cinv c i held acc m k C Et Sd) as D. destruct (m (c_shared c)) as [r s1].
    cbn [fst snd] in D. destruct (fatal r); [done|]. cbn. intros [= <-]. by apply D.
  - destruct (locked l (c_shared c)) eqn:Lk; [done|]. cbn. intros [= <-]. by apply acquire_cinv.
  - cbn. intros [= <-]. by eapply release_cinv.
Qed.

(** ** Reachable configurations *)
Context (starts : role -> prog unit -> Prop).
Context (starts_safe : forall i p s,
  starts i p -> I s -> J i s -> safe i [] p (fun h _ s' => h = [] /\ J i s') s).

Lemma start_cinv (c c' : config) i p : cinv c -> starts i p -> start i p c = Some c' -> cinv c'.
Proof.
  intros C St. unfold start. pose proof (ci_safe _ C i) as T.
  destruct (c_threads c i) eqn:Et; [|done..]. intros [= <-].
  apply cinv_keep; try done; [apply C | | by rewrite Et].
  split; [constructor|]. apply starts_safe; [done | apply C | exact T].
Qed.

Lemma cstep_cinv (c c' : config) : cinv c -> cstep starts side c c' -> cinv c'.
Proof. intros C [i p St E|i Sd E]; [by eapply start_cinv | by eapply go_cinv]. Qed.

Lemma reachable_cinv (c c' : config) : cinv c -> rtc (cstep starts side) c c' -> cinv c'.
Proof. intros C R. induction R as [|x y z St _ IH]; [done|]. by apply IH, (cstep_cinv x). Qed.

(** What every step does, many do. *)
Lemma cstep_G (c c' : config) : cinv c -> cstep starts side c c' -> G (c_shared c) (c_shared c').
Proof.
  intros C [i p St E|i Sd E].
  - unfold start in E. destruct (c_threads c i); [|done..]. by injection E as <-.
  - unfold go in E. pose proof (ci_safe _ C i) as T.
    destruct (c_threads c i) as [|held p|]; [done| |done].
    destruct p as [r|B acc m k|l k|l k]; cbn [advance] in E.
    + destruct r as [|e| |]; [| destruct (is_std_exception e); [|done] | done..]; by injection E as <-.
    + destruct T as [_ W]. destruct (W _ (reflexivity _) (ci_inv _ C)) as (_ & _ & _ & W').
      destruct (m (c_shared c)) as [r s1]. cbn [fst snd] in W'.
      destruct (fatal r); [done|]. injection E as <-. by apply W'.
    + destruct (locked l (c_shared c)); [done|]. injection E as <-. apply ts_grow_set.
    + injection E as <-. apply ts_grow_set.
Qed.

Lemma reachable_G (c c' : config) :
  cinv c -> rtc (cstep starts side) c c' -> G (c_shared c) (c_shared c').
Proof.
  intros C R. induction R as [|x y z St _ IH]; [done|].
  transitivity (c_shared y); [by apply cstep_G | by apply IH, (cstep_cinv x)].
Qed.

(** An access that must not fail does not. *)
Lemma total_access (c : config) i held acc {A} (m : M S A) k :
  cinv c -> c_threads c i = Running held (Do acc m k) -> total acc ->
  exists a, fst (m (c_shared c)) = Ok a.
Proof.
  intros C Et. pose proof (ci_safe _ C i) as T. rewrite Et in T. destruct T as [_ W].
  apply (W _ (reflexivity _) (ci_inv _ C)).
Qed.

Lemma idle_cinv (s : S) :
  I s -> (forall i, J i s) -> (forall l, locked l s = false) -> cinv (mkConfig s (fun _ => Idle)).
Proof.
  intros HI HJ L. split; cbn; try done; [by intros i j l Hl; apply elem_of_nil in Hl|].
  intros l. rewrite L. split; [done|]. intros [i Hl]. by apply elem_of_nil in Hl.
Qed.

Lemma exec_reachable (within : S -> bool) (es : list event) (c c' : config) :
  (forall s, within s = true -> side s) ->
  Forall (fun e => match e with Start i p => starts i p | Go i => True end) es ->
  exec_within within es c = Some c' -> rtc (cstep starts side) c c'.
Proof.
  intros Sd Hs. revert c. induction Hs as [|e es He _ IH]; intros c; cbn [exec_within];
    [by intros [= ->]|].
  destruct (within (c_shared c)) eqn:W; [|done].
  destruct (exec1 e c) as [c1|] eqn:E; [|done]. cbn. intros R.
  eapply rtc_l; [|by apply IH]. destruct e as [i p|i]; [by eapply cs_start | by eapply cs_go; [apply Sd|]].
Qed.

(** ** Races

    Two threads at conflicting accesses: both are allowed to make them, and
    they have no mutex in common. *)
Lemma race_allowed (c : config) i j l :
  cinv c -> race c i j l ->
  exists hi hj, may_write i hi l /\ (may_read j hj l \/ may_write j hj l) /\
    (forall m, m ∈ hi -> ~ (m ∈ hj)).
Proof.
  intros C (N & Hi & Hj).
  assert (forall i a, a ∈ next_access (c_threads c i) -> allowed i (held_of (c_threads c i)) a) as K.
  { clear i j N Hi Hj. intros i a Ha. pose proof (ci_safe _ C i) as T.
    destruct (c_threads c i) as [|held p|]; cbn in Ha; [by apply elem_of_nil in Ha | |by apply elem_of_nil in Ha].
    destruct p as [|B acc m k| |]; try (by apply elem_of_nil in Ha). destruct T as [_ W].
    destruct (W _ (reflexivity _) (ci_inv _ C)) as (L & _). rewrite List.Forall_forall in L.
    apply L. by apply list_elem_of_In. }
  exists (held_of (c_threads c i)), (held_of (c_threads c j)).
  split; [by apply (K i (Write l))|]. split.
  - destruct Hj as [Hj|Hj]; [left; by apply (K j (Read l)) | right; by apply (K j (Write l))].
  - intros m X1 X2. apply N. by eapply (ci_excl _ C).
Qed.

(** Accesses that do not conflict can be swapped: each sees what it would have
    seen, and no location tells the order. *)
Lemma accesses_commute {A B} (acc1 acc2 : list (access loc)) (m1 : M S A) (m2 : M S B) s :
  honest acc1 m1 -> honest acc2 m2 ->
  (forall l, Write l ∈ acc1 -> ~ (Read l ∈ acc2) /\ ~ (Write l ∈ acc2)) ->
  (forall l, Write l ∈ acc2 -> ~ (Read l ∈ acc1) /\ ~ (Write l ∈ acc1)) ->
  fst (m2 (snd (m1 s))) = fst (m2 s) /\ fst (m1 (snd (m2 s))) = fst (m1 s) /\
  forall l, same l (snd (m2 (snd (m1 s)))) (snd (m1 (snd (m2 s)))).
Proof.
  intros (F1 & _ & D1) (F2 & _ & D2) N1 N2.
  destruct (D2 s (snd (m1 s))) as [E2 W2].
  { intros l Hl. apply F1. intros W. destruct (N1 l W). by destruct Hl. }
  destruct (D1 s (snd (m2 s))) as [E1 W1].
  { intros l Hl. apply F2. intros W. destruct (N2 l W). by destruct Hl. }
  split; [done|]. split; [done|]. intros l.
  destruct (decide (Write l ∈ acc2)) as [X2|X2].
  - destruct (N2 l X2) as [_ X1]. rewrite <- (W2 l X2). by apply F1.
  - rewrite <- (F2 _ l X2). destruct (decide (Write l ∈ acc1)) as [X1|X1]; [by apply W1|].
    rewrite <- (F1 _ l X1). rewrite <- (F1 _ l X1). by apply F2.
Qed.

(** ** Progress

    A thread whose next access ends the process, or that ends it with what it
    throws. *)
Definition stops (c : @config S mutex loc role) i : Prop :=
  match c_threads c i with
  | Running _ (Ret (Ok _)) => False
  | Running _ (Ret (Err e)) => is_std_exception e = false
  | Running _ (Ret _) => True
  | Running _ (Do acc m k) => fatal (fst (m (c_shared c))) = true
  | _ => False
  end.

(** Follow who waits for whom: the chain ends at a thread that can go on, at
    one that stops the process, or at one that waits for itself. *)
Definition unblocked (c : @config S mutex loc role) i : Prop :=
  is_Some (go i c) \/ stops c i \/ waits c i i.

Lemma not_waiting (c : @config S mutex loc role) i held p :
  c_threads c i = Running held p ->
  unblocked c i \/ exists l k, p = Acquire l k /\ locked l (c_shared c) = true.
Proof.
  intros Et. unfold unblocked, stops, go. rewrite Et.
  destruct p as [[a|e| |]|B acc m k|l k|l k]; cbn [advance].
  - left. left. by eexists.
  - left. destruct (is_std_exception e); [left; by eexists | by right; left].
  - left. by right; left.
  - left. by right; left.
  - left. destruct (m (c_shared c)) as [r s1]. cbn [fst]. destruct (fatal r); [by right; left|].
    left. by eexists.
  - destruct (locked l (c_shared c)) eqn:L; [right; eauto | left; left; by eexists].
  - left. left. by eexists.
Qed.

Lemma waiting_ends (bound : nat) (c : config) i held p :
  cinv c -> (forall m, rank m < bound)%nat -> c_threads c i = Running held p ->
  exists j, rtc (waits c) i j /\ unblocked c j.
Proof.
  intros C Bd Et.
  assert (forall n i held l k, c_threads c i = Running held (Acquire l k) ->
    locked l (c_shared c) = true -> (bound - rank l <= n)%nat ->
    exists j, rtc (waits c) i j /\ unblocked c j) as X.
  { clear i held p Et. induction n as [|n IH]; intros i held l k Et Lk Hn; [specialize (Bd l); lia|].
    apply (ci_locked _ C) in Lk as [j Hj].
    assert (waits c i j) as W by (exists held, l, k; by split).
    destruct (c_threads c j) as [|hj pj|] eqn:Ej; [by apply elem_of_nil in Hj | |by apply elem_of_nil in Hj].
    destruct (not_waiting c j hj pj Ej) as [U|(l' & k' & -> & Lk')];
      [exists j; split; [by apply rtc_once | done]|].
    pose proof (ci_safe _ C j) as T. rewrite Ej in T. destruct T as [_ T].
    destruct (T _ (reflexivity _) (ci_inv _ C)) as [[Hl'|Hr] _].
    - exists j. split; [by apply rtc_once|]. right; right. exists hj, l', k'. by rewrite Ej.
    - destruct (IH j hj l' k' Ej Lk') as (j' & R & U).
      { rewrite List.Forall_forall in Hr. specialize (Hr l). rewrite <- list_elem_of_In in Hr.
        specialize (Hr Hj). specialize (Bd l'). lia. }
      exists j'. split; [by eapply rtc_l | done]. }
  destruct (not_waiting c i held p Et) as [U|(l & k & -> & Lk)]; [by exists i; split|].
  eapply (X bound); [exact Et | done | lia].
Qed.
End logic.
