(* ===== verification/Interleave.v ===== *)
(** * The three workers of a node as threads

    [Handlers] runs a callback in one piece.  Here the callbacks are programs of
    [Threads]: one access to the shared objects at a time, with the two mutexes
    of the pool taken and released where the sources do.  The chain
    ([Blockchain]) has no mutex: its vector is plain, its counters are atomic.
    Each controller's own mutex is left out, because each executor has one
    thread.  What is logged under the level in force is read too: [info] and
    [debug] say whether those levels are on. *)

From Stdlib Require Import ZArith Lia.
From stdpp Require Import relations.
From stdpp Require Import base list numbers functions.
From S2P Require Import Prelude OrdMap Converters Keys Buffers Transfer ChainState Summary.
From S2P Require Import Validation KeyRing Context Transactions Blocks Message Blockchain Pool.
From S2P Require Import Handlers Node Network Threads.

#[local] Open Scope devv_scope.

(** ** The shared objects *)
Inductive mutex := txs_mutex_ | pending_proposal_mutex_.

(** [LTimer] is the pool's [timer_], whose value is only logged; [LFixed] is what
    the constructors set. *)
Inductive loc :=
| LChain | LSize | LCount        (* Blockchain: chain_, chain_size_, num_transactions_ *)
| LTxs | LProposal | LTimer | LFixed   (* UnrecordedTransactionPool *)
| LRemote                        (* InternetworkController: remote_blocks_ *)
| LSent.                         (* the server's queue *)

#[global] Instance mutex_eq_dec : EqDecision mutex.
Proof. solve_decision. Defined.
#[global] Instance loc_eq_dec : EqDecision loc.
Proof. solve_decision. Defined.

Section shared.
Context `{Crypto}.

Definition node_locked (m : mutex) (n : Node) : bool :=
  match m with
  | txs_mutex_ => txs_locked (n_pool n)
  | pending_proposal_mutex_ => proposal_locked (n_pool n)
  end.

Definition node_set_locked (m : mutex) (b : bool) (n : Node) : Node :=
  with_pool n (match m with
               | txs_mutex_ => set_txs_lock (n_pool n) b
               | pending_proposal_mutex_ => set_proposal_lock (n_pool n) b
               end).

Definition node_same (l : loc) (n n' : Node) : Prop :=
  match l with
  | LChain => chain_ (n_chain n) = chain_ (n_chain n')
  | LSize => chain_size_ (n_chain n) = chain_size_ (n_chain n')
  | LCount => num_transactions_ (n_chain n) = num_transactions_ (n_chain n')
  | LTxs => txs_ (n_pool n) = txs_ (n_pool n') /\ num_cum_txs_ (n_pool n) = num_cum_txs_ (n_pool n')
  | LProposal => pending_proposal_ (n_pool n) = pending_proposal_ (n_pool n')
  | LTimer => True
  | LFixed => max_tx_per_block_ (n_pool n) = max_tx_per_block_ (n_pool n') /\
              mode_ (n_pool n) = mode_ (n_pool n')
  | LRemote => n_remote_blocks n = n_remote_blocks n'
  | LSent => n_sent n = n_sent n'
  end.

#[export] Program Instance node_shared : Shared Node mutex loc := {|
  locked := node_locked; set_locked := node_set_locked; same := node_same
|}.
Next Obligation.
  intros l. split; [intros ?|intros ??|intros ???]; destruct l; cbn; intuition congruence.
Qed.
Next Obligation. by intros [] b n. Qed.
Next Obligation. by intros [] [] b n. Qed.
Next Obligation. by intros [] b n []. Qed.
End shared.

(** ** The programs *)
Section programs.
Context `{Crypto} (keys : KeyRing) (info debug : bool).
Abbreviation prog := (prog Node mutex loc).

Definition look {A} (acc : list (access loc)) (f : Node -> res A) : prog A :=
  act acc (fun n => (f n, n)).

Definition when (b : bool) (p : prog unit) : prog unit := if b then p else mret tt.

(** *** Blockchain *)
Definition size_t : prog Z := look [Read LSize] (fun n => Ok (bc_size (n_chain n))).
Definition back_t : prog FinalBlock := look [Read LChain] (fun n => bc_back (n_chain n)).

Definition getHighestChainState_t : prog ChainState :=
  size ← look [Read LSize] (fun n => Ok (chain_size_ (n_chain n)));
  if size <? 1 then mret ChainStateOps.empty
  else b ← back_t; mret (fb_block_state b).

Definition set_chain (n : Node) (c : Blockchain) : Node :=
  mkNode c (n_pool n) (n_remote_blocks n) (n_sent n).

(** The vector grows before the counters do.  [std::vector::push_back] may move
    the blocks to new memory.  A worker whose next access is this one is taken to
    be anywhere inside of it: a worker that is about to read the vector at the
    same time races with it ([Threads.race]), and nothing is claimed of what it
    finds. *)
Definition append_block (b : FinalBlock) : M Node unit := fun n =>
  let c := n_chain n in
  (Ok tt, set_chain n (mkChain (chain_ c ++ [b]) (chain_size_ c) (num_transactions_ c))).
Definition bump_size : M Node unit := fun n =>
  let c := n_chain n in
  (Ok tt, set_chain n (mkChain (chain_ c) (i32 (chain_size_ c + 1)) (num_transactions_ c))).
Definition bump_count (b : FinalBlock) : M Node unit := fun n =>
  let c := n_chain n in
  (Ok tt, set_chain n (mkChain (chain_ c) (chain_size_ c)
                         (i32 (num_transactions_ c + fb_getNumTransactions b)))).

Definition push_back_t (b : FinalBlock) : prog unit :=
  act [Write LChain] (append_block b);;
  act [Write LSize] bump_size;;
  act [Write LCount] (bump_count b).

(** The size is read again before every block. *)
Fixpoint dump_t (fuel : nat) (i : Z) (out : bytes) : prog bytes :=
  match fuel with
  | O => Ret NoFuel
  | S fuel' =>
      size ← size_t;
      if i <? u64 (size - 1) then
        b ← look [Read LChain] (fun n => vec_at (chain_ (n_chain n)) i);
        dump_t fuel' (i + 1) (out ++ fb_getCanonical b)
      else mret out
  end.

Definition PartialBinaryDump_t (fuel : nat) (start : Z) : prog bytes :=
  size ← size_t;
  if 0 <? size then dump_t fuel start [] else mret [].

(** *** UnrecordedTransactionPool *)
Definition AddTransactions_t (txs : list Transaction) : prog bool :=
  guarded txs_mutex_
    (act [Write LTxs; Write LTimer]
       (on_pool (try_catch (add_loop keys txs true) (fun _ => mret false)))).

Definition AddTransactions_serial_t (serial : bytes) : prog bool :=
  mode ← look [Read LFixed] (fun n => Ok (mode_ (n_pool n)));
  temp ← pure (fst (offset_fold (read_tx_step keys mode) (zlen serial) [] (mkIB serial 0)));
  AddTransactions_t temp.

(** The number of transactions is logged before the mutex is taken. *)
Definition HasPendingTransactions_t : prog bool :=
  when debug (look [Read LTxs] (fun _ => Ok tt));;
  guarded txs_mutex_
    (look [Read LTxs] (fun n => Ok (match txs_ (n_pool n) with [] => false | _ => true end))).

Definition collect_body (state : ChainState) (summary : Summary)
    : M Pool (list Transaction * ChainState * Summary) :=
  p ← get;
  let '(r, c) := collect_loop keys state (max_tx_per_block_ p) 0 (txs_ p)
                   (mkVCtx state summary []) in
  vs ← lift r;
  put (set_txs p vs.2 (num_cum_txs_ p));;
  mret (vs.1, v_state c, v_summary c).

Definition CollectValidTransactions_t (state : ChainState) (summary : Summary)
    : prog (list Transaction * ChainState * Summary) :=
  guarded txs_mutex_ (act [Write LTxs; Read LFixed] (on_pool (collect_body state summary))).

Definition ProposeBlock_t (prev_hash : bytes) (prior_state : ChainState)
    (context : DevcashContext) : prog bool :=
  validated ← CollectValidTransactions_t prior_state SummaryOps.Create;
  let new_proposal := pb_ctor prev_hash validated.1.1 validated.2 ValidationOps.Create
                        validated.1.2 in
  signed ← pure (pb_signBlock new_proposal keys context);
  guarded pending_proposal_mutex_
    (act [Write LProposal] (on_pool (
       p ← get; put (set_proposal p (pb_shallowCopy (pending_proposal_ p) signed.2).1))));;
  mret true.

Definition isNull_t : prog bool :=
  look [Read LProposal] (fun n => Ok (pb_isNull (pending_proposal_ (n_pool n)))).

Definition HasProposal_t : prog bool :=
  guarded pending_proposal_mutex_ (null ← isNull_t; mret (negb null)).

Definition getProposal_t : prog bytes :=
  guarded pending_proposal_mutex_
    (look [Read LProposal] (fun n => Ok (pb_getCanonical (pending_proposal_ (n_pool n))))).

Definition ReverifyTransactions_t (prior : ChainState) : prog bool :=
  guarded txs_mutex_
    (look [Read LProposal] (fun n =>
       fst (reverify_loop keys prior (pb_transactions (pending_proposal_ (n_pool n)))
              (mkVCtx prior SummaryOps.Create [])))).

Definition ReverifyProposal_t (prev_hash : bytes) (prior : ChainState) (context : DevcashContext)
    : prog bool :=
  guarded pending_proposal_mutex_ (
    null ← isNull_t;
    if (null : bool) then mret false
    else
      ok ← ReverifyTransactions_t prior;
      if (ok : bool) then
        act [Write LProposal] (on_pool (
          p ← get; put (set_proposal p (pb_setPrevHash (pending_proposal_ p) prev_hash))));;
        mret true
      else
        ProposeBlock_t prev_hash prior context;;
        mret false).

Definition check_body (context : DevcashContext) (buffer : InputBuffer) : M Pool bool :=
  p ← get;
  r ← lift (fst (pb_checkValidationData (pending_proposal_ p) context buffer));
  put (set_proposal p r.2);;
  mret r.1.

Definition CheckValidation_t (context : DevcashContext) (buffer : InputBuffer) : prog bool :=
  guarded pending_proposal_mutex_ (
    null ← isNull_t;
    if (null : bool) then mret false
    else act [Write LProposal] (on_pool (check_body context buffer))).

Definition RemoveTransactions_t (proposed : ProposedBlock) : prog bool :=
  guarded txs_mutex_ (act [Write LTxs] (on_pool (remove_loop (pb_transactions proposed)))).

Definition FinalizeLocalBlock_t (now : Z) : prog FinalBlock :=
  guarded pending_proposal_mutex_ (
    proposal ← look [Read LProposal] (fun n => Ok (pending_proposal_ (n_pool n)));
    RemoveTransactions_t proposal;;
    let final_block := fb_of_proposed now proposal in
    act [Write LProposal] (on_pool (
      p ← get; put (set_proposal p (pb_setNull (pending_proposal_ p)))));;
    mret final_block).

Definition FinalizeRemoteBlock_t (prior : ChainState) (buffer : InputBuffer) : prog FinalBlock :=
  mode ← look [Read LFixed] (fun n => Ok (mode_ (n_pool n)));
  pure (fst (fb_from_remote prior keys mode buffer)).

(** [getElapsedTime]: [Timer::elapsed] stores the time of the call in the timer
    and subtracts the time of the last reset; both are only logged. *)
Definition elapsed_t : prog unit := look [Write LTimer; Read LTimer] (fun _ => Ok tt).

Definition callback_t (m : DevcashMessage) : prog unit := act [Write LSent] (callback m).

(** *** tier2_message_handlers.cpp *)
Definition CreateNextProposal_t (context : DevcashContext) : prog bytes :=
  block_height ← size_t;
  hp ← HasProposal_t;
  pending ← (if (hp : bool) then mret false else HasPendingTransactions_t);
  (if (pending : bool) then
     if 0 <? block_height then
       b ← back_t;
       let prev_hash := DevcashHash (fb_getCanonical b) in
       prior ← getHighestChainState_t;
       ProposeBlock_t prev_hash prior context;;
       mret tt
     else
       ProposeBlock_t (DevcashHash genesis) ChainStateOps.empty context;;
       mret tt
   else mret tt);;
  getProposal_t.

Definition propose_if_idle_t (block_height : Z) (context : DevcashContext) : prog bool :=
  hp ← HasProposal_t;
  if (hp : bool) then mret false
  else
    proposal ← CreateNextProposal_t context;
    if isNullProposal proposal then mret false
    else
      callback_t (mkMessage (ContextOps.get_shard_uri context) eMessageType.PROPOSAL_BLOCK proposal
                    (proposal_index block_height context));;
      mret true.

Definition HandleFinalBlock_t (msg : DevcashMessage) (context : DevcashContext) : prog bool :=
  prior ← getHighestChainState_t;
  top_block ← FinalizeRemoteBlock_t prior (mkIB (m_data msg) 0);
  push_back_t top_block;;
  elapsed_t;;
  hp ← HasProposal_t;
  (if (hp : bool) then
     ReverifyProposal_t (DevcashHash (fb_getCanonical top_block)) (fb_block_state top_block) context;;
     mret tt
   else mret tt);;
  block_height ← size_t;
  pending ← HasPendingTransactions_t;
  if negb pending then mret false
  else if my_turn block_height context then propose_if_idle_t block_height context
  else mret false.

Definition HandleProposalBlock_t (msg : DevcashMessage) (context : DevcashContext) : prog bool :=
  prior ← getHighestChainState_t;
  mode ← look [Read LFixed] (fun n => Ok (mode_ (n_pool n)));
  to_validate ← pure (fst (pb_from_buffer prior keys mode (mkIB (m_data msg) 0)));
  valid ← pure (pb_validate to_validate keys);
  if negb valid then mret false
  else
    signed ← pure (pb_signBlock to_validate keys context);
    if negb signed.1 then mret false
    else
      let validation := pb_getValidationData signed.2 in
      callback_t (mkMessage (ContextOps.get_shard_uri context) eMessageType.VALID validation
                    (m_index msg));;
      mret true.

Definition HandleValidationBlock_t (now : Z) (msg : DevcashMessage) (context : DevcashContext)
    : prog bool :=
  ready ← CheckValidation_t context (mkIB (m_data msg) 0);
  if (ready : bool) then
    top_block ← FinalizeLocalBlock_t now;
    push_back_t top_block;;
    elapsed_t;;
    let final_msg := fb_getCanonical top_block in
    callback_t (mkMessage (ContextOps.get_shard_uri context) eMessageType.FINAL_BLOCK final_msg
                  (m_index msg));;
    mret true
  else mret false.

Definition HandleBlocksSinceRequest_t (fuel : nat) (msg : DevcashMessage)
    (context : DevcashContext) : prog bool :=
  if zlen (m_data msg) <? 16 then mret false
  else
    height ← pure (BinToUint32 (m_data msg) 0);
    node ← pure (BinToUint32 (m_data msg) 8);
    raw ← PartialBinaryDump_t fuel height;
    match ContextOps.get_app_mode context with
    | T2 =>
        tier1_data ← pure (fst (offset_fold (since_step keys) (zlen raw) [] (mkIB raw 0)));
        callback_t (mkMessage (ContextOps.get_uri_from_index context node)
                      eMessageType.TRANSACTION_ANNOUNCEMENT tier1_data (m_index msg));;
        mret true
    | T1 =>
        size ← size_t;
        let covered_height := u64 (size - 1) in
        let raw := Uint64ToBin covered_height [] ++ raw in
        callback_t (mkMessage (ContextOps.get_uri_from_index context node)
                      eMessageType.BLOCKS_SINCE raw (m_index msg));;
        mret true
    | scan => mret false
    end.

Definition HandleBlocksSince_t (clock : nat -> Z) (msg : DevcashMessage) (context : DevcashContext)
    : prog bool :=
  let b := mkIB (m_data msg) 0 in
  if zlen (m_data msg) <? 8 then mret false
  else
    let '(r, b1) := Buf.getNextUint64 true b in
    height ← pure r;
    match ContextOps.get_app_mode context with
    | T2 =>
        wallets ← pure (getDesignatedWallets keys (i32 (ContextOps.get_current_shard context)));
        state ← getHighestChainState_t;
        _ ← pure (fst (offset_fold (blocks_since_step clock wallets) (zlen (m_data msg))
                         (O, state) b1));
        remote ← look [Read LRemote] (fun n => Ok (n_remote_blocks n));
        (if remote <? height then act [Write LRemote] (set_remote_blocks height) else mret tt);;
        mret false
    | _ => mret false
    end.

(** *** The controllers *)
Definition consensusCallback_t (now : Z) (msg : DevcashMessage) (context : DevcashContext)
    : prog unit :=
  ptry
    (if m_type msg =? eMessageType.FINAL_BLOCK then
       HandleFinalBlock_t msg context;; mret tt
     else if m_type msg =? eMessageType.PROPOSAL_BLOCK then
       HandleProposalBlock_t msg context;; mret tt
     else if m_type msg =? eMessageType.VALID then
       HandleValidationBlock_t now msg context;; mret tt
     else pure (Err DevcashMessageError))
    (fun _ => pure (Err StdException)).

Definition request_blocks_t (context : DevcashContext) (mode : eAppMode) : prog unit :=
  remote ← look [Read LRemote] (fun n => Ok (n_remote_blocks n));
  size ← size_t;
  let node := ContextOps.get_current_node context in
  let peers := ContextOps.get_peer_count context in
  if remote <? size then
    let request := Uint64ToBin node (Uint64ToBin remote []) in
    match mode with
    | T1 =>
        callback_t (mkMessage (ContextOps.get_uri_from_index context (peers + node mod peers))
                      eMessageType.GET_BLOCKS_SINCE request (u32 remote));;
        callback_t (mkMessage (ContextOps.get_uri_from_index context (peers * 2 + node mod peers))
                      eMessageType.GET_BLOCKS_SINCE request (u32 remote))
    | T2 =>
        callback_t (mkMessage (ContextOps.get_uri_from_index context (node mod peers))
                      eMessageType.GET_BLOCKS_SINCE request (u32 remote))
    | scan => mret tt
    end
  else mret tt.

Definition messageCallback_t (fuel : nat) (clock : nat -> Z) (msg : DevcashMessage)
    (context : DevcashContext) (mode : eAppMode) : prog unit :=
  bindr
    (if m_type msg =? eMessageType.REQUEST_BLOCK then request_blocks_t context mode
     else if m_type msg =? eMessageType.GET_BLOCKS_SINCE then
       HandleBlocksSinceRequest_t fuel msg context;; mret tt
     else if m_type msg =? eMessageType.BLOCKS_SINCE then
       HandleBlocksSince_t clock msg context;; mret tt
     else mret tt)
    on_deserialization.

(** Whether there is a proposal is logged first. *)
Definition validatorCallback_t (ptr : option DevcashMessage) (context : DevcashContext)
    : prog unit :=
  match ptr with
  | None => pure (Err DevcashMessageError)
  | Some msg =>
      if m_type msg =? eMessageType.TRANSACTION_ANNOUNCEMENT then
        AddTransactions_serial_t (m_data msg);;
        block_height ← size_t;
        if my_turn block_height context then
          when info (HasProposal_t;; mret tt);;
          propose_if_idle_t block_height context;;
          mret tt
        else mret tt
      else pure (Err DevcashMessageError)
  end.

Definition worker_program (fuel : nat) (w : Worker) (clock : nat -> Z) (context : DevcashContext)
    (mode : eAppMode) (msg : DevcashMessage) : prog unit :=
  match w with
  | Consensus => consensusCallback_t (clock O) msg context
  | Internetwork => messageCallback_t fuel clock msg context mode
  | Validator => validatorCallback_t (Some msg) context
  end.
End programs.
