(* ===== verification/InterleaveSeq.v ===== *)
(** * One worker at a time

    Run without the others, the programs of [Interleave] compute what the
    definitions of [Handlers] and [Pool] say. *)

From Stdlib Require Import ZArith Lia.
From stdpp Require Import base list numbers functions.
From S2P Require Import Prelude OrdMap Converters Keys Buffers Transfer ChainState Summary.
From S2P Require Import Validation KeyRing Context Transactions Blocks Message Blockchain Pool.
From S2P Require Import Handlers Node Network Threads Interleave.

#[local] Open Scope devv_scope.

Section alone.
Context `{Crypto} (keys : KeyRing) (info debug : bool).

(** ** Rules *)
Lemma on_pool_bind {A B} (m : M Pool A) (f : A -> M Pool B) :
  on_pool (m ≫= f) ≃ (on_pool m ≫= fun a => on_pool (f a)).
Proof. apply mequiv_eq. intros n. unfold on_pool, mbind, M_bind. by destruct (m (n_pool n)) as [[]]. Qed.

Lemma on_pool_ret {A} (a : A) : on_pool (mret a) ≃ mret a.
Proof. apply mequiv_eq. by intros []. Qed.

Lemma on_pool_lift {A} (r : res A) : on_pool (lift r) ≃ lift r.
Proof. apply mequiv_eq. by intros []. Qed.

Lemma run_seq {A B} (p : prog Node mutex loc A) (f : A -> prog Node mutex loc B) m g s :
  run p ≃ m -> (forall a s', m s = (Ok a, s') -> same_outcome (run (f a) s') (g a s')) ->
  same_outcome (run (p ≫= f) s) ((m ≫= g) s).
Proof. intros E F. etransitivity; [apply run_bind|]. by apply outcome_bind. Qed.

Lemma run_bind_equiv {A B} (p : prog Node mutex loc A) (f : A -> prog Node mutex loc B) m g :
  run p ≃ m -> (forall a, run (f a) ≃ g a) -> run (p ≫= f) ≃ (m ≫= g).
Proof. intros E F s. apply run_seq; [done|]. intros; apply F. Qed.

(** The same inside the pool. *)
Lemma run_pool_bind {A B} (p : prog Node mutex loc A) (f : A -> prog Node mutex loc B)
    (m : M Pool A) (g : A -> M Pool B) :
  run p ≃ on_pool m -> (forall a, run (f a) ≃ on_pool (g a)) -> run (p ≫= f) ≃ on_pool (m ≫= g).
Proof. intros E F. rewrite on_pool_bind. by apply run_bind_equiv. Qed.

Lemma run_pool_ret {A} (a : A) : run (mret a : prog Node mutex loc A) ≃ on_pool (mret a).
Proof. by rewrite on_pool_ret. Qed.

Lemma run_pool_lift {A} (r : res A) : run (pure r : prog Node mutex loc A) ≃ on_pool (lift r).
Proof. by rewrite on_pool_lift. Qed.

Lemma run_look {A} acc (f : Node -> res A) : run (look acc f) ≃ (fun n => (f n, n)).
Proof. apply run_act. Qed.

(** A read, then what depends on it. *)
Lemma run_look_bind {A B} acc (f : Node -> res A) (k : A -> prog Node mutex loc B) s out :
  same_outcome (match f s with
                | Ok a => run (k a) s
                | Err e => (Err e, s) | UB => (UB, s) | NoFuel => (NoFuel, s)
                end) out ->
  same_outcome (run (look acc f ≫= k) s) out.
Proof.
  intros E. etransitivity; [|exact E]. etransitivity; [apply run_bind|].
  unfold mbind, M_bind. destruct (run_look acc f s) as [E1 E2].
  destruct (run (look acc f) s) as [r s1]. cbn in *. subst r. destruct (f s) as [a|e| |]; try done.
  - by rewrite E2.
Qed.

Lemma run_mret {A} (a : A) : run (mret a : prog Node mutex loc A) ≃ mret a.
Proof. done. Qed.

Lemma run_pure {A} (r : res A) : run (pure r : prog Node mutex loc A) ≃ lift r.
Proof. done. Qed.

Lemma run_txs {A} (p : prog Node mutex loc A) m :
  run p ≃ on_pool m -> run (guarded txs_mutex_ p) ≃ on_pool (with_txs_lock m).
Proof.
  intros E. etransitivity; [by apply run_guarded|]. apply mequiv_eq. intros n.
  unfold with_lock, on_pool, with_txs_lock. cbn. destruct (txs_locked (n_pool n)); [by destruct n|].
  by destruct (m _).
Qed.

Lemma run_proposal {A} (p : prog Node mutex loc A) m :
  run p ≃ on_pool m -> run (guarded pending_proposal_mutex_ p) ≃ on_pool (with_proposal_lock m).
Proof.
  intros E. etransitivity; [by apply run_guarded|]. apply mequiv_eq. intros n.
  unfold with_lock, on_pool, with_proposal_lock. cbn. destruct (proposal_locked (n_pool n)); [by destruct n|].
  by destruct (m _).
Qed.

Lemma run_when b p : run p ≃ mret tt -> run (when b p) ≃ mret tt.
Proof. by destruct b. Qed.

(** What leaves no trace. *)
Lemma run_skip {A B} (p : prog Node mutex loc A) (f : A -> prog Node mutex loc B) a :
  run p ≃ mret a -> run (p ≫= f) ≃ run (f a).
Proof.
  intros E. etransitivity; [apply run_bind|].
  etransitivity; [by apply (bind_outcome _ (mret a) _ (fun a => run (f a)))|]. by apply mequiv_eq.
Qed.

(** ** The chain *)
Lemma run_size : run size_t ≃ (fun n => (Ok (bc_size (n_chain n)), n)).
Proof. apply run_look. Qed.

Lemma run_highest : run getHighestChainState_t ≃ (fun n => (bc_getHighestChainState (n_chain n), n)).
Proof.
  intros n. unfold getHighestChainState_t, bc_getHighestChainState. apply run_look_bind.
  destruct (chain_size_ (n_chain n) <? 1); [done|]. apply run_look_bind.
  by destruct (bc_back (n_chain n)).
Qed.

Lemma run_push b : run (push_back_t b) ≃ push_block b.
Proof. done. Qed.
Lemma run_dump fuel : forall i out n,
  (Z.to_nat (u64 (bc_size (n_chain n) - 1) - i) < fuel)%nat ->
  same_outcome (run (dump_t fuel i out) n)
    ((rest ← dump_loop (n_chain n) i (Z.to_nat (u64 (bc_size (n_chain n) - 1) - i));
      Ok (out ++ rest)) : res bytes, n).
Proof.
  induction fuel as [|fuel IH]; intros i out n Hf; [lia|]. cbn [dump_t].
  apply run_look_bind. destruct (i <? u64 (bc_size (n_chain n) - 1)) eqn:E; bool_to_prop.
  - replace (Z.to_nat (u64 (bc_size (n_chain n) - 1) - i))
      with (S (Z.to_nat (u64 (bc_size (n_chain n) - 1) - (i + 1)))) in * by lia.
    cbn [dump_loop]. apply run_look_bind.
    destruct (vec_at (chain_ (n_chain n)) i) as [b|e| |]; try done.
    etransitivity; [apply IH; lia|]. cbn [mbind res_bind].
    destruct (dump_loop _ _ _); cbn [mbind res_bind]; try done. by rewrite app_assoc.
  - replace (Z.to_nat _) with O by lia. cbn. by rewrite app_nil_r.
Qed.

Lemma run_PartialDump fuel start n :
  0 <= start -> bc_size (n_chain n) <= Z.of_nat fuel ->
  same_outcome (run (PartialBinaryDump_t fuel start) n)
    (bc_PartialBinaryDump (n_chain n) start, n).
Proof.
  intros Hs Hf. apply run_look_bind. unfold bc_PartialBinaryDump. case_match eqn:E; [|done].
  bool_to_prop. etransitivity; [apply run_dump|].
  { rewrite u64_id; [lia|]. pose proof (u64_range (chain_size_ (n_chain n))) as R.
    unfold bc_size, in_u64 in *. lia. }
  by destruct (dump_loop _ _ _).
Qed.

(** ** The pool *)
Lemma run_AddTransactions txs : run (AddTransactions_t keys txs) ≃ on_pool (AddTransactions keys txs).
Proof. apply run_txs, run_act. Qed.

Lemma run_AddTransactions_serial serial :
  run (AddTransactions_serial_t keys serial) ≃ on_pool (AddTransactions_serial keys serial).
Proof.
  intros n. apply run_look_bind. unfold AddTransactions_serial.
  etransitivity; [apply run_seq; [apply run_pure | intros; apply run_AddTransactions]|].
  unfold on_pool. rewrite bind_get. unfold mbind, M_bind, lift. by destruct (fst _); destruct n.
Qed.

Lemma run_HasPending : run (HasPendingTransactions_t debug) ≃ on_pool HasPendingTransactions.
Proof.
  etransitivity; [apply (run_skip _ _ tt), run_when, run_look|]. apply run_txs. etransitivity; [apply run_look|]. apply mequiv_eq. by intros [].
Qed.

Lemma run_Collect state s :
  run (CollectValidTransactions_t keys state s) ≃ on_pool (CollectValidTransactions keys state s).
Proof. apply run_txs, run_act. Qed.

Lemma run_ProposeBlock h prior context :
  run (ProposeBlock_t keys h prior context) ≃ on_pool (ProposeBlock h prior keys context).
Proof.
  apply run_pool_bind; [apply run_Collect | intros v].
  apply run_pool_bind; [apply run_pool_lift | intros b].
  apply run_pool_bind; [apply run_proposal, run_act | intros []]. apply run_pool_ret.
Qed.

Lemma run_isNull n : run (isNull_t) n = (Ok (pb_isNull (pending_proposal_ (n_pool n))), n).
Proof. done. Qed.

Lemma run_HasProposal : run HasProposal_t ≃ on_pool HasProposal.
Proof. apply run_proposal. apply mequiv_eq. by intros []. Qed.

Lemma run_getProposal : run getProposal_t ≃ on_pool getProposal.
Proof. apply run_proposal. apply mequiv_eq. by intros []. Qed.

Lemma run_ReverifyTransactions prior :
  run (ReverifyTransactions_t keys prior) ≃ on_pool (ReverifyTransactions prior keys).
Proof.
  apply run_txs. etransitivity; [apply run_look|]. apply mequiv_eq. by intros [].
Qed.

(** A read of the pool: the state it is followed in. *)
Lemma on_pool_get {A} (f : Pool -> M Pool A) n : on_pool (get ≫= f) n = on_pool (f (n_pool n)) n.
Proof. done. Qed.

Lemma run_ReverifyProposal h prior context :
  run (ReverifyProposal_t keys h prior context) ≃ on_pool (ReverifyProposal h prior keys context).
Proof.
  apply run_proposal. intros n. apply run_look_bind. rewrite on_pool_get.
  destruct (pb_isNull (pending_proposal_ (n_pool n))); [by destruct n|]. revert n.
  match goal with |- forall n, same_outcome (run ?p n) (on_pool ?m n) => change (run p ≃ on_pool m) end.
  apply run_pool_bind; [apply run_ReverifyTransactions | intros []].
  - done.
  - apply run_pool_bind; [apply run_ProposeBlock | intros ?]. apply run_pool_ret.
Qed.

Lemma run_CheckValidation context buf :
  run (CheckValidation_t context buf) ≃ on_pool (CheckValidation context buf).
Proof.
  apply run_proposal. intros n. apply run_look_bind. rewrite on_pool_get.
  destruct (pb_isNull (pending_proposal_ (n_pool n))); [by destruct n|].
  etransitivity; [apply run_act | done].
Qed.

Lemma run_FinalizeLocal now : run (FinalizeLocalBlock_t now) ≃ on_pool (FinalizeLocalBlock now).
Proof.
  apply run_proposal. intros n. apply run_look_bind. rewrite on_pool_get. revert n.
  intros n. generalize (pending_proposal_ (n_pool n)). intros pb. revert n.
  match goal with |- forall n, same_outcome (run ?p n) (on_pool ?m n) => change (run p ≃ on_pool m) end.
  assert (forall n, (final_block ← FinalizeBlock now pb; p ← get;
      put (set_proposal p (pb_setNull (pending_proposal_ p)));; mret final_block) n =
    (RemoveTransactions pb;; p ← get;
      put (set_proposal p (pb_setNull (pending_proposal_ p)));; mret (fb_of_proposed now pb)) n) as E.
  { intros p. unfold FinalizeBlock. by rewrite bind_assoc. }
  etransitivity; [|apply mequiv_eq; intros n; unfold on_pool; by rewrite E].
  apply run_pool_bind; [apply run_txs, run_act | intros ?]. done.
Qed.

Lemma run_FinalizeRemote prior buf :
  run (FinalizeRemoteBlock_t keys prior buf) ≃ on_pool (FinalizeRemoteBlock prior keys buf).
Proof.
  intros n. apply run_look_bind. unfold FinalizeRemoteBlock. rewrite on_pool_get. apply run_pool_lift.
Qed.

(** ** The handlers

    A handler keeps the chain it has read: the pool's methods leave it alone. *)
Lemma on_pool_chain_eq {A} (m : M Pool A) n r n' : on_pool m n = (r, n') -> n_chain n' = n_chain n.
Proof. unfold on_pool. destruct (m (n_pool n)). by intros [= _ <-]. Qed.

(** A read of the chain, then what depends on it. *)
Lemma run_chain {A B} (p : prog Node mutex loc A) (k : A -> prog Node mutex loc B)
    (f : Blockchain -> res A) (g : A -> M Node B) n :
  run p ≃ (fun n => (f (n_chain n), n)) ->
  (forall a, f (n_chain n) = Ok a -> same_outcome (run (k a) n) (g a n)) ->
  same_outcome (run (p ≫= k) n) ((lift (f (n_chain n)) ≫= g) n).
Proof.
  intros E F. etransitivity; [apply run_bind|].
  change (lift (f (n_chain n)) ≫= g) with (mbind g (fun s => (f (n_chain n), s)) : M Node B).
  apply outcome_bind; [apply E|]. intros a s' [= Ha <-]. by apply F.
Qed.

Lemma run_chain_ok {A B} (p : prog Node mutex loc A) (k : A -> prog Node mutex loc B)
    (f : Blockchain -> A) n out :
  run p ≃ (fun n => (Ok (f (n_chain n)), n)) ->
  same_outcome (run (k (f (n_chain n))) n) out -> same_outcome (run (p ≫= k) n) out.
Proof.
  intros E F. etransitivity; [|exact F]. etransitivity; [apply run_bind|].
  unfold mbind, M_bind. destruct (E n) as [E1 E2]. cbn in E1, E2.
  destruct (run p n) as [r s1]. cbn in *. subst r. by rewrite E2.
Qed.

Lemma final_chain_bind {A} (f : Blockchain -> M Node A) n : (final_chain ≫= f) n = f (n_chain n) n.
Proof. done. Qed.

Lemma run_CreateNextProposal context :
  run (CreateNextProposal_t keys debug context) ≃ CreateNextProposal keys context.
Proof.
  intros n. unfold CreateNextProposal. rewrite final_chain_bind.
  apply (run_chain_ok _ _ bc_size); [apply run_size|].
  apply run_seq; [apply run_HasProposal | intros hp n1 E1]. apply on_pool_chain_eq in E1.
  rewrite <- E1. clear n E1.
  apply run_seq; [destruct hp; [done | apply run_HasPending] | intros pending n2 E2].
  assert (n_chain n2 = n_chain n1) as <-.
  { destruct hp; [by injection E2 as _ <- | by apply on_pool_chain_eq in E2]. }
  clear n1 hp E2. etransitivity; [apply run_bind|].
  apply outcome_bind; [|intros; apply run_getProposal].
  destruct pending; [|done]. destruct (0 <? bc_size (n_chain n2)).
  - apply (run_chain _ _ bc_back); [apply run_look | intros b _].
    apply (run_chain _ _ bc_getHighestChainState); [apply run_highest | intros prior _].
    apply run_bind_equiv; [apply run_ProposeBlock | done].
  - apply run_bind_equiv; [apply run_ProposeBlock | done].
Qed.

Lemma run_propose height context :
  run (propose_if_idle_t keys debug height context) ≃ propose_if_idle height keys context.
Proof.
  apply run_bind_equiv; [apply run_HasProposal | intros []; [done|]].
  apply run_bind_equiv; [apply run_CreateNextProposal | intros p]. by case_match.
Qed.

Lemma run_HandleFinalBlock msg context :
  run (HandleFinalBlock_t keys debug msg context) ≃ HandleFinalBlock msg context keys.
Proof.
  intros n. unfold HandleFinalBlock. rewrite final_chain_bind.
  apply (run_chain _ _ bc_getHighestChainState); [apply run_highest | intros prior _]. revert n.
  apply run_bind_equiv; [apply run_FinalizeRemote | intros top].
  apply run_bind_equiv; [apply run_push | intros []].
  etransitivity; [apply (run_skip _ _ tt), run_look|].
  apply run_bind_equiv; [apply run_HasProposal | intros hp].
  apply run_bind_equiv; [destruct hp; [|done] | intros []].
  { apply run_bind_equiv; [apply run_ReverifyProposal | done]. }
  intros n. rewrite final_chain_bind. apply (run_chain_ok _ _ bc_size); [apply run_size|].
  generalize (bc_size (n_chain n)). intros height. revert n.
  apply run_bind_equiv; [apply run_HasPending | intros []; cbn [negb]; [|done]].
  case_match; [apply run_propose | done].
Qed.

Lemma run_HandleProposalBlock msg context :
  run (HandleProposalBlock_t keys msg context) ≃ HandleProposalBlock msg context keys.
Proof.
  intros n. unfold HandleProposalBlock. rewrite bind_get.
  apply (run_chain _ _ bc_getHighestChainState); [apply run_highest | intros prior _].
  apply run_look_bind. generalize (mode_ (n_pool n)). intros mode. revert n.
  apply run_bind_equiv; [apply run_pure | intros b].
  apply run_bind_equiv; [apply run_pure | intros []; cbn [negb]; [|done]].
  apply run_bind_equiv; [apply run_pure | intros signed]. by case_match.
Qed.

Lemma run_HandleValidationBlock now msg context :
  run (HandleValidationBlock_t now msg context) ≃ HandleValidationBlock now msg context.
Proof.
  apply run_bind_equiv; [apply run_CheckValidation | intros []; [|done]].
  apply run_bind_equiv; [apply run_FinalizeLocal | intros top].
  apply run_bind_equiv; [apply run_push | intros []].
  by etransitivity; [apply (run_skip _ _ tt), run_look|].
Qed.

Lemma run_BlocksSinceRequest fuel msg context n :
  bc_size (n_chain n) <= Z.of_nat fuel ->
  same_outcome (run (HandleBlocksSinceRequest_t keys fuel msg context) n)
    (HandleBlocksSinceRequest msg context keys n).
Proof.
  intros Hf. unfold HandleBlocksSinceRequest, HandleBlocksSinceRequest_t. case_match; [done|].
  apply run_seq; [apply run_pure | intros height n1 E1]. injection E1 as Eh <-.
  apply run_seq; [apply run_pure | intros node n2 E2]. injection E2 as _ <-.
  rewrite final_chain_bind. etransitivity; [apply run_bind|].
  change (lift (bc_PartialBinaryDump (n_chain n) height))
    with (fun s : Node => (bc_PartialBinaryDump (n_chain n) height, s)).
  apply outcome_bind.
  { apply run_PartialDump; [|done]. apply BinToUint32_range in Eh. unfold in_u32 in Eh. lia. }
  intros raw n3 E3. injection E3 as _ <-. destruct (ContextOps.get_app_mode context).
  - apply (run_chain_ok _ _ bc_size); [apply run_size | done].
  - apply run_seq; [apply run_pure | done].
  - done.
Qed.

Lemma run_BlocksSince clock msg context :
  run (HandleBlocksSince_t keys clock msg context) ≃ HandleBlocksSince clock msg context keys.
Proof.
  unfold HandleBlocksSince_t, HandleBlocksSince. case_match; [done|].
  destruct (Buf.getNextUint64 true (mkIB (m_data msg) 0)) as [r b1].
  apply run_bind_equiv; [apply run_pure | intros height].
  destruct (ContextOps.get_app_mode context); [done | | done].
  apply run_bind_equiv; [apply run_pure | intros wallets]. intros n. rewrite final_chain_bind.
  apply (run_chain _ _ bc_getHighestChainState); [apply run_highest | intros st _]. revert n.
  apply run_bind_equiv; [apply run_pure | intros _]. intros n. rewrite bind_get.
  apply run_look_bind. by destruct (n_remote_blocks n <? height).
Qed.

Lemma run_request context mode : run (request_blocks_t context mode) ≃ request_blocks context mode.
Proof.
  intros n. unfold request_blocks. rewrite bind_get. apply run_look_bind.
  apply (run_chain_ok _ _ bc_size); [apply run_size|]. case_match; [|done]. by destruct mode.
Qed.

(** ** The controllers *)
Lemma run_consensusCallback now msg context :
  run (consensusCallback_t keys debug now msg context) ≃ consensusCallback now msg context keys.
Proof.
  etransitivity; [apply run_try|]. apply try_outcome; [|done].
  repeat case_match; [apply run_bind_equiv; [|done].. | done];
    [apply run_HandleFinalBlock | apply run_HandleProposalBlock | apply run_HandleValidationBlock].
Qed.

Lemma run_messageCallback fuel clock msg context mode n :
  bc_size (n_chain n) <= Z.of_nat fuel ->
  same_outcome (run (messageCallback_t keys fuel clock msg context mode) n)
    (messageCallback clock msg context mode keys n).
Proof.
  intros Hf. etransitivity; [apply run_bindr, strict_deserialization|].
  assert (forall p (m : M Node unit), same_outcome (run p n) (m n) ->
    same_outcome (let '(r, s1) := run p n in run (on_deserialization r) s1)
      (catch_deserialization m n)) as K.
  { intros p m [E1 E2]. unfold catch_deserialization.
    destruct (run p n) as [r s1], (m n) as [r' s1']. cbn in *. subst r'.
    destruct r as [|[]| |]; try done; by rewrite E2. }
  apply K. repeat case_match; [apply run_request | | | done].
  - etransitivity; [apply run_bind|]. apply outcome_bind; [by apply run_BlocksSinceRequest | done].
  - apply run_bind_equiv; [apply run_BlocksSince | done].
Qed.

(** Asking twice whether there is a proposal. *)
Lemma ask_twice {B} (k : bool -> M Node B) :
  ((on_pool HasProposal;; mret tt);; on_pool HasProposal ≫= k) ≃ (on_pool HasProposal ≫= k).
Proof.
  intros n. destruct (proposal_locked (n_pool n)) eqn:L.
  - assert (on_pool HasProposal n = (UB, n)) as E.
    { unfold on_pool, HasProposal, with_proposal_lock. rewrite L. by destruct n. }
    rewrite (bind_ub (A := bool) _ k n n E), (bind_ub (A := unit) _ _ n n); [done|].
    by apply bind_ub.
  - assert (on_pool HasProposal n = (Ok (negb (pb_isNull (pending_proposal_ (n_pool n)))), n)) as E.
    { unfold on_pool, HasProposal, with_proposal_lock. rewrite L, bind_get. cbn -[pb_isNull].
      by rewrite relock_proposal; destruct n. }
    rewrite bind_assoc, (bind_ok _ _ n _ n E), bind_ret. done.
Qed.

Lemma run_log_and_propose height context :
  run (when info (HasProposal_t;; mret tt);; propose_if_idle_t keys debug height context;; mret tt) ≃
    (propose_if_idle height keys context;; mret tt).
Proof.
  assert (run (propose_if_idle_t keys debug height context;; mret tt) ≃
    (propose_if_idle height keys context;; mret tt)) as E
    by (apply run_bind_equiv; [apply run_propose | done]).
  destruct info; cbn [when]; [|etransitivity; [by apply (run_skip _ _ tt) | exact E]].
  etransitivity; [apply (run_bind_equiv _ _ (on_pool HasProposal;; mret tt)
    (fun _ => propose_if_idle height keys context;; mret tt)); [|done]|].
  { apply run_bind_equiv; [apply run_HasProposal | done]. }
  etransitivity; [|etransitivity; [apply ask_twice|]; apply mequiv_eq; intros n; symmetry; apply bind_assoc].
  apply bind_outcome; [done|]. intros []. apply mequiv_eq. intros n. apply bind_assoc.
Qed.

Lemma run_validatorCallback ptr context :
  run (validatorCallback_t keys info debug ptr context) ≃ validatorCallback ptr context keys.
Proof.
  destruct ptr as [msg|]; [|done]. cbn [validatorCallback_t validatorCallback].
  case_match; [|done].
  apply run_bind_equiv; [apply run_AddTransactions_serial | intros a].
  intros n. rewrite final_chain_bind. apply (run_chain_ok _ _ bc_size); [apply run_size|].
  case_match; [|done]. apply run_log_and_propose.
Qed.

(** A worker alone does what its callback is modelled to do. *)
Lemma run_worker fuel w clock context mode msg n :
  bc_size (n_chain n) <= Z.of_nat fuel ->
  same_outcome (run (worker_program keys info debug fuel w clock context mode msg) n)
    (worker_callback keys w clock context mode msg n).
Proof.
  intros Hf. destruct w; cbn [worker_program worker_callback].
  - apply run_consensusCallback.
  - by apply run_messageCallback.
  - apply run_validatorCallback.
Qed.
End alone.
