(* ===== verification/InterleaveSafe.v ===== *)
(** * The workers together

    Who may touch what: only the consensus worker writes the chain, the pool's
    map and its proposal are touched under their mutexes, only the internetwork
    worker touches [remote_blocks_].  With the rules of [Threads], the three
    workers keep the invariant of this file under every interleaving.  What is
    not in it is the link between the proposal and the top block: that one is
    lost, see [PropsThreads]. *)

From Stdlib Require Import ZArith Lia.
From stdpp Require Import relations.
From stdpp Require Import base list numbers functions.
From S2P Require Import Prelude OrdMap Converters Keys Buffers Transfer ChainState Summary.
From S2P Require Import Validation KeyRing Context Transactions Blocks Message Blockchain Pool.
From S2P Require Import Handlers Node Network Threads Interleave.

#[local] Open Scope devv_scope.

Section discipline.
Context `{Crypto} (debug : bool).

Definition node_may_write (w : Worker) (held : list mutex) (l : loc) : Prop :=
  match l with
  | LChain | LSize | LCount => w = Consensus
  | LTxs => txs_mutex_ ∈ held
  | LProposal => pending_proposal_mutex_ ∈ held
  | LRemote => w = Internetwork
  | LSent | LTimer => True
  | LFixed => False
  end.

Definition node_may_read (w : Worker) (held : list mutex) (l : loc) : Prop :=
  match l with
  | LTxs => txs_mutex_ ∈ held \/ debug = true
  | LProposal => pending_proposal_mutex_ ∈ held
  | LRemote => w = Internetwork
  | _ => True
  end.

Definition node_stable (w : Worker) (held : list mutex) (l : loc) : Prop :=
  match l with
  | LChain | LSize | LCount => w = Consensus
  | LTxs => txs_mutex_ ∈ held
  | LProposal => pending_proposal_mutex_ ∈ held
  | LRemote => w = Internetwork
  | LSent | LTimer => False
  | LFixed => True
  end.

(** The proposal's mutex is taken first. *)
Definition node_rank (m : mutex) : nat :=
  match m with pending_proposal_mutex_ => 0 | txs_mutex_ => 1 end.

#[export] Program Instance node_discipline : Discipline Node mutex loc Worker := {|
  may_read := node_may_read; may_write := node_may_write;
  stable := node_stable; rank := node_rank
|}.
Next Obligation. intros i j hi hj [] N; cbn; naive_solver congruence. Qed.
Next Obligation. intros i m hi []; cbn; rewrite ?elem_of_cons; auto. Qed.
End discipline.

(** ** The labels are honest *)
Section honest.
Context `{Crypto}.
Implicit Types (n : Node) (p q : Pool).

Lemma honest_look {A} acc (f : Node -> res A) :
  (forall n1 n2, (forall l, Read l ∈ acc \/ Write l ∈ acc -> node_same l n1 n2) -> f n1 = f n2) ->
  honest acc (fun n => (f n, n)).
Proof.
  intros Hf. split; [by intros n l _|]. split; [done|]. intros n1 n2 E. split; [by apply Hf|].
  intros l Hl. apply E. by right.
Qed.

Lemma honest_look1 {A} l (f : Node -> res A) :
  (forall n1 n2, node_same l n1 n2 -> f n1 = f n2) -> honest [Read l] (fun n => (f n, n)).
Proof. intros Hf. apply honest_look. intros n1 n2 E. apply Hf, E. left. apply elem_of_cons. by left. Qed.

(** A method that uses the map of transactions only. *)
Definition txs_view p := (txs_ p, num_cum_txs_ p).
Definition txs_rest p :=
  (txs_locked p, pending_proposal_ p, proposal_locked p, max_tx_per_block_ p, mode_ p).

Definition txs_only {A} (m : M Pool A) : Prop := forall p q, txs_view p = txs_view q ->
  fst (m p) = fst (m q) /\ txs_view (snd (m p)) = txs_view (snd (m q)) /\
  txs_rest (snd (m p)) = txs_rest p.

Lemma txs_only_ret {A} (a : A) : txs_only (mret a).
Proof. by intros p q E. Qed.

Lemma txs_only_lift {A} (r : res A) : txs_only (lift r).
Proof. by intros p q E. Qed.

Lemma txs_only_bind {A B} (m : M Pool A) (f : A -> M Pool B) :
  txs_only m -> (forall a, txs_only (f a)) -> txs_only (m ≫= f).
Proof.
  intros Hm Hf p q E. destruct (Hm p q E) as (E1 & E2 & E3). unfold mbind, M_bind.
  destruct (m p) as [r p1], (m q) as [r' q1]. cbn [fst snd] in *. subst r'.
  destruct r as [a| | |]; cbn [fst snd]; try done. destruct (Hf a p1 q1 E2) as (F1 & F2 & F3).
  split; [done|]. split; [done|]. by rewrite F3.
Qed.

Lemma txs_only_try {A} (m : M Pool A) h :
  txs_only m -> (forall e, txs_only (h e)) -> txs_only (try_catch m h).
Proof.
  intros Hm Hh p q E. destruct (Hm p q E) as (E1 & E2 & E3). unfold try_catch.
  destruct (m p) as [r p1], (m q) as [r' q1]. cbn [fst snd] in *. subst r'.
  destruct r as [a|e| |]; cbn [fst snd]; try done. destruct (is_std_exception e); [|done].
  destruct (Hh e p1 q1 E2) as (F1 & F2 & F3). split; [done|]. split; [done|]. by rewrite F3.
Qed.

Lemma txs_only_add_one keys item : txs_only (add_one keys item).
Proof.
  apply txs_only_bind; [apply txs_only_lift | intros sig]. intros p q E. pose proof E as [= E1 E2].
  rewrite !bind_get, E1, E2. destruct (om_find sig (txs_ q)) as [[c tx]|]; [by rewrite !bind_put|].
  rewrite !bind_lift. by destruct (tx_isSound item keys) as [[]| | |]; rewrite ?bind_put.
Qed.

Lemma txs_only_add keys txs g : txs_only (add_loop keys txs g).
Proof.
  revert g. induction txs as [|t txs IH]; intros g; cbn [add_loop]; [apply txs_only_ret|].
  apply txs_only_bind; [apply txs_only_add_one | intros; apply IH].
Qed.

Lemma txs_only_remove txs : txs_only (remove_loop txs).
Proof.
  induction txs as [|t txs IH]; cbn [remove_loop]; [apply txs_only_ret|].
  apply txs_only_bind; [apply txs_only_lift | intros sig]. intros p q E. injection E as E1 E2.
  rewrite !bind_get, !bind_put, E1, E2.
  destruct (IH (set_txs p (om_del sig (txs_ q)) (num_cum_txs_ q))
               (set_txs q (om_del sig (txs_ q)) (num_cum_txs_ q)) eq_refl) as (F1 & F2 & F3).
  split; [done|]. split; [done|]. by rewrite F3.
Qed.

Lemma honest_txs {A} acc (m : M Pool A) :
  txs_only m -> Write LTxs ∈ acc -> (forall l, Write l ∈ acc -> l = LTxs \/ l = LTimer) ->
  honest acc (on_pool m).
Proof.
  intros Hm Ha Hw. unfold on_pool. split; [|split].
  - intros n l Hl. destruct (Hm (n_pool n) (n_pool n) eq_refl) as (_ & _ & F).
    destruct (m (n_pool n)) as [r p]. cbn [fst snd] in *. injection F as F1 F2 F3 F4 F5.
    destruct l; cbn; try done. all: by rewrite ?F4, ?F5.
  - intros n l. destruct (Hm (n_pool n) (n_pool n) eq_refl) as (_ & _ & F).
    destruct (m (n_pool n)) as [r p]. injection F as F1 F2 F3 F4 F5. by destruct l.
  - intros n1 n2 E. destruct (E LTxs (or_intror Ha)) as [E1 E2].
    destruct (Hm (n_pool n1) (n_pool n2)) as (F1 & F2 & _); [by unfold txs_view; rewrite E1, E2|].
    destruct (m (n_pool n1)) as [r1 p1], (m (n_pool n2)) as [r2 p2]. cbn [fst snd] in *.
    split; [done|]. injection F2 as F2 F3. intros l Hl. by destruct (Hw l Hl) as [-> | ->].
Qed.

(** A method that replaces the proposal. *)
Lemma honest_proposal {A} (f : ProposedBlock -> res (A * ProposedBlock)) :
  honest [Write LProposal] (on_pool (p ← get; r ← lift (f (pending_proposal_ p));
    put (set_proposal p r.2);; mret r.1)).
Proof.
  split; [|split].
  - intros n l Hl. unfold on_pool. rewrite bind_get, bind_lift.
    destruct (f _); destruct l; try done. destruct Hl. apply elem_of_cons. by left.
  - intros n l. unfold on_pool. rewrite bind_get, bind_lift. by destruct (f _); destruct l.
  - intros n1 n2 E. pose proof (E LProposal (or_intror (proj2 (elem_of_cons _ _ _) (or_introl eq_refl)))) as E1.
    cbn in E1. unfold on_pool. rewrite !bind_get, !bind_lift, E1.
    destruct (f _); (split; [done|]); intros l Hl; rewrite list_elem_of_singleton in Hl; by injection Hl as ->.
Qed.

Lemma honest_ext {A} acc (m m' : M Node A) : (forall n, m n = m' n) -> honest acc m -> honest acc m'.
Proof.
  intros E (F & L & D). split; [|split].
  - intros n l Hl. rewrite <- E. by apply F.
  - intros n l. rewrite <- E. apply L.
  - intros n1 n2 Hn. rewrite <- !E. by apply D.
Qed.
End honest.

(** ** What the workers keep *)
Section spec.
Context `{Crypto} (keys : KeyRing) (debug : bool).

(** The vector is at least as long as its counter says: it grows first. *)
Definition chain_seen (c : Blockchain) : Prop :=
  0 <= chain_size_ c <= zlen (chain_ c) /\ zlen (chain_ c) < 2 ^ 31 /\
  Forall (fun b => cs_ok (fb_block_state b)) (chain_ c).

Definition proposal_sound (b : ProposedBlock) : Prop :=
  cs_ok (pb_block_state b) /\ Forall (sound keys) (pb_transactions b).

Definition shared_ok (n : Node) : Prop :=
  chain_seen (n_chain n) /\ pool_ok keys (n_pool n) /\ proposal_sound (pending_proposal_ (n_pool n)).

(** Between two messages of the consensus worker the counters are exact. *)
Definition worker_rest (w : Worker) (n : Node) : Prop :=
  match w with Consensus => bc_ok (n_chain n) | _ => True end.

Definition chain_grows (n n' : Node) : Prop :=
  chain_ (n_chain n) `prefix_of` chain_ (n_chain n') /\
  chain_size_ (n_chain n) <= chain_size_ (n_chain n').

(** A read of the vector must find a block. *)
Definition reads_chain (acc : list (access loc)) : Prop := Read LChain ∈ acc.

#[export] Program Instance node_spec : ThreadSpec (H0 := node_discipline debug) Node mutex loc Worker := {|
  ts_inv := shared_ok; ts_side := room; ts_rest := worker_rest; ts_grow := chain_grows;
  ts_total := reads_chain
|}.
Next Obligation. by intros [] b n. Qed.
Next Obligation.
  split; [by intros n; split|]. intros n1 n2 n3 [P1 L1] [P2 L2]. split; [by etransitivity | lia].
Qed.
Next Obligation. intros [] b n; by split. Qed.
Next Obligation.
  intros [] n n' _ E; try done. cbn. pose proof (E LChain eq_refl) as E1.
  pose proof (E LSize eq_refl) as E2. pose proof (E LCount eq_refl) as E3. cbn in E1, E2, E3.
  unfold bc_ok. by rewrite E1, E2, E3.
Qed.
End spec.

(** ** The programs are safe *)
Section safety.
Context `{Crypto} (keys : KeyRing) (info debug : bool).
#[local] Instance the_spec : ThreadSpec (H0 := node_discipline debug) Node mutex loc Worker :=
  node_spec keys debug.
Abbreviation safe := (safe (H1 := the_spec)).
Abbreviation ends := (ends (H1 := the_spec)).
Abbreviation rely := (rely (H1 := the_spec)).
Abbreviation allowed := (allowed (H0 := node_discipline debug)).
Implicit Types (w : Worker) (held : list mutex) (n : Node).

Lemma rely_size w held n n1 h :
  rely w held n n1 -> h <= chain_size_ (n_chain n) -> h <= chain_size_ (n_chain n1).
Proof. intros [[_ L] _]. lia. Qed.

(** A read that changes nothing. *)
Lemma safe_look {A} w held acc (f : Node -> res A) (P : A -> Node -> Prop) n :
  Forall (allowed w held) acc -> honest acc (fun n => (f n, n)) -> worker_rest w n ->
  (forall n1, rely w held n n1 -> shared_ok keys n1 -> worker_rest w n1 ->
     (reads_chain acc -> exists a, f n1 = Ok a) /\
     forall a n2, f n1 = Ok a -> rely w held n1 n2 -> shared_ok keys n2 -> P a n2) ->
  safe w held (look acc f) (ends w held P) n.
Proof.
  intros L Ho J W. apply safe_do; [done | done | done |]. intros n1 R1 I1 J1.
  destruct (W n1 R1 I1 J1) as [T HP]. split; [done|]. by intros _ _.
Qed.

Ltac no_chain :=
  let X := fresh in intros X; exfalso; unfold reads_chain in X;
  repeat (apply elem_of_cons in X as [X|X]; [discriminate|]); by apply elem_of_nil in X.

(** *** The chain *)
Lemma safe_size w held n :
  worker_rest w n ->
  safe w held size_t (ends w held (fun h n' => 0 <= h <= chain_size_ (n_chain n'))) n.
Proof.
  intros J. apply safe_look; [by repeat constructor | | done |].
  { apply honest_look1. cbn. unfold bc_size. by intros n1 n2 ->. }
  intros n1 R1 I1 J1. split; [no_chain|].
  intros h n2 [= <-] R2 I2. destruct I1 as ((S1 & L1 & _) & _). destruct R2 as [[_ G2] _].
  unfold bc_size. rewrite u64_id by (unfold in_u64; lia). lia.
Qed.

Lemma back_ok n :
  shared_ok keys n -> 0 < chain_size_ (n_chain n) ->
  exists b, bc_back (n_chain n) = Ok b /\ cs_ok (fb_block_state b).
Proof.
  intros ((S1 & _ & F) & _) Hs. unfold bc_back. destruct (list.last (chain_ (n_chain n))) as [b|] eqn:E.
  - exists b. split; [done|]. apply last_Some in E as [l E]. rewrite E in F.
    apply Forall_app in F as [_ F]. by inversion F.
  - apply last_None in E. rewrite E in S1. unfold zlen in S1. simpl in S1. lia.
Qed.

Lemma safe_back w held n :
  worker_rest w n -> 0 < chain_size_ (n_chain n) ->
  safe w held back_t (ends w held (fun b _ => cs_ok (fb_block_state b))) n.
Proof.
  intros J Hs. apply safe_look; [by repeat constructor | | done |].
  { apply honest_look1. cbn. unfold bc_back. by intros n1 n2 ->. }
  intros n1 [[_ G1] _] I1 J1. destruct (back_ok n1 I1 ltac:(lia)) as (b & E & Cb).
  split; [by exists b|]. intros a n2 Ha _ _. rewrite E in Ha. by injection Ha as <-.
Qed.

Lemma safe_highest w held n :
  worker_rest w n -> safe w held getHighestChainState_t (ends w held (fun st _ => cs_ok st)) n.
Proof.
  intros J. eapply (safe_seq _ _ _ _ (fun h n' => h <= chain_size_ (n_chain n'))).
  { apply safe_look; [by repeat constructor | | done |].
    { apply honest_look1. cbn. by intros n1 n2 ->. }
    intros n1 R1 I1 J1. split; [no_chain|]. intros h n2 [= <-] [[_ G2] _] I2. lia. }
  intros h n1 L1 I1 J1. case_match eqn:E; bool_to_prop.
  - apply safe_mret; [done|]. intros _ _ _. by repeat constructor.
  - eapply safe_seq; [apply safe_back; [done | lia]|]. intros b n2 Cb I2 J2. by apply safe_mret.
Qed.

(** The size may have grown, but the block is there. *)
Lemma safe_dump w held fuel : forall i out n,
  worker_rest w n -> 0 <= i -> 0 < chain_size_ (n_chain n) ->
  safe w held (dump_t fuel i out) (ends w held (fun _ _ => True)) n.
Proof.
  induction fuel as [|fuel IH]; intros i out n J Hi Hs; cbn [dump_t].
  { by apply safe_exception. }
  eapply (safe_seq _ _ _ _ (fun h n' => 0 < h <= chain_size_ (n_chain n'))).
  { apply safe_look; [by repeat constructor | | done |].
    { apply honest_look1. cbn. unfold bc_size. by intros n1 n2 ->. }
    intros n1 [[_ G1] _] I1 J1. split; [no_chain|]. intros h n2 [= <-] [[_ G2] _] I2.
    destruct I1 as ((S1 & L1 & _) & _). unfold bc_size. rewrite u64_id by (unfold in_u64; lia). lia. }
  intros h n1 Hh I1 J1. case_match eqn:E; [|by apply safe_mret]. bool_to_prop.
  destruct I1 as ((S1 & L1 & _) & _). rewrite u64_id in E by (unfold in_u64; lia).
  eapply (safe_seq _ _ _ _ (fun _ n' => 0 < chain_size_ (n_chain n'))).
  { apply safe_look; [by repeat constructor | | done |].
    { apply honest_look1. cbn. by intros n2 n3 ->. }
    intros n2 [[_ G2] _] ((S2 & L2 & _) & _) J2. split.
    - intros _. unfold vec_at. rewrite (proj2 (Z.leb_le 0 i)), (proj2 (Z.ltb_lt i (zlen (chain_ (n_chain n2))))) by lia. cbn [andb].
      assert (is_Some (chain_ (n_chain n2) !! Z.to_nat i)) as [b ->]; [|by exists b].
      apply lookup_lt_is_Some_2. unfold zlen in S2. lia.
    - intros b n3 _ [[_ G3] _] _. lia. }
  intros b n2 Hs2 I2 J2. apply IH; [done | lia | done].
Qed.

Lemma safe_PartialDump w held fuel start n :
  worker_rest w n -> 0 <= start ->
  safe w held (PartialBinaryDump_t fuel start) (ends w held (fun _ _ => True)) n.
Proof.
  intros J Hi. eapply safe_seq; [by apply safe_size|]. intros h n1 [Hh1 Hh2] I1 J1.
  case_match eqn:E; [|by apply safe_mret]. bool_to_prop. apply safe_dump; [done | done | lia].
Qed.

Lemma honest_chain (m : M Node unit) l :
  l = LChain \/ l = LSize \/ l = LCount ->
  (forall n, exists c, m n = (Ok tt, set_chain n c) /\
     (l <> LChain -> chain_ c = chain_ (n_chain n)) /\
     (l <> LSize -> chain_size_ c = chain_size_ (n_chain n)) /\
     (l <> LCount -> num_transactions_ c = num_transactions_ (n_chain n))) ->
  (forall n1 n2, node_same l n1 n2 -> node_same l (snd (m n1)) (snd (m n2))) ->
  honest [Write l] m.
Proof.
  intros Hl Hm Hs. split; [|split].
  - intros n x Hx. destruct (Hm n) as (c & -> & H1 & H2 & H3). cbn [snd].
    assert (l <> x) as N by (intros ->; apply Hx, elem_of_cons; by left).
    destruct x; cbn; try done; symmetry; [by apply H1 | by apply H2 | by apply H3].
  - intros n x. destruct (Hm n) as (c & -> & _). by destruct x.
  - intros n1 n2 E. destruct (Hm n1) as (c1 & E1 & _), (Hm n2) as (c2 & E2 & _).
    split; [by rewrite E1, E2|]. intros x Hx. apply list_elem_of_singleton in Hx. injection Hx as ->.
    apply Hs, E. right. apply elem_of_cons. by left.
Qed.

Lemma honest_append b : honest [Write LChain] (append_block b).
Proof.
  apply honest_chain; [auto | intros n; by eexists; split|]. cbn. by intros n1 n2 ->.
Qed.

Lemma honest_bump_size : honest [Write LSize] bump_size.
Proof.
  apply honest_chain; [auto | intros n; by eexists; split|]. cbn. by intros n1 n2 ->.
Qed.

Lemma honest_bump_count b : honest [Write LCount] (bump_count b).
Proof.
  apply honest_chain; [auto | intros n; by eexists; split|]. cbn. by intros n1 n2 ->.
Qed.

(** The consensus worker sees its own chain only. *)
Lemma rely_chain held n n1 : rely Consensus held n n1 -> n_chain n1 = n_chain n.
Proof.
  intros [_ E]. pose proof (E LChain eq_refl) as E1. pose proof (E LSize eq_refl) as E2.
  pose proof (E LCount eq_refl) as E3. cbn in E1, E2, E3.
  destruct (n_chain n), (n_chain n1). cbn in *. by subst.
Qed.

Lemma safe_push b n :
  bc_ok (n_chain n) -> cs_ok (fb_block_state b) ->
  safe Consensus [] (push_back_t b) (ends Consensus [] (fun _ _ => True)) n.
Proof.
  intros J Cb. apply safe_bindr, safe_act; [by repeat constructor | apply honest_append |].
  intros n1 R1%rely_chain I1. split; [no_chain|]. intros Rm _. cbn [append_block fst snd].
  rewrite <- R1 in J. clear n R1. change (room n1) in Rm. unfold room in Rm.
  pose proof J as (Js & Jl & Jn).
  assert (forall b', zlen (chain_ (n_chain n1) ++ [b']) = zlen (chain_ (n_chain n1)) + 1) as Lz.
  { intros b'. by rewrite (zlen_app (chain_ (n_chain n1)) [b']). }
  split; [|split].
  { destruct I1 as ((S1 & L1 & F1) & Pl). split; [|exact Pl]. unfold chain_seen. cbn.
    rewrite Lz. split; [lia|]. split; [lia|]. apply Forall_app. by split; [|constructor]. }
  { split; cbn; [by eexists | lia]. }
  intros n2 R2%rely_chain I2. cbn [on_ok].
  apply safe_bindr, safe_act; [by repeat constructor | apply honest_bump_size |].
  intros n3 R3%rely_chain I3. split; [no_chain|]. intros _ _. cbn [bump_size fst snd].
  rewrite R2 in R3. clear n2 R2 I2. cbn in R3.
  split; [|split].
  { destruct I3 as ((S3 & L3 & F3) & Pl). split; [|exact Pl]. unfold chain_seen. cbn.
    rewrite R3 in *. cbn in *. rewrite i32_id by (unfold in_i32; lia). rewrite Lz in *.
    split; [lia | by split]. }
  { split; cbn; [done|]. rewrite R3. cbn. rewrite i32_id by (unfold in_i32; pose proof (zlen_nonneg (chain_ (n_chain n1))); lia). lia. }
  intros n4 R4%rely_chain I4. cbn [on_ok].
  apply safe_act; [by repeat constructor | apply honest_bump_count |].
  intros n5 R5%rely_chain I5. split; [no_chain|]. intros _ _. cbn [bump_count fst snd].
  rewrite R4 in R5. clear n4 R4 I4. rewrite R3 in R5. cbn in R5.
  split; [done|]. split; [done|]. intros n6 R6%rely_chain I6. split; [done|]. split; [|done].
  cbn. rewrite R6. cbn. rewrite R5. cbn. by apply bc_push_ok.
Qed.

(** *** The pool

    An access that leaves the chain alone. *)
Lemma safe_pool {A} w held acc (m : M Pool A) (P : A -> Prop) n :
  Forall (allowed w held) acc -> honest acc (on_pool m) -> worker_rest w n -> ~ reads_chain acc ->
  (forall p, pool_ok keys p ->
     proposal_sound keys (pending_proposal_ p) ->
     let '(r, p') := m p in fatal r = false ->
     pool_ok keys p' /\ proposal_sound keys (pending_proposal_ p') /\ forall a, r = Ok a -> P a) ->
  safe w held (act acc (on_pool m)) (ends w held (fun a _ => P a)) n.
Proof.
  intros L Ho J T W. apply safe_do; [done | done | done |]. intros n1 R1 (C1 & Pl & Pp) J1.
  split; [done|]. specialize (W (n_pool n1) Pl Pp). unfold on_pool.
  destruct (m (n_pool n1)) as [r p']. cbn [fst snd]. intros _ F. destruct (W F) as (K1 & K2 & K3).
  split; [by split; [|split]|]. split; [by destruct w|]. split; [by split|].
  intros a n2 E _ _. by apply K3.
Qed.

(** A method on the map that keeps its invariant. *)
Lemma safe_txs {A} w held acc (m : M Pool A) n :
  txs_only m -> keeps (pool_ok keys) m -> worker_rest w n -> txs_mutex_ ∈ held ->
  acc = [Write LTxs] \/ acc = [Write LTxs; Write LTimer] ->
  safe w held (act acc (on_pool m)) (ends w held (fun _ _ => True)) n.
Proof.
  intros Hm K J Hh Ha. apply (safe_pool _ _ _ _ (fun _ => True)); [| | done | |].
  - by destruct Ha as [-> | ->]; repeat constructor.
  - apply honest_txs; [done | |].
    + destruct Ha as [-> | ->]; apply elem_of_cons; by left.
    + intros l. destruct Ha as [-> | ->]; intros Hl;
        repeat (apply elem_of_cons in Hl as [[= ->]|Hl]; [by auto|]); by apply elem_of_nil in Hl.
  - by destruct Ha as [-> | ->]; no_chain.
  - intros p Pl Pp. specialize (K p Pl). destruct (Hm p p eq_refl) as (_ & _ & F).
    destruct (m p) as [r p']. cbn [snd] in *. injection F as _ F _ _ _. intros _.
    split; [done|]. split; [by rewrite F | done].
Qed.

Lemma lock_txs held : held = [] \/ held = [pending_proposal_mutex_] ->
  may_lock (H0 := node_discipline debug) held txs_mutex_.
Proof. intros [-> | ->]; right; repeat constructor. Qed.

Lemma lock_proposal held : held = [] \/ held = [pending_proposal_mutex_] ->
  may_lock (H0 := node_discipline debug) held pending_proposal_mutex_.
Proof. intros [-> | ->]; [right; constructor | left; apply elem_of_cons; by left]. Qed.

Lemma safe_AddTransactions w txs n :
  worker_rest w n -> safe w [] (AddTransactions_t keys txs) (ends w [] (fun _ _ => True)) n.
Proof.
  intros J. apply safe_lock; [apply lock_txs; auto | done |]. intros n1 R1 I1 J1.
  eapply safe_ends; [|apply safe_txs; [| | done | apply elem_of_cons; by left | by right]].
  - done.
  - apply txs_only_try; [apply txs_only_add | intros; apply txs_only_ret].
  - apply keeps_try; [apply add_loop_keeps | intros; apply keeps_ret].
Qed.

Lemma safe_AddTransactions_serial w serial n :
  worker_rest w n -> safe w [] (AddTransactions_serial_t keys serial) (ends w [] (fun _ _ => True)) n.
Proof.
  intros J. eapply (safe_seq _ _ _ _ (fun _ _ => True)).
  { apply safe_look; [by repeat constructor | | done |].
    - apply honest_look1. cbn. by intros n1 n2 [_ ->].
    - intros n1 R1 I1 J1. split; [no_chain | done]. }
  intros mode n1 _ I1 J1. eapply (safe_seq _ _ _ _ (fun _ _ => True)); [by apply safe_pure|].
  intros temp n2 _ I2 J2. by apply safe_AddTransactions.
Qed.

Lemma safe_when w held b p n :
  worker_rest w n -> (b = true -> safe w held p (ends w held (fun _ _ => True)) n) ->
  safe w held (when b p) (ends w held (fun _ _ => True)) n.
Proof. intros J W. destruct b; [by apply W | by apply safe_mret]. Qed.

Lemma safe_HasPending w n :
  worker_rest w n -> safe w [] (HasPendingTransactions_t debug) (ends w [] (fun _ _ => True)) n.
Proof.
  intros J. eapply (safe_seq _ _ _ _ (fun _ _ => True)).
  { apply safe_when; [done | intros D].
    apply safe_look; [constructor; [by right | constructor] | by apply honest_look | done |].
    intros n1 R1 I1 J1. split; [no_chain | done]. }
  intros _ n1 _ I1 J1. apply safe_lock; [apply lock_txs; auto | done |]. intros n2 R2 I2 J2.
  apply safe_look; [constructor; [|constructor]; left; apply elem_of_cons; by left | | done |].
  - apply honest_look1. cbn. by intros n3 n4 [-> _].
  - intros n3 R3 I3 J3. split; [no_chain | done].
Qed.

Lemma honest_collect st s :
  honest [Write LTxs; Read LFixed] (on_pool (collect_body keys st s)).
Proof.
  unfold on_pool, collect_body. split; [|split].
  - intros n l Hl. rewrite bind_get. destruct (collect_loop _ _ _ _ _ _) as [[r| | |] c];
      rewrite bind_lift; destruct l; try done. destruct Hl. apply elem_of_cons. by left.
  - intros n l. rewrite bind_get. destruct (collect_loop _ _ _ _ _ _) as [[r| | |] c];
      rewrite bind_lift; by destruct l.
  - intros n1 n2 E.
    destruct (E LTxs) as [E1 E2]; [right; apply elem_of_cons; by left|].
    destruct (E LFixed) as [E3 E4]; [left; apply elem_of_cons; right; apply elem_of_cons; by left|].
    cbn in E1, E2, E3, E4. rewrite !bind_get, E1, E2, E3.
    destruct (collect_loop _ _ _ _ _ _) as [[r| | |] c]; rewrite !bind_lift; (split; [done|]);
      intros l Hl; repeat (apply elem_of_cons in Hl as [[= ->]|Hl]; [by cbn|]);
      repeat (apply elem_of_cons in Hl as [[=]|Hl]); by apply elem_of_nil in Hl.
Qed.

Lemma safe_Collect w held st n :
  held = [] \/ held = [pending_proposal_mutex_] -> worker_rest w n -> cs_ok st ->
  safe w held (CollectValidTransactions_t keys st SummaryOps.Create)
    (ends w held (fun v _ => cs_ok v.1.2 /\ Forall (sound keys) v.1.1)) n.
Proof.
  intros Hh J C. apply safe_lock; [by apply lock_txs | done |]. intros n1 R1 I1 J1.
  eapply safe_ends; [|apply (safe_pool _ _ _ _ (fun v => cs_ok v.1.2 /\ Forall (sound keys) v.1.1));
    [| apply honest_collect | done | no_chain |]].
  - intros v n2 _ K n3 _ _. exact K.
  - constructor; [apply elem_of_cons; by left | by repeat constructor].
  - intros p [So F] Pp. unfold collect_body. rewrite bind_get.
    destruct (collect_loop _ _ _ _ _ _) as [r c] eqn:El. rewrite bind_lift.
    destruct r as [[valid entries']|e| |]; [|done..].
    pose proof (collect_loop_entries _ _ _ _ _ _ _ _ _ El F) as F'.
    apply collect_loop_spec in El as (K & Fv & Hm & _). destruct (K (conj C Create_ok)) as [C' _].
    rewrite bind_put. intros _. split; [split; [by apply (om_sorted_keys (txs_ p)) | done]|].
    split; [done|]. intros a [= <-]. cbn. split; [done|].
    eapply Forall_impl; [|exact Fv]. by intros t [? _].
Qed.

(** Replacing the proposal by a sound one. *)
Lemma safe_replace {A} w held (f : ProposedBlock -> res (A * ProposedBlock)) (m : M Pool A) n :
  pending_proposal_mutex_ ∈ held -> worker_rest w n ->
  (forall p, m p = (p ← get; r ← lift (f (pending_proposal_ p));
                    put (set_proposal p r.2);; mret r.1) p) ->
  (forall b r, proposal_sound keys b -> f b = Ok r -> proposal_sound keys r.2) ->
  safe w held (act [Write LProposal] (on_pool m)) (ends w held (fun _ _ => True)) n.
Proof.
  intros Hh J E W. apply (safe_pool _ _ _ _ (fun _ => True)); [by repeat constructor | | done | no_chain |].
  - eapply honest_ext; [|apply (honest_proposal f)]. intros n'. unfold on_pool. by rewrite E.
  - intros p Pl Pp. rewrite E, bind_get, bind_lift.
    destruct (f _) as [r| | |] eqn:Ef; rewrite ?bind_put; intros _; [|done..].
    split; [done|]. split; [by eapply W | done].
Qed.

Lemma safe_isNull w held n :
  pending_proposal_mutex_ ∈ held -> worker_rest w n ->
  safe w held isNull_t (ends w held (fun _ _ => True)) n.
Proof.
  intros Hh J. apply safe_look; [by repeat constructor | | done |].
  - apply honest_look1. cbn. by intros n1 n2 ->.
  - intros n1 R1 I1 J1. split; [no_chain | done].
Qed.

Lemma safe_ProposeBlock w held h prior context n :
  held = [] \/ held = [pending_proposal_mutex_] -> worker_rest w n -> cs_ok prior ->
  safe w held (ProposeBlock_t keys h prior context) (ends w held (fun _ _ => True)) n.
Proof.
  intros Hh J C. eapply safe_seq; [by apply safe_Collect|]. intros [[txs st] s] n1 [Cst Fv] I1 J1.
  cbn [fst snd] in *. eapply (safe_seq _ _ _ _ (fun r _ => proposal_sound keys r.2)).
  { apply safe_pure; [done|]. intros [ok b] n2 E _ _.
    apply pb_sign_inv in E as (a & k & sig & v & _ & _ & _ & _ & _ & ->). by split. }
  intros [ok b] n2 Pb I2 J2. eapply (safe_seq _ _ _ _ (fun _ _ => True)); [|by intros; apply safe_mret].
  apply safe_lock; [by apply lock_proposal | done |]. intros n3 R3 I3 J3.
  eapply safe_ends; [|apply (safe_replace _ _ (fun x => Ok (tt, (pb_shallowCopy x b).1)));
    [apply elem_of_cons; by left | done | done |]]; [done|].
  intros x r _ [= <-]. by destruct b.
Qed.

Lemma safe_HasProposal w n :
  worker_rest w n -> safe w [] HasProposal_t (ends w [] (fun _ _ => True)) n.
Proof.
  intros J. apply safe_lock; [apply lock_proposal; auto | done |]. intros n1 R1 I1 J1.
  eapply safe_seq; [apply safe_isNull; [apply elem_of_cons; by left | done]|].
  intros b n2 _ I2 J2. by apply safe_mret.
Qed.

Lemma safe_getProposal w n :
  worker_rest w n -> safe w [] getProposal_t (ends w [] (fun _ _ => True)) n.
Proof.
  intros J. apply safe_lock; [apply lock_proposal; auto | done |]. intros n1 R1 I1 J1.
  apply safe_look; [constructor; [apply elem_of_cons; by left | constructor] | | done |].
  - apply honest_look1. cbn. by intros n2 n3 ->.
  - intros n2 R2 I2 J2. split; [no_chain | done].
Qed.

Lemma safe_ReverifyProposal w h prior context n :
  worker_rest w n -> cs_ok prior ->
  safe w [] (ReverifyProposal_t keys h prior context) (ends w [] (fun _ _ => True)) n.
Proof.
  intros J C. apply safe_lock; [apply lock_proposal; auto | done |]. intros n1 R1 I1 J1.
  eapply safe_seq; [apply safe_isNull; [apply elem_of_cons; by left | done]|].
  intros null n2 _ I2 J2. destruct null; [by apply safe_mret|].
  eapply (safe_seq _ _ _ _ (fun _ _ => True)).
  { apply safe_lock; [apply lock_txs; auto | done |]. intros n3 R3 I3 J3.
    apply safe_look; [by repeat constructor | | done |].
    - apply honest_look1. cbn. by intros n4 n5 ->.
    - intros n4 R4 I4 J4. split; [no_chain | done]. }
  intros [] n3 _ I3 J3.
  - eapply (safe_seq _ _ _ _ (fun _ _ => True)); [|by intros; apply safe_mret].
    apply (safe_replace _ _ (fun x => Ok (tt, pb_setPrevHash x h)));
      [apply elem_of_cons; by left | done | done |]. intros x r Hx [= <-]. exact Hx.
  - eapply (safe_seq _ _ _ _ (fun _ _ => True)); [|by intros; apply safe_mret].
    apply safe_ProposeBlock; auto.
Qed.

Lemma safe_CheckValidation w context buf n :
  worker_rest w n -> safe w [] (CheckValidation_t context buf) (ends w [] (fun _ _ => True)) n.
Proof.
  intros J. apply safe_lock; [apply lock_proposal; auto | done |]. intros n1 R1 I1 J1.
  eapply safe_seq; [apply safe_isNull; [apply elem_of_cons; by left | done]|].
  intros null n2 _ I2 J2. destruct null; [by apply safe_mret|].
  eapply safe_ends; [|apply (safe_replace _ _ (fun x => fst (pb_checkValidationData x context buf)));
    [apply elem_of_cons; by left | done | done |]]; [done|].
  intros x [r b] Hx E. pose proof (check_frame _ _ _ _ _ E) as (_ & E2 & E3).
  cbn [snd]. unfold proposal_sound. by rewrite E2, E3.
Qed.

Lemma safe_FinalizeLocal w now n :
  worker_rest w n ->
  safe w [] (FinalizeLocalBlock_t now) (ends w [] (fun b _ => cs_ok (fb_block_state b))) n.
Proof.
  intros J. apply safe_lock; [apply lock_proposal; auto | done |]. intros n1 R1 I1 J1.
  eapply (safe_seq _ _ _ _ (fun b _ => cs_ok (pb_block_state b))).
  { apply safe_look; [constructor; [apply elem_of_cons; by left | constructor] | | done |].
    - apply honest_look1. cbn. by intros n2 n3 ->.
    - intros n2 R2 (_ & _ & Pb & _) J2. split; [no_chain|]. by intros b n3 [= <-] _ _. }
  intros b n2 Cb I2 J2. eapply (safe_seq _ _ _ _ (fun _ _ => True)).
  { apply safe_lock; [apply lock_txs; auto | done |]. intros n3 R3 I3 J3.
    eapply safe_ends; [|apply safe_txs; [apply txs_only_remove | apply remove_loop_ok | done
      | apply elem_of_cons; by left | by left]]. done. }
  intros _ n3 _ I3 J3. eapply (safe_seq _ _ _ _ (fun _ _ => True)).
  { apply (safe_replace _ _ (fun x => Ok (tt, pb_setNull x)));
      [apply elem_of_cons; by left | done | done |]. intros x r Hx [= <-]. exact Hx. }
  intros _ n4 _ I4 J4. by apply safe_mret.
Qed.

Lemma safe_FinalizeRemote w prior buf n :
  worker_rest w n -> cs_ok prior ->
  safe w [] (FinalizeRemoteBlock_t keys prior buf) (ends w [] (fun b _ => cs_ok (fb_block_state b))) n.
Proof.
  intros J C. eapply (safe_seq _ _ _ _ (fun _ _ => True)).
  { apply safe_look; [by repeat constructor | | done |].
    - apply honest_look1. cbn. by intros n1 n2 [_ ->].
    - intros n1 R1 I1 J1. split; [no_chain | done]. }
  intros mode n1 _ I1 J1. apply safe_pure; [done|]. intros b n2 E _ _.
  destruct (fb_from_remote prior keys mode buf) as [r buf'] eqn:Er. cbn [fst] in E. subst r.
  by rewrite (remote_state keys _ _ _ _ _ Er).
Qed.

Lemma safe_elapsed w n : worker_rest w n -> safe w [] elapsed_t (ends w [] (fun _ _ => True)) n.
Proof.
  intros J. apply safe_look; [by repeat constructor | by apply honest_look | done |].
  intros n1 R1 I1 J1. split; [no_chain | done].
Qed.

Lemma safe_callback w msg n :
  worker_rest w n -> safe w [] (callback_t msg) (ends w [] (fun _ _ => True)) n.
Proof.
  intros J. apply safe_do; [by repeat constructor | | done |].
  - split; [|split].
    + intros n1 l Hl. destruct l; try done. destruct Hl. apply elem_of_cons. by left.
    + by intros n1 [].
    + intros n1 n2 E. split; [done|]. intros l Hl. apply list_elem_of_singleton in Hl. injection Hl as ->.
      pose proof (E LSent) as Es. cbn in *. rewrite Es; [done|]. right. apply elem_of_cons. by left.
  - intros n1 R1 I1 J1. split; [no_chain|]. intros _ _. by split; [|split; [destruct w|]].
Qed.

(** *** The handlers *)
Lemma safe_mode w held n :
  worker_rest w n ->
  safe w held (look [Read LFixed] (fun n => Ok (mode_ (n_pool n)))) (ends w held (fun _ _ => True)) n.
Proof.
  intros J. apply safe_look; [by repeat constructor | | done |].
  - apply honest_look1. cbn. by intros n1 n2 [_ ->].
  - intros n1 R1 I1 J1. split; [no_chain | done].
Qed.

Lemma safe_pure_any {A} w held (r : res A) n :
  worker_rest w n -> safe w held (pure r) (ends w held (fun _ _ => True)) n.
Proof. intros J. by apply safe_pure. Qed.

Lemma safe_send w msg (b : bool) n :
  worker_rest w n -> safe w [] (callback_t msg;; mret b) (ends w [] (fun _ _ => True)) n.
Proof. intros J. eapply safe_seq; [by apply safe_callback|]. intros ? n1 _ I1 J1. by apply safe_mret. Qed.

(** A height that was read stays reached. *)
Lemma size_kept h n1 n2 :
  chain_grows n1 n2 -> h <= chain_size_ (n_chain n1) -> h <= chain_size_ (n_chain n2).
Proof. intros [_ L]. lia. Qed.

Lemma safe_CreateNextProposal w context n :
  worker_rest w n ->
  safe w [] (CreateNextProposal_t keys debug context) (ends w [] (fun _ _ => True)) n.
Proof.
  intros J. eapply safe_seq; [by apply safe_size|]. intros height n1 [H1 H2] I1 J1.
  eapply safe_seq; [eapply safe_frame; [apply (size_kept height) | done | by apply safe_HasProposal]|].
  intros hp n2 [_ H3] I2 J2.
  eapply (safe_seq _ _ _ _ (fun _ n' => True /\ height <= chain_size_ (n_chain n'))).
  { eapply safe_frame; [apply (size_kept height) | done |].
    destruct hp; [by apply safe_mret | by apply safe_HasPending]. }
  intros pending n3 [_ H4] I3 J3. eapply (safe_seq _ _ _ _ (fun _ _ => True)).
  2: { intros _ n4 _ I4 J4. by apply safe_getProposal. }
  destruct pending; [|by apply safe_mret]. case_match eqn:E; bool_to_prop.
  - eapply safe_seq; [apply safe_back; [done | lia]|]. intros b n4 _ I4 J4.
    eapply safe_seq; [by apply safe_highest|]. intros st n5 Cst I5 J5.
    eapply safe_seq; [apply safe_ProposeBlock; auto|]. intros _ n6 _ I6 J6. by apply safe_mret.
  - eapply safe_seq; [apply safe_ProposeBlock; [auto | done | by repeat constructor]|].
    intros _ n4 _ I4 J4. by apply safe_mret.
Qed.

Lemma safe_propose w height context n :
  worker_rest w n ->
  safe w [] (propose_if_idle_t keys debug height context) (ends w [] (fun _ _ => True)) n.
Proof.
  intros J. eapply safe_seq; [by apply safe_HasProposal|]. intros hp n1 _ I1 J1.
  destruct hp; [by apply safe_mret|].
  eapply safe_seq; [by apply safe_CreateNextProposal|]. intros p n2 _ I2 J2.
  case_match; [by apply safe_mret | by apply safe_send].
Qed.

Lemma safe_HandleFinalBlock msg context n :
  worker_rest Consensus n ->
  safe Consensus [] (HandleFinalBlock_t keys debug msg context) (ends Consensus [] (fun _ _ => True)) n.
Proof.
  intros J. eapply safe_seq; [by apply safe_highest|]. intros prior n1 Cp I1 J1.
  eapply safe_seq; [by apply safe_FinalizeRemote|]. intros top n2 Ct I2 J2.
  eapply safe_seq; [by apply safe_push|]. intros _ n3 _ I3 J3.
  eapply safe_seq; [by apply safe_elapsed|]. intros _ n4 _ I4 J4.
  eapply safe_seq; [by apply safe_HasProposal|]. intros hp n5 _ I5 J5.
  eapply (safe_seq _ _ _ _ (fun _ _ => True)).
  { destruct hp; [|by apply safe_mret].
    eapply safe_seq; [by apply safe_ReverifyProposal|]. intros _ n6 _ I6 J6. by apply safe_mret. }
  intros _ n6 _ I6 J6. eapply safe_seq; [by apply safe_size|]. intros height n7 _ I7 J7.
  eapply safe_seq; [by apply safe_HasPending|]. intros pending n8 _ I8 J8.
  case_match; [by apply safe_mret|]. case_match; [by apply safe_propose | by apply safe_mret].
Qed.

Lemma safe_HandleProposalBlock w msg context n :
  worker_rest w n ->
  safe w [] (HandleProposalBlock_t keys msg context) (ends w [] (fun _ _ => True)) n.
Proof.
  intros J. eapply safe_seq; [by apply safe_highest|]. intros prior n1 Cp I1 J1.
  eapply safe_seq; [by apply safe_mode|]. intros mode n2 _ I2 J2.
  eapply safe_seq; [by apply safe_pure_any|]. intros b n3 _ I3 J3.
  eapply safe_seq; [by apply safe_pure_any|]. intros valid n4 _ I4 J4.
  case_match; [by apply safe_mret|].
  eapply safe_seq; [by apply safe_pure_any|]. intros signed n5 _ I5 J5.
  case_match; [by apply safe_mret | by apply safe_send].
Qed.

Lemma safe_HandleValidationBlock now msg context n :
  worker_rest Consensus n ->
  safe Consensus [] (HandleValidationBlock_t now msg context) (ends Consensus [] (fun _ _ => True)) n.
Proof.
  intros J. eapply safe_seq; [by apply safe_CheckValidation|]. intros ready n1 _ I1 J1.
  destruct ready; [|by apply safe_mret].
  eapply safe_seq; [by apply safe_FinalizeLocal|]. intros top n2 Ct I2 J2.
  eapply safe_seq; [by apply safe_push|]. intros _ n3 _ I3 J3.
  eapply safe_seq; [by apply safe_elapsed|]. intros _ n4 _ I4 J4. by apply safe_send.
Qed.

Lemma safe_BlocksSinceRequest w fuel msg context n :
  worker_rest w n ->
  safe w [] (HandleBlocksSinceRequest_t keys fuel msg context) (ends w [] (fun _ _ => True)) n.
Proof.
  intros J. unfold HandleBlocksSinceRequest_t. case_match; [by apply safe_mret|].
  eapply (safe_seq _ _ _ _ (fun height _ => 0 <= height)).
  { apply safe_pure; [done|]. intros h n1 E _ _. apply BinToUint32_range in E. unfold in_u32 in E. lia. }
  intros height n1 Hh I1 J1. eapply safe_seq; [by apply safe_pure_any|]. intros node n2 _ I2 J2.
  eapply safe_seq; [by apply safe_PartialDump|]. intros raw n3 _ I3 J3.
  destruct (ContextOps.get_app_mode context).
  - eapply safe_seq; [by apply safe_size|]. intros size n4 _ I4 J4. by apply safe_send.
  - eapply safe_seq; [by apply safe_pure_any|]. intros data n4 _ I4 J4. by apply safe_send.
  - by apply safe_mret.
Qed.

Lemma safe_remote n :
  safe Internetwork [] (look [Read LRemote] (fun n => Ok (n_remote_blocks n)))
    (ends Internetwork [] (fun _ _ => True)) n.
Proof.
  apply safe_look; [by repeat constructor | | done |].
  - apply honest_look1. cbn. by intros n1 n2 ->.
  - intros n1 R1 I1 J1. split; [no_chain | done].
Qed.

Lemma safe_set_remote h n :
  safe Internetwork [] (act [Write LRemote] (set_remote_blocks h))
    (ends Internetwork [] (fun _ _ => True)) n.
Proof.
  apply safe_do; [by repeat constructor | | done |].
  - split; [|split].
    + intros n1 l Hl. destruct l; try done. destruct Hl. apply elem_of_cons. by left.
    + by intros n1 [].
    + intros n1 n2 E. split; [done|]. intros l Hl. apply list_elem_of_singleton in Hl. by injection Hl as ->.
  - intros n1 R1 I1 J1. split; [no_chain|]. by intros _ _.
Qed.

Lemma safe_BlocksSince clock msg context n :
  safe Internetwork [] (HandleBlocksSince_t keys clock msg context)
    (ends Internetwork [] (fun _ _ => True)) n.
Proof.
  unfold HandleBlocksSince_t. case_match; [by apply safe_mret|].
  destruct (Buf.getNextUint64 true (mkIB (m_data msg) 0)) as [r b1].
  eapply safe_seq; [by apply safe_pure_any|]. intros height n1 _ I1 J1.
  destruct (ContextOps.get_app_mode context); [by apply safe_mret | | by apply safe_mret].
  eapply safe_seq; [by apply safe_pure_any|]. intros wallets n2 _ I2 J2.
  eapply safe_seq; [by apply safe_highest|]. intros st n3 _ I3 J3.
  eapply safe_seq; [by apply safe_pure_any|]. intros x n4 _ I4 J4.
  eapply safe_seq; [by apply safe_remote|]. intros remote n5 _ I5 J5.
  eapply (safe_seq _ _ _ _ (fun _ _ => True)); [|by intros; apply safe_mret].
  case_match; [by apply safe_set_remote | by apply safe_mret].
Qed.

Lemma safe_request context mode n :
  safe Internetwork [] (request_blocks_t context mode) (ends Internetwork [] (fun _ _ => True)) n.
Proof.
  eapply safe_seq; [by apply safe_remote|]. intros remote n1 _ I1 J1.
  eapply safe_seq; [by apply safe_size|]. intros size n2 _ I2 J2.
  case_match; [|by apply safe_mret]. destruct mode; [| by apply safe_callback | by apply safe_mret].
  eapply safe_seq; [by apply safe_callback|]. intros _ n3 _ I3 J3. by apply safe_callback.
Qed.

(** *** The controllers *)
Lemma safe_then_unit {A} w (p : prog Node mutex loc A) n :
  safe w [] p (ends w [] (fun _ _ => True)) n ->
  safe w [] (p;; mret tt) (ends w [] (fun _ _ => True)) n.
Proof. intros W. eapply safe_seq; [exact W|]. intros _ n1 _ I1 J1. by apply safe_mret. Qed.

Lemma safe_consensusCallback now msg context n :
  worker_rest Consensus n ->
  safe Consensus [] (consensusCallback_t keys debug now msg context)
    (ends Consensus [] (fun _ _ => True)) n.
Proof.
  intros J. apply safe_try; [intros e n1 I1 J1; by apply safe_exception|].
  apply (safe_ends _ _ _ (fun _ _ => True)); [done|].
  repeat case_match; [apply safe_then_unit.. | by apply safe_exception];
    [by apply safe_HandleFinalBlock | by apply safe_HandleProposalBlock
    | by apply safe_HandleValidationBlock].
Qed.

Lemma safe_messageCallback fuel clock msg context mode n :
  safe Internetwork [] (messageCallback_t keys fuel clock msg context mode)
    (ends Internetwork [] (fun _ _ => True)) n.
Proof.
  apply safe_bindr. eapply safe_mono.
  2: { repeat case_match; [apply safe_request | apply safe_then_unit.. | by apply safe_mret];
    [by apply safe_BlocksSinceRequest | apply safe_BlocksSince]. }
  intros h r n1 I1 (-> & J1 & _). destruct r as [[]|[]| |]; cbn [on_deserialization];
    (by apply safe_exception) || by apply safe_mret.
Qed.

Lemma safe_validatorCallback ptr context n :
  safe Validator [] (validatorCallback_t keys info debug ptr context)
    (ends Validator [] (fun _ _ => True)) n.
Proof.
  destruct ptr as [msg|]; cbn [validatorCallback_t]; [|by apply safe_exception].
  case_match; [|by apply safe_exception].
  eapply safe_seq; [by apply safe_AddTransactions_serial|]. intros _ n1 _ I1 J1.
  eapply safe_seq; [by apply safe_size|]. intros height n2 _ I2 J2.
  case_match; [|by apply safe_mret].
  eapply (safe_seq _ _ _ _ (fun _ _ => True)).
  { apply safe_when; [done | intros _]. by apply safe_then_unit, safe_HasProposal. }
  intros _ n3 _ I3 J3. by apply safe_then_unit, safe_propose.
Qed.

(** What an idle worker takes up: any message, at any time. *)
Definition worker_starts (context : DevcashContext) (mode : eAppMode) (w : Worker)
    (p : prog Node mutex loc unit) : Prop :=
  exists fuel clock msg, p = worker_program keys info debug fuel w clock context mode msg.

Lemma worker_safe context mode w p n :
  worker_starts context mode w p -> worker_rest w n ->
  safe w [] p (fun h _ n' => h = [] /\ worker_rest w n') n.
Proof.
  intros (fuel & clock & msg & ->) J.
  eapply (safe_mono _ _ _ (ends w [] (fun _ _ => True))); [by intros h r n' _ (-> & J' & _)|].
  destruct w; cbn [worker_program];
    [by apply safe_consensusCallback | apply safe_messageCallback | apply safe_validatorCallback].
Qed.
End safety.

(** ** The reachable configurations of a node *)
Section reachable.
Context `{Crypto} (keys : KeyRing) (info debug : bool) (context : DevcashContext) (mode : eAppMode).

Definition threads_step : @config Node mutex loc Worker -> @config Node mutex loc Worker -> Prop :=
  cstep (worker_starts keys info debug context mode) room.

Definition threads_start (max_tx remote : Z) : @config Node mutex loc Worker :=
  mkConfig (node_start mode max_tx remote) (fun _ => Idle).

#[local] Instance spec_here : ThreadSpec (H0 := node_discipline debug) Node mutex loc Worker :=
  node_spec keys debug.

Lemma threads_start_cinv max_tx remote : cinv (H1 := spec_here) (threads_start max_tx remote).
Proof.
  apply idle_cinv.
  - split; [split; [by vm_compute | split; [done | constructor]]|]. split; [by split|].
    by split; [repeat constructor | constructor].
  - intros []; [apply bc_empty_ok | done | done].
  - by intros [].
Qed.

Lemma threads_step_cinv c c' :
  cinv (H1 := spec_here) c -> threads_step c c' -> cinv (H1 := spec_here) c'.
Proof.
  apply (cstep_cinv (H1 := spec_here)). intros w p n St _ J. by eapply worker_safe.
Qed.

Lemma threads_reachable max_tx remote c :
  rtc threads_step (threads_start max_tx remote) c -> cinv (H1 := spec_here) c.
Proof.
  apply (reachable_cinv (H1 := spec_here)); [|apply threads_start_cinv].
  intros w p n St _ J. by eapply worker_safe.
Qed.
End reachable.
