(* ===== verification/CommandLine.v ===== *)
(** * common/argument_parser.h and the option parsers of the programs

    Every program fills a struct from its command line, most of them from
    configuration files too.  boost::program_options is not part of the
    sources: [ProgramOptions] is the interface of what they call of it, and
    [ProgramOptionsLaws] its documented behaviour (a value that is stored stays, a
    composing one grows, values have the type their description gives).  The
    descriptions are the literals of the sources. *)

From Stdlib Require Import ZArith Lia String.
From stdpp Require Import base list numbers sorting.
From S2P Require Import Prelude OrdMap Converters Keys Oracles Files.

#[local] Open Scope Z_scope.

(** ** What the library provides *)

(** The type argument of [po::value<T>()]; a description without a value. *)
Inductive kind := KString | KUint | KUint64 | KBool | KStrings | KPath | KFlag.

Record option_desc := mkDesc { d_names : bytes; d_kind : kind; d_composing : bool }.

#[global] Instance kind_eq_dec : EqDecision kind.
Proof. solve_decision. Defined.

(** A [variable_value]. *)
Inductive value :=
| VString (s : bytes)
| VUint (n : Z)
| VUint64 (n : Z)
| VBool (b : bool)
| VStrings (l : list bytes)
| VPath (p : bytes)
| VFlag.

Definition kind_of (v : value) : kind :=
  match v with
  | VString _ => KString | VUint _ => KUint | VUint64 _ => KUint64 | VBool _ => KBool
  | VStrings _ => KStrings | VPath _ => KPath | VFlag => KFlag
  end.

Class ProgramOptions := {
  parsed_options : Type;
  (** the flag is [allow_unregistered] *)
  parse_command_line : list option_desc -> bool -> list bytes -> res parsed_options;
  parse_config_file : list option_desc -> bool -> bytes -> res parsed_options;
  variables_map : Type;
  vm_empty : variables_map;
  store : list option_desc -> parsed_options -> variables_map -> res variables_map;
  notify : variables_map -> res unit;
  (** [vm[name]], when [vm.count(name)] is not 0 *)
  vm_at : variables_map -> bytes -> option value;
  (** the value that parsed options give an option *)
  given : parsed_options -> bytes -> option value
}.

(** "name,n" has the long name "name". *)
Fixpoint long_name (names : bytes) : bytes :=
  match names with
  | [] => []
  | c :: names' => if c =? 44 then [] else c :: long_name names'
  end.

Fixpoint find_desc (ds : list option_desc) (name : bytes) : option option_desc :=
  match ds with
  | [] => None
  | d :: ds' => if bool_decide (long_name (d_names d) = name) then Some d else find_desc ds' name
  end.

Definition kind_in (ds : list option_desc) (name : bytes) : option kind := d_kind <$> find_desc ds name.

Definition composing_in (ds : list option_desc) (name : bytes) : bool :=
  default false (d_composing <$> find_desc ds name).

Definition strings_of (v : option value) : list bytes :=
  match v with Some (VStrings l) => l | _ => [] end.

Class ProgramOptionsLaws `{ProgramOptions} : Prop := {
  empty_at n : vm_at vm_empty n = None;
  (** [store] does not change a value that the map has ... *)
  store_keeps ds p vm vm' n v : store ds p vm = Ok vm' -> vm_at vm n = Some v ->
    composing_in ds n = false -> vm_at vm' n = Some v;
  (** ... unless it is composing, ... *)
  store_appends ds p vm vm' n l : store ds p vm = Ok vm' -> vm_at vm n = Some (VStrings l) ->
    composing_in ds n = true -> vm_at vm' n = Some (VStrings (l ++ strings_of (given p n)));
  (** ... and adds the ones it has not *)
  store_new ds p vm vm' n : store ds p vm = Ok vm' -> vm_at vm n = None -> vm_at vm' n = given p n;
  (** a value has the type of its description *)
  line_typed ds b argv p n v : parse_command_line ds b argv = Ok p -> given p n = Some v ->
    kind_in ds n = Some (kind_of v);
  file_typed ds b content p n v : parse_config_file ds b content = Ok p -> given p n = Some v ->
    kind_in ds n = Some (kind_of v)
}.

(** ** The options of the programs *)
Inductive eDebugMode := off | on | toy | perf.

Definition kDEFAULT_SYSLOG_PORT : Z := 514.

Record devcash_options := mk_devcash_options {
  dv_bind_endpoint : bytes;
  dv_host_vector : list bytes;
  dv_mode : eAppMode;
  dv_node_index : Z;
  dv_shard_index : Z;
  dv_num_consensus_threads : Z;
  dv_num_validator_threads : Z;
  dv_batch_size : Z;
  dv_max_wait : Z;
  dv_syslog_port : Z;
  dv_working_dir : bytes;
  dv_trace_file : bytes;
  dv_inn_keys : bytes;
  dv_node_keys : bytes;
  dv_key_pass : bytes;
  dv_stop_file : bytes;
  dv_syslog_host : bytes;
  dv_debug_mode : eDebugMode
}.

Record announcer_options := mk_announcer_options {
  an_bind_endpoint : bytes;
  an_mode : eAppMode;
  an_node_index : Z;
  an_shard_index : Z;
  an_working_dir : bytes;
  an_inn_keys : bytes;
  an_node_keys : bytes;
  an_key_pass : bytes;
  an_stop_file : bytes;
  an_debug_mode : eDebugMode;
  an_batch_size : Z;
  an_start_delay : Z;
  an_sleep_ms : Z;
  an_distinct_ops : bool
}.

Record pb_announcer_options := mk_pb_announcer_options {
  pa_bind_endpoint : bytes;
  pa_protobuf_endpoint : bytes;
  pa_mode : eAppMode;
  pa_node_index : Z;
  pa_shard_index : Z;
  pa_inn_keys : bytes;
  pa_node_keys : bytes;
  pa_key_pass : bytes;
  pa_stop_file : bytes;
  pa_debug_mode : eDebugMode;
  pa_batch_size : Z;
  pa_start_delay : Z;
  pa_distinct_ops : bool
}.

Record repeater_options := mk_repeater_options {
  re_host_vector : list bytes;
  re_protobuf_endpoint : bytes;
  re_mode : eAppMode;
  re_node_index : Z;
  re_shard_index : Z;
  re_working_dir : bytes;
  re_inn_keys : bytes;
  re_node_keys : bytes;
  re_key_pass : bytes;
  re_stop_file : bytes;
  re_debug_mode : eDebugMode
}.

Record db_repeater_options := mk_db_repeater_options {
  dr_host_vector : list bytes;
  dr_mode : eAppMode;
  dr_node_index : Z;
  dr_shard_index : Z;
  dr_inn_keys : bytes;
  dr_node_keys : bytes;
  dr_key_pass : bytes;
  dr_stop_file : bytes;
  dr_debug_mode : eDebugMode;
  dr_db_user : bytes;
  dr_db_pass : bytes;
  dr_db_host : bytes;
  dr_db_name : bytes;
  dr_db_port : Z
}.

Record scanner_options := mk_scanner_options {
  sca_mode : eAppMode;
  sca_working_dir : bytes;
  sca_write_file : bytes;
  sca_address_filter : bytes;
  sca_debug_mode : eDebugMode;
  sca_version : Z
}.

Record verifier_options := mk_verifier_options {
  ve_mode : eAppMode;
  ve_node_index : Z;
  ve_shard_index : Z;
  ve_working_dir : bytes;
  ve_inn_keys : bytes;
  ve_node_keys : bytes;
  ve_key_pass : bytes;
  ve_debug_mode : eDebugMode
}.

Record circuit_options := mk_circuit_options {
  ci_mode : eAppMode;
  ci_node_index : Z;
  ci_shard_index : Z;
  ci_write_file : bytes;
  ci_inn_keys : bytes;
  ci_node_keys : bytes;
  ci_wallet_keys : bytes;
  ci_key_pass : bytes;
  ci_generate_count : Z;
  ci_tx_amount : Z;
  ci_debug_mode : eDebugMode;
  ci_clear_state : bool
}.

Record laminar_options := mk_laminar_options {
  la_mode : eAppMode;
  la_node_index : Z;
  la_shard_index : Z;
  la_write_file : bytes;
  la_inn_keys : bytes;
  la_node_keys : bytes;
  la_wallet_keys : bytes;
  la_key_pass : bytes;
  la_generate_count : Z;
  la_tx_amount : Z;
  la_debug_mode : eDebugMode
}.

Record turbulent_options := mk_turbulent_options {
  tu_mode : eAppMode;
  tu_node_index : Z;
  tu_shard_index : Z;
  tu_write_file : bytes;
  tu_inn_keys : bytes;
  tu_node_keys : bytes;
  tu_wallet_keys : bytes;
  tu_key_pass : bytes;
  tu_generate_count : Z;
  tu_tx_amount : Z;
  tu_debug_mode : eDebugMode
}.

(** [devvsign_options]; [file_type] is set to a constant by [main]. *)
Record devvsign_options := mk_devvsign_options {
  si_envelope_file : bytes;
  si_key_file : bytes;
  si_key_pass : bytes;
  si_quiet_mode : bool
}.

(** [std::sort] and [std::unique] of strings. *)
Definition lex_le (a b : bytes) : Prop := lex_ltb b a = false.

#[global] Instance lex_le_dec a b : Decision (lex_le a b).
Proof. unfold lex_le. apply _. Defined.

Fixpoint unique (l : list bytes) : list bytes :=
  match l with
  | a :: (b :: _) as l' => if bool_decide (a = b) then unique l' else a :: unique l'
  | _ => l
  end.

Definition RemoveDuplicates (vec : list bytes) : list bytes := unique (merge_sort lex_le vec).

(** ** The code the parsers share *)
Section parsers.
Context `{FileSystem} `{ProgramOptions}.

Definition count (vm : variables_map) (name : string) : bool :=
  match vm_at vm (text name) with Some _ => true | None => false end.

(** [vm[name].as<T>()] *)
Definition as_type {A} (cast : value -> option A) (vm : variables_map) (name : string) : res A :=
  match vm_at vm (text name) with
  | Some v => match cast v with Some a => Ok a | None => Err BadCast end
  | None => Err BadCast
  end.

Definition as_string v := match v with VString s => Some s | _ => None end.
Definition as_uint v := match v with VUint n => Some n | _ => None end.
Definition as_uint64 v := match v with VUint64 n => Some n | _ => None end.
Definition as_bool v := match v with VBool b => Some b | _ => None end.
Definition as_strings v := match v with VStrings l => Some l | _ => None end.
Definition as_path v := match v with VPath p => Some p | _ => None end.

(** [if (vm.count(name)) field = vm[name].as<T>(); else field = dflt;] *)
Definition field {A} (cast : value -> option A) (vm : variables_map) (name : string) (dflt : A) : res A :=
  if count vm name then as_type cast vm name else mret dflt.

(** An unknown mode leaves the default of the struct. *)
Definition field_mode (vm : variables_map) (dflt : eAppMode) : res eAppMode :=
  if count vm "mode" then
    mode ← as_type as_string vm "mode";
    mret (if bool_decide (mode = text "SCAN") then scan
          else if bool_decide (mode = text "T1") then T1
          else if bool_decide (mode = text "T2") then T2
          else dflt)
  else mret dflt.

(** [has_perf]: the parser has a branch for "perf". *)
Definition field_debug (has_perf : bool) (vm : variables_map) (dflt : eDebugMode) : res eDebugMode :=
  if count vm "debug-mode" then
    debug_mode ← as_type as_string vm "debug-mode";
    mret (if bool_decide (debug_mode = text "on") then on
          else if bool_decide (debug_mode = text "toy") then toy
          else if has_perf && bool_decide (debug_mode = text "perf") then perf
          else off)
  else mret dflt.

(** The loop over the configuration files; [None]: one cannot be opened. *)
Fixpoint store_configs (s : fs_state) (ds : list option_desc) (allow : bool) (config_filenames : list bytes)
    (vm : variables_map) : res (option variables_map) :=
  match config_filenames with
  | [] => mret (Some vm)
  | name :: names =>
      match fs_content s name with
      | None => mret None
      | Some content =>
          p ← parse_config_file ds allow content;
          vm ← store ds p vm;
          store_configs s ds allow names vm
      end
  end.

(** Command line, files, command line again; [None] is [return nullptr]. *)
Definition read_options (s : fs_state) (ds : list option_desc) (allow : bool) (argv : list bytes)
    : res (option variables_map) :=
  p ← parse_command_line ds false argv;
  vm ← store ds p vm_empty;
  if count vm "help" then mret None
  else
    config_filenames ← field as_strings vm "config" [];
    r ← store_configs s ds allow config_filenames vm;
    match r with
    | None => mret None
    | Some vm =>
        p ← parse_command_line ds allow argv;
        vm ← store ds p vm;
        notify vm;;
        mret (Some vm)
    end.

(** The parsers without configuration files. *)
Definition read_line (ds : list option_desc) (argv : list bytes) : res (option variables_map) :=
  p ← parse_command_line ds false argv;
  vm ← store ds p vm_empty;
  notify vm;;
  if count vm "help" then mret None else mret (Some vm).

(** [try { ... } catch (std::exception& e) { return nullptr; }] *)
Definition or_null {A} (vm : res (option variables_map)) (fill : variables_map -> res A) : res (option A) :=
  res_catch (r ← vm;
             match r with
             | None => mret None
             | Some vm => o ← fill vm; mret (Some o)
             end)
            (fun _ => mret None).

(** ** common/argument_parser.h *)
Definition devcash_desc : list option_desc :=
  [mkDesc (text "help,h") KFlag false;
   mkDesc (text "version,v") KFlag false;
   mkDesc (text "config") KStrings false;
   mkDesc (text "mode") KString false;
   mkDesc (text "node-index") KUint false;
   mkDesc (text "shard-index") KUint false;
   mkDesc (text "host-list,H") KStrings true;
   mkDesc (text "bind-endpoint") KString false;
   mkDesc (text "inn-keys") KString false;
   mkDesc (text "node-keys") KString false;
   mkDesc (text "key-pass") KString false;
   mkDesc (text "debug-mode") KString false;
   mkDesc (text "trace-output") KString false;
   mkDesc (text "num-consensus-threads") KUint false;
   mkDesc (text "num-validator-threads") KUint false;
   mkDesc (text "working-dir") KString false;
   mkDesc (text "stop-file") KString false;
   mkDesc (text "tx-batch-size") KUint false;
   mkDesc (text "max-wait") KUint false;
   mkDesc (text "syslog-host") KString false;
   mkDesc (text "syslog-port") KUint false].

Definition fill_devcash (vm : variables_map) : res devcash_options :=
  mode ← field_mode vm T1;
  debug_mode ← field_debug false vm off;
  node_index ← field as_uint vm "node-index" 0;
  shard_index ← field as_uint vm "shard-index" 0;
  num_consensus_threads ← field as_uint vm "num-consensus-threads" 10;
  num_validator_threads ← field as_uint vm "num-validator-threads" 10;
  batch_size ← field as_uint vm "tx-batch-size" 10000;
  max_wait ← field as_uint vm "max-wait" 0;
  bind_endpoint ← field as_string vm "bind-endpoint" [];
  host_vector ← field as_strings vm "host-list" [];
  working_dir ← field as_string vm "working-dir" [];
  trace_file ← field as_string vm "trace-output" [];
  inn_keys ← field as_string vm "inn-keys" [];
  node_keys ← field as_string vm "node-keys" [];
  key_pass ← field as_string vm "key-pass" [];
  stop_file ← field as_string vm "stop-file" [];
  syslog_host ← field as_string vm "syslog-host" [];
  syslog_port ← field as_uint vm "syslog-port" kDEFAULT_SYSLOG_PORT;
  mret {| dv_bind_endpoint := bind_endpoint;
          dv_host_vector := RemoveDuplicates host_vector;
          dv_mode := mode;
          dv_node_index := node_index;
          dv_shard_index := shard_index;
          dv_num_consensus_threads := num_consensus_threads;
          dv_num_validator_threads := num_validator_threads;
          dv_batch_size := batch_size;
          dv_max_wait := max_wait;
          dv_syslog_port := syslog_port;
          dv_working_dir := working_dir;
          dv_trace_file := trace_file;
          dv_inn_keys := inn_keys;
          dv_node_keys := node_keys;
          dv_key_pass := key_pass;
          dv_stop_file := stop_file;
          dv_syslog_host := syslog_host;
          dv_debug_mode := debug_mode |}.

Definition ParseDevcashOptions (s : fs_state) (argv : list bytes) : res (option devcash_options) :=
  or_null (read_options s devcash_desc false argv) fill_devcash.

(** ** announcer.cpp *)
Definition announcer_desc : list option_desc :=
  [mkDesc (text "help,h") KFlag false;
   mkDesc (text "version,v") KFlag false;
   mkDesc (text "config") KStrings false;
   mkDesc (text "debug-mode") KString false;
   mkDesc (text "mode") KString false;
   mkDesc (text "node-index") KUint false;
   mkDesc (text "shard-index") KUint false;
   mkDesc (text "num-consensus-threads") KUint false;
   mkDesc (text "num-validator-threads") KUint false;
   mkDesc (text "bind-endpoint") KString false;
   mkDesc (text "working-dir") KString false;
   mkDesc (text "output") KString false;
   mkDesc (text "trace-output") KString false;
   mkDesc (text "inn-keys") KString false;
   mkDesc (text "node-keys") KString false;
   mkDesc (text "key-pass") KString false;
   mkDesc (text "generate-tx") KUint false;
   mkDesc (text "tx-batch-size") KUint false;
   mkDesc (text "stop-file") KString false;
   mkDesc (text "start-delay") KUint false;
   mkDesc (text "sleep-ms") KUint false;
   mkDesc (text "separate-ops") KBool false].

Definition fill_announcer (vm : variables_map) : res announcer_options :=
  mode ← field_mode vm T1;
  debug_mode ← field_debug false vm off;
  node_index ← field as_uint vm "node-index" 0;
  shard_index ← field as_uint vm "shard-index" 0;
  bind_endpoint ← field as_string vm "bind-endpoint" [];
  working_dir ← field as_string vm "working-dir" [];
  inn_keys ← field as_string vm "inn-keys" [];
  node_keys ← field as_string vm "node-keys" [];
  key_pass ← field as_string vm "key-pass" [];
  stop_file ← field as_string vm "stop-file" [];
  batch_size ← field as_uint vm "tx-batch-size" 0;
  start_delay ← field as_uint vm "start-delay" 0;
  sleep_ms ← field as_uint vm "sleep-ms" 0;
  distinct_ops ← field as_bool vm "separate-ops" false;
  mret {| an_bind_endpoint := bind_endpoint;
          an_mode := mode;
          an_node_index := node_index;
          an_shard_index := shard_index;
          an_working_dir := working_dir;
          an_inn_keys := inn_keys;
          an_node_keys := node_keys;
          an_key_pass := key_pass;
          an_stop_file := stop_file;
          an_debug_mode := debug_mode;
          an_batch_size := batch_size;
          an_start_delay := start_delay;
          an_sleep_ms := sleep_ms;
          an_distinct_ops := distinct_ops |}.

Definition ParseAnnouncerOptions (s : fs_state) (argv : list bytes) : res (option announcer_options) :=
  or_null (read_options s announcer_desc false argv) fill_announcer.

(** ** pb_announcer.cpp *)
Definition pb_announcer_desc : list option_desc :=
  [mkDesc (text "help,h") KFlag false;
   mkDesc (text "version,v") KFlag false;
   mkDesc (text "config") KStrings false;
   mkDesc (text "debug-mode") KString false;
   mkDesc (text "mode") KString false;
   mkDesc (text "node-index") KUint false;
   mkDesc (text "shard-index") KUint false;
   mkDesc (text "bind-endpoint") KString false;
   mkDesc (text "protobuf-endpoint") KString false;
   mkDesc (text "inn-keys") KString false;
   mkDesc (text "node-keys") KString false;
   mkDesc (text "key-pass") KString false;
   mkDesc (text "stop-file") KString false;
   mkDesc (text "start-delay") KUint false;
   mkDesc (text "separate-ops") KBool false].

Definition fill_pb_announcer (vm : variables_map) : res pb_announcer_options :=
  mode ← field_mode vm T1;
  debug_mode ← field_debug false vm off;
  node_index ← field as_uint vm "node-index" 0;
  shard_index ← field as_uint vm "shard-index" 0;
  bind_endpoint ← field as_string vm "bind-endpoint" [];
  protobuf_endpoint ← field as_string vm "protobuf-endpoint" [];
  inn_keys ← field as_string vm "inn-keys" [];
  node_keys ← field as_string vm "node-keys" [];
  key_pass ← field as_string vm "key-pass" [];
  stop_file ← field as_string vm "stop-file" [];
  start_delay ← field as_uint vm "start-delay" 0;
  distinct_ops ← field as_bool vm "separate-ops" false;
  mret {| pa_bind_endpoint := bind_endpoint;
          pa_protobuf_endpoint := protobuf_endpoint;
          pa_mode := mode;
          pa_node_index := node_index;
          pa_shard_index := shard_index;
          pa_inn_keys := inn_keys;
          pa_node_keys := node_keys;
          pa_key_pass := key_pass;
          pa_stop_file := stop_file;
          pa_debug_mode := debug_mode;
          pa_batch_size := 0;
          pa_start_delay := start_delay;
          pa_distinct_ops := distinct_ops |}.

Definition ParsePbAnnouncerOptions (s : fs_state) (argv : list bytes) : res (option pb_announcer_options) :=
  or_null (read_options s pb_announcer_desc true argv) fill_pb_announcer.

(** ** repeater.cpp *)
Definition repeater_desc : list option_desc :=
  [mkDesc (text "help,h") KFlag false;
   mkDesc (text "version,v") KFlag false;
   mkDesc (text "config") KStrings false;
   mkDesc (text "debug-mode") KString false;
   mkDesc (text "mode") KString false;
   mkDesc (text "node-index") KUint false;
   mkDesc (text "shard-index") KUint false;
   mkDesc (text "num-consensus-threads") KUint false;
   mkDesc (text "num-validator-threads") KUint false;
   mkDesc (text "host-list,host") KStrings false;
   mkDesc (text "protobuf-endpoint") KString false;
   mkDesc (text "working-dir") KString false;
   mkDesc (text "output") KString false;
   mkDesc (text "trace-output") KString false;
   mkDesc (text "inn-keys") KString false;
   mkDesc (text "node-keys") KString false;
   mkDesc (text "key-pass") KString false;
   mkDesc (text "stop-file") KString false].

Definition fill_repeater (vm : variables_map) : res repeater_options :=
  mode ← field_mode vm T1;
  debug_mode ← field_debug false vm off;
  node_index ← field as_uint vm "node-index" 0;
  shard_index ← field as_uint vm "shard-index" 0;
  host_vector ← field as_strings vm "host-list" [];
  protobuf_endpoint ← field as_string vm "protobuf-endpoint" [];
  working_dir ← field as_string vm "working-dir" [];
  inn_keys ← field as_string vm "inn-keys" [];
  node_keys ← field as_string vm "node-keys" [];
  key_pass ← field as_string vm "key-pass" [];
  stop_file ← field as_string vm "stop-file" [];
  mret {| re_host_vector := host_vector;
          re_protobuf_endpoint := protobuf_endpoint;
          re_mode := mode;
          re_node_index := node_index;
          re_shard_index := shard_index;
          re_working_dir := working_dir;
          re_inn_keys := inn_keys;
          re_node_keys := node_keys;
          re_key_pass := key_pass;
          re_stop_file := stop_file;
          re_debug_mode := debug_mode |}.

Definition ParseRepeaterOptions (s : fs_state) (argv : list bytes) : res (option repeater_options) :=
  or_null (read_options s repeater_desc false argv) fill_repeater.

(** ** db_repeater.cpp *)
Definition db_repeater_desc : list option_desc :=
  [mkDesc (text "help,h") KFlag false;
   mkDesc (text "version,v") KFlag false;
   mkDesc (text "config") KStrings false;
   mkDesc (text "debug-mode") KString false;
   mkDesc (text "mode") KString false;
   mkDesc (text "node-index") KUint false;
   mkDesc (text "shard-index") KUint false;
   mkDesc (text "num-consensus-threads") KUint false;
   mkDesc (text "num-validator-threads") KUint false;
   mkDesc (text "host-list,host") KStrings false;
   mkDesc (text "inn-keys") KString false;
   mkDesc (text "node-keys") KString false;
   mkDesc (text "key-pass") KString false;
   mkDesc (text "stop-file") KString false;
   mkDesc (text "update-host") KString false;
   mkDesc (text "update-db") KString false;
   mkDesc (text "update-user") KString false;
   mkDesc (text "update-pass") KString false;
   mkDesc (text "update-port") KUint false].

Definition fill_db_repeater (vm : variables_map) : res db_repeater_options :=
  mode ← field_mode vm T1;
  debug_mode ← field_debug false vm off;
  node_index ← field as_uint vm "node-index" 0;
  shard_index ← field as_uint vm "shard-index" 0;
  host_vector ← field as_strings vm "host-list" [];
  inn_keys ← field as_string vm "inn-keys" [];
  node_keys ← field as_string vm "node-keys" [];
  key_pass ← field as_string vm "key-pass" [];
  stop_file ← field as_string vm "stop-file" [];
  db_host ← field as_string vm "update-host" [];
  db_name ← field as_string vm "update-db" [];
  db_user ← field as_string vm "update-user" [];
  db_pass ← field as_string vm "update-pass" [];
  db_port ← field as_uint vm "update-port" 5432;
  mret {| dr_host_vector := host_vector;
          dr_mode := mode;
          dr_node_index := node_index;
          dr_shard_index := shard_index;
          dr_inn_keys := inn_keys;
          dr_node_keys := node_keys;
          dr_key_pass := key_pass;
          dr_stop_file := stop_file;
          dr_debug_mode := debug_mode;
          dr_db_user := db_user;
          dr_db_pass := db_pass;
          dr_db_host := db_host;
          dr_db_name := db_name;
          dr_db_port := db_port |}.

Definition ParseDbRepeaterOptions (s : fs_state) (argv : list bytes) : res (option db_repeater_options) :=
  or_null (read_options s db_repeater_desc false argv) fill_db_repeater.

(** ** scanner.cpp *)
Definition scanner_desc : list option_desc :=
  [mkDesc (text "mode") KString false;
   mkDesc (text "working-dir") KString false;
   mkDesc (text "output") KString false;
   mkDesc (text "help") KFlag false;
   mkDesc (text "debug-mode") KString false;
   mkDesc (text "expect-version") KFlag false;
   mkDesc (text "filter-by-address") KString false].

Definition fill_scanner (vm : variables_map) : res scanner_options :=
  mode ← field_mode vm T1;
  debug_mode ← field_debug true vm off;
  working_dir ← field as_string vm "working-dir" [];
  address_filter ← field as_string vm "filter-by-address" [];
  write_file ← field as_string vm "output" [];
  version ← field as_uint vm "expect-version" 0;
  mret {| sca_mode := mode;
          sca_working_dir := working_dir;
          sca_write_file := write_file;
          sca_address_filter := address_filter;
          sca_debug_mode := debug_mode;
          sca_version := version |}.

Definition ParseScannerOptions (argv : list bytes) : res (option scanner_options) :=
  or_null (read_line scanner_desc argv) fill_scanner.

(** ** verifier.cpp *)
Definition verifier_desc : list option_desc :=
  [mkDesc (text "mode") KString false;
   mkDesc (text "node-index") KUint false;
   mkDesc (text "shard-index") KUint false;
   mkDesc (text "working-dir") KString false;
   mkDesc (text "inn-keys") KString false;
   mkDesc (text "node-keys") KString false;
   mkDesc (text "key-pass") KString false;
   mkDesc (text "help") KFlag false;
   mkDesc (text "debug-mode") KString false].

Definition fill_verifier (vm : variables_map) : res verifier_options :=
  mode ← field_mode vm T1;
  debug_mode ← field_debug true vm off;
  node_index ← field as_uint vm "node-index" 0;
  shard_index ← field as_uint vm "shard-index" 0;
  working_dir ← field as_string vm "working-dir" [];
  inn_keys ← field as_string vm "inn-keys" [];
  node_keys ← field as_string vm "node-keys" [];
  key_pass ← field as_string vm "key-pass" [];
  mret {| ve_mode := mode;
          ve_node_index := node_index;
          ve_shard_index := shard_index;
          ve_working_dir := working_dir;
          ve_inn_keys := inn_keys;
          ve_node_keys := node_keys;
          ve_key_pass := key_pass;
          ve_debug_mode := debug_mode |}.

Definition ParseVerifierOptions (argv : list bytes) : res (option verifier_options) :=
  or_null (read_line verifier_desc argv) fill_verifier.

(** ** circuit.cpp *)
Definition circuit_desc : list option_desc :=
  [mkDesc (text "mode") KString false;
   mkDesc (text "node-index") KUint false;
   mkDesc (text "shard-index") KUint false;
   mkDesc (text "output") KString false;
   mkDesc (text "inn-keys") KString false;
   mkDesc (text "node-keys") KString false;
   mkDesc (text "wallet-keys") KString false;
   mkDesc (text "key-pass") KString false;
   mkDesc (text "generate-tx") KUint false;
   mkDesc (text "tx-amount") KUint64 false;
   mkDesc (text "help") KFlag false;
   mkDesc (text "clear-state") KBool false;
   mkDesc (text "debug-mode") KString false].

Definition fill_circuit (vm : variables_map) : res circuit_options :=
  mode ← field_mode vm T1;
  debug_mode ← field_debug true vm off;
  node_index ← field as_uint vm "node-index" 0;
  shard_index ← field as_uint vm "shard-index" 0;
  write_file ← field as_string vm "output" [];
  inn_keys ← field as_string vm "inn-keys" [];
  node_keys ← field as_string vm "node-keys" [];
  wallet_keys ← field as_string vm "wallet-keys" [];
  key_pass ← field as_string vm "key-pass" [];
  generate_count ← field as_uint vm "generate-tx" 0;
  tx_amount ← field as_uint64 vm "tx-amount" 3210123;
  clear_state ← field as_bool vm "clear-state" true;
  mret {| ci_mode := mode;
          ci_node_index := node_index;
          ci_shard_index := shard_index;
          ci_write_file := write_file;
          ci_inn_keys := inn_keys;
          ci_node_keys := node_keys;
          ci_wallet_keys := wallet_keys;
          ci_key_pass := key_pass;
          ci_generate_count := generate_count;
          ci_tx_amount := tx_amount;
          ci_debug_mode := debug_mode;
          ci_clear_state := clear_state |}.

Definition ParseCircuitOptions (argv : list bytes) : res (option circuit_options) :=
  or_null (read_line circuit_desc argv) fill_circuit.

(** ** laminar.cpp *)
Definition laminar_desc : list option_desc :=
  [mkDesc (text "mode") KString false;
   mkDesc (text "node-index") KUint false;
   mkDesc (text "shard-index") KUint false;
   mkDesc (text "output") KString false;
   mkDesc (text "inn-keys") KString false;
   mkDesc (text "node-keys") KString false;
   mkDesc (text "wallet-keys") KString false;
   mkDesc (text "key-pass") KString false;
   mkDesc (text "generate-tx") KUint false;
   mkDesc (text "tx-amount") KUint64 false;
   mkDesc (text "help") KFlag false;
   mkDesc (text "debug-mode") KString false].

Definition fill_laminar (vm : variables_map) : res laminar_options :=
  mode ← field_mode vm T1;
  debug_mode ← field_debug true vm off;
  node_index ← field as_uint vm "node-index" 0;
  shard_index ← field as_uint vm "shard-index" 0;
  write_file ← field as_string vm "output" [];
  inn_keys ← field as_string vm "inn-keys" [];
  node_keys ← field as_string vm "node-keys" [];
  wallet_keys ← field as_string vm "wallet-keys" [];
  key_pass ← field as_string vm "key-pass" [];
  generate_count ← field as_uint vm "generate-tx" 0;
  tx_amount ← field as_uint64 vm "tx-amount" 3210123;
  mret {| la_mode := mode;
          la_node_index := node_index;
          la_shard_index := shard_index;
          la_write_file := write_file;
          la_inn_keys := inn_keys;
          la_node_keys := node_keys;
          la_wallet_keys := wallet_keys;
          la_key_pass := key_pass;
          la_generate_count := generate_count;
          la_tx_amount := tx_amount;
          la_debug_mode := debug_mode |}.

Definition ParseLaminarOptions (argv : list bytes) : res (option laminar_options) :=
  or_null (read_line laminar_desc argv) fill_laminar.

(** ** turbulent.cpp *)
Definition turbulent_desc : list option_desc :=
  [mkDesc (text "mode") KString false;
   mkDesc (text "node-index") KUint false;
   mkDesc (text "shard-index") KUint false;
   mkDesc (text "output") KString false;
   mkDesc (text "inn-keys") KString false;
   mkDesc (text "node-keys") KString false;
   mkDesc (text "wallet-keys") KString false;
   mkDesc (text "key-pass") KString false;
   mkDesc (text "generate-tx") KUint false;
   mkDesc (text "tx-amount") KUint64 false;
   mkDesc (text "help") KFlag false;
   mkDesc (text "debug-mode") KString false].

Definition fill_turbulent (vm : variables_map) : res turbulent_options :=
  mode ← field_mode vm T1;
  debug_mode ← field_debug true vm off;
  node_index ← field as_uint vm "node-index" 0;
  shard_index ← field as_uint vm "shard-index" 0;
  write_file ← field as_string vm "output" [];
  inn_keys ← field as_string vm "inn-keys" [];
  node_keys ← field as_string vm "node-keys" [];
  wallet_keys ← field as_string vm "wallet-keys" [];
  key_pass ← field as_string vm "key-pass" [];
  generate_count ← field as_uint vm "generate-tx" 0;
  tx_amount ← field as_uint64 vm "tx-amount" 3210123;
  mret {| tu_mode := mode;
          tu_node_index := node_index;
          tu_shard_index := shard_index;
          tu_write_file := write_file;
          tu_inn_keys := inn_keys;
          tu_node_keys := node_keys;
          tu_wallet_keys := wallet_keys;
          tu_key_pass := key_pass;
          tu_generate_count := generate_count;
          tu_tx_amount := tx_amount;
          tu_debug_mode := debug_mode |}.

Definition ParseTurbulentOptions (argv : list bytes) : res (option turbulent_options) :=
  or_null (read_line turbulent_desc argv) fill_turbulent.

(** ** devv-sign.cpp *)
Definition devvsign_desc : list option_desc :=
  [mkDesc (text "help,h") KFlag false;
   mkDesc (text "version,v") KFlag false;
   mkDesc (text "config") KStrings false;
   mkDesc (text "envelope-file,e") KPath false;
   mkDesc (text "private-key,k") KPath false;
   mkDesc (text "key-pass") KString false;
   mkDesc (text "quiet-mode,q") KFlag false].

(** [if (vm.count(name)) field = ...; else throw std::runtime_error(...);] *)
Definition required {A} (cast : value -> option A) (vm : variables_map) (name : string) : res A :=
  if count vm name then as_type cast vm name else Err RuntimeError.

Definition ParseDevvsignOptions (argv : list bytes) : res (option devvsign_options) :=
  p ← parse_command_line devvsign_desc false argv;
  vm ← store devvsign_desc p vm_empty;
  if count vm "help" then mret None
  else
    envelope_file ← required as_path vm "envelope-file";
    key_file ← required as_path vm "private-key";
    key_pass ← required as_string vm "key-pass";
    mret (Some {| si_envelope_file := envelope_file; si_key_file := key_file;
                  si_key_pass := key_pass; si_quiet_mode := count vm "quiet-mode" |}).
End parsers.

(** ** [RemoveDuplicates] *)
#[global] Instance lex_le_total : Total lex_le.
Proof.
  intros a b. unfold lex_le. destruct (lex_ltb b a) eqn:E1; [right|by left].
  destruct (lex_ltb a b) eqn:E2; [|done]. pose proof (lex_ltb_trans _ _ _ E1 E2) as E.
  by rewrite lex_ltb_irrefl in E.
Qed.

#[global] Instance lex_le_trans : Transitive lex_le.
Proof.
  intros a b c. unfold lex_le. intros A B. destruct (lex_ltb c a) eqn:E; [|done].
  destruct (lex_ltb a b) eqn:E1.
  - by rewrite (lex_ltb_trans _ _ _ E E1) in B.
  - by rewrite (lex_ltb_total _ _ E1 A), B in E.
Qed.

Lemma unique_step a b l :
  unique (a :: b :: l) = if bool_decide (a = b) then unique (b :: l) else a :: unique (b :: l).
Proof. done. Qed.

Lemma elem_of_unique l x : x ∈ unique l <-> x ∈ l.
Proof.
  induction l as [|a [|b l] IH]; [done|done|]. rewrite unique_step. case_bool_decide as D.
  - subst b. rewrite IH. rewrite !elem_of_cons. tauto.
  - rewrite elem_of_cons, IH, !elem_of_cons. tauto.
Qed.

(** Strictly increasing, so that nothing occurs twice. *)
Lemma unique_increasing l : StronglySorted lex_le l ->
  StronglySorted (fun a b => lex_ltb a b = true) (unique l).
Proof.
  induction l as [|a [|b l] IH]; intros S; [constructor | by repeat constructor |]. rewrite unique_step.
  apply StronglySorted_cons in S as [F S]. specialize (IH S). case_bool_decide as D; [done|].
  constructor; [done|]. apply list.Forall_forall. intros x Hx. rewrite elem_of_unique in Hx.
  assert (lex_le a x) as L by (apply (proj1 (list.Forall_forall _ _) F), Hx).
  destruct (lex_ltb a x) eqn:E; [done|]. pose proof (lex_ltb_total _ _ E L) as ->.
  assert (lex_le x b) as Lb by (apply (proj1 (list.Forall_forall _ _) F); left).
  apply StronglySorted_cons in S as [Fb _]. apply elem_of_cons in Hx as [?|Hx]; [done|].
  apply (proj1 (list.Forall_forall _ _) Fb) in Hx. exfalso. apply D.
  by apply lex_ltb_total.
Qed.

Lemma RemoveDuplicates_spec vec :
  StronglySorted (fun a b => lex_ltb a b = true) (RemoveDuplicates vec) /\
  (forall x, x ∈ RemoveDuplicates vec <-> x ∈ vec).
Proof.
  split; [apply unique_increasing, StronglySorted_merge_sort; apply _|].
  intros x. unfold RemoveDuplicates. by rewrite elem_of_unique, merge_sort_Permutation.
Qed.

(** ** What ends up in the map *)
Section maps.
Context `{FileSystem} `{ProgramOptionsLaws}.

(** The first of some parsed options that gives a value; all the strings. *)
Fixpoint first_given (ps : list parsed_options) (n : bytes) : option value :=
  match ps with
  | [] => None
  | p :: ps' => match given p n with Some v => Some v | None => first_given ps' n end
  end.

Definition all_strings (ps : list parsed_options) (n : bytes) : list bytes :=
  concat ((fun p => strings_of (given p n)) <$> ps).

(** Values of the described types. *)
Definition typed (ds : list option_desc) (vm : variables_map) : Prop :=
  forall n v, vm_at vm n = Some v -> kind_in ds n = Some (kind_of v).

Definition typed_options (ds : list option_desc) (p : parsed_options) : Prop :=
  forall n v, given p n = Some v -> kind_in ds n = Some (kind_of v).

(** A list of descriptions whose composing options are vectors. *)
Definition composing_strings (ds : list option_desc) : Prop :=
  Forall (fun d => d_composing d = true -> d_kind d = KStrings) ds.

Lemma composing_kind ds n : composing_strings ds -> composing_in ds n = true ->
  kind_in ds n = Some KStrings.
Proof.
  unfold composing_in, kind_in. induction 1 as [|d ds Hd _ IH]; [done|]. cbn [find_desc].
  case_bool_decide; [|done]. cbn. intros C. by rewrite Hd.
Qed.

(** [vm'] after storing each of [ps] into [vm]. *)
Fixpoint stores (ds : list option_desc) (ps : list parsed_options) (vm vm' : variables_map) : Prop :=
  match ps with
  | [] => vm' = vm
  | p :: ps' => exists vm1, store ds p vm = Ok vm1 /\ stores ds ps' vm1 vm'
  end.

Lemma stores_app ds ps qs vm vm1 vm2 :
  stores ds ps vm vm1 -> stores ds qs vm1 vm2 -> stores ds (ps ++ qs) vm vm2.
Proof.
  revert vm. induction ps as [|p ps IH]; cbn; intros vm; [by intros ->|].
  intros (vm' & E & S1) S2. exists vm'. split; [done|]. by apply IH.
Qed.

Lemma stores_first ds n ps : composing_in ds n = false -> forall vm vm', stores ds ps vm vm' ->
  vm_at vm' n = match vm_at vm n with Some v => Some v | None => first_given ps n end.
Proof.
  intros C. induction ps as [|p ps IH]; cbn; intros vm vm'.
  - intros ->. by destruct (vm_at vm n).
  - intros (vm1 & E & S). rewrite (IH _ _ S). destruct (vm_at vm n) as [v|] eqn:V.
    + by rewrite (store_keeps _ _ _ _ _ _ E V C).
    + by rewrite (store_new _ _ _ _ _ E V).
Qed.

Lemma store_typed ds p vm vm' : composing_strings ds -> typed_options ds p -> typed ds vm ->
  store ds p vm = Ok vm' -> typed ds vm'.
Proof.
  intros Cs Tp Tv E n v Hv. destruct (vm_at vm n) as [v0|] eqn:V0.
  - destruct (composing_in ds n) eqn:C.
    + pose proof (Tv n v0 V0) as K. rewrite (composing_kind _ _ Cs C) in K.
      destruct v0; try done. rewrite (store_appends _ _ _ _ _ _ E V0 C) in Hv.
      injection Hv as <-. by rewrite (composing_kind _ _ Cs C).
    + rewrite (store_keeps _ _ _ _ _ _ E V0 C) in Hv. injection Hv as <-. by apply Tv.
  - rewrite (store_new _ _ _ _ _ E V0) in Hv. by apply Tp.
Qed.

Lemma store_strings ds p vm vm' n : composing_strings ds -> typed ds vm ->
  composing_in ds n = true -> store ds p vm = Ok vm' ->
  strings_of (vm_at vm' n) = strings_of (vm_at vm n) ++ strings_of (given p n).
Proof.
  intros Cs T C E. destruct (vm_at vm n) as [v|] eqn:V; [|by rewrite (store_new _ _ _ _ _ E V)].
  pose proof (T n v V) as K. rewrite (composing_kind _ _ Cs C) in K. destruct v; try done.
  by rewrite (store_appends _ _ _ _ _ _ E V C).
Qed.

Lemma stores_typed ds ps : composing_strings ds -> Forall (typed_options ds) ps ->
  forall vm vm', typed ds vm -> stores ds ps vm vm' -> typed ds vm' /\
    forall n, composing_in ds n = true ->
      strings_of (vm_at vm' n) = strings_of (vm_at vm n) ++ all_strings ps n.
Proof.
  intros Cs. induction 1 as [|p ps Tp _ IH]; cbn; intros vm vm' T.
  - intros ->. split; [done|]. intros n _. by rewrite app_nil_r.
  - intros (vm1 & E & S). destruct (IH vm1 vm') as [T' A]; [by eapply store_typed | done |].
    split; [done|]. intros n C. rewrite A by done. rewrite (store_strings _ _ _ _ _ Cs T C E).
    unfold all_strings. cbn. by rewrite <- app_assoc.
Qed.

Lemma empty_typed ds : typed ds vm_empty.
Proof. intros n v. by rewrite empty_at. Qed.

(** A file that was read. *)
Definition config_read (s : fs_state) (ds : list option_desc) (allow : bool) (name : bytes)
    (p : parsed_options) : Prop :=
  exists content, fs_content s name = Some content /\ parse_config_file ds allow content = Ok p.

Lemma store_configs_ok s ds allow names : forall vm vm', store_configs s ds allow names vm = Ok (Some vm') ->
  exists ps, Forall2 (config_read s ds allow) names ps /\ stores ds ps vm vm'.
Proof.
  induction names as [|name names IH]; cbn; intros vm vm'.
  - intros [= <-]. exists []. split; [constructor|done].
  - destruct (fs_content s name) as [content|] eqn:Ec; [|done]. intros E.
    apply res_bind_inv_ok in E as (p & Ep & E). apply res_bind_inv_ok in E as (vm1 & E1 & E).
    destruct (IH _ _ E) as (ps & F & S). exists (p :: ps). split; [|by exists vm1].
    constructor; [by exists content | done].
Qed.

Lemma configs_typed s ds allow names ps : Forall2 (config_read s ds allow) names ps ->
  Forall (typed_options ds) ps.
Proof.
  induction 1 as [|name p names ps (content & _ & E) _ IH]; constructor; [|done].
  intros n v. by apply (file_typed _ _ _ _ _ _ E).
Qed.

Lemma field_strings_config ds vm p : typed ds vm -> store ds p vm_empty = Ok vm ->
  kind_in ds (text "config") = Some KStrings ->
  field as_strings vm "config" [] = Ok (strings_of (given p (text "config"))).
Proof.
  intros T E K. unfold field, count, as_type. rewrite <- (store_new _ _ _ _ _ E (empty_at _)).
  destruct (vm_at vm (text "config")) as [v|] eqn:V; [|done].
  pose proof (T _ _ V) as K'. rewrite K in K'. by destruct v.
Qed.

(** Where the values come from: the command line first, then the files it names. *)
Lemma read_options_ok s ds allow argv vm : composing_strings ds ->
  kind_in ds (text "config") = Some KStrings ->
  read_options s ds allow argv = Ok (Some vm) ->
  exists p p' ps, parse_command_line ds false argv = Ok p /\ parse_command_line ds allow argv = Ok p' /\
    Forall2 (config_read s ds allow) (strings_of (given p (text "config"))) ps /\ typed ds vm /\
    (forall n, composing_in ds n = false -> vm_at vm n = first_given (p :: ps ++ [p']) n) /\
    (forall n, composing_in ds n = true -> strings_of (vm_at vm n) = all_strings (p :: ps ++ [p']) n).
Proof.
  intros Cs K E. unfold read_options in E.
  apply res_bind_inv_ok in E as (p & Ep & E). apply res_bind_inv_ok in E as (vm0 & E0 & E).
  destruct (count vm0 "help"); [done|].
  assert (typed_options ds p) as Tp by (intros n v; by apply (line_typed _ _ _ _ _ _ Ep)).
  rewrite (field_strings_config ds vm0 p) in E
    by (done || by eapply store_typed; eauto using empty_typed). cbn [mbind res_bind] in E.
  apply res_bind_inv_ok in E as ([vm1|] & E1 & E); [|done].
  apply res_bind_inv_ok in E as (p' & Ep' & E). apply res_bind_inv_ok in E as (vm2 & E2 & E).
  apply res_bind_inv_ok in E as ([] & _ & E). injection E as <-.
  destruct (store_configs_ok _ _ _ _ _ _ E1) as (ps & F & S).
  assert (stores ds (p :: ps ++ [p']) vm_empty vm2) as St.
  { exists vm0. split; [done|]. eapply stores_app; [done|]. by exists vm2. }
  destruct (stores_typed ds (p :: ps ++ [p']) Cs) with (vm := vm_empty) (vm' := vm2) as [T A].
  - constructor; [done|]. apply Forall_app. split; [by eapply configs_typed|].
    constructor; [|done]. intros n v. by apply (line_typed _ _ _ _ _ _ Ep').
  - apply empty_typed.
  - done.
  - exists p, p', ps. repeat split; try done; intros n C.
    + by rewrite (stores_first _ _ _ C _ _ St), empty_at.
    + by rewrite (A n C), empty_at.
Qed.
End maps.

(** ** Filling the structs

    [vm[name].as<T>()] throws when [T] is not the described type; a parser whose
    types agree always gets its values. *)
Section fills.
Context `{ProgramOptions}.

Lemma field_typed {A} ds vm name k (cast : value -> option A) dflt : typed ds vm ->
  kind_in ds (text name) = Some k -> (forall v, kind_of v = k -> is_Some (cast v)) ->
  exists a, field cast vm name dflt = Ok a.
Proof.
  intros T K C. unfold field, count, as_type. destruct (vm_at vm (text name)) as [v|] eqn:V; [|by eexists].
  pose proof (T _ _ V) as K'. rewrite K in K'. injection K' as ->.
  destruct (C v eq_refl) as [a ->]. by exists a.
Qed.

Lemma field_mode_typed ds vm dflt : typed ds vm -> kind_in ds (text "mode") = Some KString ->
  exists a, field_mode vm dflt = Ok a.
Proof.
  intros T K. unfold field_mode, count, as_type. destruct (vm_at vm (text "mode")) as [v|] eqn:V; [|by eexists].
  pose proof (T _ _ V) as K'. rewrite K in K'. destruct v; try done. by eexists.
Qed.

Lemma field_debug_typed ds b vm dflt : typed ds vm -> kind_in ds (text "debug-mode") = Some KString ->
  exists a, field_debug b vm dflt = Ok a.
Proof.
  intros T K. unfold field_debug, count, as_type.
  destruct (vm_at vm (text "debug-mode")) as [v|] eqn:V; [|by eexists].
  pose proof (T _ _ V) as K'. rewrite K in K'. destruct v; try done. by eexists.
Qed.
End fills.

(** One field after the other. *)
Ltac fill_fields T :=
  repeat
    match goal with
    | |- exists o, (field_mode ?vm ?d ≫= _) = Ok o =>
        let a := fresh in let E := fresh in
        destruct (field_mode_typed _ vm d T eq_refl) as [a E]; rewrite E; cbn [mbind res_bind]; clear E
    | |- exists o, (field_debug ?b ?vm ?d ≫= _) = Ok o =>
        let a := fresh in let E := fresh in
        destruct (field_debug_typed _ b vm d T eq_refl) as [a E]; rewrite E; cbn [mbind res_bind]; clear E
    | |- exists o, (field ?c ?vm ?n ?d ≫= _) = Ok o =>
        let a := fresh in let E := fresh in
        let K := fresh in
        assert (exists a, field c vm n d = Ok a) as [a E];
        [ eapply (field_typed _ vm n _ c d T); [reflexivity | intros [] K; try discriminate K; by eexists]
        | rewrite E; cbn [mbind res_bind]; clear E]
    end;
  by eexists.
