(* ===== verification/Programs.v ===== *)
(** * devcash.cpp, devv-sign.cpp and the main functions of the generators

    What is around the components: options, the context and the key ring built
    from them, and the exit status.  [main] returns a [bool] in some programs:
    [true] is the status 1.  [catch (...)] also sees a thrown string; a failed
    assertion is not an exception. *)

From Stdlib Require Import ZArith Lia String.
From stdpp Require Import base list numbers.
From S2P Require Import Prelude OrdMap Converters Keys Buffers Transfer ChainState Summary.
From S2P Require Import Validation KeyRing Context DevvUri Transactions Blocks Message Blockchain Pool.
From S2P Require Import Oracles Pbuf Files Generators Announcer Handlers Node Network CommandLine.

#[local] Open Scope Z_scope.

(** [exit(-1)] *)
Definition EXIT_MINUS_1 : Z := 255.

(** [try { m } catch (...) { return status; }] *)
Definition catch_all {A} (m : res A) (handler : A) : res A :=
  match m with
  | Err AssertionFailure => m
  | Err _ => Ok handler
  | _ => m
  end.

Section programs.
Context `{Crypto} `{FileSystem} `{ProgramOptions}.

(** The content of a key file; an empty path is no file. *)
Definition key_file (s : fs_state) (path : bytes) : bytes :=
  match path with [] => [] | _ => ReadFile s path end.

(** [KeyRing keys(context)] *)
Definition make_keys (s : fs_state) (inn_keys node_keys key_pass : bytes) : res KeyRing :=
  let '(r, keys) := KeyRing_ctor (key_file s inn_keys) (key_file s node_keys) key_pass KeyRing_empty in
  r;; Ok keys.

(** ** devcash.cpp *)

(** [be.rfind(":")] *)
Fixpoint rfind (c : Z) (s : bytes) : option nat :=
  match s with
  | [] => None
  | x :: s' => match rfind c s' with
               | Some i => Some (S i)
               | None => if x =? c then Some O else None
               end
  end.

(** [substr(npos)] throws [std::out_of_range]; the handler is for a
    [std::range_error]. *)
Definition loopback_uri (be : bytes) : res bytes :=
  let this_uri := match rfind 58 be with
                  | None => Err OutOfRange
                  | Some i => Ok (text "tcp://localhost" ++ drop i be)
                  end in
  match this_uri with
  | Err RangeError => Ok []
  | _ => this_uri
  end.

Inductive Run :=
| Exited (status : Z)
| Serving (context : DevcashContext) (keys : KeyRing) (bind_endpoint : bytes) (host_vector : list bytes)
          (loopback : bytes) (bcm : BlockchainModule).

(** [remote] is what the controller's uninitialised counter happens to be. *)
Definition devcash_main (s : fs_state) (remote : Z) (argv : list bytes) : res Run :=
  catch_all
    (options ← ParseDevcashOptions s argv;
     match options with
     | None => mret (Exited EXIT_MINUS_1)
     | Some o =>
         let context := mkContext (dv_node_index o) (dv_shard_index o) (dv_mode o)
                          (dv_batch_size o) (dv_max_wait o) in
         keys ← make_keys s (dv_inn_keys o) (dv_node_keys o) (dv_key_pass o);
         this_uri ← loopback_uri (dv_bind_endpoint o);
         match dv_trace_file o with
         | [] => mret (Exited EXIT_MINUS_1)
         | _ => mret (Serving context keys (dv_bind_endpoint o) (dv_host_vector o) this_uri
                        (bm_start context (bm_ctor (dv_mode o) (dv_batch_size o) remote)))
         end
     end)
    (Exited 0).

(** ** circuit.cpp, laminar.cpp, turbulent.cpp *)

(** The end of [main]: the file is written when a path is given. *)
Definition write_out (s : fs_state) (write_file out : bytes) (done failed : Z) : Z * fs_state :=
  match write_file with
  | [] => (done, s)
  | _ => match fs_write s write_file out with
         | Some s' => (done, s')
         | None => (failed, s)
         end
  end.

(** Keys and wallets, the generator, the file. *)
Definition generator_main (s : fs_state) (inn_keys node_keys wallet_keys key_pass write_file : bytes)
    (generate : KeyRing -> res bytes) (done failed : Z) : res (Z * fs_state) :=
  keys ← make_keys s inn_keys node_keys key_pass;
  let '(r, keys) := LoadWallets (key_file s wallet_keys) key_pass keys in
  r;;
  out ← generate keys;
  mret (write_out s write_file out done failed).

Definition circuit_main (s : fs_state) (clock : nat -> Z) (fuel : nat) (argv : list bytes)
    : res (Z * fs_state) :=
  catch_all
    (options ← ParseCircuitOptions argv;
     match options with
     | None => mret (EXIT_MINUS_1, s)
     | Some o =>
         generator_main s (ci_inn_keys o) (ci_node_keys o) (ci_wallet_keys o) (ci_key_pass o)
           (ci_write_file o)
           (fun keys => circuit keys clock
                          (mkOptions (ci_node_index o) (ci_generate_count o) (ci_tx_amount o)
                             (ci_clear_state o)) fuel) 1 0
     end)
    (0, s).

Definition laminar_main (s : fs_state) (clock : nat -> Z) (fuel : nat) (argv : list bytes)
    : res (Z * fs_state) :=
  catch_all
    (options ← ParseLaminarOptions argv;
     match options with
     | None => mret (EXIT_MINUS_1, s)
     | Some o =>
         generator_main s (la_inn_keys o) (la_node_keys o) (la_wallet_keys o) (la_key_pass o)
           (la_write_file o)
           (fun keys => laminar keys clock
                          (mkOptions (la_node_index o) (la_generate_count o) (la_tx_amount o) false) fuel)
           0 EXIT_MINUS_1
     end)
    (EXIT_MINUS_1, s).

Definition turbulent_main (s : fs_state) (clock rand : nat -> Z) (fuel : nat) (argv : list bytes)
    : res (Z * fs_state) :=
  catch_all
    (options ← ParseTurbulentOptions argv;
     match options with
     | None => mret (EXIT_MINUS_1, s)
     | Some o =>
         generator_main s (tu_inn_keys o) (tu_node_keys o) (tu_wallet_keys o) (tu_key_pass o)
           (tu_write_file o)
           (fun keys => turbulent keys clock rand
                          (mkOptions (tu_node_index o) (tu_generate_count o) (tu_tx_amount o) false) fuel)
           1 0
     end)
    (0, s).

(** ** devv-sign.cpp *)

(** [TestSign] and its handler, which only sees a [std::runtime_error]. *)
Definition TestSign (ec_key : EC_KEY) : res unit :=
  let test_hash := DevcashHash hello in
  sig ← SignBinary ec_key test_hash;
  ok ← VerifyByteSig ec_key test_hash sig;
  if (ok : bool) then Ok tt else Err RuntimeError.

(** The lines with signatures; in quiet mode they are all of the standard
    output.  An exception of [main] is not caught. *)
Definition devvsign_main `{ProtoParser} (s : fs_state) (argv : list bytes) : res (Z * list bytes) :=
  match res_catch (ParseDevvsignOptions argv) (fun _ => Ok None) with
  | Ok None => Ok (EXIT_MINUS_1, [])
  | Ok (Some o) =>
      env_str ← ReadBinaryFile s (si_envelope_file o);
      tup ← ReadKeyFile s (si_key_file o);
      ec_key ← LoadEcKey (kt_address tup) (kt_key tup) (si_key_pass o);
      (match TestSign ec_key with
       | Err e => if is_runtime_error e then Ok tt else Err e
       | r => r
       end);;
      let '(r, keys) := addNodeKeyPair (kt_address tup) (kt_key tup) (si_key_pass o) KeyRing_empty in
      r;;
      let envelope := ParseEnvelope env_str in
      sigs ← map_res (fun transaction =>
               tx ← Pbuf.CreateTransaction transaction keys true;
               sig ← tx_getSignature tx;
               Ok (SignatureOps.getJSON sig)) (Proto.txs envelope);
      Ok (0, sigs)
  | Err e => Err e
  | UB => UB
  | NoFuel => NoFuel
  end.
End programs.
