(* ===== verification/Mains.v ===== *)
(** * The main functions of announcer.cpp, pb_announcer.cpp, repeater.cpp and verifier.cpp

    From the command line to what is sent.  The announcer's threads push their
    batches in any order ([announcer_main] is a relation); the repeater and the
    protobuf announcer are driven by what arrives at their sockets and by what
    others do to the file system, a list of events; a repeater's callback, which
    runs in another thread, may have got anywhere in a block when a request comes,
    and a request is answered at one point.  Connecting, binding and
    sleeping are left out. *)

From Stdlib Require Import ZArith Lia String.
From stdpp Require Import base list numbers.
From S2P Require Import Prelude OrdMap Converters Keys Buffers Transfer ChainState Summary.
From S2P Require Import Validation KeyRing Context DevvUri Transactions Blocks Message Blockchain.
From S2P Require Import Oracles Pbuf Files Repeater Auditors Announcer CommandLine Programs.

#[local] Open Scope Z_scope.

(** What a program leaves: its status and what it sent, or an abort, from an
    exception that leaves a thread. *)
Inductive Outcome (A : Type) := Exit (status : Z) (sent : A) | Aborted.
Arguments Exit {A} status sent.
Arguments Aborted {A}.

(** [DevcashContext] with the default batch size and wait. *)
Definition default_context (node_index shard_index : Z) (mode : eAppMode) : DevcashContext :=
  mkContext node_index shard_index mode 10000 0.

Section mains.
Context `{Crypto} `{FileSystem} `{ProgramOptions}.

(** ** announcer.cpp *)
Section announcer.
Context (s : fs_state) (now : Z) (fuel : nat).

Definition an_context (o : announcer_options) : DevcashContext :=
  default_context (an_node_index o) (an_shard_index o) (an_mode o).

(** Before the files: options and keys. *)
Definition announcer_setup (argv : list bytes) : res (option (announcer_options * KeyRing)) :=
  options ← ParseAnnouncerOptions s argv;
  match options with
  | None => mret None
  | Some o =>
      keys ← make_keys s (an_inn_keys o) (an_node_keys o) (an_key_pass o);
      mret (Some (o, keys))
  end.

Definition an_files (o : announcer_options) : list bytes :=
  in_dir (an_working_dir o) <$> fs_entries s (an_working_dir o).

(** The call for file [i]: the batches it pushes. *)
Definition file_call (o : announcer_options) (keys : KeyRing) (i : Z) : res (list bytes) :=
  path ← vec_at (an_files o) i;
  raw ← ReadBinaryFile s path;
  announce_file keys (an_mode o) (an_batch_size o) (an_distinct_ops o) now fuel raw.

(** The pushes of a thread of the pool, which makes several calls. *)
Definition thread_pushes (o : announcer_options) (keys : KeyRing) (is_ : list Z) : res (list bytes) :=
  ps ← map_res (file_call o keys) is_;
  Ok (concat ps).

(** [hardware]: what [std::thread::hardware_concurrency] says. *)
Definition an_threads (hardware : Z) (o : announcer_options) : list (list Z) :=
  ParallelFor 0 (i32 (zlen (an_files o))) (nb_threads hardware 3).

Inductive announcer_main (hardware : Z) (argv : list bytes) : Outcome (list DevcashMessage) -> Prop :=
| am_options : announcer_setup argv = Ok None -> announcer_main hardware argv (Exit EXIT_MINUS_1 [])
| am_exception e : announcer_setup argv = Err e -> is_std_exception e = true ->
    announcer_main hardware argv (Exit 0 [])
| am_directory o keys : announcer_setup argv = Ok (Some (o, keys)) ->
    is_directory s (an_working_dir o) = false -> announcer_main hardware argv (Exit 0 [])
| am_aborts o keys t e : announcer_setup argv = Ok (Some (o, keys)) ->
    is_directory s (an_working_dir o) = true -> t ∈ an_threads hardware o ->
    thread_pushes o keys t = Err e -> announcer_main hardware argv Aborted
| am_announces o keys pushes transactions : announcer_setup argv = Ok (Some (o, keys)) ->
    is_directory s (an_working_dir o) = true ->
    map_res (thread_pushes o keys) (an_threads hardware o) = Ok pushes ->
    interleaving pushes transactions ->
    announcer_main hardware argv (Exit 1 (announcements (an_context o) 0 transactions)).
End announcer.

(** ** pb_announcer.cpp *)
Section pb_announcer.
Context `{ProtoParser} (what : exn -> bytes).

Definition pa_context (o : pb_announcer_options) : DevcashContext :=
  default_context (pa_node_index o) (pa_shard_index o) (pa_mode o).

(** An envelope, with the file system in which the stop file is looked for;
    [None]: [recv] failed, and the message is empty. *)
Definition Envelope : Type := option bytes * fs_state.

(** What has been queued and what has been answered. *)
Definition Published : Type := list DevcashMessage * list bytes.

(** The loop: whether it has ended, or waits for another envelope.  The stop file
    is looked for after each transaction of an envelope. *)
Fixpoint pb_loop (o : pb_announcer_options) (keys : KeyRing) (es : list Envelope) : M Published bool :=
  match es with
  | [] => mret false
  | (envelope, s) :: rest =>
      r ← lift (pb_announce what (pa_context o) keys (default [] envelope));
      p ← get;
      put (p.1 ++ r.1, p.2 ++ [r.2]);;
      let stop := match r.1 with [] => false | _ => fs_exists s (pa_stop_file o) end in
      if stop || bool_decide (envelope = None) then mret true
      else pb_loop o keys rest
  end.

(** The status; [None]: the program waits. *)
Definition pb_announcer_main (s : fs_state) (argv : list bytes) (es : list Envelope)
    : M Published (option Z) :=
  try_catch
    (options ← lift (ParsePbAnnouncerOptions s argv);
     match options with
     | None => mret (Some EXIT_MINUS_1)
     | Some o =>
         keys ← lift (make_keys s (pa_inn_keys o) (pa_node_keys o) (pa_key_pass o));
         ended ← pb_loop o keys es;
         mret (if ended : bool then Some 1 else None)
     end)
    (fun _ => mret (Some 0)).
End pb_announcer.

(** ** repeater.cpp *)
Section repeater.
Context `{ProtoParser} `{ProtoWriter}.

(** What happens to a waiting repeater: a message of the shard, a request, a
    failed [recv], a file written by another process.  The callback that handles a
    message runs in the client's thread: [Hearing m k] is a point at which it has
    written [k] bytes of a block, and [Heard m] the point at which it is through.
    A request is answered from the files as they are at one point. *)
Inductive outside :=
| Hearing (m : DevcashMessage) (k : nat) | Heard (m : DevcashMessage)
| Asked (msg_string : bytes) | Broken | Written (path content : bytes).

Definition re_context (o : repeater_options) : DevcashContext :=
  default_context (re_node_index o) (re_shard_index o) (re_mode o).

(** The listener and the answers. *)
Definition Session : Type := Listener * list Proto.RepeaterResponse.

Definition outside_write (l : Listener) (path content : bytes) : Listener :=
  match fs_write (l_files l) path content with
  | Some s => mkListener s (l_height l)
  | None => l
  end.

(** The callback of the client is called in a [noexcept] method. *)
Definition hear (o : repeater_options) (m : DevcashMessage) : M Session unit := fun q =>
  match on_message (re_context o) (re_working_dir o) m q.1 with
  | (Ok _, l) => (Ok tt, (l, q.2))
  | (Err _, l) => (Err AssertionFailure, (l, q.2))
  | (UB, l) => (UB, (l, q.2))
  | (NoFuel, l) => (NoFuel, (l, q.2))
  end.

Definition hearing (o : repeater_options) (m : DevcashMessage) (k : nat) : M Session unit := fun q =>
  let '(r, l) := on_message_part (re_context o) (re_working_dir o) m k q.1 in (r, (l, q.2)).

(** Whether the loop has ended.  The stop file is looked for before the next
    request is awaited. *)
Fixpoint repeater_loop (o : repeater_options) (es : list outside) : M Session bool :=
  match es with
  | [] => mret false
  | Hearing m k :: rest => hearing o m k;; repeater_loop o rest
  | Heard m :: rest => hear o m;; repeater_loop o rest
  | Asked msg_string :: rest =>
      q ← get;
      r ← lift (serve (l_files q.1) (re_working_dir o) msg_string);
      put (q.1, q.2 ++ [r]);;
      if fs_exists (l_files q.1) (re_stop_file o) then mret true else repeater_loop o rest
  | Broken :: _ => mret true
  | Written path content :: rest =>
      q ← get;
      put (outside_write q.1 path content, q.2);;
      repeater_loop o rest
  end.

(** The status, when the program has ended; it starts with the files as they
    are and no answer. *)
Definition repeater_main (argv : list bytes) (es : list outside) : M Session (option Z) :=
  try_catch
    (q ← get;
     let s := l_files q.1 in
     options ← lift (ParseRepeaterOptions s argv);
     match options with
     | None => mret (Some EXIT_MINUS_1)
     | Some o =>
         keys ← lift (make_keys s (re_inn_keys o) (re_node_keys o) (re_key_pass o));
         if negb (is_directory s (re_working_dir o)) then mret (Some 0)
         else if fs_exists s (re_stop_file o) then mret (Some 1)
         else
           ended ← repeater_loop o es;
           mret (if ended : bool then Some 1 else None)
     end)
    (fun _ => mret (Some 0)).
End repeater.

(** ** verifier.cpp *)

(** The status, and the report when the directory has been read: whether the end
    states match, and the warnings. *)
Definition verifier_program (s : fs_state) (now : Z) (fuel : nat) (argv : list bytes)
    : res (Z * option (bool * list warning)) :=
  catch_all
    (options ← ParseVerifierOptions argv;
     match options with
     | None => mret (EXIT_MINUS_1, None)
     | Some o =>
         keys ← make_keys s (ve_inn_keys o) (ve_node_keys o) (ve_key_pass o);
         report ← verifier_main keys s now (ve_mode o) fuel (ve_working_dir o);
         mret (match report with None => 0 | Some _ => 1 end, report)
     end)
    (0, None).
End mains.
