(* ===== verification/DbRepeater.v ===== *)
(** * db_repeater.cpp

    Listens to the final blocks of a shard and books their transactions in a
    database.  libpqxx and the database are not part of the sources: [Database]
    is what a prepared statement does to the state of the database, and
    [DatabaseLaws] what the statements of the program on the table of balances
    mean in SQL.  A connection holds one transaction at a time; what it has done
    is lost unless it commits. *)

From Stdlib Require Import ZArith Lia String.
From stdpp Require Import base list numbers.
From S2P Require Import Prelude OrdMap Converters Keys Buffers Transfer ChainState Summary.
From S2P Require Import Validation KeyRing Context Transactions Blocks Message Oracles Pbuf.

#[local] Open Scope Z_scope.

Definition kNIL_UUID_PSQL : bytes := text "'00000000-0000-0000-0000-000000000000'::uuid".
Definition kTX_INSERT : bytes := text "tx_insert".
Definition kRX_INSERT : bytes := text "rx_insert".
Definition kBALANCE_SELECT : bytes := text "balance_select".
Definition kBALANCE_INSERT : bytes := text "balance_insert".
Definition kBALANCE_UPDATE : bytes := text "balance_update".

Inductive sql := SText (s : bytes) | SInt (n : Z).

Class Database := {
  db_state : Type;
  (** [prepared(name)(args)...exec()]: the rows of the result *)
  db_exec : bytes -> list sql -> db_state -> res (list (list sql)) * db_state;
  (** the balance of a wallet in a coin, if it has a row *)
  db_balance : db_state -> bytes -> Z -> option Z
}.

(** The statements of lines 61, 65 and 67, and the two that do not touch the
    table. *)
Class DatabaseLaws `{Database} : Prop := {
  select_balance d w c :
    db_exec kBALANCE_SELECT [SText w; SInt c] d =
      (Ok (match db_balance d w c with Some b => [[SInt b]] | None => [] end), d);
  insert_balance d w c acc b : db_balance d w c = None ->
    exists d', db_exec kBALANCE_INSERT [SText w; SInt c; SText acc; SInt b] d = (Ok [], d') /\
      forall w' c', db_balance d' w' c' =
        if bool_decide ((w', c') = (w, c)) then Some b else db_balance d w' c';
  update_balance d w c old b : db_balance d w c = Some old ->
    exists d', db_exec kBALANCE_UPDATE [SInt b; SText w; SInt c] d = (Ok [], d') /\
      forall w' c', db_balance d' w' c' =
        if bool_decide ((w', c') = (w, c)) then Some b else db_balance d w' c';
  other_tables name args d rows d' : (name = kTX_INSERT \/ name = kRX_INSERT) ->
    db_exec name args d = (rows, d') -> forall w c, db_balance d' w c = db_balance d w c
}.

Section db_repeater.
Context `{Crypto} `{Database}.

(** The connection, and the transaction that is open on it. *)
Record Link := mkLink { committed : db_state; open : option db_state }.

(** [pqxx::work stmt] over the connection: a second one is a [usage_error]. *)
Definition begin_work : M Link unit :=
  l ← get;
  match open l with
  | Some _ => throw LogicError
  | None => put (mkLink (committed l) (Some (committed l)))
  end.

(** The destructor of a [work] that has not committed. *)
Definition abort_work : M Link unit :=
  l ← get; put (mkLink (committed l) None).

Definition commit : M Link unit :=
  l ← get;
  match open l with
  | Some d => put (mkLink d None)
  | None => throw LogicError
  end.

Definition exec (name : bytes) (args : list sql) : M Link (list (list sql)) := fun l =>
  match open l with
  | Some d => let '(r, d') := db_exec name args d in (r, mkLink (committed l) (Some d'))
  | None => (Err LogicError, l)
  end.

(** [result[0][0].as<int64_t>()] *)
Definition first_int (rows : list (list sql)) : res Z :=
  match rows with
  | (SInt n :: _) :: _ => Ok n
  | _ => Err StdException
  end.

(** The first transfer with a negative amount: sender, coin and amount. *)
Fixpoint find_sender (xfers : list Transfer) : res (bytes * Z * Z) :=
  match xfers with
  | [] => Ok ([], 0, 0)
  | one_xfer :: xfers' =>
      amount ← TransferOps.getAmount one_xfer;
      if amount <? 0 then
        a1 ← TransferOps.getAddress one_xfer;
        a2 ← TransferOps.getAddress one_xfer;
        temp ← Pbuf.string_between (AddressOps.getCanonical a1) (AddressOps.getCanonical a2);
        coin_id ← TransferOps.getCoin one_xfer;
        Ok (temp, coin_id, amount)
      else find_sender xfers'
  end.

(** "update sender"; returns the rows of the select. *)
Definition update_sender (sender_str : bytes) (coin_id send_amount : Z) : M Link (list (list sql)) :=
  balance_result ← exec kBALANCE_SELECT [SText sender_str; SInt coin_id];
  (match balance_result with
   | [] => exec kBALANCE_INSERT [SText sender_str; SInt coin_id; SText kNIL_UUID_PSQL; SInt send_amount];;
           mret tt
   | _ =>
       balance ← lift (first_int balance_result);
       new_balance ← lift (add_i64 balance (- send_amount));
       exec kBALANCE_UPDATE [SInt new_balance; SText sender_str; SInt coin_id];;
       mret tt
   end);;
  mret balance_result.

(** "update receiver", inside the transaction of the sender: the balance that is
    increased is the sender's. *)
Definition update_receiver (balance_result : list (list sql)) (receiver_str : bytes) (coin_id amount : Z)
    : M Link unit :=
  rx_balance ← exec kBALANCE_SELECT [SText receiver_str; SInt coin_id];
  match rx_balance with
  | [] => exec kBALANCE_INSERT [SText receiver_str; SInt coin_id; SText kNIL_UUID_PSQL; SInt amount];;
          mret tt
  | _ =>
      balance ← lift (first_int balance_result);
      new_balance ← lift (add_i64 balance amount);
      exec kBALANCE_UPDATE [SInt new_balance; SText receiver_str; SInt coin_id];;
      mret tt
  end.

(** The loop over the receivers, which opens a transaction of its own. *)
Fixpoint record_receivers (shard_name sig_str : bytes) (chain_height coin_id send_amount : Z)
    (balance_result : list (list sql)) (xfers : list Transfer) : M Link unit :=
  match xfers with
  | [] => mret tt
  | one_xfer :: xfers' =>
      amount ← lift (TransferOps.getAmount one_xfer);
      (if amount <? 0 then mret tt
       else
         a1 ← lift (TransferOps.getAddress one_xfer);
         a2 ← lift (TransferOps.getAddress one_xfer);
         receiver_str ← lift (Pbuf.string_between (AddressOps.getCanonical a1) (AddressOps.getCanonical a2));
         begin_work;;
         update_receiver balance_result receiver_str coin_id amount;;
         exec kRX_INSERT [SText shard_name; SInt chain_height; SText receiver_str; SInt coin_id;
                          SInt send_amount; SText sig_str];;
         mret tt);;
      record_receivers shard_name sig_str chain_height coin_id send_amount balance_result xfers'
  end.

(** What is done once the strings are made. *)
Definition record_transfers (shard_name sig_str : bytes) (chain_height : Z) (sender : bytes * Z * Z)
    (xfers : list Transfer) : M Link unit :=
  let '(sender_str, coin_id, send_amount) := sender in
  balance_result ← update_sender sender_str coin_id send_amount;
  exec kTX_INSERT [SText sig_str; SText shard_name; SInt chain_height; SText sender_str; SInt coin_id;
                   SInt send_amount];;
  record_receivers shard_name sig_str chain_height coin_id send_amount balance_result xfers;;
  commit.

(** The scope of [stmt]: an exception destroys it. *)
Definition work_scope (m : M Link unit) : M Link unit := fun l =>
  match m l with
  | (Err e, l') => (Err e, snd (abort_work l'))
  | r => r
  end.

(** The body of the loop over the transactions. *)
Definition record_transaction (shard_name : bytes) (chain_height : Z) (one_tx : Transaction) : M Link unit :=
  begin_work;;
  work_scope (
    xfers ← lift (tx_getTransfers one_tx);
    s1 ← lift (tx_getSignature one_tx);
    s2 ← lift (tx_getSignature one_tx);
    sig_str ← lift (Pbuf.string_between (SignatureOps.getCanonical s1) (SignatureOps.getCanonical s2));
    sender ← lift (find_sender xfers);
    record_transfers shard_name sig_str chain_height sender xfers).

Fixpoint record_all (shard_name : bytes) (chain_height : Z) (txs : list Transaction) : M Link unit :=
  match txs with
  | [] => mret tt
  | one_tx :: txs' =>
      record_transaction shard_name chain_height one_tx;;
      record_all shard_name chain_height txs'
  end.

(** The callback; the state is the connection, when there is one, and the
    height. *)
Definition db_callback (mode : eAppMode) (shard_name : bytes) (p : DevcashMessage)
    : M (option Link * Z) unit := fun s =>
  if negb (m_type p =? eMessageType.FINAL_BLOCK) then (Ok tt, s)
  else
    let '(link, chain_height) := s in
    match link with
    | None => (Err RuntimeError, s)
    | Some l =>
        match fst (fb_from_buffer_mode ChainStateOps.empty KeyRing_empty mode (mkIB (m_data p) 0)) with
        | Ok one_block =>
            match record_all shard_name chain_height (fb_CopyTransactions one_block) l with
            | (Ok _, l') => (Ok tt, (Some l', u32 (chain_height + 1)))
            | (r, l') => (r, (Some l', chain_height))
            end
        | Err e => (Err e, s)
        | UB => (UB, s)
        | NoFuel => (NoFuel, s)
        end
    end.
End db_repeater.

(** ** What the statements do to the balances *)
Section balances.
Context `{Crypto} `{DatabaseLaws}.

(** Running a statement in an open transaction. *)
Lemma exec_open name args c d r d' : db_exec name args d = (r, d') ->
  exec name args (mkLink c (Some d)) = (r, mkLink c (Some d')).
Proof. intros E. unfold exec. cbn. by rewrite E. Qed.

(** The balance of one wallet in one coin is set to [b]. *)
Definition balance_set (d d' : db_state) (w : bytes) (c b : Z) : Prop :=
  forall w' c', db_balance d' w' c' = if bool_decide ((w', c') = (w, c)) then Some b else db_balance d w' c'.

Lemma update_sender_known c d w coin b s : db_balance d w coin = Some b -> in_i64 (b - s) ->
  exists d', update_sender w coin s (mkLink c (Some d)) = (Ok [[SInt b]], mkLink c (Some d')) /\
    balance_set d d' w coin (b - s).
Proof.
  intros B R. destruct (update_balance d w coin b (b - s) B) as (d' & E & S). exists d'. split; [|done].
  unfold update_sender. pose proof (select_balance d w coin) as Q. rewrite B in Q.
  rewrite (bind_ok _ _ _ _ _ (exec_open _ _ c _ _ _ Q)).
  unfold mbind, M_bind, lift, mret, M_ret. cbn -[add_i64 exec text].
  rewrite add_i64_ok, Z.add_opp_r by (by rewrite Z.add_opp_r). rewrite (exec_open _ _ c _ _ _ E). done.
Qed.

Lemma update_receiver_known c d w coin r b a : db_balance d w coin = Some r -> in_i64 (b + a) ->
  exists d', update_receiver [[SInt b]] w coin a (mkLink c (Some d)) = (Ok tt, mkLink c (Some d')) /\
    balance_set d d' w coin (b + a).
Proof.
  intros B R. destruct (update_balance d w coin r (b + a) B) as (d' & E & S). exists d'. split; [|done].
  unfold update_receiver. pose proof (select_balance d w coin) as Q. rewrite B in Q.
  rewrite (bind_ok _ _ _ _ _ (exec_open _ _ c _ _ _ Q)).
  unfold mbind, M_bind, lift, mret, M_ret. cbn -[add_i64 exec text].
  rewrite add_i64_ok by done. rewrite (exec_open _ _ c _ _ _ E). done.
Qed.

(** A wallet without a row gets the amount itself. *)
Lemma update_receiver_new c d w coin rows a : db_balance d w coin = None ->
  exists d', update_receiver rows w coin a (mkLink c (Some d)) = (Ok tt, mkLink c (Some d')) /\
    balance_set d d' w coin a.
Proof.
  intros B. destruct (insert_balance d w coin kNIL_UUID_PSQL a B) as (d' & E & S). exists d'. split; [|done].
  unfold update_receiver. pose proof (select_balance d w coin) as Q. rewrite B in Q.
  rewrite (bind_ok _ _ _ _ _ (exec_open _ _ c _ _ _ Q)).
  unfold mbind, M_bind, lift, mret, M_ret. cbn -[exec text]. rewrite (exec_open _ _ c _ _ _ E). done.
Qed.

(** A transaction that can be read is not recorded: its signature is read
    through the iterators of two temporaries. *)
Lemma record_transaction_undefined sh h t xs sg l : open l = None ->
  tx_getTransfers t = Ok xs -> tx_getSignature t = Ok sg ->
  fst (record_transaction sh h t l) = UB.
Proof.
  intros O T S. unfold record_transaction, begin_work, mbind, M_bind, get, put, lift. rewrite O. cbn.
  unfold work_scope. by rewrite T, S.
Qed.

End balances.
