(* ===== verification/DbMain.v ===== *)
(** * The main function of db_repeater.cpp

    From the command line to the loop that waits for the stop file.  libpqxx is
    not part of the sources: [Connector] is what a connection string and a
    [prepare] come to, [ConnectorLaws] what the documentation of libpq says of a
    string that names a parameter it does not have.  The program is driven by
    the messages of the shard, by its own waking up and by what others write to
    the file system; one call of the callback is one step. *)

From Stdlib Require Import ZArith Lia String.
From stdpp Require Import base list numbers.
From S2P Require Import Prelude OrdMap Converters Keys Buffers Transfer ChainState Summary.
From S2P Require Import Validation KeyRing Context Transactions Blocks Message Oracles Pbuf.
From S2P Require Import Files CommandLine Programs Mains DbRepeater.

#[local] Open Scope Z_scope.

Definition kNIL_UUID : bytes := text "00000000-0000-0000-0000-000000000000".
Definition kTX_INSERT_STATEMENT : bytes := text
  "INSERT INTO tx (tx_id, shard, block_height, wallet_id, coin_id, amount) VALUES ($1, $2, $3, $4, $5, $6)".
Definition kRX_INSERT_STATEMENT : bytes := text
  "INSERT INTO rx (shard, block_height, wallet_id, coin_id, amount, tx_id) VALUES ($1, $2, $3, $4, $5, $6)".
Definition kBALANCE_SELECT_STATEMENT : bytes := text
  "select balance from walletCoins where wallet_id = $1 and coin_id = $2".
Definition kWALLET_INSERT : bytes := text "wallet_insert".
Definition kWALLET_INSERT_STATEMENT : bytes :=
  text "INSERT INTO wallet (wallet_id, account_id, wallet_name) VALUES ($1, '" ++ kNIL_UUID ++
  text "':uuid, 'None')".
Definition kBALANCE_INSERT_STATEMENT : bytes := text
  "INSERT INTO walletCoins (wallet_coin_id, wallet_id, coin_id, account_id, balance) (select devv_uuid(), $1, $2, $3, $4)".
Definition kBALANCE_UPDATE_STATEMENT : bytes := text
  "UPDATE walletCoins set balance = $1 where wallet_id = $2 and coin_id = $3".

Class Connector `{Database} := {
  (** [pqxx::connection(options)]: [is_open()] of the connection, or the
      exception *)
  db_open : bytes -> db_state -> res bool;
  (** [prepare(name, definition)] *)
  db_prepare : bytes -> bytes -> res unit;
  (** the parameters that a connection string may set *)
  db_parameter : bytes -> bool
}.

Definition is_letter (c : Z) : bool := (97 <=? c) && (c <=? 122).

(** A string is a list of [name=value]; a name that is not a parameter makes the
    connection fail, with a [broken_connection]. *)
Class ConnectorLaws `{Connector} : Prop :=
  unknown_parameter name rest d : forallb is_letter name = true -> db_parameter name = false ->
    db_open (name ++ text "=" ++ rest) d = Err RuntimeError.

Section main.
Context `{Crypto} `{FileSystem} `{ProgramOptions} `{Connector}.

(** What the program and the world around it have: the files, the database as
    long as there is no connection, the connection, the height. *)
Record Station := mkStation {
  st_files : fs_state;
  st_db : db_state;
  st_link : option Link;       (* [db_link], when [db_connected] *)
  chain_height : Z
}.

Definition connection_string (o : db_repeater_options) : bytes :=
  text "username=" ++ dr_db_user o ++
  text " host=" ++ dr_db_host o ++
  text " password=" ++ dr_db_pass o ++
  text " dbname=" ++ dr_db_name o ++
  text " port=" ++ to_string (dr_db_port o).

Definition prepare_statements : res unit :=
  db_prepare kTX_INSERT kTX_INSERT_STATEMENT;;
  db_prepare kRX_INSERT kRX_INSERT_STATEMENT;;
  db_prepare kWALLET_INSERT kWALLET_INSERT_STATEMENT;;
  db_prepare kBALANCE_SELECT kBALANCE_SELECT_STATEMENT;;
  db_prepare kBALANCE_INSERT kBALANCE_INSERT_STATEMENT;;
  db_prepare kBALANCE_UPDATE kBALANCE_UPDATE_STATEMENT.

Definition connect_database (o : db_repeater_options) : M Station unit :=
  if (0 <? zlen (dr_db_host o)) && (0 <? zlen (dr_db_user o)) then
    q ← get;
    is_open ← lift (db_open (connection_string o) (st_db q));
    if is_open : bool then
      lift prepare_statements;;
      put (mkStation (st_files q) (st_db q) (Some (mkLink (st_db q) None)) (chain_height q))
    else mret tt
  else mret tt.

Inductive db_event := DbHeard (m : DevcashMessage) | DbWoke | DbWritten (path content : bytes).

Definition shard_name (o : db_repeater_options) : bytes := text "Shard-" ++ to_string (dr_shard_index o).

(** The callback of the client is called in a [noexcept] method. *)
Definition db_hear (o : db_repeater_options) (m : DevcashMessage) : M Station unit := fun q =>
  let '(r, (link, height)) := db_callback (dr_mode o) (shard_name o) m (st_link q, chain_height q) in
  (match r with Err _ => Err AssertionFailure | r => r end,
   mkStation (st_files q) (st_db q) link height).

Definition db_outside_write (q : Station) (path content : bytes) : Station :=
  match fs_write (st_files q) path content with
  | Some s => mkStation s (st_db q) (st_link q) (chain_height q)
  | None => q
  end.

(** Whether the loop has ended. *)
Fixpoint db_loop (o : db_repeater_options) (es : list db_event) : M Station bool :=
  match es with
  | [] => mret false
  | DbHeard m :: rest => db_hear o m;; db_loop o rest
  | DbWoke :: rest =>
      q ← get;
      if fs_exists (st_files q) (dr_stop_file o) then mret true else db_loop o rest
  | DbWritten path content :: rest =>
      q ← get;
      put (db_outside_write q path content);;
      db_loop o rest
  end.

(** [if (db_connected) db_link->disconnect();] *)
Definition disconnect (q : Station) : Station :=
  match st_link q with
  | Some l => mkStation (st_files q) (committed l) None (chain_height q)
  | None => q
  end.

(** The status, when the program has ended. *)
Definition db_main (argv : list bytes) (es : list db_event) : M Station (option Z) :=
  try_catch
    (q ← get;
     options ← lift (ParseDbRepeaterOptions (st_files q) argv);
     match options with
     | None => mret (Some EXIT_MINUS_1)
     | Some o =>
         keys ← lift (make_keys (st_files q) (dr_inn_keys o) (dr_node_keys o) (dr_key_pass o));
         connect_database o;;
         ended ← db_loop o es;
         if ended : bool then
           q ← get;
           put (disconnect q);;
           mret (Some 1)
         else mret None
     end)
    (fun _ => mret (Some 0)).
End main.

(** ** Without a connection *)
Section unconnected.
Context `{Crypto} `{FileSystem} `{ProgramOptions} `{ConnectorLaws}.
Implicit Types (q : Station) (o : db_repeater_options).

Lemma connect_refused o q : dr_db_host o <> [] -> dr_db_user o <> [] -> db_parameter (text "username") = false ->
  connect_database o q = (Err RuntimeError, q).
Proof.
  intros Hh Hu P. unfold connect_database.
  destruct (dr_db_host o) as [|h0 h] eqn:Eh; [done|]. destruct (dr_db_user o) as [|u0 u] eqn:Eu; [done|].
  rewrite !(proj2 (Z.ltb_lt _ _)) by (rewrite zlen_cons; pose proof (zlen_nonneg h);
    pose proof (zlen_nonneg u); lia).
  cbn [andb]. rewrite bind_get, bind_lift. unfold connection_string. rewrite Eh, Eu.
  change (text "username=") with (text "username" ++ text "="). rewrite <- app_assoc.
  by rewrite unknown_parameter.
Qed.

Lemma connect_skipped o q : dr_db_host o = [] \/ dr_db_user o = [] -> connect_database o q = (Ok tt, q).
Proof. intros D. unfold connect_database. destruct D as [-> | ->]; [done|]. by rewrite andb_false_r. Qed.

(** A final block ends the process, another message does nothing. *)
Lemma hear_unconnected o m q : st_link q = None ->
  db_hear o m q = (if m_type m =? eMessageType.FINAL_BLOCK then Err AssertionFailure else Ok tt, q).
Proof.
  intros L. unfold db_hear, db_callback. rewrite L. destruct q as [f d l h]. cbn [st_link] in L. subst l.
  by destruct (m_type m =? _).
Qed.

Lemma write_keeps q path content :
  st_db (db_outside_write q path content) = st_db q /\ st_link (db_outside_write q path content) = st_link q.
Proof. unfold db_outside_write. by destruct (fs_write _ _ _). Qed.

Lemma loop_unconnected o es : forall q r q', st_link q = None -> db_loop o es q = (r, q') ->
  st_db q' = st_db q /\ st_link q' = None /\ (forall e, r = Err e -> e = AssertionFailure).
Proof.
  induction es as [|[m| |path content] es IH]; intros q r q' L; cbn [db_loop].
  - intros [= <- <-]. done.
  - unfold mbind, M_bind. rewrite hear_unconnected by done.
    destruct (_ =? _); [intros [= <- <-]; split_and!; [done | done | by intros e [= <-]] | by apply IH].
  - rewrite bind_get. destruct (fs_exists _ _); [by intros [= <- <-] | by apply IH].
  - rewrite bind_get, bind_put. intros E. destruct (write_keeps q path content) as [Wd Wl].
    rewrite <- Wd. apply IH in E; [done | by rewrite Wl].
Qed.

(** Nothing but other messages and idle turns. *)
Definition calm (e : db_event) : Prop :=
  match e with DbHeard m => m_type m <> eMessageType.FINAL_BLOCK | DbWoke => True | DbWritten _ _ => False end.

Lemma loop_calm o pre rest q : st_link q = None -> fs_exists (st_files q) (dr_stop_file o) = false ->
  Forall calm pre -> db_loop o (pre ++ rest) q = db_loop o rest q.
Proof.
  intros L S. induction 1 as [|[m| |path content] pre C _ IH]; [done| | |done]; cbn [app db_loop].
  - unfold mbind, M_bind. rewrite hear_unconnected by done. by rewrite (proj2 (Z.eqb_neq _ _)).
  - by rewrite bind_get, S.
Qed.
(** The body of [main] once the options and keys are read: it reaches the loop
    without a connection or not at all. *)
Lemma main_listens o es q r q' : st_link q = None -> db_parameter (text "username") = false ->
  match (connect_database o;;
         ended ← db_loop o es;
         if ended : bool then q ← get; put (disconnect q);; mret (Some 1) else mret None) q with
  | (Err e, s') => if is_std_exception e then (Ok (Some 0), s') else (Err e, s')
  | r => r
  end = (r, q') -> st_db q' = st_db q /\ st_link q' = None.
Proof.
  intros L P. assert (connect_database o q = (Err RuntimeError, q) \/ connect_database o q = (Ok tt, q)) as [E|E].
  { destruct (decide (dr_db_host o = [])); [right; apply connect_skipped; tauto|].
    destruct (decide (dr_db_user o = [])); [right; apply connect_skipped; tauto|].
    left. by apply connect_refused. }
  - unfold mbind, M_bind. rewrite E. by intros [= <- <-].
  - rewrite (bind_ok _ _ _ _ _ E). unfold mbind, M_bind.
    destruct (db_loop o es q) as [r1 q1] eqn:El. destruct (loop_unconnected o es q r1 q1 L El) as (D & N & A).
    destruct r1 as [[]|e| |]; try (intros [= <- <-]; done).
    + unfold get, put, disconnect. rewrite N. by intros [= <- <-].
    + destruct (is_std_exception e); by intros [= <- <-].
Qed.
End unconnected.
