(* ===== verification/Round.v ===== *)
(** * One round of consensus

    The proposer's message is read by a peer, which answers with its
    validation; the answer completes the proposer's quorum and the block is
    final.  The two handlers are run symbolically on the messages they exchange,
    for a tier 1 shard. *)

From Stdlib Require Import ZArith Lia.
From stdpp Require Import base list numbers.
From S2P Require Import Prelude OrdMap Converters Keys Buffers Transfer ChainState Summary.
From S2P Require Import Validation KeyRing Context Transactions Blocks Message Blockchain Pool.
From S2P Require Import Handlers Node.

Section round.
Context `{CryptoLaws}.

(** A proposal that its author may send: well-formed counters, tier 1
    transactions signed by nodes, a summary that cancels, and validations that
    the key ring verifies. *)
Definition sendable (keys : KeyRing) (l : list t1_content) (b : ProposedBlock) : Prop :=
  pb_wf b /\ (exists flag, pb_transactions b = tc_tx flag <$> l) /\ l <> [] /\ Forall (tc_ok keys) l /\
  pb_validate b keys = Ok true.

(** The block that the peer has after reading the message and signing. *)
Definition countersigned (b : ProposedBlock) (a : Address) (sig : Signature) : ProposedBlock :=
  pb_set_vals b (mkValidation (om_put a sig (sigs_ (pb_vals b)))) (zlen (sigs_ (pb_vals b)) + 1).

Definition valid_msg (context : DevcashContext) (b : ProposedBlock) (index : Z) : DevcashMessage :=
  mkMessage (ContextOps.get_shard_uri context) eMessageType.VALID (pb_getValidationData b) index.

Lemma countersigned_ok keys l b a sig :
  sendable keys l b -> node_addr a -> node_sig sig -> om_find a (sigs_ (pb_vals b)) = None ->
  zlen (pb_getCanonical b) + ValidationOps.pairSize < 2 ^ 32 ->
  pb_wf (countersigned b a sig) /\ val_ok (pb_vals (countersigned b a sig)) /\
  zlen (sigs_ (pb_vals (countersigned b a sig))) = zlen (sigs_ (pb_vals b)) + 1.
Proof.
  intros (W & _) Na Ns F L. pose proof W as (_ & Hp & _ & _ & _ & _ & _ & _ & Hval & _).
  set (v := mkValidation (om_put a sig (sigs_ (pb_vals b)))).
  assert (zlen (sigs_ v) = zlen (sigs_ (pb_vals b)) + 1) as Hz.
  { unfold v. cbn [sigs_]. rewrite om_put_length by apply Hval. by rewrite F. }
  assert (val_ok v) as Hv.
  { split; [apply om_put_sorted, Hval|]. apply om_put_Forall; [apply Hval | by split]. }
  split; [|by split]. unfold countersigned. fold v. rewrite <- Hz. apply pb_set_vals_wf; [done..|].
  rewrite pb_canonical_length in L by done. unfold pb_content_size. rewrite Hz. lia.
Qed.

(** The peer: any node of the shard whose validation is not there yet. *)
Lemma peer_answers keys context n2 b l a2 k2 msg :
  sendable keys l b -> has_keys keys context a2 k2 -> om_find a2 (sigs_ (pb_vals b)) = None ->
  chain_inv (n_chain n2) -> mode_ (n_pool n2) = T1 -> m_data msg = pb_getCanonical b ->
  exists sig2, node_sig sig2 /\
    VerifyByteSig k2 (DevcashHash (SummaryOps.getCanonical (pb_summary b))) sig2 = Ok true /\
    HandleProposalBlock msg context keys n2 =
      (Ok true, mkNode (n_chain n2) (n_pool n2) (n_remote_blocks n2)
                  (n_sent n2 ++ [valid_msg context (countersigned b a2 sig2) (m_index msg)])).
Proof.
  intros (W & (flag & Ht) & Hl & F & V) Hk Hf C Hm Hd.
  destruct (highest_state _ C) as (st & Est & _).
  pose proof (pb_read_back b l flag keys st W Ht F [] eq_refl) as R. cbn [app] in R.
  pose proof W as (_ & _ & _ & _ & Hvc & _ & _ & _ & _ & Hlen).
  set (b2 := mkPB _ _ _ _ _ _ _ _ _ st) in R.
  assert (pb_validate b2 keys = Ok true) as Vb2.
  { rewrite pb_validate_spec in *. rewrite Ht in V. destruct l; [done|]. split; [done | apply V]. }
  destruct (sign_run keys context a2 k2 b2 Hk) as (sig2 & _ & Hv & Ns & Hs).
  exists sig2. split; [done|]. split; [done|].
  unfold HandleProposalBlock. mstep. rewrite Est. mstep. rewrite Hm, Hd.
  change (zlen (@nil Z)) with 0 in R. rewrite R by lia. cbn [fst]. mstep.
  rewrite Vb2. cbn [negb]. mstep.
  rewrite Hs. cbn [fst snd negb]. cbn [pb_vals b2] in *. rewrite om_insert_None by done. done.
Qed.

Lemma remove_loop_run txs sigs p :
  map_res tx_getSignature txs = Ok sigs -> exists p', remove_loop txs p = (Ok true, p').
Proof.
  revert sigs p; induction txs as [|t txs IH]; intros sigs p E; cbn [remove_loop map_res] in *;
    [by eexists|]. minv. mstep. rewrite H1. mstep. by eapply IH.
Qed.

Lemma finalize_run now p sigs :
  locks false false p -> map_res tx_getSignature (pb_transactions (pending_proposal_ p)) = Ok sigs ->
  exists p', FinalizeLocalBlock now p = (Ok (fb_of_proposed now (pending_proposal_ p)), p').
Proof.
  intros [Lt Lp] E. unfold FinalizeLocalBlock, with_proposal_lock. rewrite Lp, bind_get.
  cbn [set_proposal_lock pending_proposal_]. unfold FinalizeBlock, RemoveTransactions.
  rewrite bind_assoc. unfold with_txs_lock. unfold mbind at 1, M_bind at 1.
  cbn [set_proposal_lock txs_locked]. rewrite Lt.
  destruct (remove_loop_run _ _ (set_txs_lock (set_proposal_lock p true) true) E) as (p1 & ->).
  mstep. by eexists.
Qed.

Lemma check_validation_run context buf p r b' :
  locks false false p -> pb_isNull (pending_proposal_ p) = false ->
  fst (pb_checkValidationData (pending_proposal_ p) context buf) = Ok (r, b') ->
  CheckValidation context buf p = (Ok r, set_proposal p b').
Proof.
  intros [_ Lp] N E. unfold CheckValidation, with_proposal_lock. rewrite Lp, bind_get.
  cbn [set_proposal_lock pending_proposal_]. rewrite N. mstep. rewrite E. mstep. cbn [fst snd].
  destruct p. cbn in Lp. by subst.
Qed.

Lemma t1_signatures keys l flag :
  Forall (tc_ok keys) l -> map_res tx_getSignature (tc_tx flag <$> l) = Ok (tc_sig <$> l).
Proof.
  induction 1 as [|c l (Ha & Hs & _) _ IH]; [done|]. rewrite !fmap_cons. cbn [map_res tc_tx tx_getSignature].
  rewrite t1_getSignature_built by done. cbn [mbind res_bind]. by rewrite IH.
Qed.

(** The answer carries the peer's entry on top of the proposer's, and the
    quorum of three nodes is two. *)
Lemma answer_accepted keys context b l a2 sig2 :
  sendable keys l b -> node_addr a2 -> node_sig sig2 -> om_find a2 (sigs_ (pb_vals b)) = None ->
  1 <= zlen (sigs_ (pb_vals b)) -> zlen (pb_getCanonical b) + ValidationOps.pairSize < 2 ^ 32 ->
  fst (pb_checkValidationData b context
         (mkIB (pb_getValidationData (countersigned b a2 sig2)) 0))
    = Ok (true, countersigned b a2 sig2).
Proof.
  intros Sd Na Ns Hf H1 L.
  destruct (countersigned_ok keys l b a2 sig2 Sd Na Ns Hf L) as (_ & Hv2 & Hz2).
  set (v2 := pb_vals (countersigned b a2 sig2)) in *.
  pose proof Sd as ((_ & Hp & _ & _ & Hvc & _ & _ & _ & Hval & Hlen) & _).
  change (pb_getValidationData (countersigned b a2 sig2))
    with (pb_prev_hash b ++ ValidationOps.getCanonical v2).
  rewrite pb_canonical_length in L by done.
  pose proof (zlen_nonneg (concat (tx_getCanonical <$> pb_transactions b))).
  pose proof (zlen_nonneg (SummaryOps.getCanonical (pb_summary b))).
  assert (zlen (pb_prev_hash b ++ ValidationOps.getCanonical v2) < 2 ^ 32) as Hd.
  { rewrite zlen_app, val_canonical_length, Hz2 by apply Hv2. unfold SummaryOps.getByteSize in *. lia. }
  pose proof (pb_check_run b context v2 Hp Hv2 ltac:(lia) ltac:(lia) [] eq_refl ltac:(cbn [app]; lia)) as R.
  cbn [app] in R. change (zlen (@nil Z)) with 0 in R. rewrite R. cbn [fst].
  assert ((ValidationOps.addValidation_all (pb_vals b) v2).2 = v2) as ->.
  { unfold ValidationOps.addValidation_all, v2. cbn [snd countersigned pb_set_vals pb_vals sigs_].
    rewrite om_insert_all_put; [done | apply Hval | done]. }
  unfold SummaryOps.getByteSize, ValidationOps.pairSize in L. unfold_sizes.
  rewrite Hz2, u32_id by (unfold in_u32; lia). rewrite (proj2 (Z.ltb_lt _ _)) by lia. done.
Qed.

(** The proposer, on the peer's answer. *)
Lemma proposer_finalises keys context n1 b l a2 sig2 now msg :
  sendable keys l b -> node_addr a2 -> node_sig sig2 -> om_find a2 (sigs_ (pb_vals b)) = None ->
  1 <= zlen (sigs_ (pb_vals b)) -> zlen (pb_getCanonical b) + ValidationOps.pairSize < 2 ^ 32 ->
  pending_proposal_ (n_pool n1) = b -> locks false false (n_pool n1) ->
  let b2 := countersigned b a2 sig2 in
  let fb := fb_of_proposed now b2 in
  m_data msg = pb_getValidationData b2 ->
  exists p', HandleValidationBlock now msg context n1 =
    (Ok true, mkNode (bc_push_back (n_chain n1) fb) p' (n_remote_blocks n1)
       (n_sent n1 ++ [mkMessage (ContextOps.get_shard_uri context) eMessageType.FINAL_BLOCK
                        (fb_getCanonical fb) (m_index msg)])).
Proof.
  intros Sd Na Ns Hf H1 L Hb Lk b2 fb Hd. subst b.
  pose proof (answer_accepted keys context _ l a2 sig2 Sd Na Ns Hf H1 L) as R. fold b2 in R.
  destruct Sd as (W & (flag & Ht) & Hl & F & V).
  pose proof W as (_ & Hp & _ & _ & _ & Hn & _ & _ & Hval & _).
  assert (pb_isNull (pending_proposal_ (n_pool n1)) = false) as Nn.
  { unfold pb_isNull. rewrite Hn, pb_canonical_length by done. apply Z.ltb_ge. unfold pb_MinSize.
    unfold ValidationOps.pairSize. unfold_sizes.
    pose proof (zlen_nonneg (concat (tx_getCanonical <$> pb_transactions (pending_proposal_ (n_pool n1))))).
    pose proof (zlen_nonneg (SummaryOps.getCanonical (pb_summary (pending_proposal_ (n_pool n1))))).
    unfold SummaryOps.getByteSize. lia. }
  pose proof (check_validation_run context _ _ _ _ Lk Nn R) as Hc.
  destruct (finalize_run now (set_proposal (n_pool n1) b2) (tc_sig <$> l)) as (p' & Hfin).
  { by destruct Lk. }
  { cbn [pending_proposal_ set_proposal b2 countersigned pb_set_vals pb_transactions].
    rewrite Ht. by eapply t1_signatures. }
  exists p'. unfold HandleValidationBlock, on_pool. unfold mbind at 1, M_bind at 1.
  rewrite Hd, Hc. unfold mbind at 1, M_bind at 1. cbn [n_pool n_chain n_remote_blocks n_sent].
  rewrite Hfin. done.
Qed.
End round.
