(* ===== verification/Samples.v ===== *)
(** * Concrete data for the witnesses

    A toy instance of the cryptographic interface that satisfies its laws, and
    a shard of three nodes with two wallets.  Nothing here models code of the
    program: it shows that the hypotheses of the theorems can hold together. *)

From Stdlib Require Import ZArith Lia.
From stdpp Require Import base list numbers.
From S2P Require Import Prelude OrdMap Converters Keys Buffers Transfer ChainState Summary.
From S2P Require Import Validation KeyRing Context Transactions Blocks.

(** A key is its curve and a number; a signature starts with the number and the
    message. *)
Definition toy_hash (m : bytes) : bytes :=
  Uint64ToBin (foldl (fun h b => u64 (h * 31 + b)) 7 m) [] ++ replicate 24 0.

Definition toy_sign (k : bool * Z) (h : bytes) : bytes :=
  let core := u8 k.2 :: take 32 (h ++ replicate 32 0) in
  if k.1 then core ++ replicate 47 0 else core.

Definition toy_id (hex : bytes) : Z := u8 (foldl Z.add 0 hex).

#[global] Instance toy_crypto : Crypto := {|
  EC_KEY := (bool * Z)%type;
  SHA256 := toy_hash;
  ECDSA_sign_der := toy_sign;
  ECDSA_verify_der k h s := bool_decide (take (length (toy_sign k h)) s = toy_sign k h);
  EC_public_key node hex := Some (node, toy_id hex);
  EC_key_pair node hex priv pass := Some (node, toy_id hex);
  uninit n := replicate n 0
|}.

Lemma toy_sign_length k h : length (toy_sign k h) = if k.1 then 80%nat else 33%nat.
Proof.
  unfold toy_sign. destruct k as [[] n]; cbn [fst snd];
    rewrite ?length_app, ?length_cons, ?length_take, ?length_app, ?length_replicate; lia.
Qed.

#[global] Program Instance toy_laws : CryptoLaws := {| is_node_key (k : EC_KEY) := fst k |}.
Next Obligation. intros m. done. Qed.
Next Obligation.
  intros k h E. unfold zlen. cbn. rewrite toy_sign_length, E. lia.
Qed.
Next Obligation.
  intros k h E. unfold zlen. cbn. rewrite toy_sign_length, E. lia.
Qed.
Next Obligation. intros n. cbn. apply length_replicate. Qed.
Next Obligation. intros k h pad. cbn. rewrite take_app_length. by apply bool_decide_true. Qed.

(** Two wallets and three nodes. *)
Definition wallet (n : Z) : Address := mkAddress (33 :: replicate 33 n).
Definition node (n : Z) : Address := mkAddress (49 :: replicate 49 n).

Definition alice : Address := wallet 1.
Definition bob : Address := wallet 2.

Definition key_of (a : Address) : bool * Z :=
  match getKey KeyRing_empty a with Ok k => k | _ => (false, 0) end.

Definition toy_keys : KeyRing :=
  mkKeyRing (om_insert_all ((fun a => (a, key_of a)) <$> [alice; bob; node 5; node 6; node 7]) [])
            [node 5; node 6; node 7] [alice; bob] (node 5).

(** Five coins of type 1 from Alice to Bob. *)
Definition pay : list tview := [mkView alice 1 (-5) 0; mkView bob 1 5 0].
Definition nonce8 : bytes := [1; 2; 3; 4; 5; 6; 7; 8].

Definition pay_tx : Tier2Transaction :=
  match t2_ctor_sign_checked eOpType.Exchange (xfer_of <$> pay) nonce8 (key_of alice) toy_keys with
  | Ok tx => tx | _ => t2_default
  end.

Definition funded : ChainState := mkChainState [(alice, [(1, 10)])].

Definition pay_summary : Summary :=
  mkSummary [(alice, ([], [(1, -5)])); (bob, ([], [(1, 5)]))].

(** The summary as a tier 1 transaction signed by a node. *)
Definition sign_summary (a : Address) (s : Summary) : Signature :=
  match SignBinary (key_of a) (DevcashHash (SummaryOps.getCanonical s)) with
  | Ok sig => sig | _ => SignatureOps.default
  end.

Definition pay_content : t1_content :=
  mkContent pay_summary (node 6) (sign_summary (node 6) pay_summary).

(** Node [i] of shard 0. *)
Definition ctx (i : Z) : DevcashContext := mkContext i 0 T1 100 0.

(** The clock of the examples. *)
Definition noon : Z := 1530000000000.

Lemma wallet_wf n : addr_wf (wallet n).
Proof. by apply addr_wfb_spec. Qed.

Lemma node_wf n : node_addr (node n).
Proof. by exists (replicate 49 n). Qed.

#[export] Hint Resolve wallet_wf node_wf : devv.

(** Close [view_ok] of a concrete view over sample addresses. *)
Ltac ok_view :=
  split; [cbn [v_addr]; first [apply wallet_wf | apply node_addr_wf, node_wf] |];
  cbn [v_coin v_amount v_delay]; unfold in_u64, in_i64; lia.

Lemma pay_ok : Forall view_ok pay.
Proof. apply Forall_cons; [ok_view|]. apply Forall_cons; [ok_view | constructor]. Qed.

Lemma funded_ok : cs_ok funded.
Proof.
  split; [repeat constructor|]. apply Forall_cons; [|constructor].
  split; [repeat constructor|]. apply Forall_cons; [|constructor]. unfold in_i64. simpl. lia.
Qed.

Lemma pay_summary_ok : summary_ok pay_summary.
Proof.
  split; [repeat constructor|]. repeat constructor; cbn; unfold in_u64, in_i64; try lia;
    apply wallet_wf.
Qed.

Lemma sign_summary_node n s : node_sig (sign_summary (node n) s).
Proof.
  destruct (SignBinary_ok (key_of (node n) : @EC_KEY toy_crypto) (DevcashHash (SummaryOps.getCanonical s)))
    as (sig & Hs & _ & Hw & Hz). unfold sign_summary. rewrite Hs.
  change (is_node_key _) with true in Hz. by apply node_sig_of_size.
Qed.

(** The validations of two nodes. *)
Definition two_vals : Validation :=
  mkValidation [(node 5, sign_summary (node 5) pay_summary); (node 6, sign_summary (node 6) pay_summary)].

Lemma two_vals_ok : val_ok two_vals.
Proof.
  split; [repeat constructor|].
  repeat (apply Forall_cons; [split; [apply node_wf | apply sign_summary_node]|]). constructor.
Qed.

(** A tier 2 payment signed by Alice's wallet, as raw bytes. *)
Definition wallet_sig : Signature := mkSignature (73 :: replicate 73 4).
Definition pay_raw : bytes := t2_body 2 pay nonce8 ++ s_canonical wallet_sig.

Lemma pay_raw_ok : raw_ok pay_raw.
Proof.
  split; [|vm_compute; done]. intros pre rest Hl.
  apply (getNextTransaction_run 2 pay nonce8 wallet_sig); try done; by apply sig_wfb_spec.
Qed.

(** A final block with one tier 2 payment and two validations. *)
Definition pay_block : FinalBlock :=
  mkFB 0 (101 + zlen pay_raw + SummaryOps.getByteSize pay_summary + 312) noon
       zero_hash (toy_hash [1]) (zlen pay_raw) (SummaryOps.getByteSize pay_summary) 2
       [] [pay_raw] pay_summary two_vals funded.

Lemma pay_block_wf : fb_wf pay_block.
Proof.
  assert (fields_ok (fb_fields pay_block)) as Hf.
  { unfold fields_ok, fb_fields, in_u64, in_u32. vm_compute. intuition done. }
  unfold fb_wf. rewrite fb_canonical_length by (try done; apply two_vals_ok).
  split; [done|]. split; [unfold in_u64; vm_compute; intuition done|]. split; [done|].
  split; [vm_compute; done|]. split; [done|]. split; [done|].
  split; [apply pay_summary_ok|]. split; [vm_compute; done | apply two_vals_ok].
Qed.

Lemma pay_content_ok : tc_ok toy_keys pay_content.
Proof.
  split; [apply node_wf|]. split; [apply sign_summary_node|]. split; vm_compute; done.
Qed.

(** A proposal of one tier 1 transaction. *)
Definition pay_proposal : ProposedBlock :=
  pb_ctor zero_hash [tc_tx true pay_content] pay_summary ValidationOps.Create funded.

Lemma pay_proposal_wf : pb_wf pay_proposal.
Proof.
  apply pb_ctor_wf; [done | apply pay_summary_ok | apply val_Create_ok | vm_compute; done
    | vm_compute; done].
Qed.
