(* ===== verification/PropsCodec.v ===== *)
(** * Wire formats: what is written is read back

    The round trips of the integer, text, key, transfer, summary, validation,
    transaction, block, chain and message encodings, and where a reader departs
    from its writer. *)

From Stdlib Require Import ZArith Lia.
From stdpp Require Import base list numbers.
From S2P Require Import Prelude OrdMap Converters Keys Buffers Transfer ChainState Summary.
From S2P Require Import Validation KeyRing Context DevvUri Transactions Blocks Message Blockchain.
From S2P Require Import Samples.

(** A transfer built from an address, a coin, an amount and a delay gives
    each of them back through its getters, and the constructor from a buffer
    reads it at any place, leaving the position behind it. *)
Theorem transfer_round_trip (v : tview) :
  view_ok v ->
  view_of (TransferOps.ctor (v_addr v) (v_coin v) (v_amount v) (v_delay v)) = Ok v /\
  parses TransferOps.from_buffer (TransferOps.getCanonical (xfer_of v)) (xfer_of v).
Proof. intros W. split; [by apply view_of_xfer | by apply parses_transfer]. Qed.

(** [Summary::Create] reads back at any place of a buffer the bytes
    [getCanonical] writes for a well-formed summary of fewer than 2^32
    addresses. *)
Theorem summary_round_trip (s : Summary) :
  summary_ok s -> zlen (summary_ s) < 2 ^ 32 ->
  parses SummaryOps.from_buffer (SummaryOps.getCanonical s) s.
Proof. apply parses_summary. Qed.

(** Both readers of [Validation] give back a well-formed validation: the
    one with a count anywhere, the one without at the end of the buffer. *)
Theorem validation_round_trip (v : Validation) :
  val_ok v ->
  parses (ValidationOps.from_buffer_count (zlen (sigs_ v))) (ValidationOps.getCanonical v) v /\
  parses_end ValidationOps.from_buffer (ValidationOps.getCanonical v) v.
Proof. intros V. split; [by apply parses_validation_count | by apply parses_validation_end]. Qed.

(** The constructor of a tier 2 transaction keeps its arguments: operation,
    transfers, nonce and a signature of the size the operation calls for are
    what the getters decode from the canonical bytes. *)
Theorem t2_fields_round_trip (oper : Z) (vs : list tview) (nonce : bytes) (sig : Signature) :
  Forall view_ok vs -> sig_wf sig ->
  SignatureOps.size sig =
    (if oper =? eOpType.Exchange then kWALLET_SIG_BUF_SIZE else kNODE_SIG_BUF_SIZE) ->
  zlen (t2_body oper vs nonce) < 2 ^ 62 ->
  exists tx, t2_ctor_sig oper (xfer_of <$> vs) nonce sig = Ok tx /\
    t2_getOperation tx = Ok oper /\ t2_getTransfers tx = Ok (xfer_of <$> vs) /\
    t2_getNonce tx = Ok nonce /\ t2_getSignature tx = Ok sig.
Proof.
  intros Hv Hw Hs L. pose proof (t2_body_length oper vs nonce).
  pose proof (zlen_nonneg nonce). pose proof (zlen_nonneg (xfers_canonical vs)).
  exists (t2_built oper vs nonce sig false).
  assert (zlen (t2_body oper vs nonce ++ s_canonical sig) < 2 ^ 63) as Lb.
  { rewrite zlen_app. unfold SignatureOps.size in Hs. rewrite Hs.
    destruct (oper =? _); unfold_sizes; lia. }
  rewrite built_getOperation, built_getTransfers, built_getNonce, built_getSignature by done.
  split; [|done]. unfold t2_ctor_sig. rewrite t2_unsigned_eq by lia.
  pose proof (built_getMessageDigest oper vs nonce (mkSignature []) false) as D.
  unfold t2_built in D. cbn [s_canonical] in D. rewrite app_nil_r in D.
  by rewrite D by lia.
Qed.

(** Reading a serialised tier 2 transaction.  [getNextTransaction] takes
    exactly its bytes; [QuickCreate] (and [Fill], which has the same size
    computation) takes one byte less, so the transaction it returns has lost
    the last byte of its signature and the buffer is left one byte short. *)
Theorem t2_reading_sizes (oper : Z) (vs : list tview) (nonce : bytes) (sig : Signature)
    (pre rest : bytes) :
  let canon := t2_body oper vs nonce ++ SignatureOps.getCanonical sig in
  sig_wf sig -> kMIN_NONCE_SIZE <= zlen nonce -> 0 <= oper < eOpType.NumOperations ->
  zlen (pre ++ canon ++ rest) < 2 ^ 63 ->
  Buf.getNextTransaction (mkIB (pre ++ canon ++ rest) (zlen pre)) =
    (Ok canon, mkIB (pre ++ canon ++ rest) (zlen pre + zlen canon)) /\
  t2_QuickCreate (mkIB (pre ++ canon ++ rest) (zlen pre)) =
    (Ok (mkT2 (take (Z.to_nat (zlen canon - 1)) canon) false
              (zlen (xfers_canonical vs)) (zlen nonce)),
     mkIB (pre ++ canon ++ rest) (zlen pre + zlen canon - 1)).
Proof.
  intros canon Hs Hn Ho Hl. split; [by apply getNextTransaction_run | by apply t2_QuickCreate_run].
Qed.

(** Two words whose sum with the envelope wraps to 0. *)
Definition wrapping_tx : bytes :=
  Uint64ToBin (2 ^ 64 - 256) [] ++ Uint64ToBin 239 [] ++ [2] ++ replicate 80 0.

(** Reading transactions from a buffer need not end.  A buffer whose first
    two words are 2^64-256 and 239 makes the size computed in
    [Tier2Transaction::Fill] wrap to 0: the loop of [CreateTransactions] adds
    empty transactions forever, whatever the fuel. *)
Theorem create_loop_diverges (keys : KeyRing) (stop : Z) (fuel : nat)
    (acc : list bytes * list Transaction) :
  0 < stop ->
  fst (offset_loop (create_step keys T2) stop fuel acc (mkIB wrapping_tx 0)) = NoFuel.
Proof.
  intros Hs. apply offset_loop_stuck; [done|]. intros [raws txs].
  exists (raws ++ [[]], txs ++ [Tier2 (mkT2 [] false (2 ^ 64 - 256) 239)]).
  vm_compute. reflexivity.
Qed.

Lemma create_loop_diverges_witness :
  0 < 97 /\
  fst (offset_loop (create_step toy_keys T2) 97 1000 ([], []) (mkIB wrapping_tx 0)) = NoFuel.
Proof. split; [lia | apply create_loop_diverges; lia]. Defined.

(** A tier 1 transaction is read back whole, at any place, by its buffer
    constructor, by [Create] and as raw bytes by [getNextT1Transaction], and its
    getters return the summary's transfers, the node and the signature. *)
Theorem t1_round_trip (s : Summary) (addr : Address) (sig : Signature) (keys : KeyRing) :
  summary_ok s -> zlen (summary_ s) < 2 ^ 32 -> node_addr addr -> node_sig sig ->
  zlen (t1_bytes s addr sig) < 2 ^ 63 ->
  let tx := t1_built s addr sig false in
  parses (t1_ctor_buffer keys false) (t1_bytes s addr sig) tx /\
  parses (t1_Create keys false) (t1_bytes s addr sig) tx /\
  parses Buf.getNextT1Transaction (t1_bytes s addr sig) (t1_bytes s addr sig) /\
  t1_getTransfers tx = Ok (SummaryOps.getTransfers s) /\
  t1_getNodeAddress tx = Ok addr /\ t1_getSignature tx = Ok sig /\
  t1_getMessageDigest tx = Ok (SummaryOps.getCanonical s).
Proof.
  intros Hs Hn Ha Hg Hl tx.
  split; [by apply parses_t1_ctor|]. split; [by apply parses_t1_Create|].
  split; [by apply parses_getNextT1Transaction|]. split; [by apply t1_getTransfers_built|].
  split; [by apply t1_getNodeAddress_built|]. split; [by apply t1_getSignature_built|].
  apply t1_getMessageDigest_built.
Qed.

Lemma t1_round_trip_witness :
  let tx := t1_built pay_summary (node 6) (sign_summary (node 6) pay_summary) false in
  let bs := t1_bytes pay_summary (node 6) (sign_summary (node 6) pay_summary) in
  parses (t1_ctor_buffer toy_keys false) bs tx /\
  parses (t1_Create toy_keys false) bs tx /\
  parses Buf.getNextT1Transaction bs bs /\
  t1_getTransfers tx = Ok (SummaryOps.getTransfers pay_summary) /\
  t1_getNodeAddress tx = Ok (node 6) /\
  t1_getSignature tx = Ok (sign_summary (node 6) pay_summary) /\
  t1_getMessageDigest tx = Ok (SummaryOps.getCanonical pay_summary).
Proof.
  apply (t1_round_trip pay_summary (node 6) (sign_summary (node 6) pay_summary) toy_keys);
    [apply pay_summary_ok | vm_compute; done | apply node_wf | apply sign_summary_node
    | vm_compute; done].
Defined.

(** C9: [FinalBlock::Create] reads back the canonical bytes of a well-formed
    block at any place of a buffer and stops right behind it: header, raw
    transactions, summary and validations are those of the block; the state is
    the caller's. *)
Theorem final_block_round_trip (b : FinalBlock) (prior : ChainState) :
  fb_wf b -> Forall raw_ok (fb_raw_transactions b) ->
  parses (fb_Create prior) (fb_getCanonical b) (fb_raw b prior).
Proof. apply parses_fb_Create. Qed.

Lemma final_block_round_trip_witness :
  parses (fb_Create funded) (fb_getCanonical pay_block) (fb_raw pay_block funded).
Proof.
  apply (final_block_round_trip pay_block funded);
    [apply pay_block_wf | apply Forall_cons; [apply pay_raw_ok | constructor]].
Defined.

(** C10: a proposal of tier 1 transactions that their nodes signed is rebuilt
    from its bytes by [ProposedBlock::Create], transactions checked and marked
    sound, over the receiver's chain state. *)
Theorem proposed_block_round_trip (b : ProposedBlock) (l : list t1_content) (flag : bool)
    (keys : KeyRing) (prior : ChainState) :
  pb_wf b -> pb_transactions b = tc_tx flag <$> l -> Forall (tc_ok keys) l ->
  pb_from_buffer prior keys T1 (mkIB (pb_getCanonical b) 0) =
    (Ok (mkPB (pb_version b) (pb_num_bytes b) (pb_prev_hash b) (pb_tx_size b) (pb_sum_size b)
              (pb_val_count b) (tc_tx true <$> l) (pb_summary b) (pb_vals b) prior),
     mkIB (pb_getCanonical b) (zlen (pb_getCanonical b))).
Proof.
  intros W Ht F. apply (pb_read_back b l flag keys prior W Ht F []); [done|].
  destruct W as (_ & _ & _ & _ & _ & _ & _ & _ & _ & L). cbn [app]. lia.
Qed.

Lemma proposed_block_round_trip_witness :
  pb_from_buffer ChainStateOps.empty toy_keys T1 (mkIB (pb_getCanonical pay_proposal) 0) =
    (Ok (mkPB 0 (pb_num_bytes pay_proposal) zero_hash (pb_tx_size pay_proposal)
              (pb_sum_size pay_proposal) 0 [tc_tx true pay_content] pay_summary
              ValidationOps.Create ChainStateOps.empty),
     mkIB (pb_getCanonical pay_proposal) (zlen (pb_getCanonical pay_proposal))).
Proof.
  apply (proposed_block_round_trip pay_proposal [pay_content] true toy_keys ChainStateOps.empty);
    [apply pay_proposal_wf | done | apply Forall_cons; [apply pay_content_ok | constructor]].
Defined.

(** C24: what a peer gets for [PartialBinaryDump(start)] is the blocks from
    [start] up to but excluding the top one, and reading them with
    [FinalBlock::Create] until the end of the data returns exactly those
    blocks. *)
Theorem chain_dump_round_trip (c : Blockchain) (start : Z) (prior : ChainState) :
  bc_ok c -> 0 <= start ->
  Forall (fun b => fb_wf b /\ Forall raw_ok (fb_raw_transactions b)) (chain_ c) ->
  zlen (bc_BinaryDump c) < 2 ^ 63 ->
  exists raw, bc_PartialBinaryDump c start = Ok raw /\
    let blocks := take (length (chain_ c) - 1 - Z.to_nat start) (drop (Z.to_nat start) (chain_ c)) in
    offset_fold (read_blocks prior) (zlen raw) [] (mkIB raw 0) =
      (Ok ((fun b => fb_raw b prior) <$> blocks), mkIB raw (zlen raw)).
Proof.
  intros C Hs F L. eexists. split; [by apply partial_dump_spec|]. cbn zeta.
  apply dump_read_back; [by apply Forall_take, Forall_drop|].
  eapply Z.le_lt_trans; [|exact L]. unfold bc_BinaryDump.
  assert (forall n m (l : list FinalBlock),
    zlen (concat (fb_getCanonical <$> take n (drop m l))) <= zlen (concat (fb_getCanonical <$> l))) as K.
  { intros n m l. rewrite <- (take_drop m l) at 2. rewrite <- (take_drop n (drop m l)) at 2.
    rewrite !fmap_app, !concat_app, !zlen_app.
    pose proof (zlen_nonneg (concat (fb_getCanonical <$> take m l))).
    pose proof (zlen_nonneg (concat (fb_getCanonical <$> drop n (drop m l)))). lia. }
  apply K.
Qed.

Definition two_blocks : Blockchain := bc_push_back (bc_push_back bc_empty pay_block) pay_block.

Lemma chain_dump_round_trip_witness :
  exists raw, bc_PartialBinaryDump two_blocks 0 = Ok raw /\
    offset_fold (read_blocks funded) (zlen raw) [] (mkIB raw 0) =
      (Ok [fb_raw pay_block funded], mkIB raw (zlen raw)).
Proof.
  apply (chain_dump_round_trip two_blocks 0 funded).
  - apply bc_push_ok; [apply bc_push_ok; [apply bc_empty_ok | vm_compute; done] | vm_compute; done].
  - lia.
  - assert (Forall raw_ok (fb_raw_transactions pay_block))
      by (apply Forall_cons; [apply pay_raw_ok | constructor]).
    apply Forall_cons; [split; [apply pay_block_wf | done]|].
    apply Forall_cons; [split; [apply pay_block_wf | done] | constructor].
  - vm_compute. done.
Defined.

(** [deserialize] is the inverse of [serialize] for every message whose
    encoding is shorter than 2^32 bytes. *)
Theorem message_round_trip (m : DevcashMessage) :
  message_ok m -> deserialize (serialize m) = Ok m.
Proof. apply deserialize_serialize. Qed.

Definition hello_message : DevcashMessage := mkMessage [115; 104] eMessageType.VALID [1; 2; 3] 7.

Lemma message_round_trip_witness : deserialize (serialize hello_message) = Ok hello_message.
Proof. apply (message_round_trip hello_message). unfold message_ok, in_u32. vm_compute. intuition done. Defined.

(** C40: the bounds check of [extract] wraps.  In any buffer shorter than 2^32
    bytes, a length field [size] for which [new_index + size] reaches 2^32
    passes the assertion, and the copy then reads outside the buffer. *)
Theorem extract_length_wraps (pre rest : bytes) (size : Z) :
  let buffer := pre ++ uint_bytes size ++ rest in
  zlen buffer < 2 ^ 32 -> in_u32 size -> 2 ^ 32 <= zlen pre + 4 + size ->
  extract_vec buffer (zlen pre) = UB.
Proof.
  intros buffer L Hs Hw. unfold extract_vec. subst buffer.
  rewrite extract_uint_run by done. cbn [mbind res_bind fst snd].
  pose proof (zlen_nonneg pre). pose proof (zlen_nonneg rest).
  rewrite !zlen_app, uint_bytes_length in L.
  replace (u32 (zlen pre + 4 + size)) with (zlen pre + 4 + size - 2 ^ 32).
  2: { unfold u32, u32_mod, in_u32 in *. apply Z.mod_unique_pos with (q := 1); lia. }
  unfold in_u32 in Hs.
  rewrite (proj2 (Z.leb_le _ _)) by (rewrite !zlen_app, uint_bytes_length; lia). cbn [negb].
  unfold vec_range. rewrite (proj2 (Z.leb_gt (zlen pre + 4 + size) _)).
  - by rewrite andb_false_r.
  - rewrite !zlen_app, uint_bytes_length. lia.
Qed.

Lemma extract_length_wraps_witness :
  extract_vec ([52; 0; 0; 0; 0; 3; 0; 0; 0; 0; 0; 0; 0] ++ uint_bytes (2 ^ 32 - 1) ++ [9]) 13 = UB.
Proof.
  apply (extract_length_wraps [52; 0; 0; 0; 0; 3; 0; 0; 0; 0; 0; 0; 0] [9] (2 ^ 32 - 1));
    [vm_compute; done | unfold in_u32; lia | vm_compute; done].
Defined.

(** A uri is read back.  [ParseDevvUri] of what [MakeDevvUri] prints is the
    uri it was given: the shard and, as far as they are present, the height, the
    signature and the address. *)
Theorem devv_uri_round_trip (u : DevvUri) :
  uri_ok u -> ParseDevvUri (MakeDevvUri u) = Ok u.
Proof. apply ParseDevvUri_Make. Qed.

Definition alice_uri : DevvUri := mkUri true [115; 48] 12 wallet_sig alice.

Lemma devv_uri_round_trip_witness : ParseDevvUri (MakeDevvUri alice_uri) = Ok alice_uri.
Proof.
  apply (devv_uri_round_trip alice_uri). split; [done|]. split; [repeat constructor; done|].
  split; [done|]. split; [unfold in_u32; cbn; lia|].
  split; [left; split; [by apply sig_wfb_spec | repeat constructor; unfold in_u8; lia]|].
  split; [left; split; [apply wallet_wf | repeat constructor; unfold in_u8; lia]|]. done.
Defined.
