(* ===== verification/PropsLedger.v ===== *)
(** * Balances, summaries and transactions

    The chain state refines pointwise balance updates; a summary accumulates
    the same changes; a transaction that is accepted is signed by its only
    sender, moves a total of nothing, and has exactly the effect of its
    transfers.  The file ends with what validation does not enforce. *)

From Stdlib Require Import ZArith Lia.
From stdpp Require Import base list numbers.
From S2P Require Import Prelude OrdMap Converters Keys Buffers Transfer ChainState Summary.
From S2P Require Import Validation KeyRing Context Transactions Blocks Samples.

(** C7: [addCoin] implements the abstract balances.  When the new balance fits
    in 64 bits it returns true, changes the one balance by the amount and no
    other, changes the supply of that coin by the amount, and keeps the
    representation invariant. *)
Theorem addCoin_refines (st : ChainState) (c : SmartCoin) :
  cs_ok st -> in_i64 (sc_amount c) ->
  in_i64 (balance st (sc_addr c) (sc_coin c) + sc_amount c) ->
  exists st', ChainStateOps.addCoin st c = Ok (true, st') /\ cs_ok st' /\
    (forall a coin, balance st' a coin = balance st a coin + delta_of c a coin) /\
    (forall coin, supply coin st' =
       supply coin st + (if decide (coin = sc_coin c) then sc_amount c else 0)).
Proof.
  intros C R F. destruct (addCoin_total st c F) as (st' & E). exists st'.
  split; [done|]. split; [by eapply addCoin_ok|]. split; intros.
  - by eapply addCoin_balance.
  - by eapply addCoin_supply.
Qed.

Lemma addCoin_refines_witness :
  exists st', ChainStateOps.addCoin funded (mkSmartCoin bob 1 5) = Ok (true, st') /\ cs_ok st' /\
    (forall a coin, balance st' a coin =
       balance funded a coin + delta_of (mkSmartCoin bob 1 5) a coin) /\
    (forall coin, supply coin st' = supply coin funded + (if decide (coin = 1) then 5 else 0)).
Proof.
  apply (addCoin_refines funded (mkSmartCoin bob 1 5));
    [apply funded_ok | unfold in_i64; vm_compute; intuition done
    | unfold in_i64; vm_compute; intuition done].
Defined.

(** [getAmount] returns the balance, except that a coin type the address
    has never held makes it throw [std::out_of_range] once the address holds
    anything; an unknown address has 0. *)
Theorem getAmount_spec (st : ChainState) (coin : Z) (a : Address) :
  ChainStateOps.getAmount st coin a =
    match om_find a (ChainStateOps.getStateMap st) with
    | None => Ok 0
    | Some inner =>
        if bool_decide (is_Some (om_find coin inner)) then Ok (balance st a coin)
        else Err OutOfRange
    end.
Proof.
  rewrite getAmount_total. unfold recorded, balance, ChainStateOps.getStateMap.
  by destruct (om_find a (state_map_ st)).
Qed.

(** [addItem] never refuses, keeps a summary well formed, and adds the
    item's delta to the total of all deltas, modulo 2^64. *)
Theorem addItem_accumulates (s : Summary) (a : Address) (coin delta delay : Z) :
  summary_ok s -> addr_wf a -> in_u64 coin -> in_u64 delay ->
  exists s', SummaryOps.addItem_delta s a coin delta delay = (true, s') /\ summary_ok s' /\
    u64 (summary_sum s') = u64 (summary_sum s + delta) /\ summary_ s' <> [].
Proof.
  intros S A C D. unfold SummaryOps.addItem_delta.
  set (item := DelayedItem_ctor delay delta).
  assert (delayed_ok (coin, item)) as Di by (by apply delayed_ctor_ok).
  pose proof (addItem_ok s a coin item S A Di) as O.
  pose proof (addItem_sum s a coin item S) as T.
  pose proof (addItem_nonempty s a coin item) as N.
  destruct (SummaryOps.addItem s a coin item) as [b s'] eqn:E. rewrite addItem_update in E.
  simplify_eq. cbn [snd] in *. eexists. split; [done|]. split; [done|]. split; [|done].
  rewrite T. unfold item. cbn [DelayedItem_ctor di_delta]. by rewrite u64_add_r.
Qed.

(** Reading a summary or a validation from any bytes stops: the counts come
    from the wire, but the loops cannot run longer than the buffer. *)
Theorem readers_terminate (b : InputBuffer) (count : Z) :
  ib_ok b ->
  fst (SummaryOps.from_buffer b) <> NoFuel /\
  fst (ValidationOps.from_buffer b) <> NoFuel /\
  fst (ValidationOps.from_buffer_count count b) <> NoFuel.
Proof.
  intros I. split; [by apply summary_from_buffer_total|].
  split; [by apply validation_from_buffer_total | by apply validation_from_buffer_count_total].
Qed.

Lemma readers_terminate_witness :
  let b := mkIB (Uint32ToBin (2 ^ 32 - 1) [] ++ replicate 200 0) 0 in
  fst (SummaryOps.from_buffer b) <> NoFuel /\ fst (ValidationOps.from_buffer b) <> NoFuel /\
  fst (ValidationOps.from_buffer_count (2 ^ 32 - 1) b) <> NoFuel.
Proof.
  apply (readers_terminate (mkIB (Uint32ToBin (2 ^ 32 - 1) [] ++ replicate 200 0) 0) (2 ^ 32 - 1)).
  unfold ib_ok. vm_compute. intuition done.
Defined.

(** C4: soundness.  Take a transaction made in any of the ways the program makes
    one, whatever happened to its flag since.  When [isSound] accepts it, its
    amounts sum to exactly 0, it takes coins from one address only, it performs a
    privileged operation only for a node address, and it carries a signature that
    the sender's key verifies over everything in front of it. *)
Theorem t2_sound_means (tx : Tier2Transaction) (keys : KeyRing) (b : bool) :
  t2_made keys tx -> t2_isSound tx keys = Ok b ->
  b = true /\
  exists oper xfers l sender eckey msg sig,
    t2_getOperation tx = Ok oper /\ t2_getTransfers tx = Ok xfers /\
    amounts xfers = Ok l /\ zsum l = 0 /\ Forall (sent_by sender) xfers /\
    (oper <> eOpType.Exchange -> AddressOps.isNodeAddress sender = true) /\
    getKey keys sender = Ok eckey /\ t2_getMessageDigest tx = Ok msg /\
    t2_getSignature tx = Ok sig /\ VerifyByteSig eckey (DevcashHash msg) sig = Ok true.
Proof. apply made_isSound_inv. Qed.

Lemma pay_tx_made : t2_made toy_keys pay_tx.
Proof.
  apply (made_sign_checked toy_keys eOpType.Exchange (xfer_of <$> pay) nonce8 (key_of alice)).
  vm_compute. reflexivity.
Qed.

Lemma t2_sound_means_witness :
  true = true /\
  exists oper xfers l sender eckey msg sig,
    t2_getOperation pay_tx = Ok oper /\ t2_getTransfers pay_tx = Ok xfers /\
    amounts xfers = Ok l /\ zsum l = 0 /\ Forall (sent_by sender) xfers /\
    (oper <> eOpType.Exchange -> AddressOps.isNodeAddress sender = true) /\
    getKey toy_keys sender = Ok eckey /\ t2_getMessageDigest pay_tx = Ok msg /\
    t2_getSignature pay_tx = Ok sig /\
    VerifyByteSig eckey (DevcashHash msg) sig = Ok true.
Proof.
  apply (t2_sound_means pay_tx toy_keys true); [apply pay_tx_made | vm_compute; reflexivity].
Defined.

(** Completeness.  Transfers of one sender that cancel, with running sums
    that fit in 64 bits, a nonce of eight bytes or more and the key the key
    ring has for the sender always make a sound transaction: the signing
    constructor returns, and the getters return what went in. *)
Theorem t2_signing_succeeds `{CryptoLaws} (oper : Z) (vs : list tview) (nonce : bytes)
    (k : EC_KEY) (keys : KeyRing) (a : Address) :
  sound_content oper vs a -> getKey keys a = Ok k ->
  is_node_key k = negb (oper =? eOpType.Exchange) ->
  kMIN_NONCE_SIZE <= zlen nonce -> zlen (t2_body oper vs nonce) < 2 ^ 62 ->
  exists tx, t2_ctor_sign_checked oper (xfer_of <$> vs) nonce k keys = Ok tx /\
    t2_is_sound tx = true /\ t2_isSound (t2_set_sound tx false) keys = Ok true /\
    t2_getTransfers tx = Ok (xfer_of <$> vs) /\ t2_getNonce tx = Ok nonce.
Proof.
  intros C Hk Hn Hm L.
  destruct (t2_sign_ok oper vs nonce k keys a C Hk Hn Hm L) as (sig & E & W & V & Z).
  assert (zlen (t2_body oper vs nonce ++ s_canonical sig) < 2 ^ 63) as Lb.
  { rewrite zlen_app. unfold SignatureOps.size in Z. rewrite Z.
    destruct (oper =? _); unfold_sizes; lia. }
  exists (t2_built oper vs nonce sig true). split; [done|]. split; [done|].
  change (t2_set_sound _ false) with (t2_built oper vs nonce sig false).
  split; [by apply (t2_built_sound oper vs nonce sig keys a k)|].
  destruct C as (Hv & _). by rewrite built_getTransfers, built_getNonce.
Qed.

Lemma pay_sound : sound_content eOpType.Exchange pay alice.
Proof.
  split; [apply pay_ok|]. split.
  { apply Forall_cons; [done|]. apply Forall_cons; [cbn; lia | constructor]. }
  by vm_compute.
Qed.

Lemma t2_signing_succeeds_witness :
  exists tx, t2_ctor_sign_checked eOpType.Exchange (xfer_of <$> pay) nonce8
      (key_of alice : @EC_KEY toy_crypto) toy_keys = Ok tx /\
    t2_is_sound tx = true /\ t2_isSound (t2_set_sound tx false) toy_keys = Ok true /\
    t2_getTransfers tx = Ok (xfer_of <$> pay) /\ t2_getNonce tx = Ok nonce8.
Proof.
  apply (t2_signing_succeeds (H0 := toy_laws) eOpType.Exchange pay nonce8 (key_of alice) toy_keys alice);
    [apply pay_sound | vm_compute; reflexivity | vm_compute; reflexivity | vm_compute; done
    | vm_compute; done].
Defined.

(** What [vs] does to a validation context. *)
Definition effect_of (vs : list tview) (c c' : VCtx) : Prop :=
  (forall a coin, balance (v_state c') a coin = balance (v_state c) a coin + views_delta vs a coin) /\
  (forall coin, supply coin (v_state c') = supply coin (v_state c) + coin_delta vs coin) /\
  u64 (summary_sum (v_summary c')) = u64 (summary_sum (v_summary c) + zsum (v_amount <$> vs)) /\
  ctx_ok c'.

Lemma apply_views_effect vs c c' :
  ctx_ok c -> Forall view_ok vs ->
  apply_views (v_state c, v_summary c) vs = Ok (v_state c', v_summary c') -> effect_of vs c c'.
Proof.
  intros [C S] F Hr.
  destruct (apply_views_summary vs F (v_state c, v_summary c) _ S Hr) as (So & Ss & _).
  split; [intros; by apply (apply_views_balance vs _ _ a coin Hr)|].
  split; [intros; by apply (apply_views_supply vs F (v_state c, v_summary c) _ coin C Hr)|].
  split; [done|]. split; [by apply (apply_views_cs_ok vs F (v_state c, v_summary c) _ C Hr) | done].
Qed.

Lemma refines_effect xfers c c' :
  ctx_ok c -> refines xfers c c' -> exists vs, views xfers = Ok vs /\ effect_of vs c c'.
Proof. intros C (vs & Hv & Hr). exists vs. split; [done|]. apply apply_views_effect; eauto using views_ok. Qed.

(** C3: the effect of an accepted transaction, of either tier.  When [isValid]
    returns true the transaction is sound, and each balance, each coin's supply
    and the summary's total have changed by exactly what the transaction's
    transfers say. *)
Theorem valid_transaction_effect (t : Transaction) (keys : KeyRing) (c c' : VCtx) :
  ctx_ok c -> tx_isValid t keys c = (Ok true, c') ->
  tx_isSound t keys = Ok true /\
  exists xfers vs, tx_getTransfers t = Ok xfers /\ views xfers = Ok vs /\ effect_of vs c c'.
Proof.
  intros C E. apply tx_isValid_refines in E as [S (xfers & Hx & R)]. split; [done|].
  destruct (refines_effect xfers c c' C R) as (vs & Hv & He). eauto 10.
Qed.

Definition pay_ctx : VCtx := mkVCtx funded SummaryOps.Create [].
Definition paid_ctx : VCtx := snd (tx_isValid (Tier2 pay_tx) toy_keys pay_ctx).

Lemma pay_ctx_ok : ctx_ok pay_ctx.
Proof. split; [apply funded_ok | apply Create_ok]. Qed.

Lemma valid_transaction_effect_witness :
  tx_isSound (Tier2 pay_tx) toy_keys = Ok true /\
  exists xfers vs, tx_getTransfers (Tier2 pay_tx) = Ok xfers /\ views xfers = Ok vs /\
    effect_of vs pay_ctx paid_ctx.
Proof.
  apply (valid_transaction_effect (Tier2 pay_tx) toy_keys pay_ctx paid_ctx);
    [apply pay_ctx_ok | vm_compute; reflexivity].
Defined.

(** C8: the same for [isValidInAggregate], which a proposer uses: accepting a
    transaction has the effect of its transfers on the state and the summary,
    whatever the aggregate holds. *)
Theorem aggregate_transaction_effect (t : Transaction) (keys : KeyRing) (prior : ChainState)
    (c c' : VCtx) :
  ctx_ok c -> tx_isValidInAggregate t keys prior c = (Ok true, c') ->
  tx_isSound t keys = Ok true /\
  exists xfers vs, tx_getTransfers t = Ok xfers /\ views xfers = Ok vs /\ effect_of vs c c'.
Proof.
  intros C E. apply tx_isValidInAggregate_refines in E as [S (xfers & Hx & R)]. split; [done|].
  destruct (refines_effect xfers c c' C R) as (vs & Hv & He). eauto 10.
Qed.

Lemma aggregate_transaction_effect_witness :
  tx_isSound (Tier1 (t1_built pay_summary (node 6) (sign_summary (node 6) pay_summary) false))
    toy_keys = Ok true /\
  exists xfers vs,
    tx_getTransfers (Tier1 (t1_built pay_summary (node 6) (sign_summary (node 6) pay_summary) false))
      = Ok xfers /\ views xfers = Ok vs /\
    effect_of vs pay_ctx (snd (tx_isValidInAggregate (tc_tx false pay_content) toy_keys funded pay_ctx)).
Proof.
  apply (aggregate_transaction_effect (tc_tx false pay_content) toy_keys funded pay_ctx);
    [apply pay_ctx_ok | vm_compute; reflexivity].
Defined.

(** C6: conservation.  A tier 2 transaction made in any of the ways the program
    makes one, that [isValid] accepts, leaves the total of all coins of all types
    at all addresses unchanged. *)
Theorem t2_conserves_holdings (tx : Tier2Transaction) (keys : KeyRing) (c c' : VCtx) :
  ctx_ok c -> t2_made keys tx -> t2_isValid tx keys c = (Ok true, c') ->
  holdings (v_state c') = holdings (v_state c).
Proof.
  intros [C S] N E. pose proof (tx_isValid_refines (Tier2 tx) keys c c' E)
    as [Hs (xfers & Hx & vs & Hv & Hr)].
  destruct (made_isSound_inv tx keys true N Hs) as (_ & oper & xfers' & l & sender & k & m & g
    & _ & Hx' & Hl & Hz & _).
  cbn [tx_getTransfers] in Hx. rewrite Hx' in Hx. simplify_eq. rewrite (views_amounts _ _ Hv) in Hl. simplify_eq.
  pose proof (apply_views_holdings vs (views_ok _ _ Hv) (v_state c, v_summary c) _ C Hr) as Hh. cbn [fst] in Hh. lia.
Qed.

Lemma t2_conserves_holdings_witness :
  holdings (v_state (snd (t2_isValid pay_tx toy_keys pay_ctx))) = holdings (v_state pay_ctx).
Proof.
  apply (t2_conserves_holdings pay_tx toy_keys pay_ctx);
    [apply pay_ctx_ok | apply pay_tx_made | vm_compute; reflexivity].
Defined.

(** C15: when a transaction is refused, and what a refusal leaves behind.  An
    unsound transaction changes nothing.  A sound one is worked off transfer by
    transfer.  It is refused only at a transfer that takes coins in an exchange
    from an address where the coin is unknown or the balance is less than the
    (negative) amount, and then the effects of exactly the transfers in front of
    that one remain; worked off to the end it is accepted. *)
Theorem t2_refusal (tx : Tier2Transaction) (keys : KeyRing) (c c' : VCtx) (oper : Z)
    (xfers : list Transfer) (vs : list tview) (b : bool) :
  ctx_ok c -> t2_getOperation tx = Ok oper -> t2_getTransfers tx = Ok xfers ->
  views xfers = Ok vs -> t2_isValid tx keys c = (Ok b, c') ->
  (t2_isSound tx keys <> Ok true /\ b = false /\ c' = c) \/
  (t2_isSound tx keys = Ok true /\
   exists before rest, vs = before ++ rest /\ effect_of before c c' /\
     match rest with
     | [] => b = true
     | v :: _ => b = false /\ refused_at oper v (v_state c')
     end).
Proof.
  intros C Ho Hx Hv E. destruct (t2_isValid_inv tx keys c c' b E) as [|(Hs & r & El & Eb)]; [by left|].
  right. split; [done|]. rewrite bind_lift, Ho, bind_lift, Hx in El.
  destruct (t2_valid_loop_spec oper xfers vs c r c' Hv El) as (before & rest & -> & Ha & Hr).
  { destruct Eb as [-> | (? & -> & _)]; done. }
  exists before, rest. split; [done|]. split.
  - apply apply_views_effect; [done | | done]. by apply views_ok, list.Forall_app in Hv as [? _].
  - destruct rest; [by destruct Eb as [-> | (? & -> & _)]; simplify_eq|]. destruct Hr as [N Hr].
    split; [|done]. destruct Eb as [-> | (? & _ & ->)]; [by destruct b | done].
Qed.

(** A signed transaction of Alice's with these transfers. *)
Definition signed_by_alice (vs : list tview) : Tier2Transaction :=
  match t2_ctor_sign_checked eOpType.Exchange (xfer_of <$> vs) nonce8
          (key_of alice : @EC_KEY toy_crypto) toy_keys with
  | Ok tx => t2_set_sound tx false | _ => t2_default
  end.

(** Bob is credited with a coin that Alice, who pays it, has never held. *)
Definition unknown_coin : Tier2Transaction :=
  signed_by_alice [mkView bob 7 5 0; mkView alice 7 (-5) 0].

Lemma t2_refusal_witness :
  let c' := snd (t2_isValid unknown_coin toy_keys pay_ctx) in
  (t2_isSound unknown_coin toy_keys <> Ok true /\ false = false /\ c' = pay_ctx) \/
  (t2_isSound unknown_coin toy_keys = Ok true /\
   exists before rest,
     [mkView bob 7 5 0; mkView alice 7 (-5) 0] = before ++ rest /\ effect_of before pay_ctx c' /\
     match rest with
     | [] => false = true
     | v :: _ => false = false /\ refused_at eOpType.Exchange v (v_state c')
     end).
Proof.
  apply (t2_refusal unknown_coin toy_keys pay_ctx _ eOpType.Exchange
           (xfer_of <$> [mkView bob 7 5 0; mkView alice 7 (-5) 0]));
    [apply pay_ctx_ok | vm_compute; reflexivity..].
Defined.

(** ** What validation does not enforce *)

(** The funds check never refuses.  It compares the (negative) amount of a
    sender with its balance, so wherever the balance is not negative the
    transfer goes through, however large it is. *)
Theorem funds_check_never_refuses (oper : Z) (t : Transfer) (rest : list Transfer) (v : tview)
    (c : VCtx) :
  view_of t = Ok v ->
  (v_amount v < 0 -> recorded (v_state c) (v_addr v) (v_coin v) = true /\
                     0 <= balance (v_state c) (v_addr v) (v_coin v)) ->
  t2_valid_loop oper (t :: rest) c =
    (apply_flow (v_addr v) (v_coin v) (v_amount v) t;; t2_valid_loop oper rest) c.
Proof.
  intros Hv Hb. unfold view_of in Hv. minv. simplify_eq. cbn [v_addr v_coin v_amount] in *.
  cbn [t2_valid_loop]. mstep. rewrite H1. mstep. rewrite H0. mstep. rewrite H.
  destruct ((_ <? 0) && _)%bool eqn:G; [|by autorewrite with mrun].
  bool_to_prop. rewrite bind_assoc, bind_get, bind_assoc. mstep. destruct Hb as [Hr Hb]; [done|].
  rewrite getAmount_total, Hr. rewrite bind_ret, (proj2 (Z.ltb_ge _ _)) by lia. done.
Qed.

(** Such a transfer takes effect when the new balance fits. *)
Lemma transfer_goes_through oper t rest v c :
  view_of t = Ok v ->
  (v_amount v < 0 -> recorded (v_state c) (v_addr v) (v_coin v) = true /\
                     0 <= balance (v_state c) (v_addr v) (v_coin v)) ->
  in_i64 (balance (v_state c) (v_addr v) (v_coin v) + v_amount v) ->
  exists c1, t2_valid_loop oper (t :: rest) c = t2_valid_loop oper rest c1 /\
    forall a coin, balance (v_state c1) a coin = balance (v_state c) a coin + delta_of (flow v) a coin.
Proof.
  intros Hv Hb Hi. rewrite (funds_check_never_refuses oper t rest v c Hv Hb).
  destruct (addCoin_total (v_state c) (flow v) Hi) as (st & Ea).
  unfold view_of in Hv. minv. simplify_eq. unfold flow in Ea. cbn [v_addr v_coin v_amount] in *.
  unfold apply_flow. rewrite bind_assoc, bind_get, bind_assoc, bind_lift, Ea, bind_assoc, bind_put.
  rewrite bind_assoc, bind_lift, H2, bind_assoc, bind_get, bind_put.
  eexists. split; [done|]. intros. by eapply addCoin_balance.
Qed.

(** A payment is the content of a sound transaction. *)
Lemma payment_sound a b coin n d1 d2 :
  let vs := [mkView a coin (-n) d1; mkView b coin n d2] in
  Forall view_ok vs -> 0 < n -> sound_content eOpType.Exchange vs a.
Proof.
  intros vs F Hn. pose proof F as (Fa & _)%list.Forall_cons. split; [done|]. unfold vs.
  split; [|split; [|split; [|split]]]; [| | | cbn; lia | done].
  - repeat constructor; cbn; lia.
  - unfold has_sender. cbn. by rewrite (proj2 (Z.ltb_lt (- n) 0)) by lia.
  - destruct Fa as (_ & _ & Ra & _). cbn in Ra |- *. unfold in_i64b, in_i64 in *.
    rewrite !andb_true_iff, !Z.leb_le. lia.
Qed.

(** C39: an overdraft is accepted.  Whoever has a wallet key can sign a payment of
    more coins than the wallet holds, and [isValid] accepts it and leaves the
    wallet with a negative balance, as long as the two sums fit in 64 bits. *)
Theorem overdraft_accepted `{CryptoLaws} (keys : KeyRing) (k : EC_KEY) (nonce : bytes)
    (c : VCtx) (a b : Address) (coin n d1 d2 : Z) :
  let vs := [mkView a coin (-n) d1; mkView b coin n d2] in
  ctx_ok c -> Forall view_ok vs -> a <> b ->
  getKey keys a = Ok k -> is_node_key k = false -> kMIN_NONCE_SIZE <= zlen nonce < 2 ^ 32 ->
  recorded (v_state c) a coin = true -> 0 <= balance (v_state c) a coin < n ->
  in_i64 (balance (v_state c) b coin + n) ->
  exists tx c',
    t2_ctor_sign_checked eOpType.Exchange (xfer_of <$> vs) nonce k keys = Ok tx /\
    t2_isValid tx keys c = (Ok true, c') /\
    balance (v_state c') a coin = balance (v_state c) a coin - n /\
    balance (v_state c') a coin < 0 /\
    balance (v_state c') b coin = balance (v_state c) b coin + n.
Proof.
  intros vs C F Nab Hk Hw Hn Hr Hb Ho.
  pose proof (payment_sound a b coin n d1 d2 F ltac:(lia)) as Hs. fold vs in Hs.
  pose proof (xfers_canonical_bound vs F) as Bx. change (zlen vs) with 2 in Bx.
  destruct (t2_sign_ok eOpType.Exchange vs nonce k keys a Hs Hk) as (sig & E & W & _ & Z);
    [by rewrite Hw | lia | unfold t2_body; autorewrite with devv_rw; lia |].
  exists (t2_built eOpType.Exchange vs nonce sig true).
  assert (zlen (t2_body eOpType.Exchange vs nonce ++ s_canonical sig) < 2 ^ 63) as Lb.
  { rewrite zlen_app. unfold SignatureOps.size in Z. rewrite Z. unfold t2_body.
    autorewrite with devv_rw. unfold_sizes. rewrite Z.eqb_refl. lia. }
  apply list.Forall_cons in F as F'. destruct F' as [Fa [Fb _]%list.Forall_cons].
  destruct (transfer_goes_through eOpType.Exchange (xfer_of (mkView a coin (-n) d1))
    [xfer_of (mkView b coin n d2)] _ c (view_of_xfer _ Fa)) as (c1 & E1 & B1); [cbn; intros _; split; [done | lia] | |].
  { destruct Fa as (_ & _ & Ra & _). unfold in_i64 in *. cbn in *. lia. }
  destruct (transfer_goes_through eOpType.Exchange (xfer_of (mkView b coin n d2)) [] _ c1
    (view_of_xfer _ Fb)) as (c2 & E2 & B2); [cbn; lia | |].
  { rewrite B1. unfold delta_of, flow. cbn. rewrite decide_False by (intros [? _]; by subst).
    by rewrite Z.add_0_r. }
  exists c2. split; [done|]. split.
  { unfold t2_isValid, try_catch. rewrite bind_lift.
    change (t2_isSound (t2_built eOpType.Exchange vs nonce sig true) keys) with (Ok true).
    cbn [negb]. rewrite bind_lift, built_getOperation, bind_lift, built_getTransfers by done.
    unfold vs. rewrite !fmap_cons, fmap_nil, E1, E2. done. }
  rewrite !B2, !B1. unfold delta_of, flow. cbn.
  repeat ((rewrite decide_True by done) || (rewrite decide_False by (intros [? _]; congruence))). lia.
Qed.

Definition overdraft : list tview := [mkView alice 1 (-1000) 0; mkView bob 1 1000 0].

(** Alice, who holds 10 coins, sends 1000. *)
Lemma overdraft_accepted_witness :
  exists tx c',
    t2_ctor_sign_checked eOpType.Exchange (xfer_of <$> overdraft) nonce8
      (key_of alice : @EC_KEY toy_crypto) toy_keys = Ok tx /\
    t2_isValid tx toy_keys pay_ctx = (Ok true, c') /\
    balance (v_state c') alice 1 = 10 - 1000 /\ balance (v_state c') alice 1 < 0 /\
    balance (v_state c') bob 1 = 0 + 1000.
Proof.
  apply (overdraft_accepted (H0 := toy_laws) toy_keys (key_of alice) nonce8 pay_ctx alice bob 1 1000 0 0);
    [apply pay_ctx_ok | | done | vm_compute; reflexivity | reflexivity | vm_compute; intuition done
    | reflexivity | vm_compute; intuition done | unfold in_i64; vm_compute; intuition done].
  repeat constructor; unfold in_i64, in_u64; vm_compute; intuition done.
Defined.

(** Validation is not atomic.  Bob is credited before Alice's transfer of a
    coin she has never held makes [getAmount] throw; [isValid] returns false,
    and the chain state and the summary keep Bob's 5 coins. *)
Theorem refused_transaction_leaves_effects :
  let tx := signed_by_alice [mkView bob 7 5 0; mkView alice 7 (-5) 0] in
  let '(r, c) := t2_isValid tx toy_keys pay_ctx in
  r = Ok false /\ balance (v_state c) bob 7 = 5 /\ balance (v_state c) alice 7 = 0 /\
  SummaryOps.isSane (v_summary c) = false.
Proof. vm_compute. auto. Qed.

(** Amounts of different coin types cancel.  The sum that [isSound] checks
    runs over all coins, so a correctly signed exchange that takes 5 of coin 1
    and gives 5 of coin 2 is accepted, and the supply of both coins changes. *)
Theorem coin_types_cancel :
  let tx := signed_by_alice [mkView alice 1 (-5) 0; mkView bob 2 5 0] in
  let '(r, c) := t2_isValid tx toy_keys pay_ctx in
  r = Ok true /\ supply 1 (v_state c) = 5 /\ supply 1 (v_state pay_ctx) = 10 /\
  supply 2 (v_state c) = 5 /\ supply 2 (v_state pay_ctx) = 0.
Proof. vm_compute. auto. Qed.
