(* ===== verification/PropsConsensus.v ===== *)
(** * The pool, the chain and consensus

    The pool's methods and the handlers over all messages: what they accept,
    what they keep, and one whole round between a proposer and a peer.  The
    file ends with what the protocol does not enforce. *)

From Stdlib Require Import ZArith Lia.
From stdpp Require Import relations.
From stdpp Require Import base list numbers.
From S2P Require Import Prelude OrdMap Converters Keys Buffers Transfer ChainState Summary.
From S2P Require Import Validation KeyRing Context Transactions Blocks Message Blockchain Pool.
From S2P Require Import Handlers Node Round Samples.

(** ** A shard of three nodes at work *)

(** The payment arrives at node 0, whose turn it is. *)
Definition announce : DevcashMessage :=
  mkMessage [] eMessageType.TRANSACTION_ANNOUNCEMENT (tc_bytes pay_content) 7.
Definition fresh : Node := node_start T1 100 0.
Definition proposer : Node := snd (validatorCallback (Some announce) (ctx 0) toy_keys fresh).

Definition last_sent (n : Node) : DevcashMessage :=
  match list.last (n_sent n) with Some m => m | None => announce end.

(** Node 1 answers, and node 0 finalises. *)
Definition peer : Node :=
  snd (consensusCallback noon (last_sent proposer) (ctx 1) toy_keys fresh).
Definition finalised : Node :=
  snd (consensusCallback noon (last_sent peer) (ctx 0) toy_keys proposer).

Lemma node_keys i : i = 0 \/ i = 1 \/ i = 2 ->
  has_keys (H0 := toy_laws) toy_keys (ctx i) (node (5 + i)) (key_of (node (5 + i))).
Proof.
  intros Hi. split; [|split; [|split]].
  - by destruct Hi as [-> | [-> | ->]].
  - by destruct Hi as [-> | [-> | ->]]; vm_compute.
  - apply node_wf.
  - by destruct Hi as [-> | [-> | ->]]; vm_compute.
Qed.

(** C1: the invariant of a node.  Start with an empty chain and let the three
    controllers handle any messages in any order: as long as the process lives,
    the chain's counters agree with its blocks and every chain state it recorded
    is well formed, both mutexes of the pool are free, every pending transaction
    is sound and filed under its own signature, and a pending proposal contains
    sound transactions only and names the hash of the current top block. *)
Theorem reachable_nodes_ok `{CryptoLaws} (keys : KeyRing) (context : DevcashContext)
    (a : Address) (k : EC_KEY) (mode : eAppMode) (max_tx remote : Z) (n : Node) :
  has_keys keys context a k -> rtc (node_step keys context) (node_start mode max_tx remote) n ->
  node_ok keys n.
Proof. intros Hk. by eapply node_reachable_ok, has_keys_signable. Qed.

Lemma reachable_nodes_ok_witness : node_ok toy_keys finalised.
Proof.
  apply (reachable_nodes_ok (H0 := toy_laws) toy_keys (ctx 0) (node 5) (key_of (node 5)) T1 100 0).
  - apply (node_keys 0). auto.
  - apply rtc_l with proposer; [apply (step_validator _ _ _ _ (Some announce) (Ok tt)); vm_compute; done|].
    apply rtc_l with finalised; [|apply rtc_refl].
    apply (step_consensus _ _ _ _ noon (last_sent peer) (Ok tt)); vm_compute; done.
Defined.

(** C2: a block that a node finalises extends its chain.  When
    [HandleValidationBlock] finalises, exactly one block is appended; it names
    the hash of the block that was on top, holds sound transactions only and at
    least two validations, its state is well formed, its transactions have left
    the pool, and its bytes are what the node sends to its shard. *)
Theorem finalised_block_extends_chain `{Crypto} (keys : KeyRing) (now : Z) (msg : DevcashMessage)
    (context : DevcashContext) (n n' : Node) :
  node_ok keys n -> HandleValidationBlock now msg context n = (Ok true, n') ->
  exists b sigs,
    chain_ (n_chain n') = chain_ (n_chain n) ++ [b] /\
    fb_prev_hash b = tip_hash (n_chain n) /\
    Forall (sound keys) (fb_transactions b) /\ 2 <= zlen (sigs_ (fb_vals b)) /\
    cs_ok (fb_block_state b) /\
    map_res tx_getSignature (fb_transactions b) = Ok sigs /\
    (forall s, s ∈ sigs -> om_find s (txs_ (n_pool n')) = None) /\
    n_sent n' = n_sent n ++ [mkMessage (ContextOps.get_shard_uri context) eMessageType.FINAL_BLOCK
                               (fb_getCanonical b) (m_index msg)].
Proof.
  intros N E. apply (finalised_inv keys) in E as (b & p & (Hp & Hc & Hs) & Hq & -> & sigs & Hsig & Hrm);
    [|done].
  exists (fb_of_proposed now b), sigs. cbn [n_chain n_pool n_sent bc_push_back chain_].
  unfold fb_of_proposed, fb_set_merkle_root. cbn [fb_prev_hash fb_transactions fb_vals fb_block_state].
  rewrite clone_all. do 3 (split; [done|]). split; [|done].
  change (ContextOps.get_peer_count context / 2) with 1 in Hq. unfold u32, u32_mod in Hq.
  pose proof (Z.mod_le (zlen (sigs_ (pb_vals b))) (2 ^ 32) (zlen_nonneg _)). lia.
Qed.

Lemma proposer_ok : node_ok toy_keys proposer.
Proof.
  eapply node_step_ok; [eapply (has_keys_signable (H0 := toy_laws)), (node_keys 0); auto
    | apply node_start_ok
    | apply (step_validator _ _ fresh _ (Some announce) (Ok tt)); vm_compute; done].
Qed.

Lemma finalised_block_extends_chain_witness :
  exists b sigs,
    chain_ (n_chain finalised) = chain_ (n_chain proposer) ++ [b] /\
    fb_prev_hash b = tip_hash (n_chain proposer) /\
    Forall (sound toy_keys) (fb_transactions b) /\ 2 <= zlen (sigs_ (fb_vals b)) /\
    cs_ok (fb_block_state b) /\
    map_res tx_getSignature (fb_transactions b) = Ok sigs /\
    (forall s, s ∈ sigs -> om_find s (txs_ (n_pool finalised)) = None) /\
    n_sent finalised = n_sent proposer ++
      [mkMessage (ContextOps.get_shard_uri (ctx 0)) eMessageType.FINAL_BLOCK (fb_getCanonical b)
         (m_index (last_sent peer))].
Proof.
  apply (finalised_block_extends_chain toy_keys noon (last_sent peer) (ctx 0) proposer finalised);
    [apply proposer_ok | vm_compute; reflexivity].
Defined.

(** C5: a round of consensus succeeds.  A peer that reads a proposal of tier 1
    transactions, whose author may send it, answers with its validation; on that
    answer the author finalises the same transactions, in a block whose counters
    are right and which carries the peer's signature. *)
Theorem consensus_round `{CryptoLaws} (keys : KeyRing) (l : list t1_content) (b : ProposedBlock)
    (context1 context2 : DevcashContext) (n1 n2 : Node) (a2 : Address) (k2 : EC_KEY)
    (msg : DevcashMessage) (now : Z) :
  sendable keys l b -> 1 <= zlen (sigs_ (pb_vals b)) ->
  zlen (pb_getCanonical b) + ValidationOps.pairSize < 2 ^ 32 ->
  pending_proposal_ (n_pool n1) = b -> locks false false (n_pool n1) ->
  has_keys keys context2 a2 k2 -> om_find a2 (sigs_ (pb_vals b)) = None ->
  chain_inv (n_chain n2) -> mode_ (n_pool n2) = T1 -> m_data msg = pb_getCanonical b ->
  in_u64 now ->
  exists n2' reply n1' fb sig2,
    HandleProposalBlock msg context2 keys n2 = (Ok true, n2') /\
    n_sent n2' = n_sent n2 ++ [reply] /\ m_index reply = m_index msg /\
    HandleValidationBlock now reply context1 n1 = (Ok true, n1') /\
    chain_ (n_chain n1') = chain_ (n_chain n1) ++ [fb] /\ fb_wf fb /\
    fb_transactions fb = pb_transactions b /\
    om_find a2 (sigs_ (fb_vals fb)) = Some sig2 /\
    VerifyByteSig k2 (DevcashHash (SummaryOps.getCanonical (fb_summary fb))) sig2 = Ok true.
Proof.
  intros Sd H1 L Hb Lk Hk Hf C Hm Hd Hnow. pose proof Hk as (_ & _ & Na & _).
  destruct (peer_answers keys context2 n2 b l a2 k2 msg Sd Hk Hf C Hm Hd) as (sig2 & Ns & Hv & Hrun).
  destruct (proposer_finalises keys context1 n1 b l a2 sig2 now
    (valid_msg context2 (countersigned b a2 sig2) (m_index msg)) Sd Na Ns Hf H1 L Hb Lk eq_refl)
    as (p' & Hfin).
  destruct (countersigned_ok keys l b a2 sig2 Sd Na Ns Hf L) as (W2 & _).
  do 2 eexists. eexists. exists (fb_of_proposed now (countersigned b a2 sig2)), sig2.
  split; [exact Hrun|]. split; [done|]. split; [done|]. split; [exact Hfin|]. split; [done|].
  split; [apply fb_of_proposed_wf; [done | done | apply SHA256_length]|].
  unfold fb_of_proposed, fb_set_merkle_root, countersigned, pb_set_vals.
  cbn [fb_transactions fb_vals fb_summary pb_transactions pb_vals pb_summary sigs_].
  rewrite clone_all, Copy_id, om_find_put_eq. done.
Qed.

(** The proposal of node 0 with its own validation. *)
Definition first_vals : Validation :=
  mkValidation [(node 5, sign_summary (node 5) pay_summary)].
Definition first_proposal : ProposedBlock :=
  pb_set_vals (pb_ctor (DevcashHash genesis) [tc_tx false pay_content] pay_summary ValidationOps.Create
                 (mkChainState [(alice, [(1, -5)]); (bob, [(1, 5)])])) first_vals 1.

Lemma first_proposal_sendable : sendable toy_keys [pay_content] first_proposal.
Proof.
  split; [|split; [by exists false | split; [done | split]]].
  - apply (pb_set_vals_wf (pb_ctor _ _ _ _ _) first_vals).
    + apply pb_ctor_wf; [vm_compute; done | apply pay_summary_ok | apply val_Create_ok
        | vm_compute; done | vm_compute; done].
    + split; [repeat constructor|].
      apply Forall_cons; [split; [apply node_wf | apply sign_summary_node] | constructor].
    + vm_compute. done.
  - apply Forall_cons; [apply pay_content_ok | constructor].
  - vm_compute. done.
Qed.

Lemma consensus_round_witness :
  exists n2' reply n1' fb sig2,
    HandleProposalBlock (last_sent proposer) (ctx 1) toy_keys fresh = (Ok true, n2') /\
    n_sent n2' = n_sent fresh ++ [reply] /\ m_index reply = m_index (last_sent proposer) /\
    HandleValidationBlock noon reply (ctx 0) proposer = (Ok true, n1') /\
    chain_ (n_chain n1') = chain_ (n_chain proposer) ++ [fb] /\ fb_wf fb /\
    fb_transactions fb = pb_transactions first_proposal /\
    om_find (node 6) (sigs_ (fb_vals fb)) = Some sig2 /\
    VerifyByteSig (key_of (node 6) : @EC_KEY toy_crypto)
      (DevcashHash (SummaryOps.getCanonical (fb_summary fb))) sig2 = Ok true.
Proof.
  apply (consensus_round (H0 := toy_laws) toy_keys [pay_content] first_proposal (ctx 0) (ctx 1)
           proposer fresh (node 6) (key_of (node 6)) (last_sent proposer) noon);
    [apply first_proposal_sendable | vm_compute; done | vm_compute; done | vm_compute; reflexivity
    | vm_compute; done | apply (node_keys 1); auto | vm_compute; reflexivity
    | split; [apply bc_empty_ok | constructor] | reflexivity | vm_compute; reflexivity
    | unfold in_u64, noon; lia].
Defined.

(** C23: what a node proposes.  [ProposeBlock] leaves a proposal over the given
    hash that holds transactions of the pool, each of them sound, at most as
    many as the limit, with a well-formed state and summary and exactly one
    validation: the node's own signature over the summary. *)
Theorem proposal_contents `{Crypto} (keys : KeyRing) (h : bytes) (prior : ChainState)
    (context : DevcashContext) (p p' : Pool) (r : bool) :
  cs_ok prior -> ProposeBlock h prior keys context p = (Ok r, p') ->
  let b := pending_proposal_ p' in
  pb_prev_hash b = h /\ cs_ok (pb_block_state b) /\ summary_ok (pb_summary b) /\
  Forall (fun t => tx_isSound t keys = Ok true /\ exists e, e ∈ txs_ p /\ t = e.2.2) (pb_transactions b) /\
  (0 < max_tx_per_block_ p < 2 ^ 32 -> zlen (pb_transactions b) <= max_tx_per_block_ p) /\
  exists a k sig, sigs_ (pb_vals b) = [(a, sig)] /\
    getNodeAddr keys (ContextOps.get_current_node context mod 3) = Ok a /\
    getNodeKey keys (ContextOps.get_current_node context mod 3) = Ok k /\
    SignBinary k (DevcashHash (SummaryOps.getCanonical (pb_summary b))) = Ok sig.
Proof.
  intros C E. apply ProposeBlock_spec in E as (txs & st & s & a & sig & v & -> & Hb & Cs & So & F & L & Ha
    & Hv & k & Hk & Hs); [|done].
  cbn zeta. rewrite Hb. unfold pb_set_vals, pb_ctor.
  cbn [pb_prev_hash pb_block_state pb_summary pb_transactions pb_vals]. rewrite Copy_id. eauto 15.
Qed.

Definition loaded : Pool :=
  snd (AddTransactions toy_keys [tc_tx true pay_content] (pool_ctor funded T1 100)).

Lemma proposal_contents_witness :
  let b := pending_proposal_ (snd (ProposeBlock zero_hash funded toy_keys (ctx 0) loaded)) in
  pb_prev_hash b = zero_hash /\ cs_ok (pb_block_state b) /\ summary_ok (pb_summary b) /\
  Forall (fun t => tx_isSound t toy_keys = Ok true /\ exists e, e ∈ txs_ loaded /\ t = e.2.2)
    (pb_transactions b) /\
  (0 < max_tx_per_block_ loaded < 2 ^ 32 -> zlen (pb_transactions b) <= max_tx_per_block_ loaded) /\
  exists a k sig, sigs_ (pb_vals b) = [(a, sig)] /\
    getNodeAddr toy_keys (ContextOps.get_current_node (ctx 0) mod 3) = Ok a /\
    getNodeKey toy_keys (ContextOps.get_current_node (ctx 0) mod 3) = Ok k /\
    SignBinary k (DevcashHash (SummaryOps.getCanonical (pb_summary b))) = Ok sig.
Proof.
  apply (proposal_contents toy_keys zero_hash funded (ctx 0) loaded _ true);
    [apply funded_ok | vm_compute; reflexivity].
Defined.

(** The pool takes what is sound.  Offered a list of sound transactions,
    [AddTransactions] answers true and every one of them is pending afterwards
    under its signature; whatever it is offered, nothing pending is lost and the
    pool keeps holding sound transactions only, in order. *)
Theorem pool_accepts_sound `{Crypto} (keys : KeyRing) (txs : list Transaction) (p : Pool) :
  pool_ok keys p -> txs_locked p = false ->
  Forall (fun t => exists sig, tx_getSignature t = Ok sig /\ tx_isSound t keys = Ok true) txs ->
  exists p', AddTransactions keys txs p = (Ok true, p') /\ pool_ok keys p' /\
    Forall (fun t => exists sig, tx_getSignature t = Ok sig /\ in_pool p' sig) txs /\
    (forall sig, in_pool p sig -> in_pool p' sig).
Proof.
  intros C L F. destruct (add_loop_sound keys txs (set_txs_lock p true) F) as (p1 & E).
  assert (AddTransactions keys txs p = (Ok true, set_txs_lock p1 false)) as R.
  { unfold AddTransactions, with_txs_lock, try_catch. by rewrite L, E. }
  eexists. split; [exact R|]. pose proof (AddTransactions_keeps keys txs p C) as K. rewrite R in K.
  split; [exact K|]. by apply (AddTransactions_in keys) in R.
Qed.

Lemma pay_in_pool : Forall (fun t => exists sig, tx_getSignature t = Ok sig /\
  tx_isSound t toy_keys = Ok true) [tc_tx false pay_content].
Proof. apply Forall_cons; [|constructor]. eexists. split; vm_compute; reflexivity. Qed.

Lemma pool_accepts_sound_witness :
  exists p', AddTransactions toy_keys [tc_tx false pay_content] (pool_ctor funded T1 100) = (Ok true, p') /\
    pool_ok toy_keys p' /\
    Forall (fun t => exists sig, tx_getSignature t = Ok sig /\ in_pool p' sig) [tc_tx false pay_content] /\
    (forall sig, in_pool (pool_ctor funded T1 100) sig -> in_pool p' sig).
Proof.
  apply (pool_accepts_sound toy_keys [tc_tx false pay_content] (pool_ctor funded T1 100));
    [split; [done | constructor] | reflexivity | apply pay_in_pool].
Defined.

(** Every method of the pool that takes a mutex gives it back: it leaves
    both mutexes as it found them, also when an exception leaves the method or
    it is entered with a mutex already held. *)
Theorem pool_methods_unlock `{Crypto} (keys : KeyRing) (txs : list Transaction) (h : bytes)
    (prior : ChainState) (context : DevcashContext) (buf : InputBuffer) (now : Z) (b : ProposedBlock) :
  lock_neutral (AddTransactions keys txs) /\
  lock_neutral (CollectValidTransactions keys prior SummaryOps.Create) /\
  lock_neutral (ProposeBlock h prior keys context) /\
  lock_neutral (ReverifyTransactions prior keys) /\
  lock_neutral (ReverifyProposal h prior keys context) /\
  lock_neutral (CheckValidation context buf) /\
  lock_neutral (RemoveTransactions b) /\
  lock_neutral (FinalizeLocalBlock now) /\
  lock_neutral HasProposal /\ lock_neutral getProposal /\ lock_neutral HasPendingTransactions.
Proof.
  split_and!; [apply AddTransactions_neutral | apply Collect_neutral | apply ProposeBlock_neutral
    | apply Reverify_neutral | apply ReverifyProposal_neutral | apply CheckValidation_neutral
    | apply Remove_neutral | apply FinalizeLocal_neutral | apply HasProposal_neutral
    | apply getProposal_neutral | apply HasPending_neutral].
Qed.

(** Turns.  At every height of the chain exactly one of the three nodes of
    a shard is the proposer: the one whose number is the height modulo 3. *)
Theorem one_proposer_per_height (height shard : Z) (mode : eAppMode) (batch wait : Z) :
  0 <= height -> 0 <= shard < 2 ^ 30 ->
  exists i, 0 <= i < 3 /\
    forall j, 0 <= j < 3 -> (my_turn height (mkContext j shard mode batch wait) = true <-> j = i).
Proof.
  intros Hh Hs. exists (height mod 3). pose proof (Z.mod_pos_bound height 3). split; [lia|].
  intros j Hj. unfold my_turn.
  rewrite (node_in_shard (mkContext j shard mode batch wait))
    by (unfold ContextOps.get_peer_count; cbn [current_node_ current_shard_]; lia).
  change (ContextOps.get_peer_count _) with 3. cbn [current_node_]. rewrite Z.eqb_eq. split; lia.
Qed.

Lemma one_proposer_per_height_witness :
  exists i, 0 <= i < 3 /\
    forall j, 0 <= j < 3 -> (my_turn 7 (mkContext j 2 T2 100 0) = true <-> j = i).
Proof. apply (one_proposer_per_height 7 2 T2 100 0); lia. Defined.

(** C32: what a peer checks of a proposal.  [validate] accepts exactly the
    blocks that have a transaction, whose summary names an address and has
    deltas that cancel modulo 2^64, and all of whose validations verify over the
    summary.  Neither the transactions nor the link to the chain enter. *)
Theorem validate_iff `{Crypto} (b : ProposedBlock) (keys : KeyRing) :
  pb_validate b keys = Ok true <->
  pb_transactions b <> [] /\
  (summary_ (pb_summary b) <> [] /\ u64 (summary_sum (pb_summary b)) = 0) /\
  Forall (fun v => exists k, getKey keys v.1 = Ok k /\
            VerifyByteSig k (DevcashHash (SummaryOps.getCanonical (pb_summary b))) v.2 = Ok true)
    (sigs_ (pb_vals b)).
Proof. by rewrite pb_validate_spec, isSane_spec. Qed.

(** ** What the protocol does not enforce *)

(** One bad transaction stops the others.  A tier 2 transaction that is not
    sound makes [isSound] throw, [AddTransactions] ends there, and whatever
    follows it in the message is not added, however sound. *)
Theorem bad_transaction_stops_the_rest `{Crypto} (keys : KeyRing) (bad : Transaction)
    (rest : list Transaction) (p : Pool) (sig : Signature) (e : exn) :
  txs_locked p = false -> tx_getSignature bad = Ok sig -> om_find sig (txs_ p) = None ->
  tx_isSound bad keys = Err e -> is_std_exception e = true ->
  AddTransactions keys (bad :: rest) p = (Ok false, p).
Proof. apply AddTransactions_aborts. Qed.

(** Alice pays Bob under the signature of another message. *)
Definition forged : Transaction :=
  Tier2 (t2_built eOpType.Exchange pay nonce8 wallet_sig false).

Lemma bad_transaction_stops_the_rest_witness :
  AddTransactions toy_keys [forged; tc_tx false pay_content] (pool_ctor funded T2 100) =
    (Ok false, pool_ctor funded T2 100).
Proof.
  apply (bad_transaction_stops_the_rest toy_keys forged [tc_tx false pay_content]
           (pool_ctor funded T2 100) wallet_sig RuntimeError); vm_compute; reflexivity.
Defined.

(** A proposal that no longer verifies cannot be replaced.  When a remote
    block invalidates the pending proposal, [ReverifyProposal] calls
    [ProposeBlock] while it holds the proposal's mutex, and [ProposeBlock] locks
    the same mutex again: undefined for [std::mutex]. *)
Theorem reverify_relocks `{Crypto} (keys : KeyRing) (h : bytes) (prior : ChainState)
    (context : DevcashContext) (p p1 p2 : Pool) (v : list Transaction * ChainState * Summary)
    (signed : bool * ProposedBlock) :
  proposal_locked p = false -> pb_isNull (pending_proposal_ p) = false ->
  ReverifyTransactions prior keys (set_proposal_lock p true) = (Ok false, p1) ->
  CollectValidTransactions keys prior SummaryOps.Create p1 = (Ok v, p2) ->
  pb_signBlock (pb_ctor h v.1.1 v.2 ValidationOps.Create v.1.2) keys context = Ok signed ->
  fst (ReverifyProposal h prior keys context p) = UB.
Proof. apply ReverifyProposal_relocks. Qed.

(** A proposal of the forged transaction, which is never valid. *)
Definition stale : Pool :=
  set_proposal (pool_ctor funded T2 100)
    (pb_ctor zero_hash [forged] SummaryOps.Create ValidationOps.Create funded).

Lemma reverify_relocks_witness :
  fst (ReverifyProposal zero_hash funded toy_keys (ctx 0) stale) = UB.
Proof.
  apply (reverify_relocks toy_keys zero_hash funded (ctx 0) stale (set_proposal_lock stale true)
           (set_proposal_lock stale true) ([], funded, SummaryOps.Create)
           (true, pb_set_vals (pb_ctor zero_hash [] SummaryOps.Create ValidationOps.Create funded)
                    (mkValidation [(node 5, sign_summary (node 5) SummaryOps.Create)]) 1));
    vm_compute; reflexivity.
Defined.

(** Node 2 receives the block that node 0 finalised. *)
Definition received : Node :=
  snd (HandleFinalBlock (last_sent finalised) (ctx 2) toy_keys fresh).

(** A remote block does not move the chain state.  Whatever transactions a
    final block from a peer holds, a node on which [HandleFinalBlock] returns
    has the same highest chain state as before. *)
Theorem remote_block_keeps_state `{Crypto} (keys : KeyRing) (context : DevcashContext)
    (msg : DevcashMessage) (n n' : Node) (r : bool) :
  chain_inv (n_chain n) -> room n -> HandleFinalBlock msg context keys n = (Ok r, n') ->
  zlen (chain_ (n_chain n')) = zlen (chain_ (n_chain n)) + 1 /\
  bc_getHighestChainState (n_chain n') = bc_getHighestChainState (n_chain n).
Proof.
  intros C R E. apply final_block_inv in E as (top & Hs & Hc); [|done]. rewrite Hc. split.
  - cbn [bc_push_back chain_]. rewrite zlen_app, zlen_cons, zlen_nil. lia.
  - destruct (bc_push_top (n_chain n) top (proj1 C) R) as (_ & -> & _). by rewrite <- Hs.
Qed.

Lemma remote_block_keeps_state_witness :
  zlen (chain_ (n_chain received)) = 0 + 1 /\
  bc_getHighestChainState (n_chain received) = bc_getHighestChainState (n_chain fresh).
Proof.
  apply (remote_block_keeps_state toy_keys (ctx 2) (last_sent finalised) fresh received false);
    [split; [apply bc_empty_ok | constructor] | unfold room; vm_compute; done | vm_compute; reflexivity].
Defined.
