(* ===== verification/PropsThreads.v ===== *)
(** * The three workers of a node, interleaved

    What every interleaving keeps, which accesses can race, that the mutexes
    cannot deadlock except in the one place where a thread locks twice, and two
    schedules that lose what a node guarantees when its callbacks run one at a
    time. *)

From Stdlib Require Import ZArith Lia.
From stdpp Require Import relations.
From stdpp Require Import base list numbers functions.
From S2P Require Import Prelude OrdMap Converters Keys Buffers Transfer ChainState Summary.
From S2P Require Import Validation KeyRing Context Transactions Blocks Message Blockchain Pool.
From S2P Require Import Handlers Node Network Threads Interleave InterleaveSeq InterleaveSafe.
From S2P Require Import Samples PropsConsensus.

#[local] Open Scope devv_scope.

(** ** Schedules on the sample shard *)
Section schedules.
Abbreviation conf := (@config Node mutex loc Worker).

Definition noon_clock : nat -> Z := fun _ => noon.

(** A message taken up by a worker of node [i], and [k] steps of a worker. *)
Definition take_up (i : Z) (w : Worker) (msg : DevcashMessage) : event :=
  Start w (worker_program toy_keys false false 100 w noon_clock (ctx i) T1 msg).
Definition steps (k : nat) (w : Worker) : list (@event Node mutex loc Worker) := replicate k (Go w).

Definition start_conf : conf := threads_start T1 100 0.
Definition roomb (n : Node) : bool := zlen (chain_ (n_chain n)) + 1 <? 2 ^ 31.

(** What a list of events reaches, when each of them can be played. *)
Definition run_to (es : list event) (c : conf) : option conf := exec_within roomb es c.
Definition reached (es : list event) (c : conf) : conf := default c (run_to es c).
Definition is_some {A} (o : option A) : bool := match o with Some _ => true | None => false end.

(** Two final blocks that node 0 made. *)
Definition remote_block : DevcashMessage := last_sent finalised.
Definition later_block : DevcashMessage :=
  last_sent (snd (consensusCallback (noon + 1) (last_sent peer) (ctx 0) toy_keys proposer)).

(** Node 1 has one block; its validator worker is about to read the top block
    for a proposal, and its consensus worker to append another block. *)
Definition race_events : list event :=
  take_up 1 Consensus remote_block :: steps 14 Consensus ++
  take_up 1 Validator announce :: steps 15 Validator ++
  take_up 1 Consensus later_block :: steps 3 Consensus.

(** The same without the second block: nobody is about to append. *)
Definition read_events : list event :=
  take_up 1 Consensus remote_block :: steps 14 Consensus ++
  take_up 1 Validator announce :: steps 15 Validator.

(** The validator reads first, then the block is appended, then the proposal is
    made. *)
Definition stale_events : list event :=
  steps 1 Validator ++ steps 12 Consensus ++ steps 13 Validator.

(** Another block arrives at the reader's node, and both workers finish. *)
Definition grow_events : list event :=
  take_up 1 Consensus later_block :: steps 3 Consensus ++ stale_events.

(** Node 0's validator worker is about to store a proposal when three blocks
    arrive; the consensus worker proposes and finds its own proposal validated;
    then the validator stores, and the consensus worker finalises. *)
Definition pause_events : list event :=
  take_up 0 Validator announce :: steps 18 Validator ++
  take_up 0 Consensus remote_block :: steps 14 Consensus ++
  take_up 0 Consensus remote_block :: steps 15 Consensus ++
  take_up 0 Consensus remote_block :: steps 38 Consensus.

Definition second_valid : DevcashMessage :=
  last_sent (snd (consensusCallback noon (last_sent (c_shared (reached pause_events start_conf))) (ctx 1) toy_keys fresh)).

Definition usurp_events : list event :=
  take_up 0 Consensus second_valid :: steps 4 Consensus ++ steps 3 Validator ++ steps 13 Consensus.

(** The tests: two workers about to race; all idle with a proposal over another
    block than the top one, sent as it is; a top block with one validation over
    another block than the one below, sent as final. *)
Definition is_running (t : @tstate Node mutex loc) : bool :=
  match t with Running _ _ => true | _ => false end.
Definition is_idle (t : @tstate Node mutex loc) : bool := match t with Idle => true | _ => false end.

Definition racing_test (c : conf) : bool :=
  match next_access (c_threads c Consensus), next_access (c_threads c Validator) with
  | [Write LChain], [Read LChain] => is_running (c_threads c Validator)
  | _, _ => false
  end.

Definition reading_test (c : conf) : bool :=
  is_idle (c_threads c Consensus) && is_idle (c_threads c Internetwork) &&
  match c_threads c Validator with Running _ (Do [Read LChain] _ _) => true | _ => false end.

Definition stale_test (c : conf) : bool :=
  let proposal := pending_proposal_ (n_pool (c_shared c)) in
  is_idle (c_threads c Consensus) && is_idle (c_threads c Internetwork) && is_idle (c_threads c Validator) &&
  negb (pb_isNull proposal) && negb (bool_decide (pb_prev_hash proposal = tip_hash (n_chain (c_shared c)))) &&
  match n_sent (c_shared c) with
  | [msg] => (m_type msg =? eMessageType.PROPOSAL_BLOCK) && bool_decide (m_data msg = pb_getCanonical proposal)
  | _ => false
  end.

Definition usurped_test (c : conf) : bool :=
  match reverse (chain_ (n_chain (c_shared c))), list.last (n_sent (c_shared c)) with
  | b :: b' :: _, Some msg =>
      (zlen (sigs_ (fb_vals b)) =? 1) && negb (bool_decide (fb_prev_hash b = DevcashHash (fb_getCanonical b'))) &&
      (m_type msg =? eMessageType.FINAL_BLOCK) && bool_decide (m_data msg = fb_getCanonical b)
  | _, _ => false
  end.
End schedules.

Abbreviation reading := (reached read_events start_conf).
Abbreviation grown := (reached grow_events reading).
Abbreviation racing := (reached race_events start_conf).
Abbreviation stale := (reached stale_events racing).
Abbreviation paused := (reached pause_events start_conf).
Abbreviation usurped := (reached usurp_events paused).

(** What a schedule reaches is reachable. *)
Definition fine (i : Z) (e : @event Node mutex loc Worker) : Prop :=
  match e with Start w p => worker_starts toy_keys false false (ctx i) T1 w p | Go _ => True end.

Lemma play_step i es c : Forall (fine i) es -> is_some (run_to es c) = true ->
  rtc (threads_step toy_keys false false (ctx i) T1) c (reached es c).
Proof.
  intros F E. unfold reached. unfold run_to in *. destruct (exec_within roomb es c) as [c'|] eqn:R; [|done].
  eapply (exec_reachable (H1 := node_spec toy_keys false)); [|exact F | exact R].
  intros n B. by apply Z.ltb_lt in B.
Qed.

Lemma fine_steps i k w es : Forall (fine i) es -> Forall (fine i) (steps k w ++ es).
Proof. intros F. apply Forall_app. split; [|done]. by apply Forall_replicate. Qed.

Lemma fine_take i w msg es : Forall (fine i) es -> Forall (fine i) (take_up i w msg :: es).
Proof. intros F. constructor; [|done]. by exists 100%nat, noon_clock, msg. Qed.

Ltac fine_schedule :=
  repeat first [apply fine_take | apply fine_steps | apply Forall_replicate; done].

Lemma and_pairs {a b c d : bool} : a && b && (c && d) = true -> (a = true /\ b = true) /\ c = true /\ d = true.
Proof. by destruct a, b, c, d. Qed.

Lemma and_triple {a b c : bool} : a && (b && c) = true -> a = true /\ b = true /\ c = true.
Proof. by destruct a, b, c. Qed.

Lemma race_fine : Forall (fine 1) race_events.
Proof. unfold race_events. fine_schedule. Qed.

Lemma read_fine : Forall (fine 1) read_events.
Proof. unfold read_events. fine_schedule. Qed.

Lemma grow_fine : Forall (fine 1) grow_events.
Proof. unfold grow_events, stale_events. fine_schedule. Qed.

Lemma stale_fine : Forall (fine 1) stale_events.
Proof. unfold stale_events. fine_schedule. Qed.

Lemma pause_fine : Forall (fine 0) pause_events.
Proof. unfold pause_events. fine_schedule. Qed.

Lemma usurp_fine : Forall (fine 0) usurp_events.
Proof. unfold usurp_events. fine_schedule. Qed.

(** Both schedules and what they reach, evaluated. *)
Lemma stale_schedule :
  is_some (run_to race_events start_conf) && racing_test racing && (is_some (run_to stale_events racing) && stale_test stale) = true.
Proof. vm_compute. reflexivity. Qed.

Definition longer_chain (c c' : @config Node mutex loc Worker) : bool :=
  zlen (chain_ (n_chain (c_shared c))) <? zlen (chain_ (n_chain (c_shared c'))).

Lemma read_schedule :
  is_some (run_to read_events start_conf) && reading_test reading &&
  (is_some (run_to grow_events reading) && longer_chain reading grown) = true.
Proof. vm_compute. reflexivity. Qed.

Lemma read_played : (is_some (run_to read_events start_conf) = true /\ reading_test reading = true) /\
  is_some (run_to grow_events reading) = true /\ longer_chain reading grown = true.
Proof. exact (and_pairs read_schedule). Qed.

Lemma usurp_schedule : is_some (run_to pause_events start_conf) && (is_some (run_to usurp_events paused) && usurped_test usurped) = true.
Proof. vm_compute. reflexivity. Qed.

Lemma stale_played : (is_some (run_to race_events start_conf) = true /\ racing_test racing = true) /\
  is_some (run_to stale_events racing) = true /\ stale_test stale = true.
Proof. exact (and_pairs stale_schedule). Qed.

Lemma usurp_played : is_some (run_to pause_events start_conf) = true /\ is_some (run_to usurp_events paused) = true /\ usurped_test usurped = true.
Proof. exact (and_triple usurp_schedule). Qed.

Lemma racing_reachable : rtc (threads_step toy_keys false false (ctx 1) T1) start_conf racing.
Proof. exact (play_step 1 race_events start_conf race_fine (proj1 (proj1 stale_played))). Qed.

Lemma reading_reachable : rtc (threads_step toy_keys false false (ctx 1) T1) start_conf reading.
Proof. exact (play_step 1 read_events start_conf read_fine (proj1 (proj1 read_played))). Qed.

Lemma grown_reachable : rtc (threads_step toy_keys false false (ctx 1) T1) reading grown.
Proof. exact (play_step 1 grow_events reading grow_fine (proj1 (proj2 read_played))). Qed.

Lemma stale_reachable : rtc (threads_step toy_keys false false (ctx 1) T1) racing stale.
Proof. exact (play_step 1 stale_events racing stale_fine (proj1 (proj2 stale_played))). Qed.

Lemma paused_reachable : rtc (threads_step toy_keys false false (ctx 0) T1) start_conf paused.
Proof. exact (play_step 0 pause_events start_conf pause_fine (proj1 usurp_played)). Qed.

Lemma usurped_reachable : rtc (threads_step toy_keys false false (ctx 0) T1) start_conf usurped.
Proof.
  exact (transitivity paused_reachable
    (play_step 0 usurp_events paused usurp_fine (proj1 (proj2 usurp_played)))).
Qed.

(** What the tests say. *)
Lemma racing_test_race c : racing_test c = true ->
  race c Consensus Validator LChain /\ is_running (c_threads c Validator) = true.
Proof.
  unfold racing_test, race. intros T.
  destruct (next_access (c_threads c Consensus)) as [|[[]|[]] [|]]; try done.
  destruct (next_access (c_threads c Validator)) as [|[[]|[]] [|]]; try done.
  split; [|done]. split; [done|]. split; [|left]; apply elem_of_cons; by left.
Qed.

Lemma reading_test_reads c : reading_test c = true ->
  (forall v, ~ race c v Validator LChain) /\
  exists held A (m : M Node A) k, c_threads c Validator = Running held (Do [Read LChain] m k).
Proof.
  unfold reading_test, race. intros T. apply andb_prop in T as [[Tc Ti]%andb_prop T]. split.
  - intros v (N & W & _).
    destruct v; [destruct (c_threads c Consensus) | destruct (c_threads c Internetwork) |]; try done;
      by apply elem_of_nil in W.
  - destruct (c_threads c Validator) as [|held [|? acc m k|? ?|? ?]|]; try done.
    destruct acc as [|[[]|[]] [|]]; try done. by eexists _, _, m, k.
Qed.

Lemma racing_race : race racing Consensus Validator LChain.
Proof. exact (proj1 (racing_test_race racing (proj2 (proj1 stale_played)))). Qed.

(** ** Alone *)

(** The two models agree.  A worker that runs without the others, one access
    at a time, from a node whose mutexes may be in any state, reaches exactly
    the outcome of its callback as modelled in one piece: the same result or
    exception and the same node, with no other thread touched. *)
Theorem serial_schedule `{Crypto} (keys : KeyRing) (info debug : bool) (w : Worker) (fuel : nat)
    (clock : nat -> Z) (context : DevcashContext) (mode : eAppMode) (msg : DevcashMessage)
    (n n' : Node) (r : res unit) (others : Worker -> tstate) :
  bc_size (n_chain n) <= Z.of_nat fuel -> others w = Idle ->
  worker_callback keys w clock context mode msg n = (r, n') -> fatal r = false ->
  exists k c held,
    exec (Start w (worker_program keys info debug fuel w clock context mode msg) :: replicate k (Go w))
      (mkConfig n others) = Some c /\
    c_shared c = n' /\ c_threads c w = Running held (Ret r) /\
    (forall v, v <> w -> c_threads c v = others v).
Proof.
  intros Hf Hi E F. set (p := worker_program keys info debug fuel w clock context mode msg).
  assert (run p n = (r, n')) as R.
  { destruct (run_worker keys info debug fuel w clock context mode msg n Hf) as [E1 E2].
    rewrite E in E1, E2. cbn [fst snd] in *. fold p in E1, E2. rewrite E1 in E2. specialize (E2 F).
    by rewrite (surjective_pairing (run p n)), E1, E2. }
  destruct (go_alone w p [] (mkConfig n (<[w := Running [] p]> others)))
    as (k & c & held & X & S & T & O); [apply fn_lookup_insert | cbn [c_shared]; by rewrite R|].
  cbn [c_shared] in S, T. rewrite R in S, T. exists k, c, held. split; [|split; [done|]].
  - cbn [exec exec1]. unfold start. cbn [c_threads c_shared]. by rewrite Hi.
  - split; [done|]. intros v N. rewrite O by done. by apply fn_lookup_insert_ne.
Qed.

Lemma pair_of_fst {A B} (x : A * B) a : x.1 = a -> x = (a, x.2).
Proof. by destruct x; cbn; intros ->. Qed.

Lemma proposer_run :
  worker_callback toy_keys Validator noon_clock (ctx 0) T1 announce fresh = (Ok tt, proposer).
Proof. unfold proposer. cbn [worker_callback]. apply pair_of_fst. vm_compute. reflexivity. Qed.

Lemma serial_schedule_witness :
  bc_size (n_chain fresh) <= Z.of_nat 100 /\ fatal (Ok tt) = false /\
  exists k c held,
    exec (Start Validator (worker_program toy_keys false false 100 Validator noon_clock (ctx 0) T1 announce)
          :: replicate k (Go Validator)) (mkConfig fresh (fun _ => Idle)) = Some c /\
    c_shared c = proposer /\ c_threads c Validator = Running held (Ret (Ok tt)) /\
    (forall v, v <> Validator -> c_threads c v = Idle).
Proof.
  assert (bc_size (n_chain fresh) <= Z.of_nat 100) as Hf by (vm_compute; done).
  split; [exact Hf|]. split; [reflexivity|].
  exact (serial_schedule toy_keys false false Validator 100 noon_clock (ctx 0) T1 announce fresh
    proposer (Ok tt) (fun _ => Idle) Hf eq_refl proposer_run eq_refl).
Defined.

(** ** Together *)
Section together.
Context `{Crypto} (keys : KeyRing) (info debug : bool) (context : DevcashContext) (mode : eAppMode)
  (max_tx remote : Z).
Abbreviation reachable := (rtc (threads_step keys info debug context mode) (threads_start mode max_tx remote)).

(** C11: what the three workers keep when they run at the same time.  Under every
    interleaving of their accesses, on any messages and through any exceptions:
    the chain's vector is never shorter than its counter says and its states are
    well formed; the pending transactions are sound and filed under their own
    signatures; the proposal holds sound transactions and a well-formed state;
    between two messages of the consensus worker the chain's counters are exact;
    a mutex is locked exactly when one worker has it, and never two. *)
Theorem interleaved_nodes_ok (c : @config Node mutex loc Worker) :
  reachable c ->
  shared_ok keys (c_shared c) /\
  ((c_threads c Consensus = Idle \/ c_threads c Consensus = Gone) -> bc_ok (n_chain (c_shared c))) /\
  (forall m, node_locked m (c_shared c) = true <-> exists w, m ∈ held_of (c_threads c w)) /\
  (forall w v m, m ∈ held_of (c_threads c w) -> m ∈ held_of (c_threads c v) -> w = v).
Proof.
  intros R. pose proof (threads_reachable keys info debug context mode max_tx remote c R) as C.
  split; [apply C|]. split; [|split; [apply C | apply C]].
  intros Hc. pose proof (ci_safe _ C Consensus) as T. by destruct Hc as [E|E]; rewrite E in T.
Qed.

(** C12: readers without a lock.  The workers read the chain's vector while the
    consensus worker may be appending to it.  Since the vector grows before its
    counter and never shrinks, a read that is about to be made, while no other
    worker is at its append, finds its block, whatever was appended since the
    size was read; and what a configuration has of the chain, every later one
    has.  Nothing is claimed of a read that races with an append, which may move
    the vector. *)
Theorem published_blocks_stay (c c' : @config Node mutex loc Worker) :
  reachable c -> rtc (threads_step keys info debug context mode) c c' ->
  chain_ (n_chain (c_shared c)) `prefix_of` chain_ (n_chain (c_shared c')) /\
  (forall w held acc A (m : M Node A) k,
   c_threads c w = Running held (Do acc m k) -> Read LChain ∈ acc ->
   (forall v, ~ race c v w LChain) ->
   exists a, fst (m (c_shared c)) = Ok a).
Proof.
  intros R R'. pose proof (threads_reachable keys info debug context mode max_tx remote c R) as C.
  split.
  - eapply (reachable_G (H1 := node_spec keys debug) (worker_starts keys info debug context mode));
      [|exact C | exact R']. intros v p n St _ J. by eapply worker_safe.
  - intros w held acc A m k Et Ha _. by apply (total_access (H1 := node_spec keys debug) c w held acc m k).
Qed.

(** C13: which accesses can race.  When two workers are about to make conflicting
    accesses, it is to an atomic counter or to the queue of the server, which
    allow that; or to the chain's vector, with the consensus worker appending;
    or to the pool's timer; or, only when debug messages are logged, to the
    map's size.  Neither the map of transactions nor the proposal nor the
    number of remote blocks is ever touched by two workers at once. *)
Theorem races (c : @config Node mutex loc Worker) (w v : Worker) (l : loc) :
  reachable c -> race c w v l ->
  l = LSize \/ l = LCount \/ l = LSent \/ (l = LChain /\ w = Consensus) \/ l = LTimer \/
  (l = LTxs /\ debug = true).
Proof.
  intros R Hr. pose proof (threads_reachable keys info debug context mode max_tx remote c R) as C.
  pose proof Hr as (N & _). destruct (race_allowed c w v l C Hr) as (hw & hv & Hw & Hv & D).
  destruct l; cbn in Hw, Hv; auto 10.
  - destruct Hv as [[Hv|Hv]|Hv]; [by destruct (D _ Hw Hv) | auto 10 | by destruct (D _ Hw Hv)].
  - destruct Hv as [Hv|Hv]; by destruct (D _ Hw Hv).
  - done.
  - destruct Hv; congruence.
Qed.

(** C14: no deadlock but one.  Take any running worker of any reachable
    configuration and follow who waits for whom: the chain ends at a worker that
    can make a step, or at one whose next access or exception ends the process,
    or at one that waits for a mutex it has itself. *)
Theorem waiting_is_finite (c : @config Node mutex loc Worker) (w : Worker) (held : list mutex)
    (p : prog Node mutex loc unit) :
  reachable c -> c_threads c w = Running held p ->
  exists v, rtc (waits c) w v /\ (is_Some (go v c) \/ stops c v \/ waits c v v).
Proof.
  intros R Et. pose proof (threads_reachable keys info debug context mode max_tx remote c R) as C.
  apply (waiting_ends (H1 := node_spec keys debug) 2 c w held p C); [|done].
  intros []; cbn; lia.
Qed.
End together.

Lemma interleaved_nodes_ok_witness :
  shared_ok toy_keys (c_shared racing) /\
  ((c_threads racing Consensus = Idle \/ c_threads racing Consensus = Gone) ->
     bc_ok (n_chain (c_shared racing))) /\
  (forall m, node_locked m (c_shared racing) = true <-> exists w, m ∈ held_of (c_threads racing w)) /\
  (forall w v m, m ∈ held_of (c_threads racing w) -> m ∈ held_of (c_threads racing v) -> w = v).
Proof. exact (interleaved_nodes_ok toy_keys false false (ctx 1) T1 100 0 racing racing_reachable). Defined.

(** The validator worker of node 1 is about to read the top block while the other
    two are idle; later there is one more block. *)
Lemma published_blocks_stay_witness :
  chain_ (n_chain (c_shared reading)) `prefix_of` chain_ (n_chain (c_shared grown)) /\
  longer_chain reading grown = true /\
  exists held A (m : M Node A) k a,
    c_threads reading Validator = Running held (Do [Read LChain] m k) /\
    fst (m (c_shared reading)) = Ok a.
Proof.
  destruct (published_blocks_stay toy_keys false false (ctx 1) T1 100 0 reading grown
    reading_reachable grown_reachable) as [P H].
  destruct (reading_test_reads reading (proj2 (proj1 read_played))) as (N & held & A & m & k & E).
  split; [exact P|]. split; [exact (proj2 (proj2 read_played))|].
  destruct (H Validator held [Read LChain] A m k E (proj2 (list_elem_of_singleton _ _) eq_refl) N) as [a Ea].
  exists held, A, m, k, a. split; [exact E | exact Ea].
Defined.

Lemma races_witness : race racing Consensus Validator LChain /\
  (LChain = LSize \/ LChain = LCount \/ LChain = LSent \/ (LChain = LChain /\ Consensus = Consensus) \/
   LChain = LTimer \/ (LChain = LTxs /\ false = true)).
Proof.
  split; [exact racing_race|].
  exact (races toy_keys false false (ctx 1) T1 100 0 racing Consensus Validator LChain
    racing_reachable racing_race).
Defined.

(** The validator worker is paused at its read: the program it still has to
    run. *)
Definition rest_of (t : @tstate Node mutex loc) : prog Node mutex loc unit :=
  match t with Running _ p => p | _ => Ret (Ok tt) end.

Lemma running_rest t : is_running t = true -> t = Running (held_of t) (rest_of t).
Proof. by destruct t. Qed.

Lemma racing_running : is_running (c_threads racing Validator) = true.
Proof. exact (proj2 (racing_test_race racing (proj2 (proj1 stale_played)))). Qed.

Lemma waiting_is_finite_witness :
  exists v, rtc (waits racing) Validator v /\ (is_Some (go v racing) \/ stops racing v \/ waits racing v v).
Proof.
  exact (waiting_is_finite toy_keys false false (ctx 1) T1 100 0 racing Validator _ _
    racing_reachable (running_rest _ racing_running)).
Defined.

(** ** What interleaving loses *)
Lemma idle_test (c : @config Node mutex loc Worker) :
  is_idle (c_threads c Consensus) && is_idle (c_threads c Internetwork) && is_idle (c_threads c Validator) = true ->
  forall w, c_threads c w = Idle.
Proof. intros T w. apply andb_prop in T as [[T1 T2]%andb_prop T3]. destruct w;
  [by destruct (c_threads c Consensus) | by destruct (c_threads c Internetwork) | by destruct (c_threads c Validator)].
Qed.

(** C35: a proposal over the wrong block.  When callbacks run one at a time, a
    pending proposal names the hash of the top block (C1).  Interleaved, it need
    not: the validator worker reads the top block, the consensus worker appends a
    final block while there is no proposal to reverify, and the validator worker
    then stores and sends a proposal over the block below.  All workers end idle
    and the wrong proposal stays. *)
Theorem stale_proposal :
  exists c, rtc (threads_step toy_keys false false (ctx 1) T1) (threads_start T1 100 0) c /\
    (forall w, c_threads c w = Idle) /\
    pb_isNull (pending_proposal_ (n_pool (c_shared c))) = false /\
    pb_prev_hash (pending_proposal_ (n_pool (c_shared c))) <> tip_hash (n_chain (c_shared c)) /\
    exists msg, n_sent (c_shared c) = [msg] /\ m_type msg = eMessageType.PROPOSAL_BLOCK /\
      m_data msg = pb_getCanonical (pending_proposal_ (n_pool (c_shared c))).
Proof.
  exists stale. split; [exact (transitivity racing_reachable stale_reachable)|].
  destruct stale_played as (_ & _ & T). revert T. generalize stale. intros c T. unfold stale_test in T.
  destruct (n_sent (c_shared c)) as [|msg [|]]; [by rewrite andb_false_r in T | | by rewrite andb_false_r in T].
  apply andb_prop in T as [[[T1 T2]%andb_prop T3]%andb_prop [T4 T5]%andb_prop].
  split; [by apply idle_test|]. split; [by apply negb_true_iff|].
  split; [apply negb_true_iff in T3; by apply bool_decide_eq_false in T3|].
  exists msg. split; [done|]. split; [by apply Z.eqb_eq | by eapply bool_decide_eq_true_1].
Qed.

(** C36: a final block without a quorum.  The consensus worker checks the
    validations of one proposal and finalises another.  Between
    [CheckValidation] and [FinalizeLocalBlock] the proposal's mutex is free: a
    validator worker that had found no proposal stores its own, which has only
    the node's own validation, and that one is appended to the chain, over the
    wrong block, and sent to the shard as final. *)
Theorem unvalidated_block :
  exists c b, rtc (threads_step toy_keys false false (ctx 0) T1) (threads_start T1 100 0) c /\
    list.last (chain_ (n_chain (c_shared c))) = Some b /\
    zlen (sigs_ (fb_vals b)) = 1 /\
    (exists b' rest, chain_ (n_chain (c_shared c)) = rest ++ [b'; b] /\
       fb_prev_hash b <> DevcashHash (fb_getCanonical b')) /\
    exists msg, list.last (n_sent (c_shared c)) = Some msg /\
      m_type msg = eMessageType.FINAL_BLOCK /\ m_data msg = fb_getCanonical b.
Proof.
  exists usurped. destruct usurp_played as (_ & _ & T). pose proof usurped_reachable as R. revert T R.
  generalize usurped. intros c T R. unfold usurped_test in T.
  destruct (reverse (chain_ (n_chain (c_shared c)))) as [|b [|b' rest]] eqn:E; [done | done |].
  destruct (list.last (n_sent (c_shared c))) as [msg|] eqn:L; [|done].
  apply andb_prop in T as [[[T1 T2]%andb_prop T3]%andb_prop T4].
  assert (chain_ (n_chain (c_shared c)) = reverse rest ++ [b'; b]) as Ec.
  { rewrite <- (reverse_involutive (chain_ _)), E, !reverse_cons. by rewrite <- app_assoc. }
  exists b. split; [exact R|]. split; [rewrite Ec; by rewrite last_app|]. split; [by apply Z.eqb_eq|].
  split; [exists b', (reverse rest); split; [done | apply negb_true_iff in T2; by apply bool_decide_eq_false in T2]|].
  exists msg. split; [done|]. split; [by apply Z.eqb_eq | by eapply bool_decide_eq_true_1].
Qed.
