(* ===== verification/PropsService.v ===== *)
(** * Starting and stopping

    The message service and the thread groups as their owners use them: what is
    sent and in which order, that stopping ends, and what goes wrong when a
    server is started with messages waiting, started again, or a group is
    stopped while idle. *)

From Stdlib Require Import ZArith Lia.
From stdpp Require Import relations.
From stdpp Require Import base list numbers.
From S2P Require Import Prelude Keys KeyRing Context Transactions Blocks Message Blockchain Pool.
From S2P Require Import Handlers Node Network Service Lifecycle Samples.

(** The messages of a producer that have been put on the socket. *)
Definition sent_of {Msg} (p : nat) (s : Server.TransactionServer (Msg := Msg)) : list Msg :=
  Queue.from p (fst <$> filter (fun x => x.2 = true) (Server.s_taken s)).

Lemma all_sent {A} (l : list (A * bool)) :
  Forall (fun x => x.2 = true) l -> filter (fun x => x.2 = true) l = l.
Proof. induction 1 as [|x l Hx _ IH]; [done|]. rewrite filter_cons_True by done. by rewrite IH. Qed.

(** C25: a server that nobody uses before [startServer] has returned, and that is
    not stopped, sends everything.  Under every interleaving of any number of
    producers with its thread: what a producer has queued is what the server has
    sent of it, in order, then at most one message on its way, then what waits;
    nothing is discarded; and once the server runs, its thread always has a next
    step. *)
Theorem prompt_server {Msg : Type} (s : Server.TransactionServer (Msg := Msg)) :
  rtc Server.prompt_step Server.ctor s ->
  (forall p, Queue.from p (Server.s_queued s) =
     sent_of p s ++ Queue.from p (Server.in_flight s) ++
     Queue.from p (Queue.items (Server.message_queue_ s))) /\
  (Server.keep_running_ s = true ->
   exists e, Server.is_thread e = true /\ is_Some (Server.exec1 e s)).
Proof.
  intros R. pose proof (Server.prompt_reachable_ok s R) as (_ & F & L).
  pose proof (Server.server_reachable_ok s (Server.prompt_reachable_step s R)) as [_ O]. split.
  - intros p. rewrite (O p). unfold sent_of. by rewrite all_sent.
  - intros K. rewrite K in L. destruct L as (_ & N1 & N2). by apply Server.server_thread_enabled.
Qed.

(** Two producers and a server that has sent one of their messages. *)
Definition promptb (s : Server.TransactionServer (Msg := Z)) (e : Server.event (Msg := Z)) : bool :=
  match e with Server.Produce _ _ => Server.keep_running_ s | Server.Stop => false | _ => true end.

Fixpoint exec_prompt (es : list (Server.event (Msg := Z))) (s : Server.TransactionServer (Msg := Z))
    : option Server.TransactionServer :=
  match es with
  | [] => Some s
  | e :: rest => if promptb s e then s' ← Server.exec1 e s; exec_prompt rest s' else None
  end.

Lemma exec_prompt_reachable es : forall s s',
  exec_prompt es s = Some s' -> rtc Server.prompt_step s s'.
Proof.
  induction es as [|e es IH]; intros s s' E; cbn [exec_prompt] in E; [by injection E as ->|].
  destruct (promptb s e) eqn:P; [|done]. destruct (Server.exec1 e s) as [s1|] eqn:E1; [|done].
  eapply rtc_l; [|by apply IH]. apply (Server.prompt_intro _ _ e); [by destruct e | done].
Qed.

Definition busy_events : list (Server.event (Msg := Z)) :=
  [Server.Start; Server.Start; Server.Timeout; Server.Start; Server.Produce 1 10; Server.Produce 2 20;
   Server.Pop 1; Server.Send; Server.Test; Server.Pop 0].
Definition busy : Server.TransactionServer (Msg := Z) :=
  default Server.ctor (exec_prompt busy_events Server.ctor).

Lemma prompt_server_witness :
  rtc Server.prompt_step Server.ctor busy /\
  (forall p, Queue.from p (Server.s_queued busy) =
     sent_of p busy ++ Queue.from p (Server.in_flight busy) ++
     Queue.from p (Queue.items (Server.message_queue_ busy))) /\
  (Server.keep_running_ busy = true ->
   exists e, Server.is_thread e = true /\ is_Some (Server.exec1 e busy)).
Proof.
  assert (rtc Server.prompt_step Server.ctor busy) as R
    by (apply (exec_prompt_reachable busy_events); vm_compute; reflexivity).
  split; [exact R | exact (prompt_server busy R)].
Defined.




(** C37: a server that goes silent.  [startServer] creates the thread before it
    raises the flag that the thread tests: with a message waiting, the thread
    can discard it, find the flag down and end, and [startServer] then raises
    the flag over no thread.  And [stopServer] tells the queue not to block for
    good: a server that is started again ends its thread at the first moment
    without messages.  In both states the server counts as running, and whatever
    is done but stopping it, nothing is ever sent again. *)
Theorem server_goes_silent :
  exists early late : Server.TransactionServer (Msg := Z),
    rtc Server.step Server.ctor early /\ Server.s_taken early = [((1%nat, 10), false)] /\
    rtc Server.step Server.ctor late /\ Server.s_taken late = [] /\
    forall s, s = early \/ s = late ->
      Server.keep_running_ s = true /\
      forall es s', Forall (fun e => e <> Server.Stop) es -> Server.exec es s = Some s' ->
        Server.s_taken s' = Server.s_taken s.
Proof.
  set (es1 := [Server.Produce 1 10; Server.Start; Server.Start; Server.Pop 0; Server.Send;
               Server.Test; Server.Start] : list (Server.event (Msg := Z))).
  set (es2 := [Server.Start; Server.Start; Server.Start; Server.Stop; Server.Stop; Server.Timeout;
               Server.Stop; Server.Start; Server.Start; Server.Start; Server.Timeout]
              : list (Server.event (Msg := Z))).
  exists (default Server.ctor (Server.exec es1 Server.ctor)), (default Server.ctor (Server.exec es2 Server.ctor)).
  split; [apply (Server.server_exec_steps es1); vm_compute; reflexivity|]. split; [vm_compute; reflexivity|].
  split; [apply (Server.server_exec_steps es2); vm_compute; reflexivity|]. split; [vm_compute; reflexivity|].
  intros s [-> | ->]; (split; [vm_compute; reflexivity|]); intros es s' F E;
    (eapply (Server.silent_exec es); [..|exact F|exact E]; vm_compute; reflexivity).
Qed.

(** What a group that is stopped does with an idle thread: it calls back with a
    null pointer.  Of the three controllers only the validator's checks. *)
Lemma idle_thread_gets_null {Msg : Type} (callback : option Msg -> res unit) n g i k :
  rtc (Group.step callback) (Group.ctor n) g -> Group.g_call g = Group.Joining ->
  Group.thread_pool_ g !! i = Some Group.AtGet -> Queue.items (Group.thread_queue_ g) = [] ->
  Group.loop callback g i k = Some (Group.set_thread g i (Group.AtCall None)).
Proof.
  intros R J L Q. destruct (Group.group_reachable_ok callback n g R) as [_ S]. unfold Group.loop.
  rewrite L. unfold Queue.take, Queue.timeout. rewrite Q, (S J). done.
Qed.

Lemma null_is_fatal `{Crypto} (keys : KeyRing) w clock context mode n :
  fst (callback_ptr keys w clock context mode None n) =
    match w with Validator => Err DevcashMessageError | _ => UB end.
Proof. by destruct w. Qed.

(** ** Shutting a module down *)

(** C27: [shutdown] stops the sockets and leaves the rest running.  From any
    interleaving of [start], [shutdown] and the threads: while [shutdown] has a
    call to make, the call or the thread it joins can go on; when it has
    returned, the threads of the server and of both clients have ended, but all
    three executors have the threads they were started with, none was told to
    stop, and each that has not ended by an exception can go on; and [start] has
    not returned and its loop goes on, since nothing ever sets the flag it
    tests. *)
Theorem shutdown_leaves_executors (callback : Worker -> option DevcashMessage -> res unit)
    (context : DevcashContext) (hosts loopback : list bytes) (num_threads : Worker -> nat) (l : Life)
    (R : rtc (life_step callback) (life_ctor context hosts loopback num_threads) l) :
  l_returned l = false /\
  forall cs, l_shutdown l = Some cs ->
    is_Some (life_exec1 callback (ETurn None) l) /\
    (cs <> [] ->
       is_Some (life_exec1 callback EDown l) \/
       (exists e, Server.is_thread e = true /\ is_Some (life_exec1 callback (EServer e) l)) \/
       (exists k e, Client.is_thread e = true /\ is_Some (life_exec1 callback (EClient k e) l))) /\
    (cs = [] ->
       (Server.s_pc (l_server l) = Server.NoThread \/ Server.s_pc (l_server l) = Server.Ended) /\
       (forall k, Client.k_pc (l_client l k) = Client.NoThread) /\
       forall w, Group.do_run_ (l_executor l w) = true /\
         length (Group.thread_pool_ (l_executor l w)) = num_threads w /\
         (Group.benign (callback w) -> forall i t, Group.thread_pool_ (l_executor l w) !! i = Some t ->
            t <> Group.Gone -> is_Some (life_exec1 callback (EExecutor w i 0) l))).
Proof.
  destruct (life_reachable callback _ _ _ _ _ R) as [O U]. destruct (lo_flags _ _ O) as [Fs Fr].
  split; [done|]. intros cs Ed. destruct (lo_down _ _ O _ Ed) as (A & B & G). split; [|split].
  - cbn [life_exec1]. unfold loop_turn. rewrite A, Fr, Fs. by eexists.
  - intros N. destruct cs as [|c cs]; [done|]. by eapply shutdown_progress.
  - intros ->. split; [|split].
    + destruct (B (not_elem_of_nil _)) as [C K]. destruct (lo_server _ _ O) as [[P _] _]. by rewrite C, K in P.
    + intros k. destruct (G k (not_elem_of_nil _)) as [C K]. destruct (lo_client _ _ O k) as [P _].
      unfold Client.phase_ok in P. rewrite C, K in P. by destruct P.
    + intros w. destruct (lo_executor _ _ O w) as [(_ & _ & _ & X) D]. rewrite A in D.
      specialize (D (not_elem_of_nil _)). rewrite D in X. split; [done|]. split; [done|].
      intros Hb i t L N. cbn [life_exec1]. unfold executor_event.
      destruct (Group.loop_enabled (callback w) _ i t Hb L N) as [g ->]. by eexists.
Qed.

(** A module that is started and shut down, with one idle thread per executor. *)
Definition quiet_callback (w : Worker) (m : option DevcashMessage) : res unit := Ok tt.
Definition idle_context : DevcashContext := mkContext 0 0 T2 10000 0.

Definition whole_life : list Lifecycle.event :=
  replicate 17 EStart ++
  [EShutdown; EDown; EClient Main Client.Quiet; EClient Main Client.Test; EDown;
   EDown; EDown; EServer Server.Timeout; EDown;
   EDown; EClient Loopback Client.Quiet; EClient Loopback Client.Test; EDown].

Definition new_life : Life := life_ctor idle_context [] [] (fun _ => 1%nat).
Definition last_of_life : Life := default new_life (life_exec quiet_callback whole_life new_life).

Lemma shutdown_leaves_executors_witness :
  l_shutdown last_of_life = Some [] /\ l_returned last_of_life = false /\
  forall w, Group.do_run_ (l_executor last_of_life w) = true.
Proof.
  assert (rtc (life_step quiet_callback) new_life last_of_life) as R
    by (apply (life_exec_steps quiet_callback whole_life); vm_compute; reflexivity).
  destruct (shutdown_leaves_executors quiet_callback idle_context [] [] (fun _ => 1%nat) last_of_life R) as [Fr K].
  assert (l_shutdown last_of_life = Some []) as Ed by (vm_compute; reflexivity).
  split; [exact Ed|]. split; [exact Fr|].
  destruct (K [] Ed) as (_ & _ & E). destruct (E eq_refl) as (_ & _ & X). intros w. apply X.
Defined.
