(* ===== verification/PropsOracles.v ===== *)
(** * Oracles and protobuf envelopes

    What the oracles accept, what they turn proposals into, and how transactions
    come out of protobuf messages; then where signing a proposal, pricing data
    or serialising a transaction does not do what it is for. *)

From Stdlib Require Import ZArith Lia String.
From stdpp Require Import base list numbers.
From S2P Require Import Prelude OrdMap Converters Keys Buffers Transfer ChainState Summary.
From S2P Require Import Validation KeyRing Context Transactions Blocks Blockchain Oracles Pbuf.
From S2P Require Import Samples.

#[local] Open Scope Z_scope.

(** C34: transactions come out of a proposal only when its oracle accepts it.
    If [DecomposeProposal] returns transactions, the name is that of one of the
    eight oracles, this oracle finds the data sound and valid over the chain, and
    what is returned is the one transaction it makes for its own shard.  The
    proof uses the contract of the interface only, not the oracles. *)
Theorem decomposed_proposal_was_accepted `{Crypto} (p : Proto.Proposal) (chain : Blockchain)
    (txs : list Transaction) :
  Pbuf.DecomposeProposal p chain = Ok txs -> txs <> [] ->
  exists i tx, let o := oracle_ctor (Proto.data p) in
    i ∈ oracles /\ getOracleName i = Proto.oraclename p /\
    isSound i o = (Ok true, o) /\ isValid i chain o = (Ok true, o) /\
    getTransactions i chain o = (Ok [(getShardIndex i, [tx])], o) /\ txs = [Tier2 tx].
Proof.
  unfold Pbuf.DecomposeProposal. intros E N.
  destruct (Pbuf.find_oracle _) as [i|] eqn:F; [|by simplify_eq].
  apply find_oracle_In in F as [Hi Hn]. pose proof (oracles_laws i Hi).
  destruct (Pbuf.validateOracle _ _ _) as [r o'] eqn:V. cbn in E. subst r.
  apply validateOracle_inv in V as (Hs & Hv & tx & Ht & ->); [|done..]. by exists i, tx.
Qed.

(** A wallet that moves five coins at once, and the same after a week. *)
Definition later : list tview := [mkView alice 1 (-5) 604800; mkView bob 1 5 604800].

Lemma later_ok : Forall view_ok later.
Proof. apply Forall_cons; [ok_view|]. apply Forall_cons; [ok_view | constructor]. Qed.

Definition dcash_proposal : Proto.Proposal := Proto.mkProposal (text "io.devv.dcash") 0 pay_raw.

Definition the_tx (r : res (list Transaction)) : list Transaction :=
  match r with Ok l => l | _ => [] end.

Lemma decomposed_proposal_was_accepted_witness :
  exists i tx, let o := oracle_ctor pay_raw in
    i ∈ oracles /\ getOracleName i = text "io.devv.dcash" /\
    isSound i o = (Ok true, o) /\ isValid i bc_empty o = (Ok true, o) /\
    getTransactions i bc_empty o = (Ok [(getShardIndex i, [tx])], o) /\
    the_tx (Pbuf.DecomposeProposal dcash_proposal bc_empty) = [Tier2 tx].
Proof.
  apply (decomposed_proposal_was_accepted dcash_proposal bc_empty); vm_compute; done.
Defined.

(** What the two payment oracles decide about the bytes of a tier 2
    transaction.  Dcash requires every delay to be 0 and a first sender without
    dnerowallet coins; dnero requires every delay to be at least 1 and a first
    sender with a dnerowallet or a dneroavailable coin.  An exception of the
    balance lookup escapes from both. *)
Theorem payment_oracles_decide `{Crypto} (oper : Z) (vs : list tview) (nonce : bytes)
    (sig : Signature) (chain : Blockchain) (st : ChainState) :
  Forall view_ok vs -> sig_wf sig -> kMIN_NONCE_SIZE <= zlen nonce ->
  0 <= oper < eOpType.NumOperations ->
  zlen (t2_body oper vs nonce ++ s_canonical sig) < 2 ^ 63 ->
  bc_getHighestChainState chain = Ok st ->
  let o := oracle_ctor (t2_body oper vs nonce ++ SignatureOps.getCanonical sig) in
  fst (isSound dcash o) = Ok (no_delay vs) /\
  fst (isValid dcash chain o) =
    (if no_delay vs then
       match first_sender vs with
       | Some a => w ← ChainStateOps.getAmount st 2 a; Ok (negb (0 <? w))
       | None => Ok true
       end
     else Ok false) /\
  fst (isSound dnero o) = Ok (all_delayed vs) /\
  fst (isValid dnero chain o) =
    (if all_delayed vs then
       match first_sender vs with
       | Some a =>
           w ← ChainStateOps.getAmount st 2 a;
           if w <? 1 then v ← ChainStateOps.getAmount st 1 a; Ok (negb (v <? 1)) else Ok true
       | None => Ok true
       end
     else Ok false).
Proof.
  intros Hv Hs Hn Ho Hl Hst o. cbn [dcash dnero isSound isValid]. subst o.
  unfold oracle_ctor, SignatureOps.getCanonical.
  rewrite dcash_isSound_run, dnero_isSound_run, (dcash_isValid_run _ _ _ _ _ Hv Hs Hn Ho Hl _ _ Hst),
    (dnero_isValid_run _ _ _ _ _ Hv Hs Hn Ho Hl _ _ Hst) by done.
  split; [by destruct (no_delay vs)|]. split.
  { destruct (no_delay vs); [|done]. unfold verdict, dcash_refuses.
    destruct (first_sender vs) as [a|]; [|done]. by destruct (ChainStateOps.getAmount _ _ _). }
  split; [by destruct (all_delayed vs)|]. destruct (all_delayed vs); [|done].
  unfold verdict, dnero_refuses. destruct (first_sender vs) as [a|]; [|done]. cbn [getCoinIndex dnerowallet dneroavailable].
  destruct (ChainStateOps.getAmount st 2 a) as [w|e| |]; try done. cbn [mbind res_bind].
  destruct (w <? 1); [|done]. by destruct (ChainStateOps.getAmount _ _ _).
Qed.

(** A chain whose top block leaves Alice with a dneroavailable coin. *)
Definition with_state (st : ChainState) : Blockchain :=
  bc_push_back bc_empty (fb_empty st).

Lemma payment_oracles_decide_witness :
  let o := oracle_ctor (t2_body 2 later nonce8 ++ s_canonical wallet_sig) in
  let chain := with_state (mkChainState [(alice, [(1, 1); (2, 0)])]) in
  fst (isSound dcash o) = Ok false /\ fst (isValid dnero chain o) = Ok true.
Proof.
  intros o chain.
  destruct (payment_oracles_decide 2 later nonce8 wallet_sig chain
              (mkChainState [(alice, [(1, 1); (2, 0)])])) as (E1 & _ & _ & E2);
    [apply later_ok | by apply sig_wfb_spec | vm_compute; done | vm_compute; split; done
    | vm_compute; done | vm_compute; reflexivity |].
  split; [exact E1 | etransitivity; [exact E2 | vm_compute; reflexivity]].
Defined.

(** Signing a payment proposal.  [SignProposal] of a serialised tier 2
    transaction returns the same transaction under a signature that verifies for
    the key that was given, for both payment oracles. *)
Theorem signed_payment_proposal `{CryptoLaws} (name : bytes) (oper : Z) (vs : list tview)
    (nonce : bytes) (sig : Signature) (address pk pass : bytes) (k : EC_KEY) (size : Z) :
  name = text "io.devv.dcash" \/ name = text "io.devv.dnero" ->
  Forall view_ok vs -> sig_wf sig -> kMIN_NONCE_SIZE <= zlen nonce ->
  0 <= oper < eOpType.NumOperations -> zlen (t2_body oper vs nonce) < 2 ^ 62 ->
  LoadEcKey address pk pass = Ok k ->
  exists sig',
    Pbuf.SignProposal
      (Proto.mkProposal name size (t2_body oper vs nonce ++ SignatureOps.getCanonical sig))
      address pk pass = Ok (t2_body oper vs nonce ++ SignatureOps.getCanonical sig') /\
    sig_wf sig' /\ VerifyByteSig k (DevcashHash (t2_body oper vs nonce)) sig' = Ok true.
Proof.
  intros Hname Hv Hs Hn Ho Hl Hk.
  destruct (tx_Sign_run oper vs nonce sig [] address pk pass k Hv Hs Hn Ho Hl Hk)
    as (sig' & E & V & W).
  exists sig'. split; [|done]. unfold Pbuf.SignProposal. cbn [Proto.oraclename Proto.data].
  unfold SignatureOps.getCanonical.
  destruct Hname as [-> | ->]; [change (Pbuf.find_oracle _) with (Some dcash)
    | change (Pbuf.find_oracle _) with (Some dnero)]; cbn [Sign dcash dnero];
    unfold oracle_ctor; by rewrite E.
Qed.

Definition alice_hex : bytes :=
  match AddressOps.getHexString alice with Ok h => h | _ => [] end.

Lemma signed_payment_proposal_witness :
  exists sig',
    Pbuf.SignProposal (Proto.mkProposal (text "io.devv.dcash") 0 pay_raw) alice_hex [1] [1]
      = Ok (t2_body 2 pay nonce8 ++ SignatureOps.getCanonical sig') /\
    sig_wf sig' /\ VerifyByteSig (key_of alice) (DevcashHash (t2_body 2 pay nonce8)) sig' = Ok true.
Proof.
  apply (signed_payment_proposal (H0 := toy_laws) (text "io.devv.dcash") 2 pay nonce8 wallet_sig
           alice_hex [1] [1] (key_of alice) 0);
    [by left | apply pay_ok | by apply sig_wfb_spec | vm_compute; done | vm_compute; split; done
    | vm_compute; done | vm_compute; reflexivity].
Defined.

(** What storing data costs.  A well-formed proposal (an address, a signature,
    some data) of a client with a known balance of data coins is refused when
    the balance is below one coin per 10240 bytes, rounded down; otherwise it
    becomes one exchange that pays this price to the sink and carries the data
    as its nonce, under the signature of the proposal. *)
Theorem data_proposal_pays `{Crypto} (client : Address) (sig : Signature) (d : bytes)
    (chain : Blockchain) (st : ChainState) (n size : Z) :
  addr_wf client -> sig_wf sig -> d <> [] ->
  zlen (a_canonical client ++ s_canonical sig ++ d) < 2 ^ 62 ->
  bc_getHighestChainState chain = Ok st -> ChainStateOps.getAmount st 6 client = Ok n ->
  Pbuf.DecomposeProposal
    (Proto.mkProposal (text "io.devv.data") size (a_canonical client ++ s_canonical sig ++ d)) chain =
  Ok (if n <? zlen d / kBYTES_PER_COIN then []
      else [Tier2 (t2_built eOpType.Exchange (payment client d) d sig false)]).
Proof.
  intros Hc Hs Hd Hl Hst Hn. by apply (decompose_data client sig d chain st n).
Qed.

(** Alice stores two coins' worth of bytes. *)
Definition file : bytes := replicate (Z.to_nat 20500) 7.
Definition data_coins : ChainState := mkChainState [(alice, [(6, 2)])].

Lemma data_proposal_pays_witness :
  Pbuf.DecomposeProposal
    (Proto.mkProposal (text "io.devv.data") 0 (a_canonical alice ++ s_canonical wallet_sig ++ file))
    (with_state data_coins) =
  Ok [Tier2 (t2_built eOpType.Exchange
               [mkView alice 6 (-2) 0; mkView getDataSinkAddress 6 2 0] file wallet_sig false)].
Proof.
  apply (data_proposal_pays alice wallet_sig file (with_state data_coins) data_coins 2 0);
    [apply wallet_wf | by apply sig_wfb_spec | done | vm_compute; done
    | vm_compute; reflexivity | vm_compute; reflexivity].
Defined.

(** A transaction out of a protobuf message.  The message of a content that
    one sender may move is turned into exactly this content: signed with the
    sender's key when asked to, and sound; otherwise under the signature of the
    message, and then it is returned only if it is sound. *)
Theorem proto_transaction_created `{CryptoLaws} (oper : Z) (vs : list tview) (nonce : bytes)
    (keys : KeyRing) (a : Address) (k : EC_KEY) (sig : Signature) :
  sound_content oper vs a -> senders (proto_xfer <$> vs) = 1%nat ->
  getKey keys a = Ok k -> is_node_key k = negb (oper =? eOpType.Exchange) ->
  0 <= oper < eOpType.NumOperations -> kMIN_NONCE_SIZE <= zlen nonce ->
  zlen (t2_body oper vs nonce) < 2 ^ 62 -> sig_wf sig ->
  (exists sig',
     Pbuf.CreateTransaction (proto_tx oper vs nonce []) keys true =
       Ok (Tier2 (t2_built oper vs nonce sig' true)) /\
     VerifyByteSig k (DevcashHash (t2_body oper vs nonce)) sig' = Ok true) /\
  forall t,
    Pbuf.CreateTransaction (proto_tx oper vs nonce (SignatureOps.getCanonical sig)) keys false = Ok t <->
    t = Tier2 (t2_built oper vs nonce sig true) /\
    t2_isSound (t2_built oper vs nonce sig false) keys = Ok true.
Proof.
  intros C N Hk Hi Ho Hn Hl Hs. pose proof C as (W & F & Hh & _).
  assert (u8 oper = oper) as Eo by (apply Z.mod_small; unfold u8_mod, eOpType.NumOperations in *; lia).
  unfold Pbuf.CreateTransaction, proto_tx. cbn [Proto.xfers Proto.operation Proto.nonce Proto.sig].
  rewrite (gather_views keys a k vs W F Hk) by (rewrite N; cbn [seen]; lia).
  cbn [mbind res_bind fst snd]. rewrite Hh, Eo. cbn [app]. split.
  - destruct (t2_sign_ok oper vs nonce k keys a C Hk Hi Hn Hl) as (sig' & E & _ & V & _).
    exists sig'. by rewrite E.
  - intros t. unfold SignatureOps.getCanonical. rewrite sig_ctor_canonical by done.
    cbn [mbind res_bind]. unfold t2_ctor_sig_checked.
    pose proof (t2_body_length oper vs nonce). pose proof (zlen_nonneg nonce).
    pose proof (zlen_nonneg (xfers_canonical vs)). rewrite t2_unsigned_eq by lia.
    pose proof (built_getMessageDigest oper vs nonce (mkSignature []) false) as Hd.
    unfold t2_built in Hd. cbn [s_canonical] in Hd. rewrite app_nil_r in Hd.
    rewrite Hd by lia. cbn [mbind res_bind].
    change (t2_append_sig _ _) with (t2_built oper vs nonce sig false). unfold t2_check.
    destruct (t2_isSound (t2_built _ _ _ _ _) keys) as [[]|e| |] eqn:E; cbn [mbind res_bind negb];
      split; try done; try (by intros [_ ?]); [intros Et; by simplify_eq | by intros [-> _]].
Qed.

Lemma proto_transaction_created_witness :
  (exists sig',
     Pbuf.CreateTransaction (proto_tx 2 pay nonce8 []) toy_keys true =
       Ok (Tier2 (t2_built 2 pay nonce8 sig' true)) /\
     VerifyByteSig (key_of alice) (DevcashHash (t2_body 2 pay nonce8)) sig' = Ok true) /\
  forall t,
    Pbuf.CreateTransaction (proto_tx 2 pay nonce8 (SignatureOps.getCanonical wallet_sig)) toy_keys false
      = Ok t <->
    t = Tier2 (t2_built 2 pay nonce8 wallet_sig true) /\
    t2_isSound (t2_built 2 pay nonce8 wallet_sig false) toy_keys = Ok true.
Proof.
  apply (proto_transaction_created (H0 := toy_laws) 2 pay nonce8 toy_keys alice (key_of alice) wallet_sig).
  - split; [apply pay_ok|]. split; [repeat constructor; cbn; lia|]. vm_compute. done.
  - vm_compute. done.
  - vm_compute. done.
  - vm_compute. done.
  - vm_compute. done.
  - vm_compute. done.
  - vm_compute. done.
  - by apply sig_wfb_spec.
Defined.

(** Data below 10240 bytes cannot be stored.  The price is rounded down to
    nothing, so the exchange that the proposal becomes takes coins from nobody,
    and its soundness check throws for want of a sender's key, whoever signed. *)
Theorem small_data_unusable `{Crypto} (client : Address) (sig : Signature) (d : bytes)
    (chain : Blockchain) (st : ChainState) (n size : Z) (keys : KeyRing) :
  addr_wf client -> sig_wf sig -> 0 < zlen d < kBYTES_PER_COIN ->
  bc_getHighestChainState chain = Ok st -> ChainStateOps.getAmount st 6 client = Ok n -> 0 <= n ->
  om_find AddressOps.default (key_map_ keys) = None ->
  exists tx,
    Pbuf.DecomposeProposal
      (Proto.mkProposal (text "io.devv.data") size (a_canonical client ++ s_canonical sig ++ d)) chain
      = Ok [Tier2 tx] /\
    t2_isSound tx keys = Err RuntimeError.
Proof.
  intros Hc Hs Hd Hst Hn Hz Hk. exists (t2_built eOpType.Exchange (payment client d) d sig false).
  split; [|by apply small_payment_unsound].
  assert (d <> []) by (intros ->; change (zlen _) with 0 in Hd; lia).
  rewrite (decompose_data client sig d chain st n) by (done || (by apply small_data_bound; [| |lia])).
  rewrite Z.div_small by lia. by rewrite (proj2 (Z.ltb_ge _ _)) by lia.
Qed.

Lemma small_data_unusable_witness :
  exists tx,
    Pbuf.DecomposeProposal
      (Proto.mkProposal (text "io.devv.data") 0 (a_canonical alice ++ s_canonical wallet_sig ++ nonce8))
      (with_state data_coins) = Ok [Tier2 tx] /\
    t2_isSound tx toy_keys = Err RuntimeError.
Proof.
  apply (small_data_unusable alice wallet_sig nonce8 (with_state data_coins) data_coins 2 0 toy_keys);
    [apply wallet_wf | by apply sig_wfb_spec | vm_compute; split; done
    | vm_compute; reflexivity | vm_compute; reflexivity | lia | vm_compute; reflexivity].
Defined.

(** The data oracle refuses what it signed.  [data::Sign] takes the address
    as hexadecimal text, which is what [LoadEcKey] needs, and writes this text in
    front of the data where its own [isSound] expects a type and a raw key.  The
    text of a compressed key starts with the character 0. *)
Theorem signed_data_refused `{Crypto} (o o' : Oracle) (digits pk pass out : bytes) :
  Sign data (48 :: digits) pk pass o = (Ok out, o') ->
  out = raw_data_ o' /\
  isSound data o' = (Ok false, mkOracle out (text "Bad address size.")).
Proof.
  cbn [data Sign isSound]. unfold data_Sign. intros E. minv. unfold get in H1. simplify_eq.
  unfold put in H4. simplify_eq. split; [done|].
  apply LoadEcKey_size in H0. rewrite addr_ctor_other by done.
  unfold Str2Bin, data_isSound. rewrite bind_get, bind_lift. cbn [raw_data_ AddressOps.getCanonical a_canonical app].
  by rewrite vec_at_0.
Qed.

Lemma signed_data_refused_witness :
  let r := Sign data alice_hex [1] [1] (oracle_ctor nonce8) in
  isSound data (snd r) = (Ok false, mkOracle (raw_data_ (snd r)) (text "Bad address size.")).
Proof.
  intros r. subst r.
  apply (signed_data_refused (oracle_ctor nonce8)
           (snd (Sign data alice_hex [1] [1] (oracle_ctor nonce8))) (tl alice_hex) [1] [1]).
  vm_compute. reflexivity.
Defined.

(** The transaction of a payment proposal cannot be checked.  A dcash
    proposal that holds a sound transaction is accepted over a chain that does
    not know its sender, but [QuickCreate] drops the last byte of the signature,
    so that checking the result reads past the end of its bytes. *)
Theorem decomposed_payment_undefined `{Crypto} (oper : Z) (vs : list tview) (nonce : bytes)
    (sig : Signature) (keys : KeyRing) (a : Address) (k : EC_KEY) (size : Z) :
  sound_content oper vs a -> no_delay vs = true -> getKey keys a = Ok k ->
  sig_wf sig -> SignatureOps.size sig =
    (if oper =? eOpType.Exchange then kWALLET_SIG_BUF_SIZE else kNODE_SIG_BUF_SIZE) ->
  kMIN_NONCE_SIZE <= zlen nonce -> 0 <= oper < eOpType.NumOperations ->
  zlen (t2_body oper vs nonce ++ SignatureOps.getCanonical sig) < 2 ^ 63 ->
  exists tx,
    Pbuf.DecomposeProposal
      (Proto.mkProposal (text "io.devv.dcash") size
         (t2_body oper vs nonce ++ SignatureOps.getCanonical sig)) bc_empty = Ok [Tier2 tx] /\
    t2_isSound tx keys = UB.
Proof.
  intros C Hd Hk Hs Hsz Hn Ho Hl. pose proof C as (W & _).
  exists (t2_built oper vs nonce (cut sig) false). split; [|by apply cut_tx_isSound with a k].
  unfold Pbuf.DecomposeProposal. cbn [Proto.oraclename Proto.data].
  change (Pbuf.find_oracle _) with (Some dcash). cbv iota beta.
  pose proof (dcash_isValid_run oper vs nonce sig [] W Hs Hn Ho Hl bc_empty _ eq_refl) as E.
  rewrite Hd in E. unfold verdict in E.
  assert (fst (dcash_isValid bc_empty (oracle_ctor (t2_body oper vs nonce ++ s_canonical sig))) = Ok true) as Ev.
  { unfold oracle_ctor. rewrite E. by destruct (first_sender vs). }
  destruct (dcash_isValid bc_empty _) as [r o'] eqn:V. cbn [fst] in Ev. subst r.
  pose proof (valid_is_sound (i := dcash) _ _ _ V) as [_ ->].
  unfold Pbuf.validateOracle, SignatureOps.getCanonical. cbn [dcash isValid getTransactions].
  rewrite (bind_ok _ _ _ _ _ V). unfold oracle_ctor in V |- *.
  by rewrite (bind_ok _ _ _ _ _ (tx_getTransactions_run _ _ _ _ _ Hs Hn Ho Hl 0 _ _ V)).
Qed.

Lemma decomposed_payment_undefined_witness :
  exists tx,
    Pbuf.DecomposeProposal (Proto.mkProposal (text "io.devv.dcash") 0 pay_raw) bc_empty
      = Ok [Tier2 tx] /\
    t2_isSound tx toy_keys = UB.
Proof.
  apply (decomposed_payment_undefined 2 pay nonce8 wallet_sig toy_keys alice (key_of alice) 0).
  - split; [apply pay_ok|]. split; [repeat constructor; cbn; lia|]. vm_compute. done.
  - vm_compute. done.
  - vm_compute. done.
  - by apply sig_wfb_spec.
  - vm_compute. done.
  - vm_compute. done.
  - vm_compute. done.
  - vm_compute. done.
Defined.

(** No transaction with a transfer can be serialised.  The string of an
    address is built from the beginning of one temporary vector and the end of
    another, so that [SerializeTransaction] is undefined, and with it
    [SerializeFinalBlock] for a block whose first transaction has a transfer. *)
Theorem serialised_block_undefined `{Crypto} (oper : Z) (v : tview) (vs : list tview)
    (nonce : bytes) (sig : Signature) (block : FinalBlock) (raws : list bytes) :
  Forall view_ok (v :: vs) -> sig_wf sig -> kMIN_NONCE_SIZE <= zlen nonce ->
  0 <= oper < eOpType.NumOperations ->
  zlen (t2_body oper (v :: vs) nonce ++ SignatureOps.getCanonical sig) < 2 ^ 63 ->
  fb_raw_transactions block = (t2_body oper (v :: vs) nonce ++ SignatureOps.getCanonical sig) :: raws ->
  Pbuf.SerializeTransaction (t2_built oper (v :: vs) nonce sig true) = UB /\
  Pbuf.SerializeFinalBlock block = UB.
Proof.
  intros W Hs Hn Ho Hl Hb. split; [by apply SerializeTransaction_undefined|].
  unfold Pbuf.SerializeFinalBlock. rewrite Hb. cbn [map_res]. unfold Pbuf.serialize_raw.
  pose proof (read_tx_run oper (v :: vs) nonce sig [] Hs Hn Ho Hl) as E. unfold read_tx in E.
  cbn [raw_data_] in E. unfold Str2Bin in E. unfold SignatureOps.getCanonical. rewrite E.
  cbn [mbind res_bind]. rewrite SerializeTransaction_undefined; [done | done | by apply cut_bound].
Qed.

Lemma serialised_block_undefined_witness :
  Pbuf.SerializeTransaction (t2_built 2 pay nonce8 wallet_sig true) = UB /\
  Pbuf.SerializeFinalBlock pay_block = UB.
Proof.
  apply (serialised_block_undefined 2 (mkView alice 1 (-5) 0) [mkView bob 1 5 0] nonce8 wallet_sig
           pay_block []);
    [apply pay_ok | by apply sig_wfb_spec | vm_compute; done | vm_compute; done | vm_compute; done
    | reflexivity].
Defined.
