(* ===== verification/PropsJson.v ===== *)
(** * Theorems on the JSON printers *)

From Stdlib Require Import ZArith Lia.
From stdpp Require Import base list numbers.
From S2P Require Import Prelude OrdMap Converters Keys Buffers Transfer ChainState Summary.
From S2P Require Import Validation KeyRing Context Transactions Blocks Blockchain.
From S2P Require Import JsonTree JsonPrint Samples.

#[local] Open Scope Z_scope.

(** A final block and the contents of its Tier-2 transactions. *)
Definition block_of `{Crypto} (b : FinalBlock) (cs : list t2_content) : Prop :=
  fb_wf b /\ Forall t2c_ok cs /\ fb_transactions b = (fun c => Tier2 (t2_of c true)) <$> cs.

Lemma block_of_text `{Crypto} b cs : block_of b cs ->
  fb_GetJSON b = Ok (render (fb_tree b (t2_tree <$> cs))) /\ json_ok (fb_tree b (t2_tree <$> cs)).
Proof.
  intros (W & Hc & Et). split.
  - apply fb_text. rewrite Et. clear -Hc. induction Hc; constructor; [by apply t2_text | done].
  - apply fb_tree_ok; [done|]. clear -Hc. induction Hc; constructor; [by apply t2_tree_ok | done].
Qed.

(** C21: [GetJSON] of a chain of final blocks with Tier-2 transactions prints
    exactly the text of the chain's tree: one array of block objects with every
    header field, transaction, transfer, summary entry and validation in its
    place.  The text is JSON and reads back as that tree, so nothing the tree holds
    is lost or ambiguous in the concatenation. *)
Theorem chain_json_is_its_tree `{Crypto} (c : Blockchain) (css : list (list t2_content)) :
  Forall2 block_of (chain_ c) css ->
  let tree := JArr (zip_with (fun b cs => fb_tree b (t2_tree <$> cs)) (chain_ c) css) in
  bc_GetJSON c = Ok (render tree) /\ parse (render tree) = Some tree.
Proof.
  intros F tree. split.
  - apply bc_text. subst tree. induction F as [|b cs bs css Hb _ IH]; constructor; [|done].
    by apply block_of_text.
  - apply parse_render. unfold json_ok. cbn [json_okb tree]. subst tree.
    induction F as [|b cs bs css Hb _ IH]; [done|]. cbn [zip_with forallb].
    rewrite IH, andb_true_r. by apply block_of_text.
Qed.

Definition pay_t2 : t2_content := mkT2c 2 pay nonce8 wallet_sig.

(** The sample block, as it is before it is sent: with its transaction. *)
Definition full_block : FinalBlock :=
  mkFB (fb_version pay_block) (fb_num_bytes pay_block) (fb_block_time pay_block)
       (fb_prev_hash pay_block) (fb_merkle_root pay_block) (fb_tx_size pay_block)
       (fb_sum_size pay_block) (fb_val_count pay_block) [Tier2 (t2_of pay_t2 true)]
       (fb_raw_transactions pay_block) (fb_summary pay_block) (fb_vals pay_block)
       (fb_block_state pay_block).

Lemma full_block_of : block_of full_block [pay_t2].
Proof.
  split; [apply pay_block_wf|]. split; [|done]. constructor; [|constructor].
  split; [apply pay_ok|]. split; [vm_compute; intuition done|].
  split; [by apply sig_wfb_spec|]. split; vm_compute; done.
Qed.

Lemma chain_json_is_its_tree_witness :
  exists t tree, bc_GetJSON (bc_push_back bc_empty full_block) = Ok t /\ parse t = Some tree.
Proof.
  destruct (chain_json_is_its_tree (bc_push_back bc_empty full_block) [[pay_t2]]) as [E P];
    [constructor; [apply full_block_of | constructor] | eauto].
Defined.

(** The text that a Tier-1 transaction prints for a summary with an address
    is not JSON: inside an array it writes an address, a colon and the address's
    entry, which no JSON reader accepts. *)
Theorem t1_json_malformed `{Crypto} (s : Summary) (addr : Address) (sig : Signature) (flag : bool) :
  node_addr addr -> node_sig sig -> summary_ok s -> zlen (summary_ s) < 2 ^ 32 ->
  summary_ s <> [] -> zlen (t1_bytes s addr sig) < 2 ^ 63 ->
  exists t, t1_getJSON (t1_built s addr sig flag) = Ok t /\
    forall j, json_ok j -> render j <> t.
Proof.
  intros Ha Hs Ho Hn Ne Hl. destruct (t1_json_rejected s addr sig flag) as (t & E & N); try done.
  exists t. split; [done|]. intros j Hj. by apply not_json.
Qed.

Lemma t1_json_malformed_witness :
  exists t, t1_getJSON (t1_built pay_summary (node 5) (sign_summary (node 5) pay_summary) true) = Ok t /\
    forall j, json_ok j -> render j <> t.
Proof.
  apply t1_json_malformed; [apply node_wf | apply sign_summary_node | apply pay_summary_ok
    | vm_compute; done | done | vm_compute; done].
Defined.
