(* ===== verification/PropsRepeater.v ===== *)
(** * Theorems on the repeater

    Over any file system that keeps the laws; the witnesses run on a small one. *)

From Stdlib Require Import ZArith Lia String.
From stdpp Require Import base list numbers.
From S2P Require Import Prelude OrdMap Converters Keys Buffers Transfer ChainState Summary.
From S2P Require Import Validation KeyRing Context DevvUri Transactions Blocks Message Blockchain.
From S2P Require Import Oracles Pbuf Files Repeater Samples.

#[local] Open Scope Z_scope.

(** ** A file system for the witnesses: files by path, newest first *)
Record toy_files := mkToyFiles { tf_dirs : list bytes; tf_files : list (bytes * bytes) }.

Fixpoint assoc (p : bytes) (l : list (bytes * bytes)) : option bytes :=
  match l with
  | [] => None
  | (q, v) :: l' => if bool_decide (p = q) then Some v else assoc p l'
  end.

(** The name of a path directly under a directory. *)
Definition name_in (d p : bytes) : option bytes :=
  let pre := d ++ [slash] in
  let n := drop (length pre) p in
  if bool_decide (p = pre ++ n) && bool_decide (~ (slash ∈ n)) then Some n else None.

Fixpoint until_dot (s : bytes) : option bytes :=
  match s with
  | [] => None
  | c :: s' => if c =? 46 then Some s' else until_dot s'
  end.

#[global] Instance toy_fs : FileSystem := {|
  fs_state := toy_files;
  is_directory s p := bool_decide (p ∈ tf_dirs s);
  fs_exists s p := bool_decide (p ∈ tf_dirs s) || bool_decide (is_Some (assoc p (tf_files s)));
  fs_entries s d := flat_map (fun f => option_list (name_in d f.1)) (tf_files s);
  fs_stem n := match until_dot (reverse n) with Some r => reverse r | None => n end;
  fs_content s p := assoc p (tf_files s);
  fs_write s p v := Some (mkToyFiles (tf_dirs s) ((p, v) :: tf_files s))
|}.

Lemma until_dot_app a b : ~ (46 ∈ a) -> until_dot (a ++ [46] ++ b) = Some b.
Proof.
  induction a as [|c a IH]; intros N; [done|]. cbn [app until_dot].
  apply not_elem_of_cons in N as [N1 N2]. rewrite (proj2 (Z.eqb_neq _ _)) by done. by apply IH.
Qed.

Lemma name_in_dir d n m : name_in d (in_dir d n) = Some m <-> m = n /\ ~ (slash ∈ n).
Proof.
  unfold name_in, in_dir. rewrite app_assoc, drop_app_length, bool_decide_true by done. cbn [andb].
  case_bool_decide; split; [by intros [= <-] | by intros [-> _] | done | by intros [-> ?]].
Qed.

#[global] Instance toy_fs_laws : FileSystemLaws.
Proof.
  split; cbn.
  - intros name ext _ N. rewrite reverse_app, reverse_cons, <- app_assoc, until_dot_app.
    + by rewrite reverse_involutive.
    + by rewrite elem_of_reverse.
  - intros s p v ->. by rewrite orb_true_r.
  - intros s d n v s' [= <-]. cbn. by rewrite bool_decide_true.
  - intros s d n v s' m [= <-] N. cbn. rewrite bool_decide_false; [done|].
    intros E. apply N. unfold in_dir in E. by simplify_list_eq.
  - by intros s p v s' d [= <-].
  - intros s d n v s' m _ Hn [= <-]. cbn. destruct (name_in d (in_dir d n)) eqn:E.
    + apply name_in_dir in E as [-> _]. cbn. by rewrite elem_of_cons.
    + assert (name_in d (in_dir d n) = Some n) by (by apply name_in_dir). congruence.
Qed.

#[local] Instance toy_writer : ProtoWriter := {|
  WriteFinalBlock _ := []; WriteTransaction _ := []; WriteEnvelope _ := []; exn_what _ := [] |}.

Definition wd : bytes := text "w".
Definition empty_disk : Listener :=
  mkListener (mkToyFiles [in_dir wd (ContextOps.get_shard_uri (ctx 0))] []) 0.

(** C16: the repeater gives back the blocks it heard.  Start with an empty
    directory for the shard and listen to any messages with data: then, while the
    listener is not at work on another one, for every
    final block among them, by its height, operation 1 answers with exactly its
    bytes, operation 2 with it and all later ones, and operation 3 with all of
    them in order; each answer has code 0, no message, and the time and operation
    of the request.  Other messages leave no trace. *)
Theorem repeater_round_trip `{Crypto} `{FileSystemLaws} `{ProtoWriter} (c : DevcashContext) (dir : bytes)
    (l : Listener) (ms : list DevcashMessage) :
  in_u32 (current_shard_ c) -> writable c dir -> holds c dir l [] ->
  Forall (fun m => m_data m <> []) ms -> zlen ms < 2 ^ 32 - 1 ->
  let bs := final_data ms in
  exists l', listen c dir ms l = (Ok tt, l') /\ l_height l' = zlen bs /\
    let ask op height ts :=
      HandleRepeaterRequest (l_files l')
        (mkRepeaterRequest ts op (MakeDevvUri (block_uri (ContextOps.get_shard_uri c) height))) dir in
    forall (i : nat) b ts, bs !! i = Some b ->
      ask 1 (Z.of_nat i) ts = Ok (mkRepeaterResponse ts 1 0 [] b) /\
      ask 2 (Z.of_nat i) ts = Ok (mkRepeaterResponse ts 2 0 [] (concat (drop i bs))) /\
      ask 3 UINT32_MAX ts = Ok (mkRepeaterResponse ts 3 0 [] (concat bs)).
Proof.
  intros Hs Hw Hh Hm Hl bs. destruct (shard_plain c Hs) as [Hp Hn].
  destruct (listen_holds c dir ms Hw Hm l [] Hh) as (l' & E & Hst & Eh); [rewrite zlen_nil; lia|].
  exists l'. split; [done|]. split; [done|]. intros ask i b ts Hi.
  assert (bs <> []) by (by intros X; rewrite X in Hi).
  assert (zlen bs < 2 ^ 32 - 1).
  { pose proof (length_filter is_final ms). unfold bs, final_data, zlen in *. rewrite length_fmap. lia. }
  pose proof (lookup_lt_Some _ _ _ Hi) as Li. cbn [app] in *.
  split; [by apply (get_block _ _ _ bs)|]. split; [by apply (get_blocks_since _ _ _ bs)|].
  by apply (get_chain _ _ _ bs).
Qed.

Definition heard : list DevcashMessage :=
  [mkMessage (text "shard-0") eMessageType.FINAL_BLOCK [1; 2] 0;
   mkMessage (text "shard-0") eMessageType.VALID [9] 1;
   mkMessage (text "shard-0") eMessageType.FINAL_BLOCK [3] 2].

Lemma empty_disk_holds : holds (ctx 0) wd empty_disk [].
Proof.
  split; [|done]. split; [done|]. split; [|done].
  intros m. split; [by intros X%elem_of_nil | intros (i & Hi & _)]. unfold zlen in Hi. cbn in Hi. lia.
Qed.

Lemma repeater_round_trip_witness :
  let files := l_files (snd (listen (ctx 0) wd heard empty_disk)) in
  HandleRepeaterRequest files (mkRepeaterRequest 7 1 (text "devv://shard-0/1")) wd =
    Ok (mkRepeaterResponse 7 1 0 [] [3]) /\
  HandleRepeaterRequest files (mkRepeaterRequest 7 3 (text "devv://shard-0")) wd =
    Ok (mkRepeaterResponse 7 3 0 [] [1; 2; 3]).
Proof.
  destruct (repeater_round_trip (ctx 0) wd empty_disk heard) as (l' & E & _ & A);
    [unfold in_u32; cbn; lia | by intros s n v _; eexists | apply empty_disk_holds
    | repeat constructor; done | cbn; unfold zlen; cbn; lia |].
  destruct (A 1%nat [3] 7 eq_refl) as (A1 & _ & A3). rewrite E. cbn [snd]. split; [apply A1 | apply A3].
Defined.

(** C18: a block that is still being written is served as it is.  The listener's
    callback writes a block's file while requests are answered in another thread.
    Whatever part of the block has reached the file, even nothing at all:
    operation 1 answers with just that part and operation 3 with the earlier
    blocks and that part, both with code 0 and no message, as if it were the
    block; once the callback is through, both answer with the whole of it. *)
Theorem half_written_block `{Crypto} `{FileSystemLaws} `{ProtoWriter} (c : DevcashContext) (dir : bytes)
    (l : Listener) (bs : list bytes) (m : DevcashMessage) (k : nat) (ts : Z) :
  in_u32 (current_shard_ c) -> writable c dir -> holds c dir l bs ->
  is_final m -> m_data m <> [] -> zlen bs < 2 ^ 32 - 2 ->
  exists l1 l2,
    on_message_part c dir m k l = (Ok tt, l1) /\ on_message c dir m l1 = (Ok tt, l2) /\
    let ask l op height :=
      HandleRepeaterRequest (l_files l)
        (mkRepeaterRequest ts op (MakeDevvUri (block_uri (ContextOps.get_shard_uri c) height))) dir in
    let part := take k (m_data m) in
    ask l1 1 (zlen bs) = Ok (mkRepeaterResponse ts 1 0 [] part) /\
    ask l1 3 UINT32_MAX = Ok (mkRepeaterResponse ts 3 0 [] (concat bs ++ part)) /\
    ask l2 1 (zlen bs) = Ok (mkRepeaterResponse ts 1 0 [] (m_data m)) /\
    ask l2 3 UINT32_MAX = Ok (mkRepeaterResponse ts 3 0 [] (concat bs ++ m_data m)).
Proof.
  intros Hs Hw Hh F N Hl. destruct (shard_plain c Hs) as [Hp Hn].
  destruct (on_message_parts c dir m l bs k Hw Hh F N ltac:(lia)) as (l1 & l2 & E1 & E2 & S1 & [S2 _]).
  exists l1, l2. split; [done|]. split; [done|]. intros ask part.
  assert (forall l b, stored (l_files l) (in_dir dir (ContextOps.get_shard_uri c)) (bs ++ [b]) ->
    ask l 1 (zlen bs) = Ok (mkRepeaterResponse ts 1 0 [] b) /\
    ask l 3 UINT32_MAX = Ok (mkRepeaterResponse ts 3 0 [] (concat bs ++ b))) as K.
  { intros l' b S.
    assert (zlen (bs ++ [b]) < 2 ^ 32 - 1) as Lz by (rewrite zlen_app; change (zlen [b]) with 1; lia).
    split; [by apply (get_block _ _ _ (bs ++ [b])); [..| rewrite list_lookup_middle]|].
    replace (concat bs ++ b) with (concat (bs ++ [b])) by (rewrite concat_app; cbn; by rewrite app_nil_r).
    apply (get_chain _ _ _ (bs ++ [b])); try done. by destruct bs. }
  destruct (K l1 _ S1), (K l2 _ S2). auto.
Qed.

(** The second block of the sample has been opened, and nothing written yet. *)
Definition second_block : DevcashMessage := mkMessage (text "shard-0") eMessageType.FINAL_BLOCK [3; 4] 2.

Definition one_disk : Listener :=
  snd (on_message (ctx 0) wd (mkMessage (text "shard-0") eMessageType.FINAL_BLOCK [1; 2] 0) empty_disk).

Lemma one_disk_holds : holds (ctx 0) wd one_disk [[1; 2]].
Proof.
  destruct (on_message_holds (ctx 0) wd (mkMessage (text "shard-0") eMessageType.FINAL_BLOCK [1; 2] 0)
    empty_disk []) as (l & E & Hh); [by intros s n v _; eexists | apply empty_disk_holds | done | done |].
  unfold one_disk. by rewrite E.
Qed.

Lemma half_written_block_witness :
  let files := l_files (snd (on_message_part (ctx 0) wd second_block 0 one_disk)) in
  HandleRepeaterRequest files (mkRepeaterRequest 7 1 (text "devv://shard-0/1")) wd =
    Ok (mkRepeaterResponse 7 1 0 [] []) /\
  HandleRepeaterRequest files (mkRepeaterRequest 7 3 (text "devv://shard-0")) wd =
    Ok (mkRepeaterResponse 7 3 0 [] [1; 2]).
Proof.
  destruct (half_written_block (ctx 0) wd one_disk [[1; 2]] second_block 0 7) as (l1 & l2 & E1 & _ & A & B & _);
    [unfold in_u32; cbn; lia | by intros s n v _; eexists | apply one_disk_holds | done | done | done |].
  rewrite E1. cbn [snd]. split; [apply A | apply B].
Defined.

(** The search by address is exact.  Over stored well-formed blocks, from a
    height on, [SearchForAddress] returns the raw transactions that transfer from
    or to the address, in the order of the chain, and no others; a transaction
    is listed once for every such transfer. *)
Theorem address_search_exact `{Crypto} `{FileSystemLaws} (s : fs_state) (dir sh : bytes)
    (bs : list bytes) (css : list (list t2_content)) (start : nat) (addr : Address) :
  stored s (in_dir dir sh) bs -> Forall2 file_of bs css -> zlen bs < 2 ^ 32 ->
  (start < length bs)%nat -> AddressOps.isNull addr = false ->
  SearchForAddress s sh (Z.of_nat start) addr dir =
    Ok (concat (listed addr <$> concat (drop start css))).
Proof. apply search_address_run. Qed.

Definition pay_file : t2_content := mkT2c 2 pay nonce8 wallet_sig.

Lemma pay_file_of : file_of (fb_getCanonical pay_block) [pay_file].
Proof.
  exists pay_block. split; [done|]. split; [apply pay_block_wf|].
  split; [constructor; [apply pay_raw_ok | constructor]|]. split; [done|].
  split; [|vm_compute; done]. constructor; [|constructor].
  split; [apply pay_ok|]. split; [by apply sig_wfb_spec|]. repeat split; vm_compute; done.
Qed.

Definition pay_disk : @fs_state toy_fs :=
  mkToyFiles [in_dir wd (text "shard-0")]
    [(in_dir (in_dir wd (text "shard-0")) (text "0.blk"), fb_getCanonical pay_block)].

Lemma pay_disk_stored : stored pay_disk (in_dir wd (text "shard-0")) [fb_getCanonical pay_block].
Proof.
  split; [done|]. split.
  - intros m. change (fs_entries pay_disk (in_dir wd (text "shard-0"))) with [text "0.blk"]. split.
    + intros ->%list_elem_of_singleton. by exists 0.
    + intros (i & Hi & ->). change (zlen [fb_getCanonical pay_block]) with 1 in Hi.
      replace i with 0 by lia. apply list_elem_of_singleton. done.
  - intros [|i] b [= <-]. cbn [fs_content toy_fs tf_files pay_disk assoc].
    by rewrite bool_decide_true.
Qed.

Lemma address_search_exact_witness :
  SearchForAddress pay_disk (text "shard-0") 0 bob wd = Ok [pay_raw].
Proof.
  apply (address_search_exact pay_disk wd (text "shard-0") [fb_getCanonical pay_block] [[pay_file]] 0 bob);
    [apply pay_disk_stored | constructor; [apply pay_file_of | constructor] | done | cbn; lia | done].
Defined.

(** A stored transaction is never found by its signature.  The blocks are
    read with [FinalBlock::Create], which keeps transactions raw, while the
    search looks at [getTransactions()]: whatever the disk holds, operations 4 and 8
    return no bytes and operation 9 never succeeds. *)
Theorem transaction_lookup_finds_nothing `{Crypto} `{FileSystem} `{ProtoWriter} (s : fs_state)
    (dir : bytes) (req : RepeaterRequest) (r : RepeaterResponse) :
  rr_operation req = 4 \/ rr_operation req = 8 \/ rr_operation req = 9 ->
  HandleRepeaterRequest s req dir = Ok r ->
  rs_raw_response r = [] /\ (rr_operation req = 9 -> rs_return_code r <> 0).
Proof. apply transaction_requests. Qed.

(** The signature of the payment that is on the disk. *)
Definition pay_request : RepeaterRequest :=
  mkRepeaterRequest 7 9 (MakeDevvUri (mkUri true (text "shard-0") 0 wallet_sig AddressOps.default)).

Lemma transaction_lookup_finds_nothing_witness :
  exists r, HandleRepeaterRequest pay_disk pay_request wd = Ok r /\ rs_raw_response r = [] /\
    rs_return_code r = 3020.
Proof.
  eexists. split; [vm_compute; reflexivity|]. split; [|done].
  apply (transaction_lookup_finds_nothing pay_disk wd pay_request); [by right; right | vm_compute; reflexivity].
Defined.
