(* ===== verification/PropsNetwork.v ===== *)
(** * Theorems on processes and their network

    Over any publish-subscribe service with prefix filters. *)

From Stdlib Require Import ZArith Lia.
From stdpp Require Import relations.
From stdpp Require Import base list numbers functions.
From S2P Require Import Prelude OrdMap Converters Keys Buffers Transfer ChainState Summary.
From S2P Require Import Validation KeyRing Context DevvUri Transactions Blocks Message Blockchain Pool.
From S2P Require Import Handlers Node Network Samples PropsConsensus.

#[local] Open Scope Z_scope.

#[local] Instance prefix_pubsub : PubSub := {|
  zmq_matches f t := bool_decide (f `prefix_of` t);
  zmq_prefix f t := bool_decide_eq_true (f `prefix_of` t) |}.

(** Every process of a network stays well formed.  Start any number of
    processes, connected in any way, and let messages be published, lost,
    delayed, reordered and handled in any order, with arbitrary frames sent by
    anyone from outside: the node of every process that is still running has a
    chain whose counters agree with its blocks, well-formed states, a pool of sound
    transactions with its mutexes free, and a proposal that extends its top block. *)
Theorem network_nodes_ok `{CryptoLaws} `{PubSub} (keys : KeyRing) (contexts : nat -> DevcashContext)
    (addr : nat -> Address) (key : nat -> EC_KEY) (mode : eAppMode) (links : nat -> nat -> bool)
    (max_tx remote : Z) (net : Net) (j : nat) (m : BlockchainModule) :
  (forall i, has_keys keys (contexts i) (addr i) (key i)) ->
  rtc (net_step keys contexts mode links) (net_start contexts mode max_tx remote) net ->
  proc net j = Some m -> node_ok keys (bm_node m).
Proof.
  intros Hk R. eapply net_reachable_ok; [|exact R]. intros i. by eapply has_keys_signable.
Qed.

(** Three processes, all connected. *)
Definition shard_ctx (i : nat) : DevcashContext := ctx (Z.of_nat (i mod 3)).
Definition shard_addr (i : nat) : Address := node (5 + Z.of_nat (i mod 3)).

Lemma shard_keys i :
  has_keys (H0 := toy_laws) toy_keys (shard_ctx i) (shard_addr i) (key_of (shard_addr i)).
Proof.
  apply node_keys. pose proof (Nat.mod_upper_bound i 3). lia.
Qed.

Definition announce_frame : bytes * bytes :=
  sendMessage (mkMessage (ContextOps.get_uri (ctx 0)) eMessageType.TRANSACTION_ANNOUNCEMENT
                 (tc_bytes pay_content) 7).

Definition all_links (i j : nat) : bool := true.

(** A transaction arrives at process 0 and is queued; then its validator works. *)
Definition process0 : BlockchainModule := bm_start (ctx 0) (bm_ctor T1 100 0).

Definition queued : BlockchainModule :=
  default process0 (receive announce_frame.1 announce_frame.2 process0).

Definition worked : BlockchainModule :=
  default queued (worker_turn toy_keys Validator (fun _ => noon) (ctx 0) T1 0 queued).

Lemma queued_eq : receive announce_frame.1 announce_frame.2 process0 = Some queued.
Proof. vm_compute. reflexivity. Qed.

Lemma worked_eq : worker_turn toy_keys Validator (fun _ => noon) (ctx 0) T1 0 queued = Some worked.
Proof. vm_compute. reflexivity. Qed.

Lemma queued_room : room (bm_node queued).
Proof. vm_compute. reflexivity. Qed.

#[local] Abbreviation toy_net_step := (net_step toy_keys shard_ctx T1 all_links).

Definition queued_net : Net :=
  mkNet (<[0%nat := Some queued]> (proc (net_start shard_ctx T1 100 0)))
    (<[0%nat := []]> (<[0%nat := [announce_frame]]> (fun _ => []))).

Definition worked_net : Net := mkNet (<[0%nat := Some worked]> (proc queued_net)) (inbox queued_net).

#[local] Opaque queued worked announce_frame.

Lemma queued_reachable : rtc toy_net_step (net_start shard_ctx T1 100 0) queued_net.
Proof.
  eapply rtc_l; [apply (ns_inject _ _ _ _ _ 0 announce_frame)|].
  eapply rtc_l; [|apply rtc_refl]. unfold queued_net. rewrite <- queued_eq.
  exact (ns_receive _ _ _ _ (mkNet (proc (net_start shard_ctx T1 100 0)) (<[0%nat := [announce_frame]]> (fun _ => [])))
           0 process0 0 announce_frame eq_refl eq_refl).
Qed.

Lemma worked_reachable : rtc toy_net_step (net_start shard_ctx T1 100 0) worked_net.
Proof.
  eapply rtc_r; [apply queued_reachable|]. unfold worked_net. rewrite <- worked_eq.
  exact (ns_work _ _ _ _ queued_net 0 queued Validator (fun _ => noon) 0 eq_refl queued_room).
Qed.

Lemma network_nodes_ok_witness : node_ok toy_keys (bm_node worked).
Proof.
  apply (network_nodes_ok (H0 := toy_laws) toy_keys shard_ctx shard_addr
    (fun i => key_of (shard_addr i)) T1 all_links 100 0 worked_net 0 worked);
    [apply shard_keys | apply worked_reachable | reflexivity].
Defined.

(** C17: a controller is only given messages it handles.  In every reachable
    network the queue of each worker holds only messages of the types its
    callback has a case for, whatever arrives from outside, so the branches of
    the callbacks for unexpected types are never taken. *)
Theorem queues_well_typed `{CryptoLaws} `{PubSub} (keys : KeyRing) (contexts : nat -> DevcashContext)
    (addr : nat -> Address) (key : nat -> EC_KEY) (mode : eAppMode) (links : nat -> nat -> bool)
    (max_tx remote : Z) (net : Net) (j : nat) (m : BlockchainModule) (w : Worker) (msg : DevcashMessage) :
  (forall i, has_keys keys (contexts i) (addr i) (key i)) ->
  rtc (net_step keys contexts mode links) (net_start contexts mode max_tx remote) net ->
  proc net j = Some m -> msg ∈ thread_queue_ (worker_group w m) -> handles w (m_type msg).
Proof.
  intros Hk R E Hq. destruct (net_reachable_ok keys contexts mode links
    (fun i => has_keys_signable _ _ _ _ (Hk i)) max_tx remote net R j m E) as [_ T].
  apply list_elem_of_lookup in Hq as [i Hi]. apply (Forall_lookup_1 _ _ _ _ (T w) Hi).
Qed.

Lemma queued_message : list.head (thread_queue_ (bm_validator queued)) =
  Some (mkMessage (ContextOps.get_uri (ctx 0)) eMessageType.TRANSACTION_ANNOUNCEMENT (tc_bytes pay_content) 7).
Proof. vm_compute. reflexivity. Qed.

Lemma queues_well_typed_witness : handles Validator eMessageType.TRANSACTION_ANNOUNCEMENT.
Proof.
  apply (queues_well_typed (H0 := toy_laws) toy_keys shard_ctx shard_addr
    (fun i => key_of (shard_addr i)) T1 all_links 100 0 queued_net 0 queued Validator
    (mkMessage (ContextOps.get_uri (ctx 0)) eMessageType.TRANSACTION_ANNOUNCEMENT (tc_bytes pay_content) 7));
    [apply shard_keys | apply queued_reachable | reflexivity |].
  cbn [worker_group]. pose proof queued_message as Q.
  destruct (thread_queue_ (bm_validator queued)); [discriminate Q|]. injection Q as ->. left.
Defined.

(** What happens to a message on arrival.  A message that a server
    published reaches the queue of the one controller that handles its type, behind
    the messages that are there; a message of any other type ends the receiving
    process, because the exception leaves a method declared [noexcept]. *)
Theorem delivery `{Crypto} (msg : DevcashMessage) (m : BlockchainModule) :
  message_ok msg -> m_uri msg <> [] ->
  let frame := sendMessage msg in
  (forall w, handles w (m_type msg) ->
     receive frame.1 frame.2 m =
       Some (set_group w m (ThreadGroupOps.pushMessage (worker_group w m) msg))) /\
  (eMessageType.NUM_TYPES <= m_type msg -> receive frame.1 frame.2 m = None).
Proof.
  intros Ho Hu frame. unfold frame. rewrite receive_run by done.
  pose proof (handleMessage_spec msg m) as S. destruct (handleMessage msg m) as [[[]|e| |] m']; try done.
  - destruct S as (w & Hw & ->). split.
    + intros w' Hw'. by rewrite (handles_unique w' w _ Hw' Hw).
    + intros L. apply handles_range in Hw. lia.
  - destruct S as (_ & _ & N). split; [|done]. intros w Hw. by destruct (N w).
Qed.

Definition odd_message : DevcashMessage := mkMessage [1] 9 [] 0.

Lemma delivery_witness :
  let frame := sendMessage odd_message in
  receive frame.1 frame.2 (bm_ctor T1 100 0) = None.
Proof.
  apply (delivery odd_message (bm_ctor T1 100 0));
    [split; [|split]; unfold in_u32, zlen; cbn; lia | done | unfold_types; cbn; lia].
Defined.

(** Addresses of up to ten nodes are exact.  A process with its filters set
    up hears a message to node [j] only if [j] is its own index, and a message to a
    shard only if it is its own, while indices and shards have one digit. *)
Theorem addressing_exact `{Crypto} `{PubSub} (c c' : DevcashContext) (mode : eAppMode) (max_tx remote j : Z) :
  index_of c < 10 -> 0 <= j < 10 -> 0 <= current_shard_ c < 10 -> 0 <= current_shard_ c' < 10 ->
  let filters := bm_client_filters (bm_start c (bm_ctor mode max_tx remote)) in
  (subscribed filters (ContextOps.get_uri_from_index c j) = true <-> j = index_of c) /\
  (subscribed filters (ContextOps.get_shard_uri c') = true <-> current_shard_ c' = current_shard_ c).
Proof.
  intros Hi Hj Hs Hs' filters. assert (0 <= index_of c) by apply u32_range. split.
  - unfold filters. rewrite hears_node by done. rewrite u32_id by (unfold in_u32; lia).
    rewrite small_prefix by lia. by split.
  - unfold filters. rewrite hears_shard by done. rewrite small_prefix by done. by split.
Qed.

Lemma addressing_exact_witness :
  let filters := bm_client_filters (bm_start (ctx 1) (bm_ctor T1 100 0)) in
  (subscribed filters (ContextOps.get_uri_from_index (ctx 1) 2) = true <-> 2 = index_of (ctx 1)) /\
  (subscribed filters (ContextOps.get_shard_uri (ctx 2)) = true <-> 0 = 0).
Proof. apply (addressing_exact (ctx 1) (ctx 2) T1 100 0 2); vm_compute; intuition discriminate. Defined.

(** With more nodes a process hears what is meant for others.  A node with
    index [i] also receives every message to node [10 i] (a request for blocks, say,
    which it then answers), and a shard's nodes receive the proposals, validations and
    final blocks of the shard with ten times its number. *)
Theorem addressing_misroutes `{Crypto} `{PubSub} (c c' : DevcashContext) (mode : eAppMode) (max_tx remote : Z) :
  0 < index_of c -> 10 * index_of c < 2 ^ 32 ->
  0 < current_shard_ c < 2 ^ 32 -> current_shard_ c' = 10 * current_shard_ c ->
  let filters := bm_client_filters (bm_start c (bm_ctor mode max_tx remote)) in
  subscribed filters (ContextOps.get_uri_from_index c (10 * index_of c)) = true /\
  subscribed filters (ContextOps.get_shard_uri c') = true.
Proof.
  intros Hi Hl Hs Es filters. split.
  - unfold filters. rewrite hears_node by done. rewrite u32_id by (unfold in_u32; lia).
    rewrite to_string_ten by lia. by eexists.
  - unfold filters. rewrite hears_shard by done. rewrite Es, to_string_ten by done. by eexists.
Qed.

Lemma addressing_misroutes_witness :
  let filters := bm_client_filters (bm_start (mkContext 0 1 T2 100 0) (bm_ctor T2 100 0)) in
  subscribed filters (ContextOps.get_uri_from_index (mkContext 0 1 T2 100 0) 30) = true /\
  subscribed filters (ContextOps.get_shard_uri (mkContext 0 10 T2 100 0)) = true.
Proof.
  apply (addressing_misroutes (mkContext 0 1 T2 100 0) (mkContext 0 10 T2 100 0) T2 100 0);
    vm_compute; intuition discriminate.
Defined.
