(* ===== verification/PropsSockets.v ===== *)
(** * Theorems on the sockets *)

From Stdlib Require Import ZArith Lia.
From stdpp Require Import base list numbers.
From S2P Require Import Prelude OrdMap Converters Keys Buffers Transfer ChainState Summary.
From S2P Require Import Validation KeyRing Context Transactions Blocks Message Blockchain Pool.
From S2P Require Import Handlers Node Network Sockets Samples PropsCodec.

#[local] Open Scope Z_scope.

(** C20: from one socket to another, for messages with a uri that is not empty and
    fields in range.  What a server has written are, in order, the two parts of
    every message it was given: its uri and then its serialisation.  A client to
    which these parts arrive, whatever comes after them, makes one turn for each
    message, in which its callback gets exactly that message; the process ends
    where the callback throws, and otherwise the client has read nothing of what
    comes after. *)
Theorem socket_stream `{ZeroMQLaws} {S : Type} (callback : DevcashMessage -> M S unit)
    (ms : list DevcashMessage) (out : pub_socket) (k : sub_socket) (after : list bytes) (q : S) :
  Forall sendable_message ms -> unfinished out = [] -> written out = [] ->
  exists out', socket_send_all ms out = (Ok tt, out') /\ unfinished out' = [] /\
    written out' = (fun m => [m_uri m; serialize m]) <$> ms /\
    (arrived k = concat (written out') ++ after ->
     match handle_all callback ms q with
     | Some q' => exists k', arrived k' = after /\ client_turns callback (length ms) (q, k) = Some (q', k')
     | None => client_turns callback (length ms) (q, k) = None
     end).
Proof.
  intros F U W. destruct (sent_parts ms out U) as (out' & E & U' & W'). exists out'.
  split; [done|]. split; [done|]. rewrite W', W. split; [done|]. by apply turns_handle.
Qed.

(** C38: a message of one part ends the process.  A client counts parts and not
    messages: after a message of a single part it takes the uri of the next
    message for the bytes of one.  Unless the uri starts with the byte 52 the
    assertion on the header fails, whatever the callback does, and what the next
    message says is never read. *)
Theorem short_message_ends_client `{ZeroMQLaws} {S : Type} (callback : DevcashMessage -> M S unit)
    (short : bytes) (m : DevcashMessage) (after : list bytes) (k : sub_socket) (q : S) (n : nat) :
  short <> [] -> m_uri m <> [] -> list.head (m_uri m) <> Some kMSG_HEADER ->
  arrived k = [short] ++ parts_of m ++ after ->
  client_turns callback (Datatypes.S n) (q, k) = None.
Proof.
  intros Ns Nu Nh A. destruct (process_pair callback short (m_uri m) _ q k A Ns Nu) as (k' & _ & E).
  cbn [client_turns]. rewrite E, bind_lift. destruct (m_uri m) as [|c u]; [done|].
  rewrite deserialize_other; [done|]. intros ->. by apply Nh.
Qed.

(** Every turn of a client of a node, whatever parts have arrived, is one that
    [Network] allows: it takes up some two byte strings as a frame. *)
Theorem turn_is_received `{Crypto} `{ZeroMQLaws} (m : BlockchainModule) (k : sub_socket) :
  exists u v k', client_turns handleMessage 1 (m, k) = (fun m' => (m', k')) <$> receive u v m.
Proof.
  destruct (arrived k) as [|u l] eqn:A.
  { exists [], [], k. cbn [client_turns]. by rewrite process_quiet. }
  destruct (recv_next u l k m A) as (k1 & E1 & _ & A1).
  destruct (decide (u = [])) as [->|Nu].
  { exists [], [], k1. cbn [client_turns]. unfold processIncoming. by rewrite (bind_ok _ _ _ _ _ E1). }
  destruct l as [|v l].
  { exists u, [], k1. cbn [client_turns]. unfold processIncoming. rewrite (bind_ok _ _ _ _ _ E1).
    destruct u as [|c u]; [done|]. unfold on_socket at 1, s_vrecv, mbind, M_bind. cbn [fst snd].
    by rewrite recv_none. }
  destruct (recv_next v l k1 m A1) as (k2 & _ & E2 & A2). exists u, v, k2.
  cbn [client_turns]. unfold processIncoming. rewrite (bind_ok _ _ _ _ _ E1).
  destruct u as [|c u]; [done|]. rewrite (bind_ok _ _ _ _ _ E2). unfold receive, processIncomingMessage.
  destruct v as [|d v]; [done|]. rewrite !bind_lift. destruct (deserialize (d :: v)) as [msg|e| |]; try done.
  unfold on_state. cbn [fst snd]. by destruct (handleMessage msg m) as [[[]|e| |] m'].
Qed.

(** ** Sockets for the witnesses: the parts themselves. *)
#[local] Instance toy_zmq : ZeroMQ := {|
  pub_socket := list (list bytes) * list bytes;
  sub_socket := list bytes;
  zmq_send more p s := (true, if more : bool then (s.1, s.2 ++ [p]) else (s.1 ++ [s.2 ++ [p]], []));
  zmq_recv s := match s with [] => (None, []) | p :: l => (Some p, l) end
|}.

#[local] Instance toy_zmq_laws : ZeroMQLaws.
Proof.
  refine {| written := (fun s : pub_socket => fst s); unfinished := (fun s : pub_socket => snd s);
            arrived := (fun s : sub_socket => (s : list bytes)) |}.
  - intros p s. by eexists.
  - intros p s. by eexists.
  - by intros s ->.
  - intros p l s ->. by eexists.
Defined.

(** A callback that keeps what it is given. *)
Definition keep (m : DevcashMessage) : M (list DevcashMessage) unit := fun q => (Ok tt, q ++ [m]).

Lemma hello_sendable : sendable_message hello_message.
Proof. split; [|done]. unfold message_ok, in_u32. vm_compute. intuition done. Qed.

Definition hello_parts : list bytes := [[115; 104]; serialize hello_message].

Lemma socket_stream_witness :
  exists out' : pub_socket, socket_send_all [hello_message; hello_message] ([], []) = (Ok tt, out') /\
    unfinished out' = [] /\ written out' = [hello_parts; hello_parts] /\
    (concat [hello_parts; hello_parts] ++ [[7]] = concat (written out') ++ [[7]] ->
     exists k' : sub_socket, arrived k' = [[7]] /\
       client_turns keep 2 ([], concat [hello_parts; hello_parts] ++ [[7]]) =
         Some ([hello_message; hello_message], k')).
Proof.
  exact (socket_stream keep [hello_message; hello_message] ([], [])
    (concat [hello_parts; hello_parts] ++ [[7]]) [[7]] []
    (List.Forall_cons _ _ _ hello_sendable (List.Forall_cons _ _ _ hello_sendable (List.Forall_nil _)))
    eq_refl eq_refl).
Defined.

Lemma short_message_ends_client_witness :
  client_turns keep 5 ([], [[115; 104]; [115; 104]; serialize hello_message]) = None.
Proof. apply (short_message_ends_client keep [115; 104] hello_message [] _ [] 4); done. Defined.
