(* ===== verification/PropsKeys.v ===== *)
(** * Properties of the key files

    What [GenerateAndWriteKeyfile] writes, [KeyRing.LoadWallets] reads back,
    provided OpenSSL armours a key in exactly the 379 bytes the program expects
    and the stack array through which each key is copied has a zero byte after
    it.  Keys of another size make a file that is refused, and so do leftovers on
    the stack. *)

From Stdlib Require Import ZArith Lia Ascii String.
From stdpp Require Import base list numbers.
From S2P Require Import Prelude OrdMap Converters Keys Buffers KeyRing Files KeyFiles.
From S2P Require Import Samples PropsRepeater.

#[local] Open Scope Z_scope.

Section key_files.
Context `{CL : CryptoLaws}.
Context {KM : KeyMaker} {KL : KeyMakerLaws}.
Context `{FL : FileSystemLaws}.

Lemma leftover_clean pw n :
  stack_buffer n !! length (PEM_write (EC_generate n) pw) = Some 0 -> c_string (leftover pw n) = Ok [].
Proof.
  intros E. destruct (c_string_zero (leftover pw n) 0) as (g & -> & L).
  - unfold leftover. by rewrite lookup_drop, Nat.add_0_r.
  - destruct g as [|c g]; [done|]. rewrite zlen_cons in L. pose proof (zlen_nonneg g). lia.
Qed.

(** The size of a generated file. *)
Lemma records_size pw garbage num size :
  (forall i, (i < num)%nat -> zlen (PEM_write (EC_generate i) pw) = size) ->
  zlen (records pw garbage num) =
    Z.of_nat num * (size + kWALLET_ADDR_SIZE * 2) + zlen (concat (garbage <$> seq 0 num)).
Proof.
  intros Hk. unfold records.
  assert (Forall (fun i => zlen (PEM_write (EC_generate i) pw) = size) (seq 0 num)) as F
    by (apply list.Forall_forall; intros i Hi; apply elem_of_seq in Hi; apply Hk; lia).
  rewrite <- (length_seq num 0) at 2. fold (zlen (seq 0 num)).
  induction F as [|i l E F IH]; [done|]. rewrite !fmap_cons. cbn [concat].
  rewrite !zlen_app, IH, hex_size, E, zlen_cons. lia.
Qed.

Lemma text_lines_size v : zlen v <= zlen (text_lines v) <= zlen v + 1.
Proof.
  unfold text_lines. destruct v as [|c v]; [lia|]. case_match; [lia|].
  rewrite zlen_app. change (zlen [newline]) with 1. lia.
Qed.

(** Keys armoured in [size] bytes, and no leftovers behind them on the stack. *)
Definition clean_keys (pw : bytes) (size : Z) (num : nat) : Prop :=
  forall i, (i < num)%nat -> zlen (PEM_write (EC_generate i) pw) = size /\
                             stack_buffer i !! Z.to_nat size = Some 0.

Lemma clean_file s dir name pw size num s' :
  clean_keys pw size num -> size <= kBUFFER_SIZE -> (0 < num)%nat ->
  fs_write s (in_dir dir name) (records pw (fun _ => []) num) = Some s' ->
  GenerateAndWriteKeyfile s (in_dir dir name) num pw = Ok (true, s') /\
  ReadFile s' (in_dir dir name) = records pw (fun _ => []) num.
Proof using KL FL.
  intros C L Hn W. rewrite (GenerateAndWriteKeyfile_ok s _ num pw (fun _ => [])), W.
  - split; [done|]. unfold ReadFile. rewrite (content_written _ _ _ _ _ W). unfold text_lines.
    rewrite records_last by done. by destruct (records _ _ _).
  - intros i Hi. destruct (C i Hi). lia.
  - intros i Hi. destruct (C i Hi) as [E Hs]. apply leftover_clean. rewrite <- Hs. f_equal.
    rewrite <- E. symmetry. apply zlen_to_nat.
Qed.

(** C28: a key file is read back.  When OpenSSL armours every key in the 379 bytes
    that the program's constant says, and the byte of the stack array that
    follows each armoured key is zero, the file that [GenerateAndWriteKeyfile]
    writes for [num] keys is loaded by [LoadWallets] with the same password: it
    answers true, the ring has [num] wallets, and the [i]-th is the [i]-th
    generated key under the address of its public point. *)
Theorem generated_keys_load (s : fs_state) (dir name pw : bytes) (num : nat)
    (Hn : (0 < num)%nat) (Hb : Z.of_nat num < 2 ^ 64) (Hp : pw <> [])
    (Hs : clean_keys pw kFILE_KEY_SIZE num)
    (Hd : NoDup (generated_address <$> seq 0 num))
    (Hw : forall v, is_Some (fs_write s (in_dir dir name) v)) :
  exists s' keys,
    GenerateAndWriteKeyfile s (in_dir dir name) num pw = Ok (true, s') /\
    LoadWallets (ReadFile s' (in_dir dir name)) pw KeyRing_empty = (Ok true, keys) /\
    CountWallets keys = Z.of_nat num /\
    forall i, (i < num)%nat ->
      getWalletAddr keys (Z.of_nat i) = Ok (generated_address i) /\
      getWalletKey keys (Z.of_nat i) = Ok (EC_generate i).
Proof using CL KL FL.
  destruct (Hw (records pw (fun _ => []) num)) as [s' W]. exists s', (generated_ring (seq 0 num) KeyRing_empty).
  destruct (clean_file _ _ _ _ _ _ _ Hs ltac:(done) Hn W) as [-> ->].
  split; [done|]. split; [|split].
  - apply load_generated_file; [done..|]. intros i Hi. apply (Hs i Hi).
  - unfold CountWallets, zlen. by rewrite generated_ring_wallets, length_app, length_fmap, length_seq.
  - intros i Hi. unfold getWalletAddr, getWalletKey. rewrite generated_ring_wallets. cbn [wallet_list_ KeyRing_empty app].
    assert (vec_at (generated_address <$> seq 0 num) (u64 (Z.of_nat i)) = Ok (generated_address i)) as ->.
    { rewrite u64_id by (unfold in_u64, u64_mod; lia). unfold vec_at, zlen. rewrite length_fmap, length_seq.
      rewrite (proj2 (Z.leb_le _ _)), (proj2 (Z.ltb_lt _ _)) by lia. cbn [andb].
      by rewrite Nat2Z.id, list_lookup_fmap, lookup_seq_lt. }
    split; [done|]. cbn [mbind res_bind].
    rewrite generated_ring_key; [done | done | apply elem_of_seq; lia | done].
Qed.

(** Keys of another size.  [LoadWallets] splits a file by the constant 379 and
    not by its contents.  When OpenSSL armours every key in [size] bytes instead,
    the file of [num] keys is written and reported as a success, and
    [LoadWallets] refuses it and loads no key, whenever the [num] differences do
    not add up to whole records. *)
Theorem other_size_refused (s s' : fs_state) (dir name pw : bytes) (num : nat) (size : Z)
    (kr : KeyRing) (Hn : (0 < num)%nat) (Hz : size <= kBUFFER_SIZE)
    (Hs : clean_keys pw size num)
    (Hm : Z.of_nat num * (size - kFILE_KEY_SIZE) mod (kFILE_KEY_SIZE + kWALLET_ADDR_SIZE * 2) <> 0)
    (Hw : fs_write s (in_dir dir name) (records pw (fun _ => []) num) = Some s') :
  GenerateAndWriteKeyfile s (in_dir dir name) num pw = Ok (true, s') /\
  LoadWallets (ReadFile s' (in_dir dir name)) pw kr = (Ok false, kr).
Proof using CL KL FL.
  destruct (clean_file _ _ _ _ _ _ _ Hs Hz Hn Hw) as [-> ->]. split; [done|].
  apply LoadWallets_refuses. rewrite (records_size _ _ _ size) by (intros i Hi; apply (Hs i Hi)).
  assert (concat ((fun _ : nat => @nil Z) <$> seq 0 num) = []) as ->
    by (induction (seq 0 num); [done | by rewrite fmap_cons]).
  set (r := kFILE_KEY_SIZE + kWALLET_ADDR_SIZE * 2) in *. rewrite zlen_nil.
  replace (_ + 0) with (Z.of_nat num * (size - kFILE_KEY_SIZE) + Z.of_nat num * r) by (subst r; lia).
  by rewrite Z.mod_add by (subst r; vm_compute; congruence).
Qed.

(** Leftovers on the stack spoil a key file.  [GenerateEcKey] appends its
    array as a C string though [BIO_read] does not end it with a zero: the
    [garbage i] that follows the [i]-th key on the stack becomes part of the
    file.  When all of it together is shorter than a record, the file is still
    written and reported as a success, and no key of it can be loaded. *)
Theorem dirty_key_file (s s' : fs_state) (dir name pw : bytes) (num : nat) (garbage : nat -> bytes)
    (kr : KeyRing)
    (Hk : forall i, (i < num)%nat -> zlen (PEM_write (EC_generate i) pw) = kFILE_KEY_SIZE)
    (Hg : forall i, (i < num)%nat -> c_string (leftover pw i) = Ok (garbage i))
    (Hl : 0 < zlen (concat (garbage <$> seq 0 num)) < kFILE_KEY_SIZE + kWALLET_ADDR_SIZE * 2 - 1)
    (Hw : fs_write s (in_dir dir name) (records pw garbage num) = Some s') :
  GenerateAndWriteKeyfile s (in_dir dir name) num pw = Ok (true, s') /\
  LoadWallets (ReadFile s' (in_dir dir name)) pw kr = (Ok false, kr).
Proof using CL KL FL.
  rewrite (GenerateAndWriteKeyfile_ok s _ num pw garbage), Hw; [| intros i Hi; by rewrite (Hk i Hi) | done].
  split; [done|].
  unfold ReadFile. rewrite (content_written _ _ _ _ _ Hw). apply LoadWallets_refuses.
  pose proof (text_lines_size (records pw garbage num)) as T. rewrite (records_size _ _ _ _ Hk) in T.
  set (g := zlen (concat (garbage <$> seq 0 num))) in *.
  set (r := kFILE_KEY_SIZE + kWALLET_ADDR_SIZE * 2) in *.
  replace (zlen (text_lines _)) with
    (zlen (text_lines (records pw garbage num)) - Z.of_nat num * r + Z.of_nat num * r) by lia.
  rewrite Z.mod_add by (subst r; vm_compute; congruence). rewrite Z.mod_small; lia.
Qed.

(** The start-up test passes exactly when the second built-in key loads. *)
Lemma sanity_checks_pass (addrs keys : list bytes) :
  performSanityChecks true addrs keys = Ok tt <->
  exists a k key, vec_idx addrs 1 = Ok a /\ vec_idx keys 1 = Ok k /\
    LoadEcKey a k sanity_password = Ok key.
Proof using CL.
  unfold performSanityChecks. cbn [negb]. split.
  - intros E. destruct (vec_idx addrs 1) as [a|e| |]; try done.
    destruct (vec_idx keys 1) as [k|e| |]; try done. cbn [mbind res_bind] in E.
    destruct (LoadEcKey a k sanity_password) as [key|e| |] eqn:L; try done. by exists a, k, key.
  - intros (a & k & key & -> & -> & E). cbn [mbind res_bind]. rewrite E. cbn [mbind res_bind].
    destruct (SignBinary_ok key (DevcashHash hello)) as (sig & -> & V & _). cbn [mbind res_bind].
    by rewrite V.
Qed.
End key_files.

(** ** A toy key generator: ten keys, an armour of as many letters as one likes *)
Definition toy_point (k : bool * Z) : bytes := ToHex (replicate 32 0 ++ [u8 (k.2 - 96)]) kWALLET_ADDR_SIZE.

Definition toy_armour (letters : nat) : bytes := replicate letters 65 ++ [newline].

Lemma toy_armour_text letters : ~ (0 ∈ toy_armour letters).
Proof.
  unfold toy_armour. rewrite elem_of_app, list_elem_of_singleton. intros [E|E]; [|done].
  by apply elem_of_replicate in E as [E _].
Qed.

Definition toy_maker (letters : nat) (stack : nat -> bytes) : KeyMaker := {|
  EC_generate n := ((false, 96 + Z.of_nat (n mod 10)) : @EC_KEY toy_crypto);
  EC_group_ok _ := true;
  EC_point_hex := toy_point;
  PEM_write _ _ := toy_armour letters;
  BIO_reads s := [s];
  stack_buffer := stack
|}.

Lemma toy_point_id m : (m < 10)%nat -> toy_id (toy_point (false, 96 + Z.of_nat m)) = 96 + Z.of_nat m.
Proof. intros Hm. do 10 (destruct m as [|m]; [vm_compute; reflexivity|]). lia. Qed.

Lemma toy_maker_laws letters stack :
  (forall n, zlen (stack n) = kBUFFER_SIZE) -> KeyMakerLaws (H0 := toy_maker letters stack).
Proof.
  intros Hs. split; cbn -[toy_armour Nat.modulo]; try done.
  - intros n. eexists. split; [|split; [|reflexivity]]; [|done].
    apply Forall_app. split; [by apply list.Forall_replicate|]. repeat constructor; apply u8_range.
  - intros n pw. apply toy_armour_text.
  - intros n pw. apply last_last.
  - intros n pw P. f_equal. f_equal. apply toy_point_id. apply Nat.mod_upper_bound. lia.
Qed.

Definition clean_stack (n : nat) : bytes := replicate 1024 0.
Definition dirty_stack (n : nat) : bytes := replicate 384 66 ++ replicate 640 0.

#[local] Instance clean_maker : KeyMaker := toy_maker 378 clean_stack.
#[local] Instance clean_laws : KeyMakerLaws (H0 := clean_maker).
Proof. by apply toy_maker_laws. Qed.

Definition no_files : toy_files := mkToyFiles [] [].
Definition key_dir : bytes := text "keys"%string.
Definition key_name : bytes := text "wallets"%string.
Definition key_pw : bytes := text "password"%string.

Lemma generated_keys_load_witness :
  exists s' keys,
    GenerateAndWriteKeyfile (H0 := clean_maker) (H1 := toy_fs) no_files (in_dir key_dir key_name) 2 key_pw =
      Ok (true, s') /\
    LoadWallets (ReadFile (H := toy_fs) s' (in_dir key_dir key_name)) key_pw KeyRing_empty = (Ok true, keys) /\
    CountWallets keys = 2 /\
    getWalletKey keys 0 = Ok (false, 96) /\ getWalletKey keys 1 = Ok (false, 97).
Proof.
  destruct (generated_keys_load (KM := clean_maker) (KL := clean_laws) (FL := toy_fs_laws)
              no_files key_dir key_name key_pw 2) as (s' & keys & G & L & C & K).
  - lia.
  - lia.
  - done.
  - intros i _. split; vm_compute; reflexivity.
  - apply (bool_decide_eq_true_1 _). vm_compute. reflexivity.
  - intros v. by eexists.
  - exists s', keys. split; [exact G|]. split; [exact L|]. split; [exact C|].
    destruct (K 0%nat) as [_ K0]; [lia|]. destruct (K 1%nat) as [_ K1]; [lia|].
    split; [exact K0 | exact K1].
Defined.

#[local] Instance dirty_maker : KeyMaker := toy_maker 378 dirty_stack.
#[local] Instance dirty_laws : KeyMakerLaws (H0 := dirty_maker).
Proof. by apply toy_maker_laws. Qed.

(** Five bytes are left after a key. *)
Definition five_letters (i : nat) : bytes := replicate 5 66.

Lemma dirty_key_file_witness :
  exists s',
    GenerateAndWriteKeyfile (H0 := dirty_maker) (H1 := toy_fs) no_files (in_dir key_dir key_name) 2 key_pw =
      Ok (true, s') /\
    LoadWallets (ReadFile (H := toy_fs) s' (in_dir key_dir key_name)) key_pw KeyRing_empty =
      (Ok false, KeyRing_empty).
Proof.
  eexists. apply (dirty_key_file (KM := dirty_maker) (KL := dirty_laws) (FL := toy_fs_laws)
                    no_files _ key_dir key_name key_pw 2 five_letters KeyRing_empty).
  - intros i _. vm_compute. reflexivity.
  - intros i _. vm_compute. reflexivity.
  - split; vm_compute; reflexivity.
  - reflexivity.
Defined.

(** Keys of 399 bytes, as current versions of OpenSSL write them. *)
#[local] Instance long_maker : KeyMaker := toy_maker 398 clean_stack.
#[local] Instance long_maker_laws : KeyMakerLaws (H0 := long_maker).
Proof. by apply toy_maker_laws. Qed.

Lemma other_size_refused_witness :
  exists s',
    GenerateAndWriteKeyfile (H0 := long_maker) (H1 := toy_fs) no_files (in_dir key_dir key_name) 2 key_pw =
      Ok (true, s') /\
    LoadWallets (ReadFile (H := toy_fs) s' (in_dir key_dir key_name)) key_pw KeyRing_empty =
      (Ok false, KeyRing_empty).
Proof.
  eexists. apply (other_size_refused (KM := long_maker) (KL := long_maker_laws) (FL := toy_fs_laws)
                    no_files _ key_dir key_name key_pw 2 399 KeyRing_empty).
  - lia.
  - done.
  - intros i _. split; vm_compute; reflexivity.
  - vm_compute. congruence.
  - reflexivity.
Defined.
