(* ===== verification/PropsAuditors.v ===== *)
(** * Theorems on the verifier and the scanner *)

From Stdlib Require Import ZArith Lia String.
From stdpp Require Import base list numbers.
From S2P Require Import Prelude OrdMap Converters Keys Buffers Transfer ChainState Summary.
From S2P Require Import Validation KeyRing Context DevvUri Transactions Blocks Blockchain Oracles.
From S2P Require Import JsonTree JsonPrint Files Auditors Samples PropsLedger PropsJson PropsRepeater.

#[local] Open Scope Z_scope.

(** What the absence of warnings means.  When the verifier (or the scanner)
    replays a block over a well-formed chain state and warns about nothing, all its
    transactions are sound, every balance and every supply has changed by exactly
    what the transfers of these transactions say, and the summary of the block is,
    byte for byte, the one these transfers make. *)
Theorem clean_block_report `{Crypto} (keys : KeyRing) (b : FinalBlock) (st st' : ChainState)
    (ws : list warning) :
  cs_ok st -> replay_block keys b (st, ws) = (Ok tt, (st', ws)) ->
  Forall (fun t => tx_isSound t keys = Ok true) (fb_CopyTransactions b) /\
  exists xss vs sum agg,
    map_res tx_getTransfers (fb_CopyTransactions b) = Ok xss /\ views (concat xss) = Ok vs /\
    effect_of vs (mkVCtx st SummaryOps.Create []) (mkVCtx st' sum agg) /\
    SummaryOps.getCanonical sum = SummaryOps.getCanonical (fb_summary b).
Proof.
  intros C (S & xss & sum & agg & Hx & R & E)%replay_block_clean. split; [done|].
  apply refines_effect in R as (vs & Hv & Ef); [by exists xss, vs, sum, agg|].
  split; [done | apply Create_ok].
Qed.

(** The programs do not end on a directory with a file that is neither
    blocks nor transactions: the loop over the file warns and does not move.  No
    number of turns is enough, for the verifier and for the scanner. *)
Theorem unknown_file_never_ends `{Crypto} `{FileSystem} `{PropertyTree} (s : fs_state) (keys : KeyRing)
    (now : Z) (mode : eAppMode) (wd name raw out pat : bytes) (names : list bytes) (fuel : nat) :
  wd <> [] -> is_directory s wd = true -> fs_entries s wd = name :: names ->
  fs_content s (in_dir wd name) = Some raw ->
  raw <> [] -> IsBlockData now raw = Ok false -> IsTxData raw = Ok false ->
  verifier_main keys s now mode fuel wd = NoFuel /\ scanner_main s now mode fuel wd out pat = NoFuel.
Proof.
  intros N D E C N' B T. assert (unknown_data now raw) as U by done.
  split; [by apply (verifier_hangs keys s now mode fuel wd name names raw)|].
  by apply (scanner_hangs s now mode fuel wd name names raw out pat).
Qed.

(** A chain file that grows long is no longer scanned.  The first eight bytes
    of a block are its version and the low bytes of its size; read as the size of
    transfers they say 256 times the size of the block.  So once a file of blocks is
    91 bytes longer than that it passes both tests, and the scanner, which asks
    for transactions first, fails on it and counts none of its blocks. *)
Theorem long_chain_file_skipped `{Crypto} `{PropertyTree} (b : FinalBlock) (rest : bytes) (keys : KeyRing)
    (now : Z) (mode : eAppMode) (fuel : nat) (tree : list json) (ws : list warning) :
  fb_wf b -> 1514764800 <= fb_block_time b <= now -> fb_block_time b < 2 ^ 55 ->
  91 + 256 * fb_num_bytes b <= zlen (fb_getCanonical b ++ rest) < 2 ^ 38 ->
  let raw := fb_getCanonical b ++ rest in
  IsBlockData now raw = Ok true /\ IsTxData raw = Ok true /\
  scan_file keys now mode (S fuel) raw tree ws = (Ok tt, scan_failed (file_start tree ws)).
Proof.
  intros W [T1 T2] T3 L raw. split; [by apply long_is_block|]. split; [by apply long_is_tx|].
  by apply long_scan.
Qed.

(** The address filter is exact.  The scanner prints the blocks it read into
    trees; for blocks of Tier-2 transactions the filter then returns, in order, the
    trees of exactly the transactions with a transfer whose address, in hexadecimal,
    contains the text looked for. *)
Theorem address_filter_exact `{Crypto} `{PropertyTree} (bs : list FinalBlock) (css : list (list t2_content))
    (pat : bytes) :
  Forall2 block_of bs css ->
  exists tree, fold_res (fun tree b => t ← fb_GetJSON b; add_to_tree t tree) [] bs = Ok tree /\
    filter_by_address tree pat =
      Ok (JObj [(kTXS_TAG, JArr (t2_tree <$> List.filter (involves pat) (concat css)))]) /\
    forall c, involves pat c = true <->
      exists v a z, v ∈ c_xfers c /\ AddressOps.getJSON (v_addr v) = a ++ pat ++ z.
Proof.
  intros F. exists (zip_with (fun b cs => fb_tree b (t2_tree <$> cs)) bs css). split; [|split].
  - rewrite <- (app_nil_l (zip_with _ _ _)). generalize (@nil json).
    induction F as [|b cs bs css Hb _ IH]; intros acc; [by rewrite app_nil_r|].
    destruct (block_of_text b cs Hb) as [E O]. cbn [fold_res zip_with]. rewrite E. cbn [mbind res_bind].
    rewrite add_tree by done. cbn [mbind res_bind]. rewrite IH. by rewrite <- app_assoc.
  - unfold filter_by_address. rewrite filter_trees by (by apply list.Forall2_length in F). done.
  - intros c. apply involves_spec.
Qed.

(** ** The theorems at work *)

(** A property tree for the witnesses. *)
Definition toy_read_json (t : bytes) : res json :=
  match parse t with Some j => Ok j | None => Err RuntimeError end.

Lemma toy_read_json_tree j : json_ok j -> toy_read_json (render j) = Ok j.
Proof. intros Hj. unfold toy_read_json. by rewrite parse_render. Qed.

#[local] Instance toy_ptree : PropertyTree := {|
  read_json := toy_read_json; read_json_tree := toy_read_json_tree |}.

(** The block of Alice's payment, with the payment itself. *)
Definition audited_block : FinalBlock :=
  mkFB 0 0 0 [] [] 0 0 0 [Tier2 pay_tx] [] (v_summary paid_ctx) ValidationOps.Create funded.

Lemma clean_block_report_witness :
  Forall (fun t => tx_isSound t toy_keys = Ok true) (fb_CopyTransactions audited_block) /\
  exists xss vs sum agg,
    map_res tx_getTransfers (fb_CopyTransactions audited_block) = Ok xss /\ views (concat xss) = Ok vs /\
    effect_of vs (mkVCtx funded SummaryOps.Create []) (mkVCtx (v_state paid_ctx) sum agg) /\
    SummaryOps.getCanonical sum = SummaryOps.getCanonical (fb_summary audited_block).
Proof.
  apply (clean_block_report toy_keys audited_block funded (v_state paid_ctx) []);
    [apply funded_ok | vm_compute; reflexivity].
Defined.

Lemma unknown_file_never_ends_witness :
  let disk := mkToyFiles [wd] [(in_dir wd (text "README"), text "These are the blocks of May")] in
  verifier_main toy_keys disk 0 T2 1000 wd = NoFuel /\
  scanner_main disk 0 T2 1000 wd [] [] = NoFuel.
Proof.
  apply (unknown_file_never_ends _ _ _ _ wd (text "README") (text "These are the blocks of May") [] [] []);
    vm_compute; done.
Defined.

(** Three hundred times the sample block. *)
Definition long_file : bytes := concat (replicate 300 (fb_getCanonical pay_block)).

Lemma long_chain_file_skipped_witness :
  IsBlockData noon long_file = Ok true /\ IsTxData long_file = Ok true /\
  scan_file toy_keys noon T2 1 long_file [] [] = (Ok tt, scan_failed (file_start [] [])).
Proof.
  apply (long_chain_file_skipped pay_block (concat (replicate 299 (fb_getCanonical pay_block)))
           toy_keys noon T2 0 [] []); [apply pay_block_wf | vm_compute; intuition done..].
Defined.

Lemma address_filter_exact_witness :
  exists tree, fold_res (fun tree b => t ← fb_GetJSON b; add_to_tree t tree) [] [full_block] = Ok tree /\
    filter_by_address tree (take 8 (AddressOps.getJSON alice)) = Ok (JObj [(kTXS_TAG, JArr [t2_tree pay_t2])]).
Proof.
  destruct (address_filter_exact [full_block] [[pay_t2]] (take 8 (AddressOps.getJSON alice)))
    as (tree & E1 & E2 & _); [constructor; [apply full_block_of | constructor]|].
  exists tree. split; [exact E1|]. rewrite E2. vm_compute. reflexivity.
Defined.
