(* ===== verification/PropsGenerators.v ===== *)
(** * Theorems on the transaction generators *)

From Stdlib Require Import ZArith Lia.
From stdpp Require Import base list numbers.
From S2P Require Import Prelude OrdMap Converters Keys Buffers Transfer ChainState Summary.
From S2P Require Import KeyRing Transactions Generators Samples.

#[local] Open Scope Z_scope.

(** Options that circuit can serve with [x] wallets of a key ring. *)
Definition servable `{CryptoLaws} (keys : KeyRing) (o : Options) (inn : Address) (x : Z) : Prop :=
  ring_ready keys inn /\ count_addrs keys o = x /\ 2 <= x /\ 2 <= generate_count o < 2 ^ 32 /\
  0 < tx_amount o /\ x * (x - 1) * tx_amount o < 2 ^ 63.

Lemma servable_run `{CryptoLaws} keys clock o inn x fuel :
  servable keys o inn x -> generate_count o <= Z.of_nat fuel ->
  exists cs, circuit keys clock o fuel = Ok (concat (t2c_bytes <$> cs)) /\
    Forall (content_sound keys) cs /\ zlen cs = generate_count o /\
    job_of <$> cs = take (Z.to_nat (generate_count o))
      (fund_job keys o inn x :: repeated fuel (circuit_jobs keys o x ++ back_jobs keys o inn x)).
Proof.
  intros (R & E & Hx & Hc & Ha & Hm) Hf. pose proof R as (Ei & _ & _ & _ & Lw).
  assert (x <= zlen (wallet_list_ keys)) as Hw by (unfold count_addrs, CountWallets in E; lia).
  unfold circuit. rewrite Ei. cbn [mbind res_bind]. rewrite (proj2 (Z.ltb_ge _ _)), E by lia.
  apply (generator_ok keys clock o inn R x); try done; try lia.
  - apply (from_to_runs keys clock o inn R); [lia | lia | nia |]. intros i j _ Hj. by apply indices_range in Hj.
  - apply clear_runs; try done; lia.
  - intros Ej. apply (f_equal length) in Ej. rewrite circuit_jobs_length in Ej by lia. cbn in Ej. nia.
Qed.

(** Circuit ends and writes what it promises.  For a key ring with the INN's
    key and a key for every wallet, options that need two wallets or more, and an
    amount above 0 that does not overflow, [generate_count] turns of the outer loop are
    enough, and the file is exactly [generate_count] transactions, all sound: first
    the one that funds the wallets, then, in the order of the loops and as often as
    needed, every payment from one wallet to another, and back to the INN when asked
    to, cut off at the count by the breaks on every level. *)
Theorem circuit_generates `{CryptoLaws} (keys : KeyRing) (clock : nat -> Z) (o : Options) (inn : Address)
    (x : Z) (fuel : nat) :
  servable keys o inn x -> generate_count o <= Z.of_nat fuel ->
  exists cs, circuit keys clock o fuel = Ok (concat (t2c_bytes <$> cs)) /\
    Forall (content_sound keys) cs /\ zlen cs = generate_count o /\
    job_of <$> cs = take (Z.to_nat (generate_count o))
      (fund_job keys o inn x :: repeated fuel (circuit_jobs keys o x ++ back_jobs keys o inn x)).
Proof. apply servable_run. Qed.

(** A complete circuit leaves no trace.  With [x] * [x] + 1 transactions and the
    state to be cleared, the transactions of the file take from every address, in
    every coin, exactly as much as they give to it. *)
Theorem circuit_closes_books `{CryptoLaws} (keys : KeyRing) (clock : nat -> Z) (o : Options) (inn : Address)
    (x : Z) (fuel : nat) :
  servable keys o inn x -> generate_count o = x * x + 1 -> clear_state o = true ->
  generate_count o <= Z.of_nat fuel ->
  exists cs, circuit keys clock o fuel = Ok (concat (t2c_bytes <$> cs)) /\
    forall a coin, views_delta (concat (c_xfers <$> cs)) a coin = 0.
Proof.
  intros Sv N C Hf. destruct (servable_run keys clock o inn x fuel Sv Hf) as (cs & E & _ & _ & J).
  pose proof Sv as (_ & _ & Hx & _). exists cs. split; [done|]. intros a coin.
  rewrite <- (books_closed keys o inn a coin x) by (done || lia). unfold jobs_delta.
  assert (j_xfers <$> (job_of <$> cs) = c_xfers <$> cs) as <- by (by rewrite <- list_fmap_compose).
  rewrite J. do 3 f_equal.
  replace (Z.to_nat (generate_count o)) with
    (S (length (circuit_jobs keys o x ++ back_jobs keys o inn x))).
  - cbn [take]. f_equal. apply take_repeated. lia.
  - rewrite length_app, circuit_jobs_length, back_jobs_length by (done || lia). nia.
Qed.

(** The smallest counts never work.  For 2, 3 or 4 transactions circuit and
    laminar use one wallet at most, and then the INN's own transaction moves nothing:
    it has no sender, so its soundness check throws, and no file is written. *)
Theorem smallest_counts_fail `{CryptoLaws} (keys : KeyRing) (clock : nat -> Z) (o : Options) (inn : Address)
    (fuel : nat) :
  ring_ready keys inn -> 2 <= generate_count o <= 4 ->
  circuit keys clock o fuel = Err RuntimeError /\ laminar keys clock o fuel = Err RuntimeError.
Proof.
  intros R Hc. pose proof R as (Ei & _ & _ & _ & Lw).
  assert (0 <= count_addrs keys o <= 1 /\ count_addrs keys o <= zlen (wallet_list_ keys)) as [B1 B2].
  { unfold count_addrs, CountWallets. pose proof (zlen_nonneg (wallet_list_ keys)).
    assert (generate_count o = 2 \/ generate_count o = 3 \/ generate_count o = 4) as Hg by lia.
    assert (Z.sqrt (u32 (generate_count o - 1)) = 1) as -> by (by destruct Hg as [-> | [-> | ->]]). lia. }
  pose proof (fund_small keys clock o inn R _ B1 B2) as F.
  unfold circuit, laminar, run_generator. rewrite Ei. cbn [mbind res_bind].
  rewrite (proj2 (Z.ltb_ge _ _)) by lia.
  unfold mbind, M_bind. destruct (fund _ _ _ _ _ _) as [r g]. cbn in F. by subst r.
Qed.

(** ** The theorems at work: five transactions between Alice and Bob *)
Definition five : Options := mkOptions 0 5 10 true.

Lemma toy_ring_ready : ring_ready toy_keys (node 5).
Proof.
  split; [vm_compute; reflexivity|]. split; [by apply addr_wfb_spec|].
  split; [eexists; split; vm_compute; reflexivity|]. split; [|vm_compute; reflexivity].
  repeat (apply Forall_cons; [split; [apply wallet_wf | eexists; split; vm_compute; reflexivity]|]).
  constructor.
Qed.

Lemma five_servable : servable toy_keys five (node 5) 2.
Proof.
  split; [apply toy_ring_ready|]. split; [vm_compute; reflexivity|].
  split; [done|]. split; [split; done|]. split; done.
Qed.

Lemma circuit_generates_witness :
  exists cs, circuit toy_keys (fun _ => noon) five 5 = Ok (concat (t2c_bytes <$> cs)) /\ zlen cs = 5.
Proof.
  destruct (circuit_generates toy_keys (fun _ => noon) five (node 5) 2 5) as (cs & E & _ & L & _);
    [apply five_servable | done | exists cs; split; [exact E | exact L]].
Defined.

Lemma circuit_closes_books_witness :
  exists cs, circuit toy_keys (fun _ => noon) five 5 = Ok (concat (t2c_bytes <$> cs)) /\
    views_delta (concat (c_xfers <$> cs)) alice 0 = 0.
Proof.
  destruct (circuit_closes_books toy_keys (fun _ => noon) five (node 5) 2 5) as (cs & E & B);
    [apply five_servable | done | done | done | exists cs; split; [exact E | apply B]].
Defined.

Lemma smallest_counts_fail_witness :
  circuit toy_keys (fun _ => noon) (mkOptions 0 2 10 true) 100 = Err RuntimeError /\
  laminar toy_keys (fun _ => noon) (mkOptions 0 2 10 true) 100 = Err RuntimeError.
Proof.
  apply (smallest_counts_fail toy_keys (fun _ => noon) (mkOptions 0 2 10 true) (node 5) 100);
    [apply toy_ring_ready | done].
Defined.
