(* ===== verification/PropsAnnouncer.v ===== *)
(** * Theorems on the announcers and the thread pool *)

From Stdlib Require Import ZArith Lia String.
From stdpp Require Import base list numbers.
From S2P Require Import Prelude OrdMap Converters Keys Buffers Transfer ChainState Summary.
From S2P Require Import Validation KeyRing Context DevvUri Transactions Blocks Message Blockchain.
From S2P Require Import Oracles Pbuf Generators Announcer Samples PropsGenerators.

#[local] Open Scope Z_scope.

(** The parallel loop makes the calls of the serial one.  For every number of
    threads, whatever order the threads take turns in, the calls are those of
    [SequentialFor], each exactly once; every thread has something to do, there are
    no more of them than asked for, and their calls one thread after the other are
    in the serial order. *)
Theorem parallel_for_is_serial (start end_ nb : Z) (trace : list Z) :
  1 <= nb -> start <= end_ -> interleaving (ParallelFor start end_ nb) trace ->
  trace ≡ₚ SequentialFor start end_ /\ NoDup trace /\
  concat (ParallelFor start end_ nb) = SequentialFor start end_ /\
  Forall (fun t => t <> []) (ParallelFor start end_ nb) /\ zlen (ParallelFor start end_ nb) <= nb.
Proof.
  intros Hn Hr I. destruct (parallel_covers start end_ nb Hn Hr) as (C & F & L).
  apply interleaving_perm in I. rewrite C in I. split; [done|]. split; [|done].
  rewrite I. apply NoDup_fmap_2; [|apply NoDup_seq]. intros i j. lia.
Qed.

(** Three threads for ten files, one after the other. *)
Lemma parallel_for_is_serial_witness :
  let trace := [0; 1; 2; 3; 4; 5; 6; 7; 8; 9] in
  trace ≡ₚ SequentialFor 0 10 /\ NoDup trace /\
  concat (ParallelFor 0 10 3) = SequentialFor 0 10 /\
  Forall (fun t => t <> []) (ParallelFor 0 10 3) /\ zlen (ParallelFor 0 10 3) <= 3.
Proof.
  apply (parallel_for_is_serial 0 10 3); [lia | lia|].
  change (ParallelFor 0 10 3) with [[0; 1; 2; 3]; [4; 5; 6; 7]; [8; 9]].
  do 4 apply (il_step []). do 4 apply (il_step [[]]). do 2 apply (il_step [[]; []]).
  apply il_done. by repeat constructor.
Defined.

(** Batches keep everything and their promises.  The batches that the announcer
    makes of the transactions of a file are the transactions themselves, cut into
    consecutive groups: none is lost, repeated or moved.  With a batch size of 1 or
    more no batch is larger, and when operations are to be separated no batch holds
    two different ones. *)
Theorem announcer_batches (batch_size : Z) (distinct_ops : bool) (l : list (Z * bytes)) :
  zlen l < 2 ^ 31 ->
  exists gs, file_batches batch_size distinct_ops l = bodies <$> gs /\ concat gs = l /\
    Forall (fun g => (1 <= batch_size -> zlen g <= batch_size) /\
                     (distinct_ops = true -> exists oper, Forall (fun tx => tx.1 = oper) g)) gs.
Proof. apply batches_grouped. Qed.

Lemma announcer_batches_witness :
  exists gs, file_batches 2 true [(0, [1]); (2, [2]); (2, [3]); (2, [4])] = bodies <$> gs /\
    concat gs = [(0, [1]); (2, [2]); (2, [3]); (2, [4])].
Proof.
  destruct (announcer_batches 2 true [(0, [1]); (2, [2]); (2, [3]); (2, [4])]) as (gs & E & C & _);
    [vm_compute; reflexivity | exists gs; split; [exact E | exact C]].
Defined.

(** No batch size is the smallest batch size.  Without the option the size is 0,
    which the program calls no restriction; then every transaction is announced
    alone, and an empty batch is announced before the first. *)
Theorem default_batch_size (l : list (Z * bytes)) :
  l <> [] -> file_batches 0 false l = [] :: l.*2.
Proof. apply default_batches. Qed.

Lemma default_batch_size_witness : file_batches 0 false [(2, [1]); (2, [2])] = [[]; [1]; [2]].
Proof. apply (default_batch_size [(2, [1]); (2, [2])]). done. Defined.

(** A Tier-1 announcer turns a file of blocks into one batch: for every block,
    in order, the Tier-1 transaction of its summary and its first validation. *)
Theorem block_file_announced `{Crypto} (keys : KeyRing) (batch_size : Z) (distinct_ops : bool) (now : Z)
    (b : FinalBlock) (bs : list FinalBlock) (txs : list Tier1Transaction) (fuel : nat) :
  announced keys (b :: bs) txs -> 1514764800 <= fb_block_time b <= now ->
  zlen (concat (fb_getCanonical <$> b :: bs)) < 2 ^ 63 -> (length (b :: bs) <= fuel)%nat ->
  forall is_tx, IsTxData (concat (fb_getCanonical <$> b :: bs)) = Ok is_tx ->
  announce_file keys T1 batch_size distinct_ops now fuel (concat (fb_getCanonical <$> b :: bs)) =
    Ok [concat (t1_canonical <$> txs)].
Proof.
  intros A Ht Hl Hf is_tx It. inversion A as [|? tx ? txs' (W & _ & _) _]; subst.
  pose proof (fb_canonical_min b W). pose proof (zlen_nonneg (concat (fb_getCanonical <$> bs))).
  assert (101 <= zlen (concat (fb_getCanonical <$> b :: bs))) as Hm
    by (rewrite fmap_cons; cbn [concat]; rewrite (zlen_app (fb_getCanonical b)); lia).
  unfold announce_file. rewrite (proj2 (Z.leb_gt _ _)), It by lia.
  assert (IsBlockData now (concat (fb_getCanonical <$> b :: bs)) = Ok true) as -> by (by apply block_file_recognised).
  cbn [mbind res_bind].
  pose proof (announce_blocks keys batch_size distinct_ops is_tx (b :: bs) _ A [] batch_start fuel Hl Hf) as E.
  cbv zeta in E. rewrite app_nil_l in E. change (zlen []) with 0 in E. by rewrite E.
Qed.

Definition pay_announcement : Tier1Transaction :=
  match CreateTier1Transaction pay_block toy_keys with Ok tx => tx | _ => t1_default end.

Lemma block_file_announced_witness :
  announce_file toy_keys T1 0 false noon 2 (fb_getCanonical pay_block ++ fb_getCanonical pay_block ++ []) =
    Ok [t1_canonical pay_announcement ++ t1_canonical pay_announcement ++ []].
Proof.
  apply (block_file_announced toy_keys 0 false noon pay_block [pay_block] [pay_announcement; pay_announcement] 2)
    with (is_tx := false).
  - assert (fb_wf pay_block /\ Forall raw_ok (fb_raw_transactions pay_block) /\
      CreateTier1Transaction pay_block toy_keys = Ok pay_announcement) as P
      by (split; [apply pay_block_wf | split; [constructor; [apply pay_raw_ok | constructor] | vm_compute; reflexivity]]).
    constructor; [exact P|]. constructor; [exact P | constructor].
  - done.
  - vm_compute. reflexivity.
  - cbn. lia.
  - vm_compute. reflexivity.
Defined.

(** What circuit writes no announcer can read.  The file starts with the INN's
    transaction; [Tier2Transaction::Create] drops the last byte of its signature, and
    the soundness check that the announcer asks for reads past the end of the rest. *)
Theorem generated_file_undefined `{CryptoLaws} (keys : KeyRing) (clock : nat -> Z) (o : Options)
    (inn : Address) (x : Z) (fuel fuel' : nat) (out : bytes) (batch_size : Z) (distinct_ops : bool) (now : Z) :
  servable keys o inn x -> generate_count o <= Z.of_nat fuel ->
  circuit keys clock o fuel = Ok out -> zlen out < 2 ^ 63 ->
  announce_file keys T2 batch_size distinct_ops now (S fuel') out = UB.
Proof.
  intros Sv Hf E Hl. destruct (servable_run keys clock o inn x fuel Sv Hf) as (cs & E' & F & L & J).
  rewrite E in E'. injection E' as ->.
  destruct Sv as (R & Ex & Hx & Hc & Ha & Hm). pose proof R as (_ & _ & (k & Ek & _) & _).
  destruct cs as [|c cs]; [change (zlen []) with 0 in L; lia|].
  inversion F as [|? ? (Rc & Hz & _) _]; subst.
  destruct (Z.to_nat (generate_count o)) eqn:En; [lia|]. rewrite fmap_cons in J. cbn [take] in J.
  injection J as J1 J2 _. cbn [job_of] in J1, J2.
  rewrite fmap_cons in Hl |- *. cbn [concat] in Hl |- *.
  apply (announce_undefined keys T2 batch_size distinct_ops now fuel' c _ inn k); try done.
  rewrite J1, J2. apply (fund_sound keys o inn R); try done.
  unfold count_addrs, CountWallets in *. lia.
Qed.

Definition five_file : bytes :=
  match circuit toy_keys (fun _ => noon) five 5 with Ok out => out | _ => [] end.

Lemma generated_file_undefined_witness : announce_file toy_keys T2 0 false noon 1 five_file = UB.
Proof.
  apply (generated_file_undefined toy_keys (fun _ => noon) five (node 5) 2 5 0 five_file);
    [apply five_servable | done | vm_compute; reflexivity | vm_compute; reflexivity].
Defined.

(** One bad proposal ends the protobuf announcer.  A data proposal without data
    makes the oracle throw [std::out_of_range], which is no [std::runtime_error]: it
    passes the handler that would have answered, and leaves the loop. *)
Theorem empty_proposal_ends_announcer `{Crypto} `{ProtoParser} (what : exn -> bytes) (context : DevcashContext)
    (keys : KeyRing) (tx_string : bytes) (size : Z) :
  ParseEnvelope tx_string = Proto.mkEnvelope [] [Proto.mkProposal (text "io.devv.data") size []] ->
  pb_announce what context keys tx_string = Err OutOfRange.
Proof.
  intros P. unfold pb_announce, Pbuf.DeserializeEnvelopeProtobufString. by rewrite P.
Qed.

#[local] Instance toy_parser : ProtoParser := {|
  ParseEnvelope s := Proto.mkEnvelope [] [Proto.mkProposal (text "io.devv.data") 0 s];
  ParseTransaction _ := Proto.mkTransaction 0 [] [] [];
  ParseRepeaterRequest _ := Proto.mkRequest 0 0 []
|}.

Lemma empty_proposal_ends_announcer_witness :
  pb_announce (fun _ => []) (ctx 0) toy_keys [] = Err OutOfRange.
Proof. apply (empty_proposal_ends_announcer (fun _ => []) (ctx 0) toy_keys [] 0). reflexivity. Defined.
