(* ===== verification/PropsPrograms.v ===== *)
(** * Theorems on the programs and their command lines

    Over any library of options that keeps the laws; the witnesses run on a
    small one. *)

From Stdlib Require Import ZArith Lia String.
From stdpp Require Import base list numbers sorting.
From S2P Require Import Prelude OrdMap Converters Keys Buffers Transfer ChainState Summary.
From S2P Require Import Validation KeyRing Context DevvUri Transactions Blocks Message Blockchain Pool.
From S2P Require Import Oracles Pbuf Files Generators Announcer Handlers Node Network.
From S2P Require Import CommandLine Programs Samples PropsRepeater PropsGenerators.

#[local] Open Scope Z_scope.

(** ** A library of options for the witnesses

    A command line is a list of names and values, a configuration file has none;
    maps are functions. *)
Definition toy_value (k : kind) (s : bytes) : res value :=
  match k with
  | KString => Ok (VString s)
  | KUint => n ← stoul s; Ok (VUint n)
  | KUint64 => n ← stoul s; Ok (VUint64 n)
  | KBool => Ok (VBool (bool_decide (s = text "1")))
  | KStrings => Ok (VStrings [s])
  | KPath => Ok (VPath s)
  | KFlag => Ok VFlag
  end.

Fixpoint toy_parse (ds : list option_desc) (argv : list bytes) : res (bytes -> option value) :=
  match argv with
  | n :: s :: argv' =>
      match kind_in ds n with
      | None => Err LogicError
      | Some k =>
          v ← toy_value k s;
          p ← toy_parse ds argv';
          Ok (fun n' => if bool_decide (n' = n)
                        then Some (match v with VStrings l => VStrings (l ++ strings_of (p n)) | _ => v end)
                        else p n')
      end
  | _ => Ok (fun _ => None)
  end.

#[global] Instance toy_options : ProgramOptions := {|
  parsed_options := bytes -> option value;
  parse_command_line ds _ argv := toy_parse ds argv;
  parse_config_file ds _ _ := Ok (fun _ => None);
  variables_map := bytes -> option value;
  vm_empty := fun _ => None;
  store ds p vm := Ok (fun n =>
    match vm n with
    | None => p n
    | Some v => if composing_in ds n
                then match v with VStrings l => Some (VStrings (l ++ strings_of (p n))) | _ => Some v end
                else Some v
    end);
  notify _ := Ok tt;
  vm_at vm n := vm n;
  given p n := p n
|}.

Lemma toy_value_kind k s v : toy_value k s = Ok v -> kind_of v = k.
Proof.
  destruct k; cbn; try (by intros [= <-]).
  - destruct (stoul s); by intros [= <-].
  - destruct (stoul s); by intros [= <-].
Qed.

Lemma toy_parse_typed ds argv : forall p n v, toy_parse ds argv = Ok p -> p n = Some v ->
  kind_in ds n = Some (kind_of v).
Proof.
  cut (forall m argv, (length argv <= m)%nat -> forall p n v, toy_parse ds argv = Ok p -> p n = Some v ->
    kind_in ds n = Some (kind_of v)); [intros C; by apply (C (length argv))|].
  clear argv. induction m as [|m IH]; intros [|n0 [|s argv]] Hm p n v;
    try (by intros [= <-]); cbn in Hm; try lia. cbn [toy_parse].
  destruct (kind_in ds n0) as [k|] eqn:K; [|done]. intros E.
  apply res_bind_inv_ok in E as (v0 & E0 & E). apply res_bind_inv_ok in E as (q & Eq & [= <-]).
  case_bool_decide as D; [|by apply (IH argv); [lia|]].
  subst n0. intros [= <-]. rewrite K. apply toy_value_kind in E0. by destruct v0; subst k.
Qed.

#[global] Instance toy_options_laws : ProgramOptionsLaws.
Proof.
  split; cbn.
  - done.
  - intros ds p vm vm' n v [= <-] V C. cbn. by rewrite V, C.
  - intros ds p vm vm' n l [= <-] V C. cbn. by rewrite V, C.
  - intros ds p vm vm' n [= <-] V. cbn. by rewrite V.
  - intros ds b argv p n v. apply toy_parse_typed.
  - intros ds b c p n v [= <-]. done.
Qed.

(** ** Options *)
Section parse.
Context `{FileSystem} `{ProgramOptionsLaws}.

Lemma or_null_some {A} vm (fill : variables_map -> res A) o :
  or_null (Ok (Some vm)) fill = Ok (Some o) <-> fill vm = Ok o.
Proof.
  unfold or_null. cbn. destruct (fill vm) as [a|e| |]; cbn; [| |done|done].
  - split; by intros [= ->].
  - destruct (is_std_exception e); done.
Qed.

Lemma or_null_inv {A} r (fill : variables_map -> res A) o :
  or_null r fill = Ok (Some o) -> exists vm, r = Ok (Some vm) /\ fill vm = Ok o.
Proof.
  destruct r as [[vm|]|e| |]; cbn; try done.
  - intros E. exists vm. split; [done|]. by apply or_null_some.
  - unfold or_null. cbn. by destruct (is_std_exception e).
Qed.

Lemma read_line_ok ds argv vm : read_line ds argv = Ok (Some vm) -> composing_strings ds ->
  exists p, parse_command_line ds false argv = Ok p /\ typed ds vm /\ forall n, vm_at vm n = given p n.
Proof.
  intros E Cs. unfold read_line in E. apply res_bind_inv_ok in E as (p & Ep & E).
  apply res_bind_inv_ok in E as (vm' & Es & E). apply res_bind_inv_ok in E as ([] & _ & E).
  destruct (count vm' "help"); [done|]. injection E as <-. exists p. split; [done|].
  assert (forall n, vm_at vm' n = given p n) as A by (intros n; apply (store_new _ _ _ _ _ Es), empty_at).
  split; [|done]. intros n v. rewrite A. by apply (line_typed _ _ _ _ _ _ Ep).
Qed.

Lemma composing_check ds :
  forallb (fun d => negb (d_composing d) || bool_decide (d_kind d = KStrings)) ds = true ->
  composing_strings ds.
Proof.
  rewrite forallb_forall. intros C. apply List.Forall_forall. intros d Hd E.
  specialize (C d Hd). rewrite E in C. by apply bool_decide_eq_true in C.
Qed.

Lemma devcash_composing : composing_strings devcash_desc.
Proof. by apply composing_check. Qed.

Lemma first_given_snoc p ps n : first_given (p :: ps ++ [p]) n = first_given (p :: ps) n.
Proof.
  cbn. destruct (given p n) eqn:E; [done|]. induction ps as [|q ps IH]; cbn; [by rewrite E|].
  by destruct (given q n).
Qed.

Lemma devcash_single n : n <> text "host-list" -> composing_in devcash_desc n = false.
Proof.
  intros N. unfold composing_in, devcash_desc. cbn [find_desc d_names].
  repeat (case_bool_decide as D; [first [done | exfalso; apply N; by rewrite <- D] | clear D]). done.
Qed.

(** The hosts are those of the map. *)
Lemma fill_hosts vm o : fill_devcash vm = Ok o -> typed devcash_desc vm ->
  dv_host_vector o = RemoveDuplicates (strings_of (vm_at vm (text "host-list"))).
Proof.
  intros E T. unfold fill_devcash in E.
  do 9 (apply res_bind_inv_ok in E as (? & _ & E)). apply res_bind_inv_ok in E as (hosts & Eh & E).
  do 8 (apply res_bind_inv_ok in E as (? & _ & E)). injection E as <-. cbn [dv_host_vector]. f_equal.
  unfold field, count, as_type in Eh. destruct (vm_at vm (text "host-list")) as [v|] eqn:V.
  - pose proof (T _ _ V) as K. destruct v; try discriminate K. by injection Eh as <-.
  - by injection Eh as <-.
Qed.

Lemma elem_of_all_strings ps n h :
  h ∈ all_strings ps n <-> exists q, q ∈ ps /\ h ∈ strings_of (given q n).
Proof.
  unfold all_strings. rewrite list_elem_of_In, in_concat. setoid_rewrite <- list_elem_of_In. split.
  - intros (l & Hl & Hh). apply list_elem_of_fmap in Hl as (q & -> & Hq). by exists q.
  - intros (q & Hq & Hh). eexists. split; [|exact Hh]. apply list_elem_of_fmap. by exists q.
Qed.
End parse.

(** Options come from the command line, then from the files it names.  When
    the parser of the node returns options, every option was read from the command
    line or else from the first configuration file that has it; only the hosts
    accumulate, over all of them, and although the command line is stored
    twice they come out sorted and without repetition. *)
Theorem options_sources `{FileSystem} `{ProgramOptionsLaws} (s : fs_state) (argv : list bytes)
    (o : devcash_options) :
  ParseDevcashOptions s argv = Ok (Some o) ->
  exists p ps vm,
    parse_command_line devcash_desc false argv = Ok p /\
    Forall2 (config_read s devcash_desc false) (strings_of (given p (text "config"))) ps /\
    fill_devcash vm = Ok o /\
    (forall n, n <> text "host-list" -> vm_at vm n = first_given (p :: ps) n) /\
    StronglySorted (fun a b => lex_ltb a b = true) (dv_host_vector o) /\
    (forall h, h ∈ dv_host_vector o <->
       exists q, q ∈ p :: ps /\ h ∈ strings_of (given q (text "host-list"))).
Proof.
  intros E. apply or_null_inv in E as (vm & E & F).
  destruct (read_options_ok _ _ _ _ _ devcash_composing eq_refl E) as (p & p' & ps & Ep & Ep' & C & T & V & A).
  rewrite Ep in Ep'. injection Ep' as <-. exists p, ps, vm. split_and!; try done.
  - intros n N. rewrite V; [apply first_given_snoc|]. by apply devcash_single.
  - rewrite (fill_hosts _ _ F T). apply RemoveDuplicates_spec.
  - intros h. rewrite (fill_hosts _ _ F T), (proj2 (RemoveDuplicates_spec _)), A, elem_of_all_strings by done.
    split; intros (q & Hq & Hh); exists q; (split; [|done]); revert Hq;
      rewrite !elem_of_cons, ?elem_of_app, ?list_elem_of_singleton; tauto.
Qed.

Definition two_hosts : list bytes :=
  [text "mode"; text "T2"; text "host-list"; text "tcp://b:1"; text "host-list"; text "tcp://a:1";
   text "trace-output"; text "t"; text "bind-endpoint"; text "tcp://*:7"].

Definition no_files : toy_files := mkToyFiles [] [].

Definition two_hosts_options : devcash_options :=
  mk_devcash_options (text "tcp://*:7") [text "tcp://a:1"; text "tcp://b:1"] T2 0 0 10 10 10000 0 514
    [] (text "t") [] [] [] [] [] off.

Lemma options_sources_witness :
  ParseDevcashOptions no_files two_hosts = Ok (Some two_hosts_options) /\
  exists p ps vm,
    parse_command_line devcash_desc false two_hosts = Ok p /\
    Forall2 (config_read no_files devcash_desc false) (strings_of (given p (text "config"))) ps /\
    fill_devcash vm = Ok two_hosts_options /\
    (forall n, n <> text "host-list" -> vm_at vm n = first_given (p :: ps) n) /\
    StronglySorted (fun a b => lex_ltb a b = true) (dv_host_vector two_hosts_options) /\
    (forall h, h ∈ dv_host_vector two_hosts_options <->
       exists q, q ∈ p :: ps /\ h ∈ strings_of (given q (text "host-list"))).
Proof.
  assert (ParseDevcashOptions no_files two_hosts = Ok (Some two_hosts_options)) as E by (vm_compute; done).
  split; [exact E|]. apply (options_sources (H := toy_fs) (H0 := toy_options) (H1 := toy_options_laws) no_files two_hosts). exact E.
Defined.

(** *** Types *)
Section types.
Context `{FileSystem} `{ProgramOptionsLaws}.

(** A parser with configuration files, and one without. *)
Lemma files_parser_typed {A} s ds allow (fill : variables_map -> res A) argv vm :
  composing_strings ds -> kind_in ds (text "config") = Some KStrings ->
  (forall vm, typed ds vm -> exists o, fill vm = Ok o) ->
  read_options s ds allow argv = Ok (Some vm) ->
  exists o, or_null (read_options s ds allow argv) fill = Ok (Some o).
Proof.
  intros Cs K F E. destruct (read_options_ok _ _ _ _ _ Cs K E) as (? & ? & ? & _ & _ & _ & T & _).
  destruct (F vm T) as [o Ho]. exists o. rewrite E. by apply or_null_some.
Qed.

Lemma line_parser_typed {A} ds (fill : variables_map -> res A) argv vm :
  composing_strings ds -> (forall vm, typed ds vm -> exists o, fill vm = Ok o) ->
  read_line ds argv = Ok (Some vm) ->
  exists o, or_null (read_line ds argv) fill = Ok (Some o).
Proof.
  intros Cs F E. destruct (read_line_ok _ _ _ E Cs) as (? & _ & T & _).
  destruct (F vm T) as [o Ho]. exists o. rewrite E. by apply or_null_some.
Qed.
End types.

Tactic Notation "parser_typed" reference(fill) :=
  intros E;
  (eapply files_parser_typed || eapply line_parser_typed);
  [by apply composing_check | .. | exact E]; try reflexivity;
  let T := fresh in intros ? T; unfold fill; fill_fields T.

(** The types of the parsers agree with their descriptions.  In nine
    programs no lookup of an option can throw: whenever the library has read the
    command line and the files, and help is not asked for, the parser returns
    options.  (The scanner is the exception, below.) *)
Theorem options_well_typed `{FileSystem} `{ProgramOptionsLaws} (s : fs_state) (argv : list bytes)
    (vm : variables_map) :
  (read_options s devcash_desc false argv = Ok (Some vm) ->
     exists o, ParseDevcashOptions s argv = Ok (Some o)) /\
  (read_options s announcer_desc false argv = Ok (Some vm) ->
     exists o, ParseAnnouncerOptions s argv = Ok (Some o)) /\
  (read_options s pb_announcer_desc true argv = Ok (Some vm) ->
     exists o, ParsePbAnnouncerOptions s argv = Ok (Some o)) /\
  (read_options s repeater_desc false argv = Ok (Some vm) ->
     exists o, ParseRepeaterOptions s argv = Ok (Some o)) /\
  (read_options s db_repeater_desc false argv = Ok (Some vm) ->
     exists o, ParseDbRepeaterOptions s argv = Ok (Some o)) /\
  (read_line verifier_desc argv = Ok (Some vm) -> exists o, ParseVerifierOptions argv = Ok (Some o)) /\
  (read_line circuit_desc argv = Ok (Some vm) -> exists o, ParseCircuitOptions argv = Ok (Some o)) /\
  (read_line laminar_desc argv = Ok (Some vm) -> exists o, ParseLaminarOptions argv = Ok (Some o)) /\
  (read_line turbulent_desc argv = Ok (Some vm) -> exists o, ParseTurbulentOptions argv = Ok (Some o)).
Proof.
  split_and!.
  - parser_typed fill_devcash.
  - parser_typed fill_announcer.
  - parser_typed fill_pb_announcer.
  - parser_typed fill_repeater.
  - parser_typed fill_db_repeater.
  - parser_typed fill_verifier.
  - parser_typed fill_circuit.
  - parser_typed fill_laminar.
  - parser_typed fill_turbulent.
Qed.

Lemma options_well_typed_witness :
  exists o, ParseCircuitOptions (H0 := toy_options) [text "generate-tx"; text "5"] = Ok (Some o).
Proof.
  edestruct (options_well_typed (H := toy_fs) (H0 := toy_options) (H1 := toy_options_laws) no_files
               [text "generate-tx"; text "5"]) as (_ & _ & _ & _ & _ & _ & C & _).
  apply C. vm_compute. reflexivity.
Defined.

(** The scanner describes "expect-version" without a value and looks an
    [unsigned int] up, so that giving the option ends the program. *)
Theorem expected_version_refused `{ProgramOptionsLaws} (argv : list bytes) (p : parsed_options) (v : value)
    (o : scanner_options) :
  parse_command_line scanner_desc false argv = Ok p -> given p (text "expect-version") = Some v ->
  ParseScannerOptions argv <> Ok (Some o).
Proof.
  intros Ep G E. apply or_null_inv in E as (vm & E & F).
  destruct (read_line_ok _ _ _ E) as (p' & Ep' & T & V); [by apply composing_check|].
  rewrite Ep in Ep'. injection Ep' as <-. unfold fill_scanner in F.
  do 5 (apply res_bind_inv_ok in F as (? & _ & F)). apply res_bind_inv_ok in F as (version & F & _).
  unfold field, count, as_type in F. rewrite V, G in F.
  pose proof (line_typed _ _ _ _ _ _ Ep G) as K. by destruct v.
Qed.

Lemma expected_version_refused_witness o :
  ParseScannerOptions (H0 := toy_options) [text "expect-version"; []] <> Ok (Some o).
Proof.
  eapply (expected_version_refused (H0 := toy_options_laws) [text "expect-version"; []] _ VFlag);
    [reflexivity | reflexivity].
Defined.

(** The help of every program offers the mode "scan"; the parsers know "SCAN", and
    "scan" leaves the default. *)
Theorem documented_scan_is_T1 `{ProgramOptionsLaws} (argv : list bytes) (p : parsed_options)
    (o : scanner_options) :
  parse_command_line scanner_desc false argv = Ok p ->
  ParseScannerOptions argv = Ok (Some o) ->
  (given p (text "mode") = Some (VString (text "scan")) -> sca_mode o = T1) /\
  (given p (text "mode") = Some (VString (text "SCAN")) -> sca_mode o = scan).
Proof.
  intros Ep E. apply or_null_inv in E as (vm & E & F).
  destruct (read_line_ok _ _ _ E) as (p' & Ep' & T & V); [by apply composing_check|].
  rewrite Ep in Ep'. injection Ep' as <-. unfold fill_scanner in F.
  apply res_bind_inv_ok in F as (m & Em & F).
  do 5 (apply res_bind_inv_ok in F as (? & _ & F)). injection F as <-. cbn [sca_mode].
  unfold field_mode, count, as_type in Em. rewrite V in Em.
  split; intros G; rewrite G in Em; by injection Em as <-.
Qed.

(** ** The node *)

(** The handler around the port of the bind endpoint is for another exception than
    the one that is thrown: a node whose endpoint has no colon, or is not given at
    all, ends with the status 0, which says that it succeeded. *)
Theorem endpoint_without_port_ends_node `{Crypto} `{FileSystem} `{ProgramOptions} (s : fs_state)
    (remote : Z) (argv : list bytes) (o : devcash_options) (keys : KeyRing) :
  ParseDevcashOptions s argv = Ok (Some o) ->
  make_keys s (dv_inn_keys o) (dv_node_keys o) (dv_key_pass o) = Ok keys ->
  ~ (58 ∈ dv_bind_endpoint o) ->
  devcash_main s remote argv = Ok (Exited 0).
Proof.
  intros E K N. unfold devcash_main. rewrite E. cbn [mbind res_bind]. rewrite K. cbn [mbind res_bind].
  assert (rfind 58 (dv_bind_endpoint o) = None) as R.
  { induction (dv_bind_endpoint o) as [|c l IH]; [done|]. apply not_elem_of_cons in N as [N1 N2].
    cbn. rewrite IH by done. by rewrite (proj2 (Z.eqb_neq _ _)). }
  unfold loopback_uri. by rewrite R.
Qed.

(** ** The generators *)

Lemma generator_main_ok `{Crypto} `{FileSystem} s inn_keys node_keys wallet_keys pass write_file generate
    d f keys0 b keys out :
  make_keys s inn_keys node_keys pass = Ok keys0 ->
  LoadWallets (key_file s wallet_keys) pass keys0 = (Ok b, keys) -> generate keys = Ok out ->
  generator_main s inn_keys node_keys wallet_keys pass write_file generate d f =
    Ok (write_out s write_file out d f).
Proof. intros K L G. unfold generator_main. rewrite K. cbn [mbind res_bind]. rewrite L. cbn. by rewrite G. Qed.

Definition circuit_opts (o : circuit_options) : Options :=
  mkOptions (ci_node_index o) (ci_generate_count o) (ci_tx_amount o) (ci_clear_state o).

(** C31: the program circuit, from its command line to its file.  With options whose
    key files load, and a key ring that can serve them, the program writes exactly
    the [generate_count] sound transactions it promises, in the order of
    the loops, and nothing else in the file system changes.  It ends with the status
    1 then, and with 0 when the file cannot be opened: [main] returns a [bool]. *)
Theorem circuit_program `{CryptoLaws} `{FileSystem} `{ProgramOptions} (s : fs_state) (clock : nat -> Z)
    (fuel : nat) (argv : list bytes) (o : circuit_options) (keys0 keys : KeyRing) (b : bool)
    (inn : Address) (x : Z) :
  ParseCircuitOptions argv = Ok (Some o) ->
  make_keys s (ci_inn_keys o) (ci_node_keys o) (ci_key_pass o) = Ok keys0 ->
  LoadWallets (key_file s (ci_wallet_keys o)) (ci_key_pass o) keys0 = (Ok b, keys) ->
  servable keys (circuit_opts o) inn x -> ci_generate_count o <= Z.of_nat fuel ->
  ci_write_file o <> [] ->
  exists cs,
    circuit_main s clock fuel argv =
      match fs_write s (ci_write_file o) (concat (t2c_bytes <$> cs)) with
      | Some s' => Ok (1, s')
      | None => Ok (0, s)
      end /\
    Forall (content_sound keys) cs /\ zlen cs = ci_generate_count o /\
    job_of <$> cs = take (Z.to_nat (ci_generate_count o))
      (fund_job keys (circuit_opts o) inn x ::
       repeated fuel (circuit_jobs keys (circuit_opts o) x ++ back_jobs keys (circuit_opts o) inn x)).
Proof.
  intros E K L Sv Hf W. destruct (servable_run keys clock _ inn x fuel Sv Hf) as (cs & C & F & Z & J).
  exists cs. split; [|done]. unfold circuit_main. rewrite E. cbn [mbind res_bind].
  rewrite (generator_main_ok _ _ _ _ _ _ _ _ _ _ _ _ _ K L C). unfold write_out.
  destruct (ci_write_file o) as [|c l]; [done|]. by destruct (fs_write _ _ _).
Qed.

(** A directory with a key of the INN and two wallets. *)
Definition key_text (addr : bytes) (size : Z) : bytes := addr ++ replicate (Z.to_nat size - 1) 75 ++ [newline].

Definition key_files : toy_files :=
  mkToyFiles []
    [(text "inn", key_text (concat (replicate 49 (text "05"))) kFILE_NODEKEY_SIZE);
     (text "wallets", key_text (concat (replicate 33 (text "01"))) kFILE_KEY_SIZE ++
                      key_text (concat (replicate 33 (text "02"))) kFILE_KEY_SIZE)].

Definition five_line : list bytes :=
  [text "inn-keys"; text "inn"; text "wallet-keys"; text "wallets"; text "key-pass"; text "pw";
   text "generate-tx"; text "5"; text "tx-amount"; text "10"; text "output"; text "out"].

Definition five_options : circuit_options :=
  mk_circuit_options T1 0 0 (text "out") (text "inn") [] (text "wallets") (text "pw") 5 10 off true.

(** The key rings the files give. *)
Definition ok_or {A} (d : A) (r : res A) : A := match r with Ok a => a | _ => d end.
Definition is_ok {A} (r : res A) : bool := match r with Ok _ => true | _ => false end.

Lemma is_ok_or {A} (d : A) r : is_ok r = true -> r = Ok (ok_or d r).
Proof. by destruct r. Qed.

Definition inn_ring : KeyRing := ok_or KeyRing_empty (make_keys key_files (text "inn") [] (text "pw")).
Definition five_loaded : res bool * KeyRing :=
  LoadWallets (key_file key_files (text "wallets")) (text "pw") inn_ring.
Definition five_ring : KeyRing := snd five_loaded.

Lemma five_ring_servable : servable five_ring (circuit_opts five_options) (node 5) 2.
Proof.
  split.
  - split; [vm_compute; reflexivity|]. split; [by apply addr_wfb_spec|].
    split; [eexists; split; vm_compute; reflexivity|]. split; [|vm_compute; reflexivity].
    repeat (apply List.Forall_cons; [split; [apply wallet_wf | eexists; split; vm_compute; reflexivity]|]).
    apply List.Forall_nil.
  - split; [vm_compute; reflexivity|]. split; [done|]. split; [split; done|]. split; done.
Qed.

Lemma circuit_program_witness :
  exists cs,
    circuit_main (H0 := toy_fs) (H1 := toy_options) key_files (fun _ => noon) 5 five_line =
      Ok (1, mkToyFiles [] ((text "out", concat (t2c_bytes <$> cs)) :: tf_files key_files)) /\
    zlen cs = 5.
Proof.
  destruct (circuit_program (H1 := toy_fs) (H2 := toy_options) key_files (fun _ => noon) 5 five_line
              five_options inn_ring five_ring true (node 5) 2) as (cs & E & _ & L & _).
  - vm_compute. reflexivity.
  - apply is_ok_or. vm_compute. reflexivity.
  - rewrite (surjective_pairing (LoadWallets _ _ _)). apply (f_equal (fun r => (r, five_ring))).
    vm_compute. reflexivity.
  - apply five_ring_servable.
  - done.
  - done.
  - exists cs. split; [exact E | exact L].
Defined.

(** ** devv-sign *)

(** A content that the key [k] may sign, and its message without a signature. *)
Definition signable_content `{CryptoLaws} (keys : KeyRing) (k : EC_KEY) (c : Z * list tview * bytes) : Prop :=
  let '(oper, vs, nonce) := c in
  exists a, sound_content oper vs a /\ senders (proto_xfer <$> vs) = 1%nat /\
    getKey keys a = Ok k /\ is_node_key k = negb (oper =? eOpType.Exchange) /\
    0 <= oper < eOpType.NumOperations /\ kMIN_NONCE_SIZE <= zlen nonce /\
    zlen (t2_body oper vs nonce) < 2 ^ 62.

Definition unsigned_message (c : Z * list tview * bytes) : Proto.Transaction :=
  let '(oper, vs, nonce) := c in proto_tx oper vs nonce [].

Definition content_body (c : Z * list tview * bytes) : bytes :=
  let '(oper, vs, nonce) := c in t2_body oper vs nonce.

Lemma sign_message `{CryptoLaws} keys k c : signable_content keys k c ->
  exists sig, (tx ← Pbuf.CreateTransaction (unsigned_message c) keys true; tx_getSignature tx) = Ok sig /\
    VerifyByteSig k (DevcashHash (content_body c)) sig = Ok true.
Proof.
  destruct c as [[oper vs] nonce]. intros (a & C & N & Hk & Hi & Ho & Hn & Hl).
  pose proof C as (W & F & Hh & _).
  assert (u8 oper = oper) as Eo by (apply Z.mod_small; unfold u8_mod, eOpType.NumOperations in *; lia).
  unfold Pbuf.CreateTransaction, unsigned_message, proto_tx.
  cbn [Proto.xfers Proto.operation Proto.nonce Proto.sig].
  rewrite (gather_views keys a k vs W F Hk) by (rewrite N; cbn [seen]; lia).
  cbn [mbind res_bind fst snd]. rewrite Hh, Eo. cbn [app].
  destruct (t2_sign_ok oper vs nonce k keys a C Hk Hi Hn Hl) as (sig & E & Ws & V & Sz).
  exists sig. split; [|done]. rewrite E. cbn -[t2_getSignature].
  apply built_getSignature; try done. rewrite (zlen_app (t2_body oper vs nonce) (s_canonical sig)).
  assert (zlen (s_canonical sig) < 2 ^ 62); [|lia].
  change (zlen (s_canonical sig)) with (SignatureOps.size sig). rewrite Sz. by destruct (oper =? _).
Qed.

Lemma sign_messages `{CryptoLaws} keys k cs : Forall (signable_content keys k) cs ->
  exists sigs,
    map_res (fun transaction =>
               tx ← Pbuf.CreateTransaction transaction keys true;
               sig ← tx_getSignature tx;
               Ok (SignatureOps.getJSON sig)) (unsigned_message <$> cs) = Ok (SignatureOps.getJSON <$> sigs) /\
    Forall2 (fun c sig => VerifyByteSig k (DevcashHash (content_body c)) sig = Ok true) cs sigs.
Proof.
  induction 1 as [|c cs Hc _ (sigs & E & F)]; [by exists []; split|].
  destruct (sign_message keys k c Hc) as (sig & Es & V). exists (sig :: sigs).
  split; [|by constructor]. apply res_bind_inv_ok in Es as (tx & Et & Es).
  cbn [fmap list_fmap map_res]. rewrite Et. cbn [mbind res_bind]. rewrite Es. cbn [mbind res_bind].
  change (list_fmap _ _ unsigned_message cs) with (unsigned_message <$> cs). by rewrite E.
Qed.

Lemma addNodeKeyPair_tested `{Crypto} address key pass kr keys :
  addNodeKeyPair address key pass kr = (Ok tt, keys) ->
  exists k, LoadEcKey address key pass = Ok k /\ TestSign k = Ok tt.
Proof.
  intros E. apply bind_inv_ok in E as ([k b] & kr' & E & E').
  unfold lift in E. injection E as E _. unfold check_key_pair in E.
  apply res_bind_inv_ok in E as (k' & Ek & E). apply res_bind_inv_ok in E as (sig & Es & E).
  apply res_bind_inv_ok in E as (ok & Eo & E). injection E as -> ->. exists k. split; [done|].
  unfold TestSign. rewrite Es. cbn [mbind res_bind]. rewrite Eo. cbn [mbind res_bind].
  destruct b; [done|]. discriminate E'.
Qed.

(** Devv-sign prints valid signatures.  When the key file holds a pair that
    passes its test and the envelope holds messages of sound contents whose sender
    has that key, the program prints one signature for each of them, in order, each
    verifying against the bytes the ledger hashes, and ends with the status 0. *)
Theorem devvsign_signs `{CryptoLaws} `{FileSystem} `{ProgramOptions} `{ProtoParser} (s : fs_state)
    (argv : list bytes) (o : devvsign_options) (env : bytes) (tup : key_tuple) (keys : KeyRing) (k : EC_KEY)
    (cs : list (Z * list tview * bytes)) :
  ParseDevvsignOptions argv = Ok (Some o) ->
  fs_content s (si_envelope_file o) = Some env -> ReadKeyFile s (si_key_file o) = Ok tup ->
  addNodeKeyPair (kt_address tup) (kt_key tup) (si_key_pass o) KeyRing_empty = (Ok tt, keys) ->
  Proto.txs (ParseEnvelope env) = unsigned_message <$> cs ->
  Forall (signable_content keys k) cs ->
  exists sigs,
    devvsign_main s argv = Ok (0, SignatureOps.getJSON <$> sigs) /\
    Forall2 (fun c sig => VerifyByteSig k (DevcashHash (content_body c)) sig = Ok true) cs sigs.
Proof.
  intros E Ee Et Ek Ev F. destruct (sign_messages keys k cs F) as (sigs & Es & Vs).
  destruct (addNodeKeyPair_tested _ _ _ _ _ Ek) as (k' & El & Ts).
  exists sigs. split; [|done]. unfold devvsign_main. rewrite E. cbn [res_catch].
  unfold ReadBinaryFile. rewrite Ee. cbn [mbind res_bind]. rewrite Et. cbn [mbind res_bind].
  rewrite El. cbn [mbind res_bind]. rewrite Ts. cbn [mbind res_bind]. rewrite Ek. cbn [mbind res_bind].
  rewrite Ev, Es. done.
Qed.

(** Alice signs a payment to Bob. *)
#[local] Instance pay_parser : ProtoParser := {|
  ParseEnvelope _ := Proto.mkEnvelope [unsigned_message (eOpType.Exchange, pay, nonce8)] [];
  ParseTransaction _ := unsigned_message (eOpType.Exchange, pay, nonce8);
  ParseRepeaterRequest _ := Proto.mkRequest 0 0 [] |}.

Definition alice_key : bytes :=
  concat (replicate 33 (text "01")) ++ key_header ++ replicate (Z.to_nat kFILE_KEY_SIZE) 75.

Definition sign_files : toy_files := mkToyFiles [] [(text "env", [1]); (text "key", alice_key)].

Definition sign_line : list bytes :=
  [text "envelope-file"; text "env"; text "private-key"; text "key"; text "key-pass"; text "pw"].

Definition sign_tuple : key_tuple := ok_or (mkTuple [] []) (ReadKeyFile sign_files (text "key")).
Definition sign_ring : KeyRing :=
  snd (addNodeKeyPair (kt_address sign_tuple) (kt_key sign_tuple) (text "pw") KeyRing_empty).

Lemma devvsign_signs_witness :
  exists sigs,
    devvsign_main (H0 := toy_fs) (H1 := toy_options) sign_files sign_line =
      Ok (0, SignatureOps.getJSON <$> sigs) /\
    Forall2 (fun c sig => VerifyByteSig (key_of alice) (DevcashHash (content_body c)) sig = Ok true)
      [(eOpType.Exchange, pay, nonce8)] sigs.
Proof.
  apply (devvsign_signs (H1 := toy_fs) (H2 := toy_options) sign_files sign_line
           (mk_devvsign_options (text "env") (text "key") (text "pw") false) [1] sign_tuple sign_ring).
  - vm_compute. reflexivity.
  - vm_compute. reflexivity.
  - vm_compute. reflexivity.
  - rewrite (surjective_pairing (addNodeKeyPair _ _ _ _)). apply (f_equal (fun r => (r, sign_ring))).
    vm_compute. reflexivity.
  - reflexivity.
  - apply List.Forall_cons; [|apply List.Forall_nil]. exists alice. split.
    + split; [apply pay_ok|]. split; [repeat constructor; cbn; lia|]. vm_compute. done.
    + split_and!; vm_compute; done.
Defined.
