(* ===== verification/PropsMains.v ===== *)
(** * Theorems on the announcers and the repeater as programs *)

From Stdlib Require Import ZArith Lia String.
From stdpp Require Import base list numbers.
From S2P Require Import Prelude OrdMap Converters Keys Buffers Transfer ChainState Summary.
From S2P Require Import Validation KeyRing Context DevvUri Transactions Blocks Message Blockchain.
From S2P Require Import Oracles Pbuf Files Repeater Announcer CommandLine Programs Mains.
From S2P Require Import Samples PropsAnnouncer PropsRepeater PropsPrograms.

#[local] Open Scope Z_scope.

(** ** Interleavings *)
Lemma interleaving_order {A} (ts : list (list A)) tr : interleaving ts tr ->
  Forall (fun t => t `sublist_of` tr) ts.
Proof.
  induction 1 as [ts F|ts1 x t ts2 tr _ IH].
  - eapply List.Forall_impl; [|exact F]. by intros t ->.
  - apply list.Forall_app in IH as [I1 I2]. apply list.Forall_cons in I2 as [I2 I3].
    apply list.Forall_app. split; [|apply list.Forall_cons; split].
    + eapply List.Forall_impl; [|exact I1]. intros u Hu. by apply sublist_cons.
    + by apply sublist_skip.
    + eapply List.Forall_impl; [|exact I3]. intros u Hu. by apply sublist_cons.
Qed.

(** One thread after the other. *)
Lemma interleaving_serial {A} (ts : list (list A)) : interleaving ts (concat ts).
Proof.
  assert (forall done todo, Forall (fun t : list A => t = []) done -> interleaving (done ++ todo) (concat todo)) as K.
  { intros done todo. revert done. induction todo as [|t todo IH]; intros done F.
    - rewrite app_nil_r. by apply il_done.
    - cbn [concat]. induction t as [|x t IHt].
      + cbn [app]. replace (done ++ [] :: todo) with ((done ++ [[]]) ++ todo) by (by rewrite <- app_assoc).
        apply IH. apply list.Forall_app. split; [done | by constructor].
      + cbn [app]. by apply il_step. }
  by apply (K []).
Qed.

Lemma map_res_ok {A B} (f : A -> res B) (g : A -> B) l :
  Forall (fun x => f x = Ok (g x)) l -> map_res f l = Ok (g <$> l).
Proof. induction 1 as [|x l E _ IH]; [done|]. cbn [map_res]. rewrite E. cbn [mbind res_bind]. by rewrite IH. Qed.

Lemma sublist_concat {A} (x : list A) l : x ∈ l -> x `sublist_of` concat l.
Proof.
  induction l as [|y l IH]; intros E; [by apply elem_of_nil in E|]. cbn [concat].
  apply elem_of_cons in E as [->|E]; [by apply sublist_inserts_r | by apply sublist_inserts_l, IH].
Qed.

Lemma concat_calls {A B} (f : A -> list B) (ts : list (list A)) :
  concat ((fun t => concat (f <$> t)) <$> ts) = concat (f <$> concat ts).
Proof.
  induction ts as [|t ts IH]; [done|]. rewrite fmap_cons. cbn [concat]. by rewrite IH, fmap_app, concat_app.
Qed.

(** ** The announcer *)
Section announcer.
Context `{Crypto} `{FileSystem} `{ProgramOptions}.
Context (s : fs_state) (now : Z) (fuel : nat) (o : announcer_options) (keys : KeyRing) (bs : list (list bytes)).
Hypothesis Hf : Forall2 (fun f b => exists raw, fs_content s f = Some raw /\
  announce_file keys (an_mode o) (an_batch_size o) (an_distinct_ops o) now fuel raw = Ok b) (an_files s o) bs.
Hypothesis Hn : zlen bs < 2 ^ 31.

Definition pushed_by (i : Z) : list bytes := default [] (bs !! Z.to_nat i).

Lemma file_call_ok i : 0 <= i < zlen bs -> file_call s now fuel o keys i = Ok (pushed_by i).
Proof using Hf.
  intros Hi. pose proof (Forall2_length Hf) as L. unfold zlen in Hi.
  destruct (lookup_lt_is_Some_2 (an_files s o) (Z.to_nat i)) as [f Ef]; [lia|].
  destruct (Forall2_lookup_l _ _ _ _ _ Hf Ef) as (b & Eb & raw & Er & Ea).
  unfold file_call, vec_at, zlen. rewrite (proj2 (Z.leb_le _ _)), (proj2 (Z.ltb_lt _ _)) by lia.
  cbn [andb]. rewrite Ef. cbn [mbind res_bind]. unfold ReadBinaryFile. rewrite Er. cbn [mbind res_bind].
  unfold pushed_by. by rewrite Ea, Eb.
Qed.

Lemma thread_pushes_ok t : Forall (fun i => 0 <= i < zlen bs) t ->
  thread_pushes s now fuel o keys t = Ok (concat (pushed_by <$> t)).
Proof using Hf.
  intros F. unfold thread_pushes. rewrite (map_res_ok _ pushed_by); [done|].
  eapply List.Forall_impl; [|exact F]. intros i. apply file_call_ok.
Qed.

Lemma threads_cover hardware : 0 <= hardware ->
  concat (an_threads s hardware o) = calls 0 (zlen bs) /\
  Forall (Forall (fun i => 0 <= i < zlen bs)) (an_threads s hardware o).
Proof using Hf Hn.
  intros Hh. pose proof (zlen_nonneg bs).
  assert (i32 (zlen (an_files s o)) = zlen bs) as E.
  { unfold zlen at 1. rewrite (Forall2_length Hf). fold (zlen bs). apply i32_id. unfold in_i32; lia. }
  assert (1 <= nb_threads hardware 3) as Hb.
  { unfold nb_threads. pose proof (Z.div_pos hardware 3). case_match; bool_to_prop; lia. }
  destruct (parallel_covers 0 (zlen bs) (nb_threads hardware 3) Hb) as (C & _); [lia|].
  unfold an_threads. rewrite E. split; [done|].
  assert (Forall (fun i => 0 <= i < zlen bs) (concat (ParallelFor 0 (zlen bs) (nb_threads hardware 3)))) as F.
  { rewrite C. unfold SequentialFor, calls. apply Forall_fmap, list.Forall_forall. intros i Hi.
    apply elem_of_seq in Hi. cbn. lia. }
  revert F. generalize (ParallelFor 0 (zlen bs) (nb_threads hardware 3)). intros ts.
  induction ts as [|t ts IH]; intros F; [done|]. cbn [concat] in F. apply list.Forall_app in F as [F1 F2].
  constructor; [done | by apply IH].
Qed.

Lemma pushed_all : pushed_by <$> calls 0 (zlen bs) = bs.
Proof.
  unfold calls. rewrite Z.sub_0_r, zlen_to_nat, <- list_fmap_compose. apply list_eq. intros i.
  rewrite list_lookup_fmap. destruct (decide (i < length bs)%nat) as [L|L].
  - rewrite lookup_seq_lt by done. cbn [fmap option_fmap option_map]. unfold compose, pushed_by.
    destruct (lookup_lt_is_Some_2 bs i L) as [b E]. replace (Z.to_nat _) with i by lia. by rewrite E.
  - rewrite lookup_seq_ge by lia. cbn. symmetry. apply lookup_ge_None. lia.
Qed.

Lemma all_pushes hardware : 0 <= hardware ->
  map_res (thread_pushes s now fuel o keys) (an_threads s hardware o) =
    Ok ((fun t => concat (pushed_by <$> t)) <$> an_threads s hardware o) /\
  concat ((fun t => concat (pushed_by <$> t)) <$> an_threads s hardware o) = concat bs.
Proof using Hf Hn.
  intros Hh. destruct (threads_cover hardware Hh) as [C F]. split.
  - apply map_res_ok. eapply List.Forall_impl; [|exact F]. intros t. apply thread_pushes_ok.
  - rewrite <- pushed_all, <- C. apply concat_calls.
Qed.
End announcer.

(** Whatever the batches of the files: they are all queued, in any order that
    keeps those of one file in theirs. *)
Lemma announcer_pushes `{Crypto} `{FileSystem} `{ProgramOptions} (s : fs_state) (now : Z) (fuel : nat)
    (hardware : Z) (argv : list bytes) (o : announcer_options) (keys : KeyRing) (bs : list (list bytes)) :
  announcer_setup s argv = Ok (Some (o, keys)) -> is_directory s (an_working_dir o) = true ->
  Forall2 (fun f b => exists raw, fs_content s f = Some raw /\
    announce_file keys (an_mode o) (an_batch_size o) (an_distinct_ops o) now fuel raw = Ok b) (an_files s o) bs ->
  zlen bs < 2 ^ 31 -> 0 <= hardware ->
  (exists r, announcer_main s now fuel hardware argv r) /\
  forall r, announcer_main s now fuel hardware argv r ->
    exists transactions, r = Exit 1 (announcements (an_context o) 0 transactions) /\
      transactions ≡ₚ concat bs /\ Forall (fun b => b `sublist_of` transactions) bs.
Proof.
  intros Es Hd Hf Hn Hh. destruct (all_pushes s now fuel o keys bs Hf Hn hardware Hh) as [P Q].
  split; [eexists; eapply am_announces; [done | done | exact P | apply interleaving_serial]|].
  intros r R. inversion R as [E | e E | o' keys' E D | o' keys' t e E D T Pt | o' keys' ps tr E D Pt I]; subst;
    rewrite Es in E; simplify_eq; try congruence.
  - destruct (threads_cover s now fuel o' keys' bs Hf Hn hardware Hh) as [_ F].
    rewrite list.Forall_forall in F. by rewrite (thread_pushes_ok s now fuel o' keys' bs Hf t (F t T)) in Pt.
  - rewrite P in Pt. injection Pt as <-. exists tr. split; [done|].
    split; [by rewrite (interleaving_perm _ _ I), Q|].
    destruct (threads_cover s now fuel o' keys' bs Hf Hn hardware Hh) as [C _].
    apply list.Forall_forall. intros b Hb. rewrite <- (pushed_all bs), <- C in Hb.
    apply list_elem_of_fmap in Hb as (i & -> & Hi). apply list_elem_of_In, in_concat in Hi as (t & Ht & Hi).
    apply list_elem_of_In in Ht, Hi. apply interleaving_order in I. rewrite list.Forall_forall in I.
    etrans; [apply sublist_concat, list_elem_of_fmap_2, Hi | apply I].
    by apply (list_elem_of_fmap_2 (fun t => concat (pushed_by bs <$> t))).
Qed.

(** What a queued batch is sent as. *)
Lemma announcements_sent c : forall transactions n,
  m_data <$> announcements c n transactions = transactions /\
  Forall (fun m => m_type m = eMessageType.TRANSACTION_ANNOUNCEMENT /\ m_uri m = ContextOps.get_uri c)
    (announcements c n transactions).
Proof.
  induction transactions as [|t l IH]; intros n; [done|]. cbn [announcements]. rewrite fmap_cons.
  destruct (IH (u32 (n + 1))) as [-> F]. split; [done | by constructor].
Qed.

(** A file of well-formed blocks, the first one from after 2017 and before now,
    each of which makes a Tier-1 transaction; the program's other test of the
    file's format returns. *)
Definition block_file `{Crypto} (keys : KeyRing) (now : Z) (fuel : nat) (raw : bytes)
    (txs : list Tier1Transaction) : Prop :=
  exists b bs is_tx, raw = concat (fb_getCanonical <$> b :: bs) /\ announced keys (b :: bs) txs /\
    1514764800 <= fb_block_time b <= now /\ zlen raw < 2 ^ 63 /\ (length (b :: bs) <= fuel)%nat /\
    IsTxData raw = Ok is_tx.

(** C22: a Tier-1 announcer sends the blocks of its files.  When the options and
    keys can be read, the directory exists and every file of it holds well-formed
    blocks: however many threads read the files and however they take turns, the
    program ends with the status 1 and has queued exactly one message for every
    file, in some order; its data are, for every block of the file in order, the
    Tier-1 transaction of the block's summary and first validation; and the
    program does end. *)
Theorem announcer_program `{Crypto} `{FileSystem} `{ProgramOptions} (s : fs_state) (now : Z) (fuel : nat)
    (hardware : Z) (argv : list bytes) (o : announcer_options) (keys : KeyRing)
    (files : list (list Tier1Transaction)) :
  announcer_setup s argv = Ok (Some (o, keys)) -> an_mode o = T1 ->
  is_directory s (an_working_dir o) = true ->
  Forall2 (fun f txs => exists raw, fs_content s f = Some raw /\ block_file keys now fuel raw txs)
    (an_files s o) files ->
  zlen files < 2 ^ 31 -> 0 <= hardware ->
  (exists r, announcer_main s now fuel hardware argv r) /\
  forall r, announcer_main s now fuel hardware argv r ->
    exists order sent, r = Exit 1 sent /\ order ≡ₚ files /\
      m_data <$> sent = (fun txs => concat (t1_canonical <$> txs)) <$> order /\
      Forall (fun m => m_type m = eMessageType.TRANSACTION_ANNOUNCEMENT /\
                       m_uri m = ContextOps.get_uri (an_context o)) sent.
Proof.
  intros Es Em Hd Hf Hn Hh. set (data := fun txs : list Tier1Transaction => concat (t1_canonical <$> txs)).
  destruct (announcer_pushes s now fuel hardware argv o keys ((fun txs => [data txs]) <$> files)) as [Ex U];
    [done | done | | unfold zlen in *; by rewrite length_fmap | done |].
  { apply list.Forall2_fmap_r. eapply list.Forall2_impl; [exact Hf|].
    intros f txs (raw & Ec & b & bs & is_tx & -> & A & Ht & Hl & Hfu & It). eexists. split; [done|].
    rewrite Em. by apply (block_file_announced keys _ _ now b bs txs fuel A Ht Hl Hfu is_tx). }
  split; [done|]. intros r R. destruct (U r R) as (tr & -> & P & _).
  assert (concat ((fun txs => [data txs]) <$> files) = data <$> files) as Ec
    by (clear; induction files as [|x l IH]; [done|]; rewrite !fmap_cons; cbn [concat]; by rewrite IH).
  rewrite Ec in P. apply Permutation_map_inv in P as (order & -> & Po).
  destruct (announcements_sent (an_context o) (List.map data order) 0) as [D F].
  exists order, (announcements (an_context o) 0 (List.map data order)).
  split; [done|]. split; [by symmetry|]. split; done.
Qed.

(** Two files of one block each. *)
Definition block_files : toy_files :=
  mkToyFiles [wd] [(in_dir wd (text "a"), fb_getCanonical pay_block); (in_dir wd (text "b"), fb_getCanonical pay_block)].

Definition announce_line : list bytes := [text "mode"; text "T1"; text "working-dir"; wd].

Definition announce_options : announcer_options := mk_announcer_options [] T1 0 0 wd [] [] [] [] off 0 0 0 false.

Definition pay_block_tx : Tier1Transaction :=
  match CreateTier1Transaction pay_block KeyRing_empty with Ok tx => tx | _ => t1_default end.

Lemma pay_block_file : block_file KeyRing_empty noon 1 (fb_getCanonical pay_block) [pay_block_tx].
Proof.
  exists pay_block, [], false. split; [by rewrite fmap_cons; cbn [concat fmap list_fmap]; rewrite app_nil_r|].
  split; [constructor; [|constructor]; split; [apply pay_block_wf |
    split; [constructor; [apply pay_raw_ok | constructor] | vm_compute; reflexivity]]|].
  split; [done|]. split; [vm_compute; reflexivity|]. split; [cbn; lia | vm_compute; reflexivity].
Qed.

Lemma announcer_program_witness :
  exists sent,
    announcer_main (H0 := toy_fs) (H1 := toy_options) block_files noon 1 12 announce_line (Exit 1 sent) /\
    m_data <$> sent = [t1_canonical pay_block_tx ++ []; t1_canonical pay_block_tx ++ []].
Proof.
  destruct (announcer_program (H0 := toy_fs) (H1 := toy_options) block_files noon 1 12 announce_line
              announce_options KeyRing_empty [[pay_block_tx]; [pay_block_tx]]) as [[r R] U].
  - unfold announcer_setup.
    assert (ParseAnnouncerOptions (H := toy_fs) (H0 := toy_options) block_files announce_line =
              Ok (Some announce_options)) as -> by (vm_compute; reflexivity).
    reflexivity.
  - reflexivity.
  - vm_compute. reflexivity.
  - assert (an_files (H0 := toy_fs) block_files announce_options = [in_dir wd (text "a"); in_dir wd (text "b")]) as ->
      by (vm_compute; reflexivity).
    constructor; [exists (fb_getCanonical pay_block); split; [vm_compute; reflexivity | exact pay_block_file]|].
    constructor; [exists (fb_getCanonical pay_block); split; [vm_compute; reflexivity | exact pay_block_file]|].
    constructor.
  - done.
  - done.
  - destruct (U r R) as (order & sent & -> & P & D & _). exists sent. split; [exact R|].
    assert (order = [[pay_block_tx]; [pay_block_tx]]) as ->
      by (symmetry; apply (replicate_Permutation 2); symmetry; exact P).
    exact D.
Defined.

(** ** The repeater *)
Section repeater.
Context `{Crypto} `{FileSystemLaws} `{ProgramOptions} `{ProtoParser} `{ProtoWriter}.

Definition shard_request (c : DevcashContext) (ts op height : Z) : RepeaterRequest :=
  mkRepeaterRequest ts op (MakeDevvUri (block_uri (ContextOps.get_shard_uri c) height)).

(** What a request for blocks is to be answered with, when [bs] are stored. *)
Inductive answers (c : DevcashContext) (bs : list bytes) : RepeaterRequest -> RepeaterResponse -> Prop :=
| answer_block ts (i : nat) b : bs !! i = Some b ->
    answers c bs (shard_request c ts 1 (Z.of_nat i)) (mkRepeaterResponse ts 1 0 [] b)
| answer_since ts (i : nat) : (i < length bs)%nat ->
    answers c bs (shard_request c ts 2 (Z.of_nat i)) (mkRepeaterResponse ts 2 0 [] (concat (drop i bs)))
| answer_chain ts : bs <> [] ->
    answers c bs (shard_request c ts 3 UINT32_MAX) (mkRepeaterResponse ts 3 0 [] (concat bs)).

(** A conversation: each request is for blocks that were heard before it, and
    the answers are about those. *)
Inductive conversation (c : DevcashContext) : list bytes -> list outside -> list Proto.RepeaterResponse -> Prop :=
| conv_end bs : conversation c bs [] []
| conv_heard bs m es rs : m_data m <> [] -> conversation c (bs ++ final_data [m]) es rs ->
    conversation c bs (Heard m :: es) rs
| conv_asked bs msg r es rs : answers c bs (Pbuf.DeserializeRepeaterRequest msg) r -> conversation c bs es rs ->
    conversation c bs (Asked msg :: es) (Pbuf.SerializeRepeaterResponse r :: rs).

Lemma answers_served c dir l bs msg r : in_u32 (current_shard_ c) -> holds c dir l bs -> zlen bs < 2 ^ 32 - 1 ->
  answers c bs (Pbuf.DeserializeRepeaterRequest msg) r ->
  serve (l_files l) dir msg = Ok (Pbuf.SerializeRepeaterResponse r).
Proof.
  intros Hs [Hst _] Hl A. destruct (shard_plain c Hs) as [Hp Hn]. unfold serve.
  destruct A as [ts i b Hi | ts i Hi | ts Ne]; unfold shard_request.
  - by rewrite (get_block (l_files l) dir (ContextOps.get_shard_uri c) bs Hst Hl Hp Hn ts i b Hi).
  - assert (bs <> []) as Ne by (intros ->; cbn in Hi; lia).
    by rewrite (get_blocks_since (l_files l) dir (ContextOps.get_shard_uri c) bs Hst Ne Hl Hp Hn ts i Hi).
  - by rewrite (get_chain (l_files l) dir (ContextOps.get_shard_uri c) bs Hst Ne Hl Hp Hn ts).
Qed.

Lemma repeater_loop_ok o c dir es : c = re_context o -> dir = re_working_dir o ->
  in_u32 (current_shard_ c) -> writable c dir -> forall bs rs l out,
  conversation c bs es rs -> holds c dir l bs -> zlen bs + zlen es < 2 ^ 32 - 1 ->
  exists ended l' more, repeater_loop o es (l, out) = (Ok ended, (l', out ++ more)) /\ more `prefix_of` rs /\
    (if ended : bool then fs_exists (l_files l') (re_stop_file o) = true else more = rs).
Proof.
  intros Ec Ed Hs Hw. induction es as [|e es IH]; intros bs rs l out C Hh Hl.
  - inversion C; subst. exists false, l, []. by rewrite app_nil_r.
  - rewrite zlen_cons in Hl. pose proof (zlen_nonneg es). inversion C as [|? m ? ? Nm C' |? msg r ? rs' A C']; subst.
    + destruct (on_message_holds (re_context o) (re_working_dir o) m l bs Hw Hh Nm ltac:(lia)) as (l1 & E1 & Hl1).
      cbn [repeater_loop]. rewrite (bind_ok _ _ _ tt (l1, out)) by (unfold hear; cbn [fst snd]; by rewrite E1).
      apply (IH _ _ _ _ C' Hl1). rewrite zlen_app. unfold final_data. rewrite filter_cons, filter_nil.
      case_decide; cbn; unfold zlen in *; cbn; lia.
    + cbn [repeater_loop]. rewrite bind_get. cbn [fst snd]. rewrite bind_lift.
      rewrite (answers_served (re_context o) (re_working_dir o) l bs msg r Hs Hh ltac:(lia) A).
      rewrite bind_put. destruct (fs_exists (l_files l) (re_stop_file o)) eqn:X.
      * exists true, l, [Pbuf.SerializeRepeaterResponse r]. split; [done|]. split; [|done].
        by apply prefix_cons, prefix_nil.
      * destruct (IH bs rs' l (out ++ [Pbuf.SerializeRepeaterResponse r]) C' Hh ltac:(lia)) as (en & l' & more & E & P & Q).
        exists en, l', (Pbuf.SerializeRepeaterResponse r :: more). rewrite E, <- app_assoc.
        split; [done|]. split; [by apply prefix_cons|]. destruct en; [done | by rewrite Q].
Qed.

(** The repeater as a program.  Started with options and keys that can be read, an
    empty directory for its shard and no stop file, it answers a conversation in
    which no request arrives while a block is being written and every request is
    for blocks heard before it, with operation 1, 2 or 3: one answer for each
    request, in the order of the requests, each with exactly the blocks heard up
    to then.  It goes on waiting; only a stop
    file makes it end early, with the status 1 and the answers so far. *)
Theorem repeater_program (s : fs_state) (argv : list bytes) (o : repeater_options) (keys : KeyRing)
    (es : list outside) (rs : list Proto.RepeaterResponse) :
  ParseRepeaterOptions s argv = Ok (Some o) ->
  make_keys s (re_inn_keys o) (re_node_keys o) (re_key_pass o) = Ok keys ->
  is_directory s (re_working_dir o) = true -> fs_exists s (re_stop_file o) = false ->
  in_u32 (re_shard_index o) -> writable (re_context o) (re_working_dir o) ->
  holds (re_context o) (re_working_dir o) (mkListener s 0) [] ->
  conversation (re_context o) [] es rs -> zlen es < 2 ^ 32 - 1 ->
  exists status l replies, repeater_main argv es (mkListener s 0, []) = (Ok status, (l, replies)) /\
    replies `prefix_of` rs /\
    (status = None /\ replies = rs \/
     status = Some 1 /\ fs_exists (l_files l) (re_stop_file o) = true).
Proof.
  intros Eo Ek Hd Hx Hs Hw Hh C Hl.
  destruct (repeater_loop_ok o (re_context o) (re_working_dir o) es eq_refl eq_refl Hs Hw [] rs (mkListener s 0) [] C Hh)
    as (ended & l & more & E & P & Q); [rewrite zlen_nil; lia|].
  exists (if ended then Some 1 else None), l, more. split; [|split; [done | by destruct ended; [right | left]]].
  unfold repeater_main, try_catch. rewrite bind_get. cbn [fst l_files]. rewrite bind_lift, Eo.
  rewrite bind_lift, Ek, Hd, Hx. cbn [negb]. by rewrite (bind_ok _ _ _ _ _ E).
Qed.
End repeater.

(** A session of two blocks, with a request after each. *)
#[local] Instance asking_parser : ProtoParser := {|
  ParseEnvelope _ := Proto.mkEnvelope [] [];
  ParseTransaction _ := Proto.mkTransaction 0 [] [] [];
  ParseRepeaterRequest s := Proto.mkRequest 7 3 s
|}.
#[local] Instance silent_writer : ProtoWriter := {|
  WriteFinalBlock _ := []; WriteTransaction _ := []; WriteEnvelope _ := []; exn_what _ := [] |}.

Definition repeat_line : list bytes := [text "working-dir"; wd; text "stop-file"; text "halt"].
Definition repeat_options : repeater_options := mk_repeater_options [] [] T1 0 0 wd [] [] [] (text "halt") off.
Definition repeat_files : toy_files := mkToyFiles [wd; in_dir wd (text "shard-0")] [].

Definition chain_uri : bytes := MakeDevvUri (block_uri (text "shard-0") UINT32_MAX).
Definition two_blocks : list outside :=
  [Heard (mkMessage (text "shard-0") eMessageType.FINAL_BLOCK [1; 2] 0); Asked chain_uri;
   Heard (mkMessage (text "shard-0") eMessageType.FINAL_BLOCK [3] 1); Asked chain_uri].

Definition two_answers : list Proto.RepeaterResponse :=
  [Pbuf.SerializeRepeaterResponse (mkRepeaterResponse 7 3 0 [] [1; 2]);
   Pbuf.SerializeRepeaterResponse (mkRepeaterResponse 7 3 0 [] [1; 2; 3])].

Lemma two_blocks_conversation : conversation (re_context repeat_options) [] two_blocks two_answers.
Proof.
  pose proof (answer_chain (re_context repeat_options) [[1; 2]] 7 ltac:(done)) as A1.
  pose proof (answer_chain (re_context repeat_options) [[1; 2]; [3]] 7 ltac:(done)) as A2.
  apply conv_heard; [done|]. apply conv_asked; [vm_compute in A1 |- *; exact A1|].
  apply conv_heard; [done|]. apply conv_asked; [vm_compute in A2 |- *; exact A2|]. apply conv_end.
Qed.

Lemma repeat_files_hold : holds (re_context repeat_options) wd (mkListener (H0 := toy_fs) repeat_files 0) [].
Proof.
  split; [|done]. split; [done|]. split; [|done].
  intros m. split; [by intros X%elem_of_nil | intros (i & Hi & _)]. unfold zlen in Hi. cbn in Hi. lia.
Qed.

Lemma repeater_program_witness :
  exists status l replies,
    repeater_main (H0 := toy_fs) (H1 := toy_options) repeat_line two_blocks (mkListener repeat_files 0, []) =
      (Ok status, (l, replies)) /\ replies `prefix_of` two_answers.
Proof.
  destruct (repeater_program (H0 := toy_fs) (H1 := toy_fs_laws) (H2 := toy_options) repeat_files repeat_line
              repeat_options KeyRing_empty two_blocks two_answers) as (st & l & rs & E & P & _).
  - vm_compute. reflexivity.
  - reflexivity.
  - vm_compute. reflexivity.
  - vm_compute. reflexivity.
  - unfold in_u32. cbn. lia.
  - by intros s n v _; eexists.
  - apply repeat_files_hold.
  - apply two_blocks_conversation.
  - vm_compute. reflexivity.
  - exists st, l, rs. split; [exact E | exact P].
Defined.

(** ** The protobuf announcer *)

(** Every envelope gets one reply, in order, and the messages are those of the
    envelopes up to the last one answered. *)
Theorem pb_announcer_replies `{Crypto} `{FileSystem} `{ProtoParser} (what : exn -> bytes)
    (o : pb_announcer_options) (keys : KeyRing) (es : list Envelope) (p p' : Published) (ended : bool) :
  pb_loop what o keys es p = (Ok ended, p') ->
  exists done rest answered, es = done ++ rest /\ (ended = false -> rest = []) /\
    Forall2 (fun e (a : list DevcashMessage * bytes) =>
      pb_announce what (pa_context o) keys (default [] e.1) = Ok a) done answered /\
    p' = (p.1 ++ concat (answered.*1), p.2 ++ answered.*2).
Proof.
  revert p. induction es as [|[env s] es IH]; intros p E; cbn [pb_loop] in E.
  - injection E as <- <-. exists [], [], []. destruct p. cbn. by rewrite !app_nil_r.
  - rewrite bind_lift in E. destruct (pb_announce what (pa_context o) keys (default [] env)) as [[ms r]| | |] eqn:A;
      try done.
    rewrite bind_get, bind_put in E. cbn [fst snd] in E.
    destruct ((match ms with [] => false | _ => fs_exists s (pa_stop_file o) end) || bool_decide (env = None)).
    + injection E as <- <-. exists [(env, s)], es, [(ms, r)]. split; [done|]. split; [done|].
      split; [by repeat constructor|]. cbn. by rewrite app_nil_r.
    + destruct (IH _ E) as (dn & rest & ans & -> & R & F & ->). exists ((env, s) :: dn), rest, ((ms, r) :: ans).
      split; [done|]. split; [done|]. split; [by constructor|]. cbn. by rewrite <- !app_assoc.
Qed.

(** The stop file is never looked for while no envelope holds a transaction. *)
Theorem pb_stop_ignored `{Crypto} `{FileSystem} `{ProtoParser} (what : exn -> bytes)
    (o : pb_announcer_options) (keys : KeyRing) (es : list Envelope) (p : Published) :
  Forall (fun e => e.1 <> None /\ exists reply,
    pb_announce what (pa_context o) keys (default [] e.1) = Ok ([], reply)) es ->
  fst (pb_loop what o keys es p) = Ok false.
Proof.
  intros F. revert p. induction F as [|[env s] es [N [reply A]] _ IH]; intros p; [done|]. cbn [fst] in N, A.
  cbn [pb_loop]. rewrite bind_lift, A, bind_get, bind_put. cbn [fst snd orb].
  rewrite bool_decide_false by done. apply IH.
Qed.
