(* ===== verification/PropsDatabase.v ===== *)
(** * Theorems on the database repeater *)

From Stdlib Require Import ZArith Lia String.
From stdpp Require Import base list numbers.
From S2P Require Import Prelude OrdMap Converters Keys Buffers Transfer ChainState Summary.
From S2P Require Import Validation KeyRing Context DevvUri Transactions Blocks Message Blockchain.
From S2P Require Import Oracles Pbuf Files CommandLine Programs Mains DbRepeater DbMain.
From S2P Require Import Samples PropsRepeater PropsPrograms.

#[local] Open Scope Z_scope.

(** ** The database *)

(** A payment between two wallets of the table: the sender's balance goes up, and
    the receiver's becomes the sender's former one and the amount. *)
Theorem db_payment_misbooked `{DatabaseLaws} (c d : db_state) (w w' : bytes) (coin b r n : Z) :
  db_balance d w coin = Some b -> db_balance d w' coin = Some r -> w <> w' -> in_i64 (b + n) ->
  exists d',
    (rows ← update_sender w coin (- n); update_receiver rows w' coin n) (mkLink c (Some d)) =
      (Ok tt, mkLink c (Some d')) /\
    db_balance d' w coin = Some (b + n) /\ db_balance d' w' coin = Some (b + n).
Proof.
  intros B R N I. destruct (update_sender_known c d w coin b (- n) B) as (d1 & E1 & S1);
    [by rewrite Z.sub_opp_r|]. rewrite Z.sub_opp_r in S1.
  destruct (update_receiver_known c d1 w' coin r b n) as (d2 & E2 & S2); [|done|].
  { rewrite S1, bool_decide_false; [done | by intros [= ?]]. }
  exists d2. split_and!.
  - by rewrite (bind_ok _ _ _ _ _ E1).
  - rewrite S2, bool_decide_false by (by intros [= ?]). by rewrite S1, bool_decide_true.
  - by rewrite S2, bool_decide_true.
Qed.

(** The program survives no final block with a transaction: the text of the first
    signature is made of iterators into two different objects. *)
Theorem db_block_undefined `{Crypto} `{Database} (mode : eAppMode) (shard : bytes) (p : DevcashMessage)
    (l : Link) (h : Z) (b : FinalBlock) (t : Transaction) (ts : list Transaction) (xs : list Transfer)
    (sg : Signature) :
  m_type p = eMessageType.FINAL_BLOCK -> open l = None ->
  fst (fb_from_buffer_mode ChainStateOps.empty KeyRing_empty mode (mkIB (m_data p) 0)) = Ok b ->
  fb_CopyTransactions b = t :: ts -> tx_getTransfers t = Ok xs -> tx_getSignature t = Ok sg ->
  fst (db_callback mode shard p (Some l, h)) = UB.
Proof.
  intros T O E C X S. unfold db_callback. rewrite T, Z.eqb_refl, E, C. cbn [negb record_all].
  pose proof (record_transaction_undefined shard h t xs sg l O X S) as U.
  unfold mbind, M_bind. destruct (record_transaction shard h t l) as [[] l']; try discriminate U. done.
Qed.

(** C33: the database repeater never writes to a database.  Its connection string
    starts with [username=], which is not a parameter of libpq: with a host and a
    user on its command line the program ends with the status 0 before it listens.
    Without them it listens, and the first final block ends the process; until
    then it waits for the stop file.  On any command line and whatever happens,
    the database stays as it is. *)
Theorem db_repeater_books_nothing `{Crypto} `{FileSystem} `{ProgramOptions} `{ConnectorLaws}
    (argv : list bytes) (es : list db_event) (q : Station) :
  st_link q = None -> db_parameter (text "username") = false ->
  (forall r q', db_main argv es q = (r, q') -> st_db q' = st_db q /\ st_link q' = None) /\
  forall o keys, ParseDbRepeaterOptions (st_files q) argv = Ok (Some o) ->
    make_keys (st_files q) (dr_inn_keys o) (dr_node_keys o) (dr_key_pass o) = Ok keys ->
    (dr_db_host o <> [] -> dr_db_user o <> [] -> db_main argv es q = (Ok (Some 0), q)) /\
    (dr_db_host o = [] \/ dr_db_user o = [] -> fs_exists (st_files q) (dr_stop_file o) = false ->
     forall pre m post, es = pre ++ DbHeard m :: post -> Forall calm pre ->
       m_type m = eMessageType.FINAL_BLOCK -> db_main argv es q = (Err AssertionFailure, q)).
Proof.
  intros L P. split.
  - intros r q'. unfold db_main, try_catch. rewrite bind_get, bind_lift.
    destruct (ParseDbRepeaterOptions _ _) as [[o|]|e| |]; [|by intros [= <- <-]| |by intros [= <- <-]..];
      [|destruct (is_std_exception e); by intros [= <- <-]].
    rewrite bind_lift.
    destruct (make_keys _ _ _ _) as [keys|e| |]; [| |by intros [= <- <-]..];
      [|destruct (is_std_exception e); by intros [= <- <-]].
    apply main_listens; done.
  - intros o keys Eo Ek. unfold db_main, try_catch. rewrite bind_get, bind_lift, Eo, bind_lift, Ek. split.
    + intros Hh Hu. unfold mbind, M_bind. by rewrite (connect_refused o q Hh Hu P).
    + intros D S pre m post -> C T. unfold mbind, M_bind. rewrite (connect_skipped o q D).
      rewrite (loop_calm o pre _ q L S C). cbn [db_loop]. unfold mbind, M_bind.
      rewrite hear_unconnected by done. by rewrite T, Z.eqb_refl.
Qed.

(** Balances by wallet and coin. *)
Definition toy_exec (name : bytes) (args : list sql) (d : bytes -> Z -> option Z)
    : res (list (list sql)) * (bytes -> Z -> option Z) :=
  match args with
  | [SText w; SInt c] =>
      (Ok (match d w c with Some b => [[SInt b]] | None => [] end), d)
  | [SText w; SInt c; SText _; SInt b] | [SInt b; SText w; SInt c] =>
      (Ok [], if bool_decide (name = kTX_INSERT \/ name = kRX_INSERT) then d
              else fun w' c' => if bool_decide ((w', c') = (w, c)) then Some b else d w' c')
  | _ => (Ok [], d)
  end.

#[local] Instance toy_db : Database := {|
  db_state := bytes -> Z -> option Z; db_exec := toy_exec; db_balance d w c := d w c |}.

#[local] Instance toy_db_laws : DatabaseLaws.
Proof.
  split; cbn -[text].
  - done.
  - intros d w c acc b _. eexists. split; [reflexivity|]. done.
  - intros d w c old b _. eexists. split; [reflexivity|]. done.
  - intros name args d rows d' N. unfold toy_exec.
    destruct args as [|[w|n] [|[w2|c] [|[w3|n3] [|[w4|b] [|]]]]]; intros [= <- <-]; try done;
      by rewrite bool_decide_true.
Qed.

Lemma db_payment_misbooked_witness :
  exists d' : db_state,
    (rows ← update_sender (text "a") 1 (- 5); update_receiver rows (text "b") 1 5)
      (mkLink (fun _ _ => Some 100) (Some (fun _ _ => Some 100))) =
      (Ok tt, mkLink (fun _ _ => Some 100) (Some d')) /\
    db_balance d' (text "a") 1 = Some 105 /\ db_balance d' (text "b") 1 = Some 105.
Proof.
  apply (db_payment_misbooked (H0 := toy_db_laws) (fun _ _ => Some 100) (fun _ _ => Some 100)
           (text "a") (text "b") 1 100 100 5); done.
Defined.

(** A library that knows three parameters, and takes a string by its first
    one. *)
Definition toy_parameter (name : bytes) : bool :=
  bool_decide (name = text "user") || bool_decide (name = text "host") ||
  bool_decide (name = text "password").

Fixpoint first_name (s : bytes) : bytes :=
  match s with
  | [] => []
  | c :: s' => if c =? 61 then [] else c :: first_name s'
  end.

#[local] Instance toy_connector : Connector := {|
  db_open s _ := if toy_parameter (first_name s) then Ok true else Err RuntimeError;
  db_prepare _ _ := Ok tt; db_parameter := toy_parameter |}.

Lemma first_name_letters name rest : forallb is_letter name = true ->
  first_name (name ++ text "=" ++ rest) = name.
Proof.
  induction name as [|c name IH]; [done|]. cbn [forallb app first_name]. intros [L F]%andb_prop.
  rewrite (proj2 (Z.eqb_neq _ _)) by (unfold is_letter in L; bool_to_prop; lia). by rewrite IH.
Qed.

#[local] Instance toy_connector_laws : ConnectorLaws.
Proof.
  intros name rest d L P. unfold db_open, toy_connector. rewrite first_name_letters by done.
  unfold db_parameter, toy_connector in P. by rewrite P.
Qed.

Definition db_argv : list bytes := [text "update-host"; text "localhost"; text "update-user"; text "inn"].
Definition db_options (host user : bytes) : db_repeater_options :=
  mk_db_repeater_options [] T1 0 0 [] [] [] [] off user [] host [] 5432.
Definition db_station : Station := mkStation (mkToyFiles [] []) (fun _ _ => None) None 0.
Definition db_block : DevcashMessage := mkMessage [] eMessageType.FINAL_BLOCK [] 0.
Definition db_events : list db_event := [DbWoke; DbHeard db_block].

Lemma username_unknown : db_parameter (text "username") = false.
Proof. vm_compute. reflexivity. Qed.

Lemma db_keys_empty o : dr_inn_keys o = [] -> dr_node_keys o = [] ->
  make_keys (st_files db_station) (dr_inn_keys o) (dr_node_keys o) (dr_key_pass o) = Ok KeyRing_empty.
Proof. intros -> ->. reflexivity. Qed.

Lemma db_line_parses :
  ParseDbRepeaterOptions (st_files db_station) db_argv = Ok (Some (db_options (text "localhost") (text "inn"))).
Proof. vm_compute. reflexivity. Qed.

Lemma db_no_line_parses : ParseDbRepeaterOptions (st_files db_station) [] = Ok (Some (db_options [] [])).
Proof. vm_compute. reflexivity. Qed.

Lemma db_repeater_books_nothing_witness :
  db_main db_argv db_events db_station = (Ok (Some 0), db_station) /\
  db_main [] db_events db_station = (Err AssertionFailure, db_station).
Proof.
  destruct (db_repeater_books_nothing db_argv db_events db_station eq_refl username_unknown) as [_ W1].
  destruct (db_repeater_books_nothing [] db_events db_station eq_refl username_unknown) as [_ W2].
  destruct (W1 _ _ db_line_parses (db_keys_empty (db_options _ _) eq_refl eq_refl)) as [R1 _].
  destruct (W2 _ _ db_no_line_parses (db_keys_empty (db_options _ _) eq_refl eq_refl)) as [_ R2].
  split; [exact (R1 ltac:(done) ltac:(done))|].
  exact (R2 (or_introl eq_refl) eq_refl [DbWoke] db_block [] eq_refl
     (proj2 (Forall_singleton calm DbWoke) I) eq_refl).
Defined.
