(* ===== verification/PropsVerifier.v ===== *)
(** * The verifier as a program

    What a run of verifier.cpp that reports nothing has established about the
    files it read. *)

From Stdlib Require Import ZArith Lia String.
From stdpp Require Import base list numbers.
From S2P Require Import Prelude OrdMap Converters Keys Buffers Transfer ChainState Summary.
From S2P Require Import Validation KeyRing Context DevvUri Transactions Blocks Message Blockchain.
From S2P Require Import Oracles Pbuf Files Auditors AuditRuns CommandLine Programs Mains.
From S2P Require Import Samples PropsRepeater PropsPrograms.

#[local] Open Scope Z_scope.

Lemma verifier_program_inv `{Crypto} `{FileSystem} `{ProgramOptions} s now fuel argv same ws :
  verifier_program s now fuel argv = Ok (1, Some (same, ws)) ->
  exists o keys, ParseVerifierOptions argv = Ok (Some o) /\
    make_keys s (ve_inn_keys o) (ve_node_keys o) (ve_key_pass o) = Ok keys /\
    verifier_main keys s now (ve_mode o) fuel (ve_working_dir o) = Ok (Some (same, ws)).
Proof.
  unfold verifier_program, catch_all. destruct (ParseVerifierOptions argv) as [[o|]|[]| |]; try done.
  cbn [mbind res_bind]. destruct (make_keys _ _ _ _) as [keys|[]| |] eqn:K; try done. cbn [mbind res_bind].
  destruct (verifier_main _ _ _ _ _ _) as [[report|]|[]| |] eqn:V; try done.
  cbn. intros [= ->]. by exists o, keys.
Qed.

(** C19: what a clean report of the verifier means.  When the program ends with the
    status 1 and has warned about nothing: every file of the directory is blocks to
    its last byte or transactions to its last byte; every transaction, in a block
    or in a file, is sound; the summary of every block is the one its own
    transfers make; and when it says that the end states match, for every address
    and coin the transfers in the blocks add up to what the transfers in the
    transaction files add up to.  Reading a Tier-2 transaction drops the last byte
    of its signature ([generated_file_undefined]), so that the runs that get this
    far are over Tier-1 blocks. *)
Theorem clean_verifier_run `{Crypto} `{FileSystem} `{ProgramOptions} (s : fs_state) (now : Z) (fuel : nat)
    (argv : list bytes) (same : bool) :
  verifier_program s now fuel argv = Ok (1, Some (same, [])) ->
  exists o keys bs txs vs vs',
    ParseVerifierOptions argv = Ok (Some o) /\
    make_keys s (ve_inn_keys o) (ve_node_keys o) (ve_key_pass o) = Ok keys /\
    files_hold keys s now (ve_mode o) (in_dir (ve_working_dir o) <$> fs_entries s (ve_working_dir o)) bs txs /\
    Forall (fun t => tx_isSound t keys = Ok true) (concat (fb_CopyTransactions <$> bs) ++ (Tier2 <$> txs)) /\
    Forall summary_matches bs /\
    all_views (concat (fb_CopyTransactions <$> bs)) = Ok vs /\ all_views (Tier2 <$> txs) = Ok vs' /\
    (same = true -> forall a coin, views_delta vs a coin = views_delta vs' a coin).
Proof.
  intros (o & keys & Eo & Ek & V)%verifier_program_inv. exists o, keys. unfold verifier_main in V.
  destruct (is_directory s (ve_working_dir o)); [|done]. cbn [negb] in V.
  destruct (verify_files _ _ _ _ _ _ _) as [r a] eqn:E. apply res_bind_inv_ok in V as ([] & -> & V).
  injection V as C W. apply files_clean in E as (bs & txs & F & B & T & S); [|done].
  destruct B as (Sb & vs & Vb & Db). destruct T as (St & vs' & Vt & Dt). exists bs, txs, vs, vs'.
  split_and!; try done; [by apply list.Forall_app|]. intros ->. apply compare_states in C.
  intros x coin. specialize (Db x coin). specialize (Dt x coin). unfold balance in Db, Dt.
  rewrite C in Dt. cbn in Db, Dt. lia.
Qed.

(** A block with one Tier-1 transaction. *)
Definition sealed_block : FinalBlock :=
  let raw := tx_getCanonical (tc_tx true pay_content) in
  mkFB 0 (101 + zlen raw + SummaryOps.getByteSize pay_summary + 312) noon
       zero_hash (toy_hash [1]) (zlen raw) (SummaryOps.getByteSize pay_summary) 2
       [] [raw] pay_summary two_vals ChainStateOps.empty.

Definition audited_files : toy_files :=
  mkToyFiles [wd] [(in_dir wd (text "blocks"), fb_getCanonical sealed_block)].

Definition audit_line : list bytes := [text "working-dir"; wd].

Lemma audit_reports :
  verifier_program (H0 := toy_fs) (H1 := toy_options) audited_files noon 10 audit_line = Ok (1, Some (false, [])).
Proof. vm_compute. reflexivity. Qed.

Lemma clean_verifier_run_witness :
  exists o keys bs txs vs vs',
    ParseVerifierOptions (H0 := toy_options) audit_line = Ok (Some o) /\
    make_keys (H0 := toy_fs) audited_files (ve_inn_keys o) (ve_node_keys o) (ve_key_pass o) = Ok keys /\
    files_hold (H0 := toy_fs) keys audited_files noon (ve_mode o)
      (in_dir (ve_working_dir o) <$> fs_entries (audited_files : fs_state) (ve_working_dir o)) bs txs /\
    Forall (fun t => tx_isSound t keys = Ok true) (concat (fb_CopyTransactions <$> bs) ++ (Tier2 <$> txs)) /\
    Forall summary_matches bs /\
    all_views (concat (fb_CopyTransactions <$> bs)) = Ok vs /\ all_views (Tier2 <$> txs) = Ok vs' /\
    (false = true -> forall a coin, views_delta vs a coin = views_delta vs' a coin).
Proof.
  exact (clean_verifier_run (H0 := toy_fs) (H1 := toy_options) audited_files noon 10 audit_line false audit_reports).
Defined.
